(* ===== verification/_CoqProject ===== *)
-Q . S2P
Prelude.v
Float64.v
Names.v
Asset.v
Chain.v
Views.v
HddLock.v
Token.v
HddDeposit.v
Reserve.v
Channel.v
PoolTables.v
PoolSlots.v
PoolBalance.v
PoolMiner.v
PoolParams.v
PoolReward.v
HddPool.v
Fleet.v
FleetRefine.v
Raw.v
Merkle.v
Authority.v
ResourceLimits.v
Permissions.v
PermissionTree.v
Authorize.v
Sending.v
Msig.v
HeaderState.v
Dpos.v
ForkDb.v
ForkTree.v
ForkStore.v
ForkSwitch.v
Frame.v
SystemTables.v
Bios.v
SystemVoting.v
SystemStake.v
SystemPay.v
EosioSystem.v
SystemBooks.v
SystemRam.v
SystemFunds.v
SystemElect.v
SystemTally.v
SystemSchedule.v
SystemPayroll.v
