(* ===== verification/Prelude.v ===== *)
(** * The YTBP chain: its storage contracts and the core of its node

    YTBP is a fork of EOSIO that runs a market for storage.  The repository holds
    the contracts that make up that market and the node that executes them.  This
    library models the contracts:

    - eosio.token (contracts/eosio.token): the ledger of the core token.  A
      transfer may not touch what hdddeposit reports as collateral or what
      hddlock reports as locked.
    - hddlock (contracts/hddlock): time locks on received tokens and frozen
      accounts.
    - hdddeposit (contracts/hdddeposit): the pools of collateral, the part of a
      pool that backs each miner, forfeits.
    - hddpool (contracts/hddpool): storage users and their fees, miners, storage
      pools and owners, prices, the reward model and the drawing of the miner
      that gets a reward.
    - channel.sys (contracts/channel.sys): the accounts through which rewards
      and cross-chain transfers are paid.
    - eosio.system (contracts/eosio.system): accounts and names, staked bandwidth,
      the market for RAM, producers, votes, the elected schedule and the pay of
      producers.
    - eosio.msig, eosio.sudo, eosio.bios (contracts/eosio.msig and so on): proposed
      transactions and their approvals, transactions in the name of anybody, the
      contract a new chain starts with.

    and these parts of the node (libraries/chain):

    - merkle.cpp, incremental_merkle.hpp: the Merkle roots of block headers.
    - authority.hpp, authority_checker.hpp: authorities and the check whether
      keys, permissions and a delay satisfy one.
    - authorization_manager.cpp, eosio_contract.cpp: accounts, permissions, links,
      code and abi, and the check of a transaction, with the accounts of the genesis
      and the authorities of eosio.prods from controller.cpp.
    - resource_limits.cpp: CPU and network usage as moving averages, elastic block
      limits, RAM, the weights of the accounts.
    - block_header_state.cpp, block_header.cpp: the chain of headers, whose turn it
      is, confirmations and the last irreversible block (DPoS).
    - fork_database.cpp: the tree of reversible blocks and the choice of its head, and the
      file that keeps it over a restart, in the bytes of fc's raw.hpp (libraries/fc).
    - controller.cpp: applying and popping blocks, the switch of forks.
    - wasm_interface.cpp, chain_config.cpp: the privileged calls of the system contract.
    - apply_context.cpp, transaction_context.cpp: the checks of the inline actions and
      deferred transactions that an action sends.

    ** How a contract is modelled

    A contract is a [Record] whose fields are its tables (finite maps, one key
    per row, or a pair of scope and key where the code opens a table in several
    scopes) and singletons (options).  An action handler is a definition of the
    same name in the monad [M] of Chain.v: it reads the context of the action
    (authorizations, time, block), updates the state of its own contract, queues
    notifications, inline actions and deferred transactions in an [out], and
    either returns or fails.  [xxx_action] lists the actions of a contract,
    [xxx_apply] dispatches to the handlers, and [reach] closes a state under
    successful actions.

    The functions of one contract that another one calls on the shared database
    are type classes (Views.v): the caller is proved against the class and its
    laws, and the file of the contract that is called gives the instance.

    The node's managers are records of their chainbase tables; their operations
    return [res], or are handlers of [M] where a native action runs them; the
    controller returns its state with an error, since an exception does not take
    back what was done.  Hashes and the recovery of keys (OpenSSL, secp256k1), the
    orders boost gives to equal elements, zlib, the validation of WebAssembly code,
    chainbase (a class, [UndoDb]) and the execution of a block are parameters, with the facts used about them as
    hypotheses.

    Integers keep their width: [u64], [i64] and so on are applied where the code
    may wrap.  Arithmetic on [double] is IEEE binary64 (Float64.v over the
    standard library's [SpecFloat]), with the WebAssembly conversions that trap
    out of range.

    ** Files

    - Prelude: record update, machine integers, results, sums over maps.
    - Float64: binary64 and its rounding errors in integers ([near], [near_frac],
      [frac_floor]).
    - Names, Asset: contracts/eosiolib/types.hpp, symbol.hpp, asset.hpp, and the
      C library functions memos are parsed with.
    - Chain: the action context (libraries/chain/apply_context.cpp), tables
      (contracts/eosiolib/multi_index.hpp, singleton.hpp), the monad with its
      inversion tactic [minv] and forward rules.
    - Views: the interfaces between the contracts.
    - HddLock, Token, HddDeposit, Channel: one contract each.  Reserve: a transfer
      with the tables of the three contracts that take part in it.
    - PoolTables, PoolSlots, PoolBalance, PoolMiner, PoolParams, PoolReward: the
      contract hddpool: its tables, the compact table of miners, balances,
      miners and pools, prices and the reward model, the drawing of rewards.
    - HddPool: the dispatcher of hddpool over all its actions.
    - Fleet, FleetRefine: the abstract fleet of machines and storage pools, the
      relation between it and the tables, the refinement action by action.
    - Raw: how fc packs values into bytes and unpacks them (fc/io/raw.hpp,
      fc/container/flat.hpp), as codecs with a round trip law (the class [Roundtrips]).
    - Merkle: Merkle roots, by list and incrementally.
    - Authority: authorities, the checker, and the relation [sat] it decides.
    - ResourceLimits: the resource manager.
    - Permissions: the tables of accounts, permissions and links, the native
      actions, the check of a transaction, the genesis.  PermissionTree has the
      invariants of these tables, Authorize the soundness of the check.
    - Sending: what a running action may send (apply_context.cpp).
    - Msig: the contracts eosio.msig and eosio.sudo.  Bios: the contract eosio.bios.
    - HeaderState: headers, header states, ids, signatures.  Dpos has the proofs on
      chains of headers.
    - ForkDb: the fork database.  ForkTree has its invariant and what its operations
      do, ForkStore its file.
    - ForkSwitch: the controller's switch of forks, with the proof that it is atomic.
    - Frame: what the runs of a handler leave alone ([within], [kept]).
    - SystemTables, SystemVoting, SystemStake, SystemPay, EosioSystem: the contract
      eosio.system: its tables, the privileged calls and the RAM market; voting.cpp;
      delegate_bandwidth.cpp; producer_pay.cpp; eosio.system.cpp with the dispatcher.
    - SystemBooks, SystemRam, SystemFunds: stakes, RAM and the tokens held for the
      users, over all histories of the contract.
    - SystemElect, SystemTally, SystemSchedule, SystemPayroll: the levels of producers,
      the count of votes, the elected schedule with the action of every block, and the
      pay of producers, over all histories.

    ** What the theorems show

    - Conservation: the balances of a token add up to its supply
      ([token_supply_is_sum]); the channel's balances change by exactly what
      comes in and goes out ([channel_conservation]); each collateral pool is its
      free part plus what backs its miners ([collateral_invariant]); settlements
      and transfers of HDD neither create nor lose any ([calcprofit_conserves],
      [transhdds_conserves]).
    - Safety of transfers: collateral and locked tokens stay
      ([transfer_leaves_reserved]), with the facts about the called contracts it
      needs ([deposit_view_lawful], [lock_asset_spec]); a wrapped lock breaks it
      ([wrapped_lock_overdraws]).
    - Functional behaviour of handlers on success, as lemmas: [transfer_moves],
      [mforfeit_effect], [buyhdd_effect], [splitgas_splits].
    - Refinement: hddpool with its seven tables of pools, miners, owners and slots
      implements a fleet of machines, a map from identifiers to machines and a map
      from pools to quotas, for every sequence of actions ([pool_refines_fleet]).
      It follows that the tables agree with each other ([pool_books_balance]) and
      that what the specification refuses fails ([refused_actions_fail]).  The one
      restriction is on the name of a pool ([nameless_pool_leaks]).
    - Refinement within hddpool: the compact table of miners with its free list implements a
      partial injection from slots to miners ([insert_miner2_spec],
      [del_miner2_spec]).
    - The reward lottery: the incremental construction of the probability tables
      ends with complete tables ([onbuild_walks]), and the binary search draws in
      proportion to the weights, within its 20 probes for fewer than 2^19
      entries ([capacity_draw_fair]).
    - Rounding: how far the floating-point computations are from the exact
      quotients ([fee_settlement], [calc_deposit_price], [lock_asset_spec]).
    - Encodings: names, symbols, assets ([name_string_roundtrip],
      [is_valid_symbol_iff], [asset_arith_exact]).
    - A wrapping addition in [locktransfer] ([locktransfer_wraps]).
    - Authorization: an accepted transaction declares, for each action, a permission
      at or above the required one and has what satisfies it
      ([check_authorization_sound]); the checker decides satisfaction exactly when
      its depth suffices ([checker_exact]), and may lose track of a used key
      ([checker_loses_key]); a valid authority can be satisfied
      ([validate_satisfiable]).
    - Sending: inline actions and deferred transactions of a contract without privileges
      need its permission eosio.code ([inline_authorized], [deferred_authorized]); the
      lists of actors are searched correctly ([check_actor_list_spec]).
    - Multisignature: what is sent was proposed and approved by those who could
      ([exec_sound]), and what all approved can be sent ([exec_live]).
    - Permissions: they form a tree per account from the genesis on and the walk
      that compares two of them ends ([permission_trees]); RAM is charged for
      exactly what an account has ([ram_is_booked]); linkauth can leave an account
      with a link it cannot use until it creates the permission
      ([dangling_link_blocks]).
    - Resources: the averages, limits and totals stay in their ranges
      ([resource_invariant]), and the end of a block succeeds under every configuration
      of the chain, as long as the limits of the accounts add up in 64 bits
      ([block_end_succeeds]).
    - Merkle: the incremental tree has the root of the list, for lists short enough for
      the int that [merkle] counts with ([incremental_is_merkle]), and the root determines the list up to a hash
      collision ([merkle_binding]).
    - Headers: each header is committed to its number, its time, its parent and all
      earlier ids ([header_commits]).
    - DPoS: a block is proposed as irreversible when more than two thirds of the
      producers of its schedule confirmed it, each once ([dpos_quorum]); two forks
      that propose different blocks share producers, more than a third of the
      schedule, that confirmed on both ([fork_accountability]); the last
      irreversible block is what more than two thirds of the producers hold for
      irreversible ([lib_two_thirds]).  The last irreversible number can fall when the
      schedule changes ([lib_moves_back], [produced_block_refused]), and a header can
      evade the check against confirming twice ([confirm_range_wraps]).
    - The fork database: whatever is called, it is a tree below which the blocks
      signalled irreversible form one line ([fork_db_tree]); branches between two
      blocks are found ([branches_meet]); adding a block succeeds and keeps exactly what
      builds on the new irreversible block ([add_prunes]), if the current chain is
      marked; without marks it can choose the wrong one
      ([stale_block_irreversible]); what is written to its file when the node stops is
      read back when it starts, but for the transactions cached in a block
      ([reopen_same]).
    - The system contract: stakes, totals, RAM and the limits in the node agree
      ([stakes_booked]), and the accounts that hold the users' tokens never owe more than
      they received ([funds_backed]), if RAM is paid for in the core token, which the
      contract does not check ([buyram_takes_any_symbol]).  The levels of producers agree with the tables
      ([levels_agree]); votes are counted exactly below 2^53 ([votes_tally]), never too
      many ([votes_never_exceed]), too few when a producer returns
      ([returning_producer_loses_votes]); the schedule holds the best
      ([elected_schedule]); the action of every block succeeds and proposes it
      ([onblock_succeeds]) unless a producer is no account ([missing_account_blocks]);
      producers are paid their shares, within rounding ([producers_paid]); a closed auction that nobody
      claims stops the others ([closed_auction_blocks]).
    - The switch of forks leads to the new head or back to the old one with the
      same state ([switch_forks]).

    ** Bounds and fuel

    In the contracts the only loops are structural: over the characters of a
    string, the rows of a scope, three slots per call of [onbuild].  The binary
    search has the code's own bound of 20 probes as its fuel.  In the system contract
    two functions recur: a conversion of the RAM market goes through the core token
    at most once, so that two calls are enough ([convert_fuel]), and a change of weight
    is passed on along proxies, of which there are none ([levels_agree]).  In the node:

    - [merkle_loop] halves the list and has its length as fuel.
    - [varint_bytes] and [read_varint] handle at most the five bytes of 32 bits
      ([read_varint_bytes]).
    - The checker's recursion has the chain's depth limit as fuel, as in the code.
    - [walk_up] has the size of the table as fuel; parents have smaller ids, so it
      never runs out ([satisfies_spec]).
    - [apply_all_pending] removes one pending entry per turn and has their number as
      fuel.
    - [remove_loop] and [bft_loop] handle a block once and have the size of the index as
      fuel ([remove_idx], [bft_loop_spec]); the way down in [fetch_branch_from] has
      the number of the block ([fetch_spec]); [prune] is called on the oldest
      block, where its recursion ends at once ([prune_oldest]).

    Theorems on chains of headers take headers as [regular]: numbers below 2^32, no
    more than 125 producers, and no more blocks confirmed than there are.

    ** Not modelled

    - RAM billing and the payer of a row: they do not influence the tables.
    - Iterators of tables: a handler that holds an iterator over an update reads
      the row again.
    - [std::pow], from the C library submodule that is not part of the sources,
      is a parameter of the definitions that use it.
    - What executing the transactions of a block does: [execute] in ForkSwitch is any
      function for which a block executed once can be executed again.
    - The rest of the node: the block log, replay and snapshots, the
      WebAssembly engines and the ABI serializer, the fc library but for what the
      above use, plugins and programs; the sample contracts.
    - The checks of a deferred transaction while a contract's handler runs are the
      predicate [may_defer] of the context; Sending models them. *)

From stdpp Require Export base gmap strings list.
From Stdlib Require Export ZArith Lia ZifyBool.

(** ** Scopes *)

Declare Scope yta_scope.
Delimit Scope yta_scope with yta.
Open Scope Z_scope.
Open Scope yta_scope.

(** ** Record update

    [r <| f := v |>] is the C++ assignment [r.f = v] on a fresh copy of [r].
    A record type takes part by giving the eta-expansion of its constructor;
    the setter of a field is computed from it by abstracting the projection. *)

Class Eta (R : Type) := eta : R -> R.
Class Setter {R F : Type} (get : R -> F) := setf : F -> R -> R.
Arguments setf {R F} get {_} / v r : rename.

Ltac mk_setter :=
  match goal with
  | |- @Setter ?R ?F ?get =>
    let i := constr:(_ : Eta R) in
    let e := eval hnf in (@eta R i) in
    match (eval pattern get in e) with
    | ?f _ => let t := eval cbv beta in (fun (v : F) => f (fun _ => v)) in exact t
    end
  end.

#[export] Hint Extern 1 (Setter _) => mk_setter : typeclass_instances.

Notation "r <| f := v |>" := (setf f v r)
  (at level 1, left associativity, format "r  <| f  :=  v |>") : yta_scope.

(** ** Machine integers

    A w-bit unsigned integer is a [Z] in [0, 2^w); a signed one a [Z] in
    [-2^(w-1), 2^(w-1)).  Arithmetic of the source wraps (WebAssembly integer
    arithmetic does), so every operation is followed by its wrapping. *)

Definition u64 (z : Z) : Z := z mod 2^64.
Definition u32 (z : Z) : Z := z mod 2^32.
Definition u16 (z : Z) : Z := z mod 2^16.
Definition u8 (z : Z) : Z := z mod 2^8.
Definition i64 (z : Z) : Z := (z + 2^63) mod 2^64 - 2^63.

Definition is_u64 (z : Z) : Prop := 0 <= z < 2^64.
Definition is_i64 (z : Z) : Prop := - 2^63 <= z < 2^63.

Lemma u64_range z : is_u64 (u64 z).
Proof. unfold is_u64, u64. apply Z.mod_pos_bound. lia. Qed.

Lemma i64_range z : is_i64 (i64 z).
Proof.
  unfold is_i64, i64. pose proof (Z.mod_pos_bound (z + 2^63) (2^64)). lia.
Qed.

Lemma u64_id z : is_u64 z -> u64 z = z.
Proof. unfold is_u64, u64. intros. apply Z.mod_small. lia. Qed.

Lemma i64_id z : is_i64 z -> i64 z = z.
Proof.
  unfold is_i64, i64. intros. rewrite Z.mod_small; lia.
Qed.

Lemma u32_id z : 0 <= z < 2^32 -> u32 z = z.
Proof. intros. apply Z.mod_small. lia. Qed.

Lemma u64_idemp z : u64 (u64 z) = u64 z.
Proof. apply u64_id, u64_range. Qed.

Lemma i64_idemp z : i64 (i64 z) = i64 z.
Proof. apply i64_id, i64_range. Qed.

(** Wrapping drops multiples of 2^64, and one wrapping at the end is enough. *)
Lemma i64_shift z k : i64 (z + k * 2^64) = i64 z.
Proof. unfold i64. replace (z + k * 2^64 + 2^63) with (z + 2^63 + k * 2^64) by lia. by rewrite Z.mod_add. Qed.

Lemma u64_shift z k : u64 (z + k * 2^64) = u64 z.
Proof. unfold u64. by rewrite Z.mod_add. Qed.

Lemma i64_wraps z : exists k, i64 z = z + k * 2^64.
Proof. exists (- ((z + 2^63) / 2^64)). unfold i64. pose proof (Z.div_mod (z + 2^63) (2^64) ltac:(done)). lia. Qed.

Lemma u64_wraps z : exists k, u64 z = z + k * 2^64.
Proof. exists (- (z / 2^64)). unfold u64. pose proof (Z.div_mod z (2^64) ltac:(done)). lia. Qed.

Lemma i64_add_l a b : i64 (i64 a + b) = i64 (a + b).
Proof. destruct (i64_wraps a) as [k ->]. rewrite <- (i64_shift (a + b) k). f_equal. lia. Qed.

Lemma i64_sub_i64 a b : i64 (i64 a - i64 b) = i64 (a - b).
Proof. destruct (i64_wraps a) as [k ->], (i64_wraps b) as [l ->]. rewrite <- (i64_shift (a - b) (k - l)). f_equal. lia. Qed.

Lemma u64_add_l a b : u64 (u64 a + b) = u64 (a + b).
Proof. destruct (u64_wraps a) as [k ->]. rewrite <- (u64_shift (a + b) k). f_equal. lia. Qed.

Lemma i64_u64 z : i64 (u64 z) = i64 z.
Proof. destruct (u64_wraps z) as [k ->]. apply i64_shift. Qed.

(** Two bit fields side by side. *)
Lemma lor_high a b k : 0 <= k -> 0 <= a < 2^k -> Z.lor a (Z.shiftl b k) = a + b * 2^k.
Proof.
  intros Hk Ha.
  assert (Hand : Z.land a (Z.shiftl b k) = 0).
  { apply Z.bits_inj'. intros i Hi. rewrite Z.land_spec, Z.bits_0, Z.shiftl_spec by done.
    destruct (Z.ltb_spec i k).
    - by rewrite (Z.testbit_neg_r b), andb_false_r by lia.
    - rewrite <- (Z.mod_small a (2^k)), Z.mod_pow2_bits_high by lia. done. }
  rewrite <- Z.lxor_lor, <- Z.add_nocarry_lxor by done. by rewrite Z.shiftl_mul_pow2.
Qed.

(** ** Results

    A failed action aborts the whole transaction: no state change survives, so
    an error carries no state. *)

Inductive error : Type :=
| AssertFail (msg : string)      (* eosio_assert *)
| MissingAuth (account : Z)      (* require_auth *)
| WasmTrap (msg : string)        (* trap of the virtual machine *)
| ChainError (msg : string).     (* rejected by the node *)

Inductive res (A : Type) : Type :=
| Ok (a : A)
| Err (e : error).
Arguments Ok {A} a.
Arguments Err {A} e.

#[export] Instance res_ret : MRet res := @Ok.
#[export] Instance res_bind : MBind res := fun A B f m =>
  match m with Ok a => f a | Err e => Err e end.
#[export] Instance res_fmap : FMap res := fun A B f m =>
  match m with Ok a => Ok (f a) | Err e => Err e end.

Definition is_ok {A} (r : res A) : bool :=
  match r with Ok _ => true | Err _ => false end.

Lemma res_bind_ok {A B} (m : res A) (f : A -> res B) b :
  (m ≫= f) = Ok b -> exists a, m = Ok a /\ f a = Ok b.
Proof. destruct m; simpl; [eauto | discriminate]. Qed.

(** Division of machine integers: the machine traps where it is undefined. *)
Definition u64_div (a b : Z) : res Z :=
  if b =? 0 then Err (WasmTrap "integer divide by zero") else Ok (a / b).
Definition u64_rem (a b : Z) : res Z :=
  if b =? 0 then Err (WasmTrap "integer divide by zero") else Ok (a mod b).
Definition i64_div (a b : Z) : res Z :=
  if b =? 0 then Err (WasmTrap "integer divide by zero")
  else if (a =? - 2^63) && (b =? -1) then Err (WasmTrap "integer overflow")
  else Ok (Z.quot a b).

(** ** Automation *)

Create HintDb yta.
#[export] Hint Resolve u64_range i64_range : yta.

(** [zb] turns the boolean tests of the code into propositions. *)
Ltac zb :=
  repeat match goal with
  | H : (_ && _) = true |- _ => apply andb_prop in H; destruct H
  | H : (_ && _)%bool = false |- _ => apply andb_false_iff in H
  | H : (_ || _)%bool = true |- _ => apply orb_prop in H
  | H : (_ || _)%bool = false |- _ => apply orb_false_elim in H; destruct H
  | H : negb _ = true |- _ => apply negb_true_iff in H
  | H : negb _ = false |- _ => apply negb_false_iff in H
  | H : (_ <=? _) = true |- _ => apply Z.leb_le in H
  | H : (_ <=? _) = false |- _ => apply Z.leb_gt in H
  | H : (_ <? _) = true |- _ => apply Z.ltb_lt in H
  | H : (_ <? _) = false |- _ => apply Z.ltb_ge in H
  | H : (_ =? _) = true |- _ => apply Z.eqb_eq in H
  | H : (_ =? _) = false |- _ => apply Z.eqb_neq in H
  | H : bool_decide _ = true |- _ => apply bool_decide_eq_true in H
  | H : bool_decide _ = false |- _ => apply bool_decide_eq_false in H
  end.

(** [i64s] and [u64s] remove a wrapping that the context shows to be exact. *)
Ltac i64s := repeat (rewrite i64_id in * by (unfold is_i64 in *; lia)).
Ltac u64s := repeat (rewrite u64_id in * by (unfold is_u64 in *; lia)).

(** ** Sums over finite maps *)

Section sums.
Context {K V : Type} `{Countable K}.

(** The sum of [f] over the entries of [m]. *)
Definition map_sum (f : K -> V -> Z) (m : gmap K V) : Z :=
  map_fold (fun k v acc => f k v + acc) 0 m.

Lemma map_sum_empty f : map_sum f ∅ = 0.
Proof. unfold map_sum. by rewrite map_fold_empty. Qed.

Lemma map_sum_insert_new f (m : gmap K V) k v :
  m !! k = None -> map_sum f (<[k:=v]> m) = f k v + map_sum f m.
Proof.
  intros Hk. unfold map_sum. rewrite map_fold_insert_L; [done | | done]. intros. lia.
Qed.

Lemma map_sum_singleton f k v : map_sum f ({[k := v]} : gmap K V) = f k v.
Proof.
  rewrite <- insert_empty, map_sum_insert_new by apply lookup_empty. rewrite map_sum_empty. lia.
Qed.

Lemma map_sum_delete f (m : gmap K V) k v :
  m !! k = Some v -> map_sum f (delete k m) = map_sum f m - f k v.
Proof.
  intros Hk. rewrite <- (insert_delete_id m k v Hk) at 2.
  rewrite map_sum_insert_new by apply lookup_delete_eq. lia.
Qed.

Lemma map_sum_delete_none f (m : gmap K V) k :
  m !! k = None -> map_sum f (delete k m) = map_sum f m.
Proof. intros. by rewrite delete_id. Qed.

Lemma map_sum_insert f (m : gmap K V) k v v' :
  m !! k = Some v -> map_sum f (<[k:=v']> m) = map_sum f m - f k v + f k v'.
Proof.
  intros Hk. rewrite <- insert_delete_eq.
  rewrite map_sum_insert_new by apply lookup_delete_eq.
  rewrite (map_sum_delete f m k v Hk). lia.
Qed.

Lemma map_sum_ext f g (m : gmap K V) :
  (forall k v, m !! k = Some v -> f k v = g k v) -> map_sum f m = map_sum g m.
Proof.
  induction m as [|k v m Hk _ IH] using map_first_key_ind; intros Hfg.
  - by rewrite !map_sum_empty.
  - rewrite !map_sum_insert_new by done. rewrite (Hfg k v) by apply lookup_insert_eq.
    rewrite IH; [done|]. intros k' v' Hk'. apply Hfg.
    rewrite lookup_insert_ne; [done|]. intros <-. congruence.
Qed.

Lemma map_sum_zero f (m : gmap K V) :
  (forall k v, m !! k = Some v -> f k v = 0) -> map_sum f m = 0.
Proof.
  intros Hf. rewrite (map_sum_ext f (fun _ _ => 0)) by done. clear Hf.
  induction m as [|k v m Hk _ IH] using map_first_key_ind; [apply map_sum_empty|].
  by rewrite map_sum_insert_new.
Qed.

Lemma map_sum_nonneg f (m : gmap K V) :
  (forall k v, m !! k = Some v -> 0 <= f k v) -> 0 <= map_sum f m.
Proof.
  induction m as [|k v m Hk _ IH] using map_first_key_ind; intros Hf.
  - by rewrite map_sum_empty.
  - rewrite map_sum_insert_new by done.
    pose proof (Hf k v (lookup_insert_eq _ _ _)).
    assert (0 <= map_sum f m); [|lia]. apply IH. intros k' v' Hk'. apply (Hf k' v').
    rewrite lookup_insert_ne; [done|]. intros <-. congruence.
Qed.

Lemma map_sum_elem_le f (m : gmap K V) k v :
  (forall k v, m !! k = Some v -> 0 <= f k v) -> m !! k = Some v -> f k v <= map_sum f m.
Proof.
  intros Hf Hk. pose proof (map_sum_delete f m k v Hk).
  assert (0 <= map_sum f (delete k m)); [|lia].
  apply map_sum_nonneg. intros k' v' Hk'. apply lookup_delete_Some in Hk' as [_ ?]. eauto.
Qed.

Lemma map_sum_le f g (m : gmap K V) :
  (forall k v, m !! k = Some v -> f k v <= g k v) -> map_sum f m <= map_sum g m.
Proof.
  induction m as [|k v m Hk _ IH] using map_first_key_ind; intros Hfg; [by rewrite !map_sum_empty|].
  rewrite !map_sum_insert_new by done. pose proof (Hfg k v (lookup_insert_eq _ _ _)).
  assert (map_sum f m <= map_sum g m); [|lia]. apply IH. intros k' v' Hk'. apply Hfg.
  rewrite lookup_insert_ne; [done|]. intros <-. congruence.
Qed.

Lemma map_sum_le_size f B (m : gmap K V) :
  (forall k v, m !! k = Some v -> f k v <= B) -> map_sum f m <= B * Z.of_nat (size m).
Proof.
  induction m as [|k v m Hk _ IH] using map_first_key_ind; intros Hf.
  - rewrite map_sum_empty, map_size_empty. lia.
  - rewrite map_sum_insert_new, map_size_insert_None by done.
    pose proof (Hf k v (lookup_insert_eq _ _ _)).
    assert (map_sum f m <= B * Z.of_nat (size m)); [|lia]. apply IH. intros k' v' Hk'. apply (Hf k' v').
    rewrite lookup_insert_ne; [done|]. intros <-. congruence.
Qed.
End sums.
