(* ===== verification/Float64.v ===== *)
(** * IEEE-754 binary64 arithmetic as the chain's virtual machine runs it

    The contracts compute prices, fees and rewards with C++ [double].  The node
    replaces every floating-point instruction of a contract by a call to its
    software implementation (libraries/chain/wasm_interface.cpp, class
    softfloat_api), which is deterministic IEEE-754 binary64 with rounding to
    nearest even.  The operations are those of the Standard Library's executable
    specification [SpecFloat] at precision 53 and maximal exponent 1024; the
    conversions to integers raise on overflow as the node's do.

    The second half gives the rounding-error theory the contracts' theorems
    use: [f64_in x lo hi] says that [x] is a positive normal double whose value
    lies between the rationals [lo] and [hi], and each operation maps intervals
    to intervals widened by one part in 2^52. *)

From S2P Require Import Prelude.
From Stdlib Require Import SpecFloat QArith Qpower Lqa.
Open Scope Z_scope.
Open Scope yta_scope.

Abbreviation f64 := spec_float.

Definition f64_add : f64 -> f64 -> f64 := SFadd 53 1024.
Definition f64_sub : f64 -> f64 -> f64 := SFsub 53 1024.
Definition f64_mul : f64 -> f64 -> f64 := SFmul 53 1024.
Definition f64_div : f64 -> f64 -> f64 := SFdiv 53 1024.
Definition f64_sqrt : f64 -> f64 := SFsqrt 53 1024.
Definition f64_neg : f64 -> f64 := SFopp.
Definition f64_abs : f64 -> f64 := SFabs.
Definition f64_lt : f64 -> f64 -> bool := SFltb.
Definition f64_le : f64 -> f64 -> bool := SFleb.

(** Conversion of an integer of any width ([_eosio_i32_to_f64] and the like):
    rounded to nearest even when it has more than 53 significant bits. *)
Definition f64_of_Z (z : Z) : f64 := binary_normalize 53 1024 z 0 false.

(** The double nearest to the decimal literal n/d, for small n and d. *)
Definition f64_lit (n d : Z) : f64 := f64_div (f64_of_Z n) (f64_of_Z d).

(** The integer part of a finite double (truncation toward zero). *)
Definition f64_trunc_Z (x : f64) : Z :=
  match x with
  | S754_finite s m e =>
      let a := if 0 <=? e then Z.pos m * 2^e else Z.pos m / 2^(- e) in
      if s then - a else a
  | _ => 0
  end.

Definition is_nan (x : f64) : bool := match x with S754_nan => true | _ => false end.

(** (int64_t)x *)
Definition f64_trunc_i64s (x : f64) : res Z :=
  if f64_le (f64_of_Z (2^63)) x || f64_lt x (f64_of_Z (- 2^63))
  then Err (WasmTrap "Error, f64.convert_s/i64 overflow")
  else if is_nan x then Err (WasmTrap "Error, f64.convert_s/i64 unrepresentable")
  else Ok (f64_trunc_Z x).

(** (uint64_t)x *)
Definition f64_trunc_i64u (x : f64) : res Z :=
  if f64_le (f64_of_Z (2^64)) x || f64_le x (f64_of_Z (-1))
  then Err (WasmTrap "Error, f64.convert_u/i64 overflow")
  else if is_nan x then Err (WasmTrap "Error, f64.convert_u/i64 unrepresentable")
  else Ok (f64_trunc_Z x).

Arguments f64_add : simpl never.
Arguments f64_sub : simpl never.
Arguments f64_mul : simpl never.
Arguments f64_div : simpl never.
Arguments f64_sqrt : simpl never.
Arguments f64_of_Z : simpl never.
Arguments f64_lit : simpl never.
Arguments f64_trunc_i64s : simpl never.
Arguments f64_trunc_i64u : simpl never.

Declare Scope f64_scope.
Delimit Scope f64_scope with f64.
Infix "+" := f64_add : f64_scope.
Infix "-" := f64_sub : f64_scope.
Infix "*" := f64_mul : f64_scope.
Infix "/" := f64_div : f64_scope.
Abbreviation fl := f64_of_Z.

(** ** Digits and shifts of the specification *)

Lemma digits2_pos_log2 p : Z.pos (digits2_pos p) = Z.log2 (Z.pos p) + 1.
Proof.
  induction p as [p IH|p IH|]; [| |done]; cbn [digits2_pos];
    rewrite Pos2Z.inj_succ, IH, ?(Pos2Z.inj_xI p), ?(Pos2Z.inj_xO p).
  - rewrite Z.log2_succ_double by lia. lia.
  - rewrite Z.log2_double by lia. lia.
Qed.

Lemma Zdigits2_log2 m : 0 < m -> Zdigits2 m = Z.log2 m + 1.
Proof. destruct m; try lia. intros _. apply digits2_pos_log2. Qed.

Lemma Zdigits2_bounds m : 0 < m -> 2^(Zdigits2 m - 1) <= m < 2^(Zdigits2 m).
Proof.
  intros Hm. rewrite Zdigits2_log2 by done.
  replace (Z.log2 m + 1 - 1) with (Z.log2 m) by lia.
  replace (Z.log2 m + 1) with (Z.succ (Z.log2 m)) by lia.
  by apply Z.log2_spec.
Qed.

Lemma Zdigits2_unique m d : 0 < d -> 2^(d - 1) <= m < 2^d -> Zdigits2 m = d.
Proof.
  intros Hd Hm. assert (0 < m) by (pose proof (Z.pow_pos_nonneg 2 (d - 1)); lia).
  rewrite Zdigits2_log2 by done. rewrite (Z.log2_unique m (d - 1)); [lia|lia|].
  by replace (Z.succ (d - 1)) with d by lia.
Qed.

Lemma shr_1_m mrs : 0 <= shr_m mrs -> shr_m (shr_1 mrs) = shr_m mrs / 2.
Proof.
  destruct mrs as [m r s]. cbn. destruct m as [|p|p]; [done| |lia]. intros _.
  destruct p; cbn; Z.to_euclidean_division_equations; lia.
Qed.

Lemma iter_pos_shr p mrs :
  0 <= shr_m mrs -> shr_m (SpecFloat.iter_pos shr_1 p mrs) = shr_m mrs / 2^(Z.pos p).
Proof.
  revert mrs. induction p as [p IH|p IH|]; intros mrs Hm; cbn [SpecFloat.iter_pos].
  - assert (H1 := shr_1_m mrs Hm).
    assert (0 <= shr_m (shr_1 mrs)) by (rewrite H1; apply Z.div_pos; lia).
    assert (H2 := IH (shr_1 mrs) ltac:(done)).
    rewrite IH, H2, H1; [|rewrite H2; apply Z.div_pos; lia].
    rewrite !Z.div_div by lia. f_equal.
    rewrite (Pos2Z.inj_xI p), Z.pow_add_r, Z.pow_mul_r by lia.
    replace ((2 ^ 2) ^ Z.pos p) with (2^Z.pos p * 2^Z.pos p); [lia|].
    rewrite <- Z.pow_add_r, <- Z.pow_mul_r by lia. f_equal. lia.
  - assert (H1 := IH mrs Hm). rewrite IH, H1 by (rewrite H1; apply Z.div_pos; lia).
    rewrite Z.div_div by lia. f_equal. rewrite <- Z.pow_add_r by lia. f_equal. lia.
  - rewrite shr_1_m by done. done.
Qed.

Lemma shr_record_m m l : shr_m (shr_record_of_loc m l) = m.
Proof. by destruct l as [|[]]. Qed.

(** [shr_fexp] keeps the 53 leading bits of a mantissa in the normal range. *)
Lemma shr_fexp_spec m e l :
  0 < m -> -1074 <= Zdigits2 m + e - 53 ->
  shr_m (fst (shr_fexp 53 1024 m e l)) = m / 2^(Z.max 0 (Zdigits2 m - 53)) /\
  snd (shr_fexp 53 1024 m e l) = e + Z.max 0 (Zdigits2 m - 53).
Proof.
  intros Hm Hr. unfold shr_fexp, shr, fexp, emin.
  rewrite Z.max_l by lia.
  replace (Zdigits2 m + e - 53 - e) with (Zdigits2 m - 53) by lia.
  destruct (Zdigits2 m - 53) as [|p|p] eqn:E; cbn [fst snd];
    rewrite ?shr_record_m, ?Z.div_1_r; try (split; [done|lia]).
  rewrite Z.max_r by lia. rewrite iter_pos_shr; rewrite shr_record_m; [done|lia].
Qed.

(** Without a shift nothing is lost: an exact mantissa stays exact. *)
Lemma shr_fexp_exact m e :
  0 < m -> -1074 <= Zdigits2 m + e - 53 -> Zdigits2 m <= 53 ->
  shr_fexp 53 1024 m e loc_Exact = (Build_shr_record m false false, e).
Proof.
  intros Hm Hr Hd. unfold shr_fexp, shr, fexp, emin.
  rewrite Z.max_l by lia.
  by destruct (Zdigits2 m + e - 53 - e) as [|p|p] eqn:E; [|lia|].
Qed.

Lemma round_nearest_even_or m l :
  round_nearest_even m l = m \/ round_nearest_even m l = m + 1.
Proof. destruct l as [|[]]; cbn; auto. destruct (Z.even m); auto. Qed.

(** ** Rounding a mantissa of at least 53 bits *)

(** The rounded mantissa is the 53-bit prefix of the exact one or its
    successor, and the exact one when nothing had to be dropped. *)
Lemma binary_round_aux_spec s mx ex lx :
  0 < mx -> 53 <= Zdigits2 mx ->
  -1074 <= Zdigits2 mx + ex - 53 -> Zdigits2 mx + ex <= 1023 ->
  exists m e r,
    binary_round_aux 53 1024 s mx ex lx = S754_finite s m e /\
    (r = mx / 2^(Zdigits2 mx - 53) \/ r = mx / 2^(Zdigits2 mx - 53) + 1) /\
    (Zdigits2 mx = 53 -> lx = loc_Exact -> r = mx) /\
    2^52 <= Z.pos m < 2^53 /\
    (Z.pos m = r /\ e = ex + (Zdigits2 mx - 53) \/
     Z.pos m * 2 = r /\ e = ex + (Zdigits2 mx - 53) + 1).
Proof.
  intros Hm Hd Hlo Hhi. set (d := Zdigits2 mx) in *.
  pose proof (Zdigits2_bounds mx Hm) as Hb. fold d in Hb.
  set (M := mx / 2^(d - 53)).
  assert (HM : 2^52 <= M < 2^53).
  { subst M. split.
    - apply Z.div_le_lower_bound; [lia|]. rewrite <- Z.pow_add_r by lia.
      replace (d - 53 + 52) with (d - 1) by lia. lia.
    - apply Z.div_lt_upper_bound; [lia|]. rewrite <- Z.pow_add_r by lia.
      replace (d - 53 + 53) with d by lia. lia. }
  unfold binary_round_aux.
  pose proof (shr_fexp_spec mx ex lx Hm Hlo) as [H1 H2]. fold d in H1, H2.
  rewrite Z.max_r in H1, H2 by lia. fold M in H1.
  assert (Hex : d = 53 -> lx = loc_Exact ->
          round_nearest_even (shr_m (shr_fexp 53 1024 mx ex lx).1)
            (loc_of_shr_record (shr_fexp 53 1024 mx ex lx).1) = mx).
  { intros Hd53 ->. rewrite shr_fexp_exact by (fold d; lia). done. }
  destruct (shr_fexp 53 1024 mx ex lx) as [mrs1 e1]. cbn [fst snd] in *. subst e1.
  set (r := round_nearest_even (shr_m mrs1) (loc_of_shr_record mrs1)) in *.
  assert (Hr : r = M \/ r = M + 1).
  { subst r. rewrite H1. apply round_nearest_even_or. }
  assert (Hrpos : 2^52 <= r <= 2^53) by lia. clearbody r. clear H1.
  destruct (decide (r = 2^53)) as [Hr53|Hr53].
  - assert (Hd54 : Zdigits2 r = 54) by (apply Zdigits2_unique; lia).
    pose proof (shr_fexp_spec r (ex + (d - 53)) loc_Exact ltac:(lia) ltac:(lia)) as [H3 H4].
    rewrite Hd54 in H3, H4.
    destruct (shr_fexp 53 1024 r (ex + (d - 53)) loc_Exact) as [mrs2 e2].
    cbn [fst snd] in *. subst e2.
    assert (shr_m mrs2 = 4503599627370496) as -> by (rewrite H3, Hr53; reflexivity).
    replace (1024 - 53) with 971 by done.
    replace (ex + (d - 53) + Z.max 0 (54 - 53)) with (ex + (d - 53) + 1) by lia.
    destruct (Z.leb_spec (ex + (d - 53) + 1) 971); [|lia].
    eexists _, _, r. split; [done|]. repeat split; try done; try lia; tauto.
  - assert (Hd53 : Zdigits2 r = 53) by (apply Zdigits2_unique; lia).
    rewrite (shr_fexp_exact r) by lia. cbn [shr_m].
    destruct r as [|pr|pr]; [lia| |lia].
    replace (1024 - 53) with 971 by done.
    destruct (Z.leb_spec (ex + (d - 53)) 971); [|lia].
    eexists _, _, (Z.pos pr). split; [done|]. repeat split; try done; try lia; tauto.
Qed.

(** ** Powers of two as rationals *)

Definition pow2 (e : Z) : Q := (2 ^ e)%Q.

Lemma pow2_pos e : (0 < pow2 e)%Q.
Proof. apply Qpower_0_lt. reflexivity. Qed.

Lemma pow2_add a b : (pow2 (a + b) == pow2 a * pow2 b)%Q.
Proof. apply Qpower_plus. discriminate. Qed.

Lemma pow2_Z n : 0 <= n -> (inject_Z (2 ^ n) == pow2 n)%Q.
Proof. intros. by rewrite Zpower_Qpower. Qed.

Lemma pow2_le a b : (pow2 a <= pow2 b)%Q -> a <= b.
Proof. intros H. by apply Qpower_le_compat_l_inv in H. Qed.

Lemma pow2_mono a b : a <= b -> (pow2 a <= pow2 b)%Q.
Proof. intros H. by apply Qpower_le_compat_l. Qed.

#[local] Opaque pow2.

Lemma pow2_Zmul z n e : 0 <= n -> (inject_Z (z * 2 ^ n) * pow2 e == inject_Z z * pow2 (e + n))%Q.
Proof. intros. rewrite inject_Z_mult, pow2_Z, pow2_add by done. ring. Qed.

Lemma Zle_pow2 a b e : a <= b -> (inject_Z a * pow2 e <= inject_Z b * pow2 e)%Q.
Proof.
  intros. apply Qmult_le_compat_r; [by rewrite <- Zle_Qle|].
  apply Qlt_le_weak, pow2_pos.
Qed.

(** The value of a positive finite double. *)
Definition f64_val (m : positive) (e : Z) : Q := (inject_Z (Z.pos m) * pow2 e)%Q.

(** [x] is a positive normal double with value between [lo] and [hi]. *)
Definition f64_in (x : f64) (lo hi : Q) : Prop :=
  exists m e, x = S754_finite false m e /\ 2^52 <= Z.pos m < 2^53 /\
    (lo <= f64_val m e)%Q /\ (f64_val m e <= hi)%Q.

(** One unit in the last place, relatively. *)
Definition ulp : Q := 1 # 4503599627370496.

Definition normal_range (t : Q) : Prop := (pow2 (-1000) <= t)%Q /\ (t <= pow2 1000)%Q.

Lemma f64_in_weaken x lo hi lo' hi' :
  f64_in x lo hi -> (lo' <= lo)%Q -> (hi <= hi')%Q -> f64_in x lo' hi'.
Proof. intros (m & e & -> & Hm & Hl & Hh) ??. exists m, e. split; [done|]. split; [done|]. split; lra. Qed.

(** Rounding a value [t] whose leading bits are [mx * 2^ex]. *)
Lemma round_in mx ex lx t :
  0 < mx -> 53 <= Zdigits2 mx -> normal_range t ->
  (inject_Z mx * pow2 ex <= t)%Q -> (t <= inject_Z (mx + 1) * pow2 ex)%Q ->
  f64_in (binary_round_aux 53 1024 false mx ex lx) (t * (1 - ulp)) (t * (1 + ulp)).
Proof.
  intros Hm Hd [Ht1 Ht2] Hlo Hhi.
  pose proof (Zdigits2_bounds mx Hm) as Hb. set (d := Zdigits2 mx) in *.
  assert (Hd1 : d - 1 + ex <= 1000).
  { apply pow2_le. rewrite (Z.add_comm (d - 1)).
    pose proof (Zle_pow2 (1 * 2^(d - 1)) mx ex ltac:(lia)).
    rewrite pow2_Zmul in H by lia. change (inject_Z 1) with 1%Q in H. lra. }
  assert (Hd2 : -1000 <= d + ex).
  { apply pow2_le. rewrite (Z.add_comm d).
    pose proof (Zle_pow2 (mx + 1) (1 * 2^d) ex ltac:(lia)).
    rewrite pow2_Zmul in H by lia. change (inject_Z 1) with 1%Q in H. lra. }
  destruct (binary_round_aux_spec false mx ex lx) as (m & e & r & -> & Hr & _ & Hm53 & He);
    fold d; try lia.
  fold d in Hr, He. exists m, e. split; [done|]. split; [done|].
  set (M := mx / 2^(d - 53)) in *. set (U := pow2 (ex + (d - 53))).
  assert (HU : (0 < U)%Q) by apply pow2_pos.
  assert (Hdiv : M * 2^(d - 53) <= mx /\ mx + 1 <= (M + 1) * 2^(d - 53)).
  { subst M. pose proof (Z.pow_pos_nonneg 2 (d - 53)).
    pose proof (Z.div_mod mx (2^(d - 53)) ltac:(lia)).
    pose proof (Z.mod_pos_bound mx (2^(d - 53)) ltac:(lia)). nia. }
  assert (H1 : (inject_Z M * U <= t)%Q).
  { pose proof (Zle_pow2 _ _ ex (proj1 Hdiv)) as H. rewrite pow2_Zmul in H by lia.
    unfold U. lra. }
  assert (H2 : (t <= inject_Z (M + 1) * U)%Q).
  { pose proof (Zle_pow2 _ _ ex (proj2 Hdiv)) as H. rewrite pow2_Zmul in H by lia.
    unfold U. lra. }
  assert (HM : (4503599627370496 * U <= inject_Z M * U)%Q).
  { apply Qmult_le_compat_r; [|lra]. change 4503599627370496%Q with (inject_Z (2^52)).
    rewrite <- Zle_Qle. subst M. apply Z.div_le_lower_bound; [lia|].
    rewrite <- Z.pow_add_r by lia. replace (d - 53 + 52) with (d - 1) by lia. lia. }
  assert (Hv : (f64_val m e == inject_Z r * U)%Q).
  { unfold f64_val. destruct He as [[<- ->]|[<- ->]]; [reflexivity|].
    rewrite inject_Z_mult. unfold U. rewrite (pow2_add _ 1).
    change (pow2 1) with (2 ^ 1)%Q. change (inject_Z 2) with 2%Q.
    rewrite Qmult_comm. change (2 ^ 1)%Q with 2%Q. ring. }
  assert (Hr' : (inject_Z r == inject_Z M)%Q \/ (inject_Z r == inject_Z (M + 1))%Q)
    by (destruct Hr as [-> | ->]; [left|right]; reflexivity).
  rewrite Hv. rewrite inject_Z_plus in *. change (inject_Z 1) with 1%Q in *.
  unfold ulp. set (P := (inject_Z M * U)%Q) in *.
  assert (HP : ((inject_Z M + 1) * U == P + U)%Q) by (subst P; ring).
  rewrite HP in H2.
  assert (Hr'' : (inject_Z r * U == P)%Q \/ (inject_Z r * U == P + U)%Q).
  { destruct Hr' as [-> | ->]; [left; reflexivity|right; exact HP]. }
  destruct Hr'' as [-> | ->]; split; lra.
Qed.

Lemma f64_val_pos m e : (0 < f64_val m e)%Q.
Proof.
  unfold f64_val. apply Qmult_lt_0_compat; [|apply pow2_pos]. by rewrite <- (Zlt_Qlt 0).
Qed.

Lemma normal_range_between t a b :
  normal_range a -> normal_range b -> (a <= t)%Q -> (t <= b)%Q -> normal_range t.
Proof. intros [??] [??] ??. split; lra. Qed.

Lemma ulp_weaken x t lo hi :
  f64_in x (t * (1 - ulp)) (t * (1 + ulp)) -> (lo <= t)%Q -> (t <= hi)%Q ->
  f64_in x (lo * (1 - ulp)) (hi * (1 + ulp)).
Proof. intros H ??. eapply f64_in_weaken; [exact H|unfold ulp; lra|unfold ulp; lra]. Qed.

Lemma Zdigits2_53 m : 2^52 <= Z.pos m < 2^53 -> Zdigits2 (Z.pos m) = 53.
Proof. intros. apply Zdigits2_unique; lia. Qed.

Lemma Zdigits2_ge n m : 0 < n -> 2^(n - 1) <= m -> n <= Zdigits2 m.
Proof.
  intros Hn Hm. assert (0 < m) by (pose proof (Z.pow_pos_nonneg 2 (n - 1)); lia).
  rewrite Zdigits2_log2 by done.
  pose proof (Z.log2_le_mono _ _ Hm) as H1. rewrite Z.log2_pow2 in H1; lia.
Qed.

(** ** Multiplication, division, addition *)

Lemma Qmult_le_compat_pos a b c d :
  (0 < a)%Q -> (0 < c)%Q -> (a <= b)%Q -> (c <= d)%Q -> (a * c <= b * d)%Q.
Proof. intros. nra. Qed.

Lemma f64_mul_in x y a b c d :
  f64_in x a b -> f64_in y c d -> (0 < a)%Q -> (0 < c)%Q ->
  normal_range (a * c) -> normal_range (b * d) ->
  f64_in (f64_mul x y) (a * c * (1 - ulp)) (b * d * (1 + ulp)).
Proof.
  intros (m & e & -> & Hm & Ha & Hb) (n & g & -> & Hn & Hc & Hd) Ha0 Hc0 Hlo Hhi.
  assert (H1 : (a * c <= f64_val m e * f64_val n g)%Q) by (apply Qmult_le_compat_pos; lra).
  assert (H2 : (f64_val m e * f64_val n g <= b * d)%Q) by (apply Qmult_le_compat_pos; lra).
  apply (ulp_weaken _ (f64_val m e * f64_val n g)); [|done|done].
  unfold f64_mul, SFmul; cbn [xorb].
  assert (Hv : (inject_Z (Z.pos (m * n)) * pow2 (e + g) == f64_val m e * f64_val n g)%Q).
  { unfold f64_val. rewrite Pos2Z.inj_mul, inject_Z_mult, pow2_add. ring. }
  apply round_in; [lia| |by apply (normal_range_between _ (a * c) (b * d))|lra|].
  - apply Zdigits2_ge; [lia|]. rewrite Pos2Z.inj_mul.
    pose proof (Z.mul_le_mono_nonneg (2^52) (Z.pos m) 1 (Z.pos n)). lia.
  - pose proof (Zle_pow2 (Z.pos (m * n)) (Z.pos (m * n) + 1) (e + g) ltac:(lia)). lra.
Qed.

Lemma SFdiv_core_spec m1 e1 m2 e2 :
  2^52 <= m1 < 2^53 -> 2^52 <= m2 < 2^53 -> -1021 <= e1 - e2 ->
  SFdiv_core_binary 53 1024 m1 e1 m2 e2 =
    (m1 * 2^53 / m2, e1 - e2 - 53, new_location m2 ((m1 * 2^53) mod m2)).
Proof.
  intros H1 H2 He. unfold SFdiv_core_binary, fexp, emin.
  rewrite !(Zdigits2_unique _ 53) by lia.
  replace (53 + e1 - (53 + e2) - 53) with (e1 - e2 - 53) by lia.
  rewrite Z.max_l, Z.min_l by lia.
  replace (e1 - e2 - (e1 - e2 - 53)) with 53 by lia.
  rewrite Z.shiftl_mul_pow2 by lia.
  pose proof (Z.div_mod (m1 * 2^53) m2) as _. unfold Z.div, Z.modulo.
  by destruct (Z.div_eucl (m1 * 2^53) m2).
Qed.

Lemma div_val m e n g :
  (f64_val m e / f64_val n g == inject_Z (Z.pos m * 2^53) / inject_Z (Z.pos n) * pow2 (e - g - 53))%Q.
Proof.
  unfold f64_val. rewrite inject_Z_mult, pow2_Z by lia.
  assert (He : (pow2 e == pow2 53 * pow2 (e - g - 53) * pow2 g)%Q).
  { rewrite <- !pow2_add. f_equiv. lia. }
  assert (Hn : (0 < inject_Z (Z.pos n))%Q) by by rewrite <- (Zlt_Qlt 0).
  pose proof (pow2_pos g). rewrite He. field. split; lra.
Qed.

Lemma Qdiv_floor a b :
  0 < b -> (inject_Z (a / b) <= inject_Z a / inject_Z b)%Q /\
           (inject_Z a / inject_Z b <= inject_Z (a / b + 1))%Q.
Proof.
  intros Hb. assert (Hb' : (0 < inject_Z b)%Q) by (by rewrite <- (Zlt_Qlt 0)).
  pose proof (Z.div_mod a b ltac:(lia)). pose proof (Z.mod_pos_bound a b Hb).
  split.
  - apply Qle_shift_div_l; [done|]. rewrite <- inject_Z_mult, <- Zle_Qle. nia.
  - apply Qle_shift_div_r; [done|]. rewrite <- inject_Z_mult, <- Zle_Qle. nia.
Qed.

Lemma Qdiv_le_compat_pos a b c d :
  (0 < a)%Q -> (0 < c)%Q -> (a <= b)%Q -> (c <= d)%Q -> (a / d <= b / c)%Q.
Proof.
  intros. apply Qle_shift_div_l; [done|]. unfold Qdiv.
  assert (0 < d)%Q by lra. rewrite <- Qmult_assoc.
  assert (/ d * c == c / d)%Q as -> by (unfold Qdiv; ring).
  assert (c / d <= 1)%Q by (apply Qle_shift_div_r; lra).
  assert (0 < c / d)%Q by (apply Qlt_shift_div_l; lra). nra.
Qed.

Lemma f64_div_in x y a b c d :
  f64_in x a b -> f64_in y c d -> (0 < a)%Q -> (0 < c)%Q ->
  normal_range (a / d) -> normal_range (b / c) ->
  f64_in (f64_div x y) (a / d * (1 - ulp)) (b / c * (1 + ulp)).
Proof.
  intros (m & e & -> & Hm & Ha & Hb) (n & g & -> & Hn & Hc & Hd) Ha0 Hc0 Hlo Hhi.
  set (t := (f64_val m e / f64_val n g)%Q).
  assert (H1 : (a / d <= t)%Q) by (apply Qdiv_le_compat_pos; [lra|apply f64_val_pos|lra|lra]).
  assert (H2 : (t <= b / c)%Q) by (apply Qdiv_le_compat_pos; [apply f64_val_pos|lra|lra|lra]).
  assert (Ht : normal_range t) by by apply (normal_range_between _ (a / d) (b / c)).
  apply (ulp_weaken _ t); [|done|done].
  assert (Hq : 2^52 <= Z.pos m * 2^53 / Z.pos n).
  { apply Z.div_le_lower_bound; nia. }
  destruct (Qdiv_floor (Z.pos m * 2^53) (Z.pos n) ltac:(lia)) as [Hf1 Hf2].
  assert (Heg : -1021 <= e - g).
  { destruct Ht as [Ht _]. unfold t in Ht. rewrite div_val in Ht.
    assert (Hm2 : (inject_Z (Z.pos m * 2^53) / inject_Z (Z.pos n) <= pow2 54)%Q).
    { rewrite <- pow2_Z by lia. eapply Qle_trans; [exact Hf2|]. rewrite <- Zle_Qle.
      assert (Z.pos m * 2^53 / Z.pos n < 2^54); [|lia].
      apply Z.div_lt_upper_bound; nia. }
    pose proof (pow2_pos (e - g - 53)) as Hp.
    assert (Hx : (pow2 (-1000) <= pow2 54 * pow2 (e - g - 53))%Q) by nra.
    rewrite <- pow2_add in Hx. apply pow2_le in Hx. lia. }
  unfold f64_div, SFdiv; cbn [xorb]. rewrite SFdiv_core_spec by lia.
  apply round_in; [lia|apply Zdigits2_ge; lia|done| |];
    unfold t; rewrite div_val; apply Qmult_le_compat_r; try done;
    apply Qlt_le_weak, pow2_pos.
Qed.

Lemma shl_align_val m e e' :
  e' <= e -> exists m', fst (shl_align m e e') = m' /\ Z.pos m' = Z.pos m * 2^(e - e').
Proof.
  intros He. eexists. split; [done|]. unfold shl_align.
  destruct (e' - e) as [|p|p] eqn:E; cbn [fst].
  - replace (e - e') with 0 by lia. lia.
  - lia.
  - replace (e - e') with (Z.pos p) by lia. clear E He.
    rewrite <- Z.shiftl_mul_pow2 by lia. cbn.
    by rewrite (Pos.iter_swap_gen _ _ Z.pos xO (Z.mul 2)) by done.
Qed.

(** [binary_round] of a mantissa that needs no left shift. *)
Lemma binary_round_no_shl s m e :
  53 <= Zdigits2 (Z.pos m) -> -1074 <= Zdigits2 (Z.pos m) + e - 53 ->
  binary_round 53 1024 s m e = binary_round_aux 53 1024 s (Z.pos m) e loc_Exact.
Proof.
  intros Hd He. unfold binary_round, shl_align, fexp, emin. change (Z.pos (digits2_pos m)) with (Zdigits2 (Z.pos m)).
  rewrite Z.max_l by lia.
  replace (Zdigits2 (Z.pos m) + e - 53 - e) with (Zdigits2 (Z.pos m) - 53) by lia.
  by destruct (Zdigits2 (Z.pos m) - 53) as [|p|p] eqn:E; [| |lia].
Qed.

Lemma f64_add_in x y a b c d :
  f64_in x a b -> f64_in y c d -> (0 < a)%Q -> (0 < c)%Q ->
  normal_range (a + c) -> normal_range (b + d) ->
  f64_in (f64_add x y) ((a + c) * (1 - ulp)) ((b + d) * (1 + ulp)).
Proof.
  intros (m & e & -> & Hm & Ha & Hb) (n & g & -> & Hn & Hc & Hd) Ha0 Hc0 Hlo Hhi.
  set (t := (f64_val m e + f64_val n g)%Q).
  assert (Ht : normal_range t) by (apply (normal_range_between _ (a + c) (b + d)); [done|done|subst t; lra|subst t; lra]).
  apply (ulp_weaken _ t); [|subst t; lra|subst t; lra].
  unfold f64_add, SFadd. set (ez := Z.min e g).
  destruct (shl_align_val m e ez) as (m' & -> & Hm'); [lia|].
  destruct (shl_align_val n g ez) as (n' & -> & Hn'); [lia|].
  change (f64_in (binary_round 53 1024 false (m' + n') ez) (t * (1 - ulp)) (t * (1 + ulp))).
  assert (Hv : (inject_Z (Z.pos (m' + n')) * pow2 ez == t)%Q).
  { rewrite Pos2Z.inj_add, Hm', Hn', inject_Z_plus, Qmult_plus_distr_l, !pow2_Zmul by lia.
    subst t. unfold f64_val. f_equiv; f_equiv; f_equiv; lia. }
  assert (Hbig : 2^52 <= Z.pos (m' + n')).
  { rewrite Pos2Z.inj_add, Hm', Hn'.
    pose proof (Z.pow_pos_nonneg 2 (e - ez)). pose proof (Z.pow_pos_nonneg 2 (g - ez)). nia. }
  assert (Hdig : 53 <= Zdigits2 (Z.pos (m' + n'))) by (apply Zdigits2_ge; lia).
  rewrite binary_round_no_shl; [|done|].
  - apply round_in; [lia|done|done|lra|].
    pose proof (Zle_pow2 (Z.pos (m' + n')) (Z.pos (m' + n') + 1) ez ltac:(lia)). lra.
  - pose proof (Zdigits2_bounds (Z.pos (m' + n')) ltac:(lia)) as Hb2.
    assert (Hx : -1000 <= ez + Zdigits2 (Z.pos (m' + n'))); [|lia].
    apply pow2_le. destruct Ht as [Ht _].
    pose proof (Zle_pow2 (Z.pos (m' + n')) (1 * 2^(Zdigits2 (Z.pos (m' + n')))) ez ltac:(lia)) as H.
    rewrite pow2_Zmul in H by lia. change (inject_Z 1) with 1%Q in H. lra.
Qed.

(** ** Conversions *)

(** An integer of at most 53 bits is represented exactly. *)
Lemma f64_of_Z_exact z :
  0 < z < 2^53 -> f64_in (fl z) (inject_Z z) (inject_Z z).
Proof.
  intros Hz. destruct z as [|p|p]; [lia| |lia]. unfold f64_of_Z, binary_normalize, binary_round.
  change (Z.pos (digits2_pos p)) with (Zdigits2 (Z.pos p)).
  pose proof (Zdigits2_bounds (Z.pos p) ltac:(lia)) as Hb.
  set (d := Zdigits2 (Z.pos p)) in *.
  assert (Hd : 1 <= d <= 53).
  { subst d. rewrite Zdigits2_log2 by lia. pose proof (Z.log2_nonneg (Z.pos p)).
    assert (Z.log2 (Z.pos p) < 53) by (apply Z.log2_lt_pow2; lia). lia. }
  clearbody d.
  replace (fexp 53 1024 (d + 0)) with (d - 53) by (unfold fexp, emin; lia).
  destruct (shl_align_val p 0 (d - 53)) as (m' & Hm' & Hv); [lia|].
  assert (Hsnd : snd (shl_align p 0 (d - 53)) = d - 53).
  { unfold shl_align. destruct (d - 53 - 0) eqn:E; cbn [snd]; lia. }
  destruct (shl_align p 0 (d - 53)) as [mz ez]. cbn [fst snd] in *. subst mz ez.
  replace (0 - (d - 53)) with (53 - d) in Hv by lia.
  assert (Hm53 : 2^52 <= Z.pos m' < 2^53).
  { rewrite Hv. replace (2^52) with (2^(d - 1) * 2^(53 - d)) by (rewrite <- Z.pow_add_r by lia; f_equal; lia).
    replace (2^53) with (2^d * 2^(53 - d)) by (rewrite <- Z.pow_add_r by lia; f_equal; lia).
    pose proof (Z.pow_pos_nonneg 2 (53 - d)). nia. }
  assert (Hd53 : Zdigits2 (Z.pos m') = 53) by (by apply Zdigits2_53).
  destruct (binary_round_aux_spec false (Z.pos m') (d - 53) loc_Exact)
    as (m & e & r & -> & _ & Hr & Hm & He); try (rewrite ?Hd53; lia).
  rewrite (Hr Hd53 eq_refl) in He. rewrite Hd53 in He.
  exists m, e. split; [done|]. split; [done|].
  destruct He as [[Hmr ->]|[Hmr ->]]; [|lia].
  assert (Hval : (f64_val m (d - 53 + (53 - 53)) == inject_Z (Z.pos p))%Q).
  { unfold f64_val. rewrite Hmr, Hv, pow2_Zmul by lia.
    replace (d - 53 + (53 - 53) + (53 - d)) with 0 by lia. change (pow2 0) with 1%Q. ring. }
  rewrite Hval. split; apply Qle_refl.
Qed.

Lemma f64_of_Z_in z :
  0 < z < 2^64 -> f64_in (fl z) (inject_Z z * (1 - ulp)) (inject_Z z * (1 + ulp)).
Proof.
  intros Hz. assert (0 < inject_Z z)%Q by (rewrite <- (Zlt_Qlt 0); lia).
  destruct (decide (z < 2^53)).
  { eapply f64_in_weaken; [apply f64_of_Z_exact; lia|unfold ulp; lra|unfold ulp; lra]. }
  destruct z as [|p|p]; [lia| |lia]. unfold f64_of_Z, binary_normalize.
  assert (53 <= Zdigits2 (Z.pos p)) by (apply Zdigits2_ge; lia).
  rewrite binary_round_no_shl by lia.
  assert (Hp0 : (pow2 0 == 1)%Q) by reflexivity.
  assert (Hsucc : (inject_Z (Z.pos p) <= inject_Z (Z.pos p + 1))%Q) by (rewrite <- Zle_Qle; lia).
  apply round_in; [lia|done| |rewrite Hp0; lra|rewrite Hp0; lra].
  split.
  - pose proof (pow2_mono (-1000) 0 ltac:(lia)).
    assert (inject_Z 1 <= inject_Z (Z.pos p))%Q by (rewrite <- Zle_Qle; lia).
    change (inject_Z 1) with 1%Q in *. lra.
  - pose proof (pow2_mono 64 1000 ltac:(lia)) as H1. rewrite <- pow2_Z in H1 by lia.
    assert (inject_Z (Z.pos p) <= inject_Z (2^64))%Q by (rewrite <- Zle_Qle; lia). lra.
Qed.

Lemma fl_2_63 : fl (2^63) = S754_finite false 4503599627370496 11.
Proof. reflexivity. Qed.

Lemma fl_m2_63 : fl (- 2^63) = S754_finite true 4503599627370496 11.
Proof. reflexivity. Qed.

Lemma fl_2_64 : fl (2^64) = S754_finite false 4503599627370496 12.
Proof. reflexivity. Qed.

Lemma fl_m1 : fl (-1) = S754_finite true 4503599627370496 (-52).
Proof. reflexivity. Qed.

(** The exponent of a double below 2^63. *)
Lemma f64_val_exp m e : 2^52 <= Z.pos m -> (f64_val m e < inject_Z (2^63))%Q -> e < 11.
Proof.
  intros Hm Hhi. destruct (decide (e < 11)); [done|exfalso].
  pose proof (pow2_mono 11 e ltac:(lia)).
  pose proof (Zle_pow2 (2^52) (Z.pos m) e ltac:(lia)) as H1.
  unfold f64_val in Hhi.
  assert (H2 : (inject_Z (2^63) == inject_Z (2^52) * pow2 11)%Q).
  { rewrite !pow2_Z, <- pow2_add by lia. reflexivity. }
  assert (0 < inject_Z (2^52))%Q by (by rewrite <- (Zlt_Qlt 0)). nra.
Qed.

(** Below 2^63 both truncations agree. *)
Lemma f64_trunc_unsigned x lo hi :
  f64_in x lo hi -> (hi < inject_Z (2^63))%Q -> f64_trunc_i64u x = f64_trunc_i64s x.
Proof.
  intros (m & e & -> & Hm & Hlo & Hhi) Hb.
  pose proof (f64_val_exp m e ltac:(lia) ltac:(lra)) as He.
  unfold f64_trunc_i64s, f64_trunc_i64u. rewrite fl_2_63, fl_m2_63, fl_2_64, fl_m1.
  unfold f64_le, f64_lt, SFleb, SFltb. cbn [SFcompare].
  assert (Z.compare 11 e = Gt) as -> by (apply Z.compare_gt_iff; lia).
  by assert (Z.compare 12 e = Gt) as -> by (apply Z.compare_gt_iff; lia).
Qed.

(** Truncation of a positive double below 2^63 is the floor of its value. *)
Lemma f64_trunc_in x lo hi :
  f64_in x lo hi -> (hi < inject_Z (2^63))%Q ->
  exists z, f64_trunc_i64s x = Ok z /\ 0 <= z /\ (inject_Z z <= hi)%Q /\ (lo < inject_Z (z + 1))%Q.
Proof.
  intros (m & e & -> & Hm & Hlo & Hhi) Hb.
  pose proof (f64_val_exp m e ltac:(lia) ltac:(lra)) as He.
  unfold f64_trunc_i64s. rewrite fl_2_63, fl_m2_63.
  unfold f64_le, f64_lt, SFleb, SFltb. cbn [SFcompare].
  assert (Z.compare 11 e = Gt) as -> by (apply Z.compare_gt_iff; lia). cbn [orb is_nan].
  eexists. split; [done|]. cbn [f64_trunc_Z]. unfold f64_val in *.
  destruct (Z.leb_spec 0 e).
  - assert (Hv : (inject_Z (Z.pos m * 2^e) == inject_Z (Z.pos m) * pow2 e)%Q)
      by (rewrite inject_Z_mult, pow2_Z by lia; ring).
    split; [pose proof (Z.pow_pos_nonneg 2 e); nia|].
    split; [lra|]. rewrite inject_Z_plus. change (inject_Z 1) with 1%Q. lra.
  - destruct (Qdiv_floor (Z.pos m) (2^(- e)) ltac:(lia)) as [H1 _].
    assert (Hv : (inject_Z (Z.pos m) / inject_Z (2^(- e)) == inject_Z (Z.pos m) * pow2 e)%Q).
    { assert (Hpe : (pow2 (- e) * pow2 e == 1)%Q).
      { rewrite <- pow2_add. replace (- e + e) with 0 by lia. reflexivity. }
      rewrite pow2_Z by lia. pose proof (pow2_pos (- e)).
      assert (H3 : (pow2 e == / pow2 (- e))%Q) by (field_simplify_eq; lra).
      rewrite H3. reflexivity. }
    split; [apply Z.div_pos; lia|]. split; [lra|].
    assert (H4 : (inject_Z (Z.pos m) / inject_Z (2^(- e)) < inject_Z (Z.pos m / 2^(- e) + 1))%Q).
    { apply Qlt_shift_div_r; [rewrite <- (Zlt_Qlt 0); lia|].
      rewrite <- inject_Z_mult, <- Zlt_Qlt.
      pose proof (Z.div_mod (Z.pos m) (2^(- e)) ltac:(lia)).
      pose proof (Z.mod_pos_bound (Z.pos m) (2^(- e)) ltac:(lia)). nia. }
    lra.
Qed.

(** ** Relative error

    [near x v n]: the double [x] approximates the rational [v] up to [n] units
    in the last place; the arithmetic of the contracts chains a few operations,
    so a linear error count is enough. *)

Definition moderate (v : Q) : Prop := (1 # 340282366920938463463374607431768211456 <= v)%Q /\ (v <= 340282366920938463463374607431768211456)%Q.

Definition err (n : Z) : Q := (inject_Z n * ulp)%Q.

Definition near (x : f64) (v : Q) (n : Z) : Prop :=
  0 <= n <= 100 /\ moderate v /\ f64_in x (v * (1 - err n)) (v * (1 + err n)).

Lemma err_range n : 0 <= n <= 200 -> (0 <= err n)%Q /\ (err n <= 1 # 17592186044416)%Q.
Proof.
  intros [H0 H1]. unfold err, ulp.
  assert (0 <= inject_Z n)%Q by (rewrite <- (Zle_Qle 0); lia).
  assert (inject_Z n <= inject_Z 200)%Q by (rewrite <- Zle_Qle; lia).
  change (inject_Z 200) with 200%Q in *. lra.
Qed.

Lemma err_add n m : (err (n + m) == err n + err m)%Q.
Proof. unfold err. rewrite inject_Z_plus. ring. Qed.

Lemma moderate_pos v : moderate v -> (0 < v)%Q.
Proof. intros [H _]. lra. Qed.

#[export] Instance moderate_proper : Proper (Qeq ==> iff) moderate.
Proof. intros a b E. unfold moderate. by rewrite E. Qed.

Lemma near_eq x v w n : (v == w)%Q -> near x v n -> near x w n.
Proof.
  intros E (Hn & Hv & Hx). split; [done|]. split; [by rewrite <- E|].
  eapply f64_in_weaken; [exact Hx|rewrite E; apply Qle_refl..].
Qed.

#[export] Instance normal_range_proper : Proper (Qeq ==> iff) normal_range.
Proof. intros a b E. unfold normal_range. by rewrite E. Qed.

Lemma moderate_normal v c : moderate v -> (1 # 2 <= c)%Q -> (c <= 2)%Q -> normal_range (v * c).
Proof.
  intros [H1 H2] H3 H4. split.
  - assert (pow2 (-1000) <= 1 # 680564733841876926926749214863536422912)%Q by (vm_compute; discriminate).
    assert ((1 # 340282366920938463463374607431768211456) * (1 # 2) <= v * c)%Q by nra. lra.
  - assert (680564733841876926926749214863536422912 <= pow2 1000)%Q by (vm_compute; discriminate).
    assert (v * c <= 340282366920938463463374607431768211456 * 2)%Q by nra.
    assert (340282366920938463463374607431768211456 * 2 == 680564733841876926926749214863536422912)%Q by reflexivity. lra.
Qed.

Section error_arith.
Variables n m : Z.
Hypotheses (Hn : 0 <= n <= 100) (Hm : 0 <= m <= 100).

Lemma mul_err_low : (1 - err (n + m + 2) <= (1 - err n) * (1 - err m) * (1 - ulp))%Q.
Proof.
  rewrite !err_add. pose proof (err_range n ltac:(lia)) as [A1 A2].
  pose proof (err_range m ltac:(lia)) as [B1 B2].
  assert (err 2 == 2 * ulp)%Q as -> by reflexivity.
  set (a := err n) in *. set (b := err m) in *. clearbody a b. unfold ulp in *.
  assert (H1 : (1 - a - b <= (1 - a) * (1 - b))%Q) by nra.
  assert (H2 : ((1 - a) * (1 - b) <= 1)%Q) by nra.
  set (p := ((1 - a) * (1 - b))%Q) in *. clearbody p. lra.
Qed.

Lemma mul_err_high : ((1 + err n) * (1 + err m) * (1 + ulp) <= 1 + err (n + m + 2))%Q.
Proof.
  rewrite !err_add. pose proof (err_range n ltac:(lia)) as [A1 A2].
  pose proof (err_range m ltac:(lia)) as [B1 B2].
  assert (err 2 == 2 * ulp)%Q as -> by reflexivity.
  assert (Hab : (err n * err m <= ulp * (1 # 8))%Q).
  { assert (Hn' : (inject_Z n <= 100)%Q) by (change 100%Q with (inject_Z 100); rewrite <- Zle_Qle; lia).
    assert (err n <= 100 * ulp)%Q by (unfold err, ulp in *; lra).
    unfold ulp in *. nra. }
  set (a := err n) in *. set (b := err m) in *. clearbody a b. unfold ulp in *. nra.
Qed.

Lemma div_err_low : (1 - err (n + m + 2) <= (1 - err n) / (1 + err m) * (1 - ulp))%Q.
Proof.
  pose proof mul_err_low as H. pose proof (err_range n ltac:(lia)) as [A1 A2].
  pose proof (err_range m ltac:(lia)) as [B1 B2]. eapply Qle_trans; [exact H|].
  assert (Hd : (1 - err m <= 1 / (1 + err m))%Q) by (apply Qle_shift_div_l; [lra|nra]).
  assert (E : ((1 - err n) / (1 + err m) == (1 - err n) * (1 / (1 + err m)))%Q)
    by (field; lra).
  rewrite E. set (d := (1 / (1 + err m))%Q) in *. clearbody d.
  assert (Hu : (0 <= 1 - ulp)%Q) by (unfold ulp; lra).
  apply Qmult_le_compat_r; [|done]. nra.
Qed.

Lemma div_err_high : ((1 + err n) / (1 - err m) * (1 + ulp) <= 1 + err (n + m + 2))%Q.
Proof.
  pose proof (err_range n ltac:(lia)) as [A1 A2]. pose proof (err_range m ltac:(lia)) as [B1 B2].
  rewrite !err_add. assert (err 2 == 2 * ulp)%Q as -> by reflexivity.
  assert (E : ((1 + err n) / (1 - err m) * (1 + ulp) == (1 + err n) * (1 + ulp) / (1 - err m))%Q)
    by (field; lra).
  rewrite E. apply Qle_shift_div_r; [lra|].
  assert (Hq : forall k, 0 <= k <= 100 -> (err k <= 100 * ulp)%Q).
  { intros k Hk. assert (inject_Z k <= inject_Z 100)%Q by (rewrite <- Zle_Qle; lia).
    change (inject_Z 100) with 100%Q in *. unfold err, ulp in *. lra. }
  pose proof (Hq n Hn). pose proof (Hq m Hm).
  set (a := err n) in *. set (b := err m) in *. clearbody a b. unfold ulp in *.
  assert ((a + b) * b <= 1 # 100000000000000000000)%Q by nra. nra.
Qed.
End error_arith.

Lemma Qscale_le p a b : (0 < p)%Q -> (a <= b)%Q -> (p * a <= p * b)%Q.
Proof. intros. nra. Qed.

Lemma near_range x v n : near x v n ->
  (0 < v * (1 - err n))%Q /\ (1 # 2 <= 1 - err n)%Q /\ (1 + err n <= 2)%Q.
Proof.
  intros (Hn & Hv & _). pose proof (err_range n ltac:(lia)) as [A1 A2].
  pose proof (moderate_pos v Hv). split; [apply Qmult_lt_0_compat; lra|lra].
Qed.

Lemma near_mul r x y v w n m :
  near x v n -> near y w m -> (v * w == r)%Q -> n + m + 2 <= 100 -> moderate r ->
  near (f64_mul x y) r (n + m + 2).
Proof.
  intros Hx Hy Er Hnm Hvw. rewrite <- Er in Hvw. apply (near_eq _ _ _ _ Er). clear r Er.
  pose proof (near_range _ _ _ Hx) as (X1 & X2 & X3). pose proof (near_range _ _ _ Hy) as (Y1 & Y2 & Y3).
  destruct Hx as (Hn & Hv & Hx), Hy as (Hm & Hw & Hy).
  pose proof (moderate_pos _ Hvw) as P.
  split; [lia|]. split; [done|].
  assert (E1 : (v * (1 - err n) * (w * (1 - err m)) == v * w * ((1 - err n) * (1 - err m)))%Q) by ring.
  assert (E2 : (v * (1 + err n) * (w * (1 + err m)) == v * w * ((1 + err n) * (1 + err m)))%Q) by ring.
  pose proof (mul_err_low n m Hn Hm) as L. pose proof (mul_err_high n m Hn Hm) as G.
  pose proof (err_range n ltac:(lia)) as [A1 A2]. pose proof (err_range m ltac:(lia)) as [B1 B2].
  eapply f64_in_weaken; [apply (f64_mul_in x y _ _ _ _ Hx Hy X1 Y1)| |].
  - rewrite E1. apply moderate_normal; [done|nra|nra].
  - rewrite E2. apply moderate_normal; [done|nra|nra].
  - rewrite E1. rewrite <- (Qmult_assoc (v * w)). by apply Qscale_le.
  - rewrite E2. rewrite <- (Qmult_assoc (v * w)). by apply Qscale_le.
Qed.

Lemma near_div r x y v w n m :
  near x v n -> near y w m -> (v / w == r)%Q -> n + m + 2 <= 100 -> moderate r ->
  near (f64_div x y) r (n + m + 2).
Proof.
  intros Hx Hy Er Hnm Hvw. rewrite <- Er in Hvw. apply (near_eq _ _ _ _ Er). clear r Er.
  pose proof (near_range _ _ _ Hx) as (X1 & X2 & X3). pose proof (near_range _ _ _ Hy) as (Y1 & Y2 & Y3).
  destruct Hx as (Hn & Hv & Hx), Hy as (Hm & Hw & Hy).
  pose proof (moderate_pos _ Hvw) as P. pose proof (moderate_pos _ Hw) as Pw.
  split; [lia|]. split; [done|].
  pose proof (err_range n ltac:(lia)) as [A1 A2]. pose proof (err_range m ltac:(lia)) as [B1 B2].
  assert (E1 : (v * (1 - err n) / (w * (1 + err m)) == v / w * ((1 - err n) / (1 + err m)))%Q)
    by (field; split; lra).
  assert (E2 : (v * (1 + err n) / (w * (1 - err m)) == v / w * ((1 + err n) / (1 - err m)))%Q)
    by (field; split; lra).
  pose proof (div_err_low n m Hn Hm) as L. pose proof (div_err_high n m Hn Hm) as G.
  eapply f64_in_weaken; [apply (f64_div_in x y _ _ _ _ Hx Hy X1 Y1)| |].
  - rewrite E1. apply moderate_normal; [done| |].
    + apply Qle_shift_div_l; lra.
    + apply Qle_shift_div_r; lra.
  - rewrite E2. apply moderate_normal; [done| |].
    + apply Qle_shift_div_l; lra.
    + apply Qle_shift_div_r; lra.
  - rewrite E1. rewrite <- (Qmult_assoc (v / w)). by apply Qscale_le.
  - rewrite E2. rewrite <- (Qmult_assoc (v / w)). by apply Qscale_le.
Qed.

Lemma moderate_Z z : 0 < z < 2^64 -> moderate (inject_Z z).
Proof.
  intros Hz. assert (inject_Z 1 <= inject_Z z)%Q by (rewrite <- Zle_Qle; lia).
  change (inject_Z 1) with 1%Q in *. split; [lra|].
  change 340282366920938463463374607431768211456%Q with (inject_Z 340282366920938463463374607431768211456). rewrite <- Zle_Qle. lia.
Qed.

Lemma near_exact z : 0 < z < 2^53 -> near (fl z) (inject_Z z) 0.
Proof.
  intros Hz. split; [lia|]. split; [apply moderate_Z; lia|].
  eapply f64_in_weaken; [by apply f64_of_Z_exact|change (err 0) with (0 * ulp)%Q; lra..].
Qed.

Lemma near_u64 z : 0 < z < 2^64 -> near (fl z) (inject_Z z) 1.
Proof.
  intros Hz. split; [lia|]. split; [by apply moderate_Z|].
  assert (E : (err 1 == ulp)%Q) by reflexivity.
  pose proof (moderate_pos _ (moderate_Z z Hz)).
  eapply f64_in_weaken; [by apply f64_of_Z_in| |]; rewrite E; lra.
Qed.

Lemma near_below_2_63 x v n : near x v n -> (v <= 4611686018427387904)%Q ->
  (v * (1 + err n) < inject_Z (2^63))%Q.
Proof.
  intros (Hn & Hm & _) Hv. pose proof (moderate_pos v Hm) as Hp.
  pose proof (err_range n ltac:(lia)) as [A1 A2].
  change (inject_Z (2^63)) with 9223372036854775808%Q. nra.
Qed.

(** Truncating an approximation of [v] loses at most the fraction and the
    accumulated relative error. *)
Lemma near_trunc x v n :
  near x v n -> (v <= 4611686018427387904)%Q ->
  exists z, f64_trunc_i64s x = Ok z /\ 0 <= z /\
    (inject_Z z <= v * (1 + err n))%Q /\ (v * (1 - err n) < inject_Z (z + 1))%Q.
Proof.
  intros Hx Hv. pose proof (near_below_2_63 _ _ _ Hx Hv). destruct Hx as (_ & _ & Hx).
  by apply (f64_trunc_in _ _ _ Hx).
Qed.

Lemma near_weaken x v n m : near x v n -> n <= m <= 100 -> near x v m.
Proof.
  intros (Hn & Hv & Hx) Hm. split; [lia|]. split; [done|].
  pose proof (moderate_pos v Hv). assert (err n <= err m)%Q.
  { unfold err. apply Qmult_le_compat_r; [rewrite <- Zle_Qle; lia|unfold ulp; lra]. }
  eapply f64_in_weaken; [exact Hx|nra|nra].
Qed.

Lemma near_add r x y v w n :
  near x v n -> near y w n -> (v + w == r)%Q -> n + 2 <= 100 -> moderate r ->
  near (f64_add x y) r (n + 2).
Proof.
  intros Hx Hy Er Hnm Hvw. rewrite <- Er in Hvw. apply (near_eq _ _ _ _ Er). clear r Er.
  pose proof (near_range _ _ _ Hx) as (X1 & X2 & X3). pose proof (near_range _ _ _ Hy) as (Y1 & _).
  destruct Hx as (Hn & Hv & Hx), Hy as (_ & Hw & Hy). pose proof (moderate_pos _ Hvw) as P.
  split; [lia|]. split; [done|].
  assert (E1 : (v * (1 - err n) + w * (1 - err n) == (v + w) * (1 - err n))%Q) by ring.
  assert (E2 : (v * (1 + err n) + w * (1 + err n) == (v + w) * (1 + err n))%Q) by ring.
  pose proof (mul_err_low n 0 Hn ltac:(lia)) as L. pose proof (mul_err_high n 0 Hn ltac:(lia)) as G.
  replace (n + 0 + 2) with (n + 2) in * by lia.
  assert (E0 : (err 0 == 0)%Q) by reflexivity. rewrite E0 in L, G.
  pose proof (err_range n ltac:(lia)) as [A1 A2].
  eapply f64_in_weaken; [apply (f64_add_in x y _ _ _ _ Hx Hy X1 Y1)| |].
  - rewrite E1. apply moderate_normal; [done|lra|lra].
  - rewrite E2. apply moderate_normal; [done|lra|lra].
  - rewrite E1, <- Qmult_assoc. apply Qscale_le; [done|]. lra.
  - rewrite E2, <- Qmult_assoc. apply Qscale_le; [done|]. lra.
Qed.

(** ** Zero *)

Lemma fl_0 : fl 0 = S754_zero false.
Proof. reflexivity. Qed.

Lemma f64_in_mul_zero x lo hi : f64_in x lo hi -> f64_mul x (S754_zero false) = S754_zero false.
Proof. by intros (m & e & -> & _). Qed.

Lemma f64_in_mul_zero_l x lo hi : f64_in x lo hi -> f64_mul (S754_zero false) x = S754_zero false.
Proof. by intros (m & e & -> & _). Qed.

Lemma f64_in_div_zero x lo hi : f64_in x lo hi -> f64_div (S754_zero false) x = S754_zero false.
Proof. by intros (m & e & -> & _). Qed.

Lemma f64_trunc_zero : f64_trunc_i64s (S754_zero false) = Ok 0.
Proof. reflexivity. Qed.

(** ** Fractions

    [near_frac x a d n]: [x] approximates the fraction a/d up to [n] units in
    the last place.  The side conditions are about integers only. *)

Definition near_frac (x : f64) (a : Z) (d : positive) (n : Z) : Prop :=
  0 < a /\ near x (inject_Z a * (1 # d)) n.

Lemma moderate_frac a d : 0 < a < 2^128 -> Z.pos d <= 2^128 -> moderate (inject_Z a * (1 # d)).
Proof.
  intros Ha Hd. unfold moderate, Qle; cbn [Qmult Qnum Qden inject_Z]. split; nia.
Qed.

Lemma frac_exact z : 0 < z < 2^53 -> near_frac (fl z) z 1 0.
Proof. intros Hz. split; [lia|]. apply (near_eq _ (inject_Z z)); [ring|]. by apply near_exact. Qed.

Lemma frac_u64 z : 0 < z < 2^64 -> near_frac (fl z) z 1 1.
Proof. intros Hz. split; [lia|]. apply (near_eq _ (inject_Z z)); [ring|]. by apply near_u64. Qed.

Lemma frac_mul x y a b d e n m :
  near_frac x a d n -> near_frac y b e m -> n + m + 2 <= 100 ->
  a * b < 2^128 -> Z.pos (d * e) <= 2^128 -> near_frac (f64_mul x y) (a * b) (d * e) (n + m + 2).
Proof.
  intros [Ha Hx] [Hb Hy] Hnm H1 H2. split; [nia|].
  apply (near_mul _ _ _ _ _ _ _ Hx Hy); [|done|apply moderate_frac; [nia|done]].
  rewrite inject_Z_mult. unfold Qeq; cbn. lia.
Qed.

Lemma frac_div x y a b d e n m :
  near_frac x a d n -> near_frac y (Z.pos b) e m -> n + m + 2 <= 100 ->
  a * Z.pos e < 2^128 -> Z.pos (d * b) <= 2^128 -> near_frac (f64_div x y) (a * Z.pos e) (d * b) (n + m + 2).
Proof.
  intros [Ha Hx] [Hb Hy] Hnm H1 H2. split; [nia|].
  apply (near_div _ _ _ _ _ _ _ Hx Hy); [|done|apply moderate_frac; [nia|done]].
  unfold Qeq, Qdiv, Qinv; cbn. by rewrite ?Pos.mul_1_r, ?Z.mul_1_r.
Qed.

Lemma frac_norm b e x a d n :
  near_frac x a d n -> a * Z.pos e = b * Z.pos d -> near_frac x b e n.
Proof.
  intros [Ha Hx] E. split; [nia|]. eapply near_eq; [|exact Hx]. unfold Qeq; cbn. lia.
Qed.

Lemma frac_weaken x a d n m : near_frac x a d n -> n <= m <= 100 -> near_frac x a d m.
Proof. intros [Ha Hx] Hm. split; [done|]. by eapply near_weaken. Qed.

Lemma frac_add x y a b d n :
  near_frac x a d n -> near_frac y b d n -> n + 2 <= 100 ->
  a + b < 2^128 -> Z.pos d <= 2^128 -> near_frac (f64_add x y) (a + b) d (n + 2).
Proof.
  intros [Ha Hx] [Hb Hy] Hn H1 H2. split; [lia|].
  apply (near_add _ _ _ _ _ _ Hx Hy); [|done|apply moderate_frac; [lia|done]].
  rewrite inject_Z_plus. ring.
Qed.

(** Truncating an approximation of a/d, with the error written out. *)
Lemma frac_floor x a d n :
  near_frac x a d n -> a <= Z.pos d * 2^62 ->
  exists z, f64_trunc_i64s x = Ok z /\ f64_trunc_i64u x = Ok z /\ 0 <= z /\
    z * Z.pos d * 2^52 <= a * (2^52 + n) /\ a * (2^52 - n) < (z + 1) * Z.pos d * 2^52.
Proof.
  intros [Ha Hx] Hb.
  assert (Hv : (inject_Z a * (1 # d) <= 4611686018427387904)%Q) by (unfold Qle; cbn; lia).
  pose proof (near_below_2_63 _ _ _ Hx Hv) as H63.
  destruct (near_trunc _ _ _ Hx Hv) as (z & Hz & H0 & H1 & H2).
  exists z. split; [done|]. split; [|split; [done|]].
  - destruct Hx as (_ & _ & Hx). by rewrite (f64_trunc_unsigned _ _ _ Hx).
  - unfold err, ulp, Qle, Qlt in H1, H2. cbn in H1, H2. nia.
Qed.

(** Truncating an approximation of a/d: at most a quarter above, less than one
    and a quarter below, when the accumulated error is at most a quarter. *)
Lemma frac_trunc x a d n :
  near_frac x a d n -> a * n <= Z.pos d * 2^50 -> a <= Z.pos d * 2^62 ->
  exists z, f64_trunc_i64s x = Ok z /\ 0 <= z /\
    4 * a - 5 * Z.pos d < 4 * Z.pos d * z <= 4 * a + Z.pos d.
Proof.
  intros Hx He Hb. pose proof Hx as [Ha _]. destruct (frac_floor _ _ _ _ Hx Hb) as (z & Hz & _ & H0 & H1 & H2).
  exists z. split; [done|]. split; [done|]. nia.
Qed.

(** ** Negative operands *)

Lemma round_aux_neg sx mx ex lx :
  binary_round_aux 53 1024 (negb sx) mx ex lx = SFopp (binary_round_aux 53 1024 sx mx ex lx).
Proof.
  unfold binary_round_aux. destruct (shr_fexp 53 1024 mx ex lx) as [r e].
  destruct (shr_fexp _ _ _ e loc_Exact) as [r' e']. destruct (shr_m r'); [done| |done].
  by destruct (e' <=? 1024 - 53).
Qed.

Lemma f64_of_Z_neg z : 0 < z -> fl (- z) = f64_neg (fl z).
Proof.
  intros Hz. destruct z as [|p|p]; [lia| |lia]. change (- Z.pos p) with (Z.neg p).
  unfold f64_of_Z, f64_neg, binary_normalize, binary_round. destruct (shl_align _ _ _) as [m e]. exact (round_aux_neg false _ _ _).
Qed.

Lemma f64_mul_neg x y : f64_mul x (f64_neg y) = f64_neg (f64_mul x y).
Proof.
  unfold f64_mul, f64_neg.
  destruct x as [sx|sx| |sx mx ex], y as [sy|sy| |sy my ey]; cbn; try done; try by destruct sx, sy.
  rewrite <- round_aux_neg. by destruct sx, sy.
Qed.

Lemma f64_trunc_neg x lo hi z :
  f64_in x lo hi -> (hi < inject_Z (2^63))%Q -> f64_trunc_i64s x = Ok z -> f64_trunc_i64s (f64_neg x) = Ok (- z).
Proof.
  intros (m & e & -> & Hm & Hlo & Hhi) Hb.
  pose proof (f64_val_exp m e ltac:(lia) ltac:(lra)) as He.
  unfold f64_trunc_i64s. rewrite fl_2_63, fl_m2_63. cbn [f64_neg SFopp negb].
  unfold f64_le, f64_lt, SFleb, SFltb. cbn [SFcompare].
  assert (Z.compare 11 e = Gt) as -> by (apply Z.compare_gt_iff; lia).
  assert (Z.compare e 11 = Lt) as -> by (apply Z.compare_lt_iff; lia).
  cbn [orb is_nan f64_trunc_Z]. by intros [= <-].
Qed.

Lemma frac_trunc_neg x a d n z : near_frac x a d n -> a <= Z.pos d * 2^62 ->
  f64_trunc_i64s x = Ok z -> f64_trunc_i64s (f64_neg x) = Ok (- z).
Proof.
  intros [Ha Hx] Hb Hz.
  assert (Hv : (inject_Z a * (1 # d) <= 4611686018427387904)%Q) by (unfold Qle; cbn; lia).
  pose proof (near_below_2_63 _ _ _ Hx Hv) as H63. destruct Hx as (_ & _ & Hx). by eapply f64_trunc_neg.
Qed.

Lemma frac_mul_zero x a d n : near_frac x a d n -> f64_mul x (S754_zero false) = S754_zero false.
Proof. intros (_ & _ & _ & H). by eapply f64_in_mul_zero. Qed.

Lemma frac_mul_zero_l x a d n : near_frac x a d n -> f64_mul (S754_zero false) x = S754_zero false.
Proof. intros (_ & _ & _ & H). by eapply f64_in_mul_zero_l. Qed.

Lemma frac_div_zero x a d n : near_frac x a d n -> f64_div (S754_zero false) x = S754_zero false.
Proof. intros (_ & _ & _ & H). by eapply f64_in_div_zero. Qed.

(** ** Exact integers

    Doubles that hold integers of at most 53 bits add, subtract, compare and truncate
    like the integers. *)

Definition int53 (z : Z) : Prop := - 2^53 < z < 2^53.

(** A mantissa of 53 bits, shifted by bits that are all zero. *)
Lemma iter_shr_exact p m : 0 <= m ->
  SpecFloat.iter_pos shr_1 p (Build_shr_record (m * 2^Z.pos p) false false) = Build_shr_record m false false.
Proof.
  assert (H1 : forall m, 0 <= m -> shr_1 (Build_shr_record (m * 2) false false) = Build_shr_record m false false).
  { intros [|q|q] Hm; [done| |lia]. by rewrite Z.mul_comm. }
  revert m. induction p as [p IH|p IH|]; intros m Hm; cbn [SpecFloat.iter_pos].
  - rewrite (Pos2Z.inj_xI p), Z.pow_add_r, Z.pow_1_r, Z.mul_assoc by lia.
    rewrite H1; [|pose proof (Z.pow_pos_nonneg 2 (2 * Z.pos p)); nia].
    replace (2 * Z.pos p) with (Z.pos p + Z.pos p) by lia. rewrite Z.pow_add_r, Z.mul_assoc by lia.
    rewrite !IH; [done|lia|pose proof (Z.pow_pos_nonneg 2 (Z.pos p)); nia].
  - rewrite (Pos2Z.inj_xO p). replace (2 * Z.pos p) with (Z.pos p + Z.pos p) by lia.
    rewrite Z.pow_add_r, Z.mul_assoc by lia.
    rewrite !IH; [done|lia|pose proof (Z.pow_pos_nonneg 2 (Z.pos p)); nia].
  - rewrite Z.pow_1_r. by apply H1.
Qed.

Lemma Zdigits2_shift m j : 0 < m -> 0 <= j -> Zdigits2 (m * 2^j) = Zdigits2 m + j.
Proof.
  intros Hm Hj. rewrite !Zdigits2_log2 by (pose proof (Z.pow_pos_nonneg 2 j); nia).
  rewrite Z.log2_mul_pow2 by lia. lia.
Qed.

Lemma round_aux_exact s q j e : 2^52 <= Z.pos q < 2^53 -> 0 <= j -> -1074 <= e <= 971 ->
  binary_round_aux 53 1024 s (Z.pos q * 2^j) (e - j) loc_Exact = S754_finite s q e.
Proof.
  intros Hq Hj He. pose proof (Zdigits2_53 q Hq) as Hd.
  unfold binary_round_aux.
  assert (shr_fexp 53 1024 (Z.pos q * 2^j) (e - j) loc_Exact = (Build_shr_record (Z.pos q) false false, e)) as ->.
  { unfold shr_fexp, shr, fexp, emin. rewrite Zdigits2_shift, Hd by lia. rewrite Z.max_l by lia.
    replace (53 + j + (e - j) - 53 - (e - j)) with j by lia.
    destruct j as [|p|p]; [|cbn [shr_record_of_loc]; rewrite iter_shr_exact by lia; f_equal; lia|lia].
    rewrite Z.pow_0_r, Z.mul_1_r, Z.sub_0_r. done. }
  cbn [shr_m loc_of_shr_record round_nearest_even].
  rewrite shr_fexp_exact by lia. cbn [shr_m].
  destruct (Z.leb_spec e (1024 - 53)); [done|lia].
Qed.

(** The 53-bit mantissa of a positive integer [z]. *)
Lemma mantissa z : 0 < z < 2^53 -> exists q,
  Z.pos q = z * 2^(53 - Zdigits2 z) /\ 2^52 <= Z.pos q < 2^53 /\ 1 <= Zdigits2 z <= 53.
Proof.
  intros Hz. pose proof (Zdigits2_bounds z ltac:(lia)) as Hb.
  assert (Hd : 1 <= Zdigits2 z <= 53).
  { rewrite Zdigits2_log2 by lia. pose proof (Z.log2_nonneg z).
    assert (Z.log2 z < 53) by (apply Z.log2_lt_pow2; lia). lia. }
  set (d := Zdigits2 z) in *. pose proof (Z.pow_pos_nonneg 2 (53 - d)).
  assert (H52 : 2^52 = 2^(d - 1) * 2^(53 - d)) by (rewrite <- Z.pow_add_r by lia; f_equal; lia).
  assert (H53 : 2^53 = 2^d * 2^(53 - d)) by (rewrite <- Z.pow_add_r by lia; f_equal; lia).
  exists (Z.to_pos (z * 2^(53 - d))). rewrite Z2Pos.id by nia. repeat split; nia.
Qed.

(** Rounding a mantissa [p] at a non-positive exponent that denotes an integer. *)
Lemma binary_round_exact s p e z q : 0 < z < 2^53 -> -1074 <= e <= 0 -> Z.pos p = z * 2^(- e) ->
  Z.pos q = z * 2^(53 - Zdigits2 z) -> binary_round 53 1024 s p e = S754_finite s q (Zdigits2 z - 53).
Proof.
  intros Hz He Hp Hq. destruct (mantissa z Hz) as (q' & Hq' & Hr & Hd).
  assert (q' = q) as -> by lia. unfold binary_round.
  change (Z.pos (digits2_pos p)) with (Zdigits2 (Z.pos p)). rewrite Hp at 1. rewrite Zdigits2_shift by lia.
  set (d := Zdigits2 z) in *.
  replace (fexp 53 1024 (d + - e + e)) with (d - 53) by (unfold fexp, emin; lia).
  destruct (Z.le_gt_cases (d - 53) e) as [Hle|Hgt].
  - destruct (shl_align_val p e (d - 53) Hle) as (m' & Hm' & Hv).
    assert (Hsnd : snd (shl_align p e (d - 53)) = d - 53).
    { unfold shl_align. destruct (d - 53 - e) eqn:E; cbn [snd]; lia. }
    destruct (shl_align p e (d - 53)) as [mz ez]. cbn [fst snd] in *. subst mz ez.
    assert (m' = q) as ->.
    { apply Pos2Z.inj. rewrite Hv, Hp, Hq, <- Z.mul_assoc, <- Z.pow_add_r by lia. do 2 f_equal. lia. }
    rewrite <- (round_aux_exact s q 0 (d - 53)) by lia. by rewrite Z.pow_0_r, Z.mul_1_r, Z.sub_0_r.
  - assert (shl_align p e (d - 53) = (p, e)) as ->.
    { unfold shl_align. destruct (d - 53 - e) eqn:E; [done|done|lia]. }
    rewrite <- (round_aux_exact s q (d - 53 - e) (d - 53)) by lia. f_equal; [|lia].
    rewrite Hp, Hq, <- Z.mul_assoc, <- Z.pow_add_r by lia. do 2 f_equal. lia.
Qed.

(** The double of a non-zero integer, in full. *)
Lemma fl_form z : int53 z -> z <> 0 -> exists q, 2^52 <= Z.pos q < 2^53 /\
  Z.pos q = Z.abs z * 2^(53 - Zdigits2 (Z.abs z)) /\ 1 <= Zdigits2 (Z.abs z) <= 53 /\
  fl z = S754_finite (z <? 0) q (Zdigits2 (Z.abs z) - 53).
Proof.
  unfold int53. intros Hz H0. destruct (mantissa (Z.abs z) ltac:(lia)) as (q & Hq & Hr & Hd).
  exists q. split; [done|]. split; [done|]. split; [done|]. unfold f64_of_Z, binary_normalize.
  destruct z as [|p|p]; [done| |]; apply binary_round_exact; rewrite ?Z.pow_0_r; cbn [Z.abs] in *; lia.
Qed.

Lemma normalize_exact z e : int53 z -> -1074 <= e <= 0 -> binary_normalize 53 1024 (z * 2^(- e)) e false = fl z.
Proof.
  intros Hz He. destruct (decide (z = 0)) as [->|H0]; [by rewrite Z.mul_0_l|].
  destruct (fl_form z Hz H0) as (q & Hr & Hq & Hd & ->). unfold int53 in Hz.
  pose proof (Z.pow_pos_nonneg 2 (- e) ltac:(lia) ltac:(lia)) as Hp. unfold binary_normalize.
  destruct (z * 2^(- e)) as [|p|p] eqn:E; [nia| |].
  - replace (z <? 0) with false by (symmetry; apply Z.ltb_ge; nia).
    apply binary_round_exact; [lia|done| |done]. rewrite Z.abs_eq by nia. lia.
  - replace (z <? 0) with true by (symmetry; apply Z.ltb_lt; nia).
    apply binary_round_exact; [lia|done| |done]. rewrite Z.abs_neq by nia. lia.
Qed.

Lemma aligned_val z q e : int53 z -> z <> 0 -> e <= Zdigits2 (Z.abs z) - 53 -> Zdigits2 (Z.abs z) <= 53 ->
  Z.pos q = Z.abs z * 2^(53 - Zdigits2 (Z.abs z)) ->
  cond_Zopp (z <? 0) (Z.pos (fst (shl_align q (Zdigits2 (Z.abs z) - 53) e))) = z * 2^(- e).
Proof.
  intros Hz H0 He Hd Hq. destruct (shl_align_val q (Zdigits2 (Z.abs z) - 53) e He) as (m & -> & Hm).
  rewrite Hq, <- Z.mul_assoc, <- Z.pow_add_r in Hm by lia.
  replace (53 - Zdigits2 (Z.abs z) + (Zdigits2 (Z.abs z) - 53 - e)) with (- e) in Hm by lia.
  rewrite Hm. unfold cond_Zopp. destruct (Z.ltb_spec z 0); [rewrite Z.abs_neq by lia|rewrite Z.abs_eq by lia]; lia.
Qed.

Lemma fl_add a b : int53 a -> int53 b -> int53 (a + b) -> f64_add (fl a) (fl b) = fl (a + b).
Proof.
  intros Ha Hb Hab. destruct (decide (a = 0)) as [->|Ha0].
  { rewrite Z.add_0_l. destruct (decide (b = 0)) as [->|Hb0]; [done|].
    by destruct (fl_form b Hb Hb0) as (q & _ & _ & _ & ->). }
  destruct (decide (b = 0)) as [->|Hb0].
  { rewrite Z.add_0_r. by destruct (fl_form a Ha Ha0) as (q & _ & _ & _ & ->). }
  destruct (fl_form a Ha Ha0) as (qa & _ & Hqa & Hda & ->). destruct (fl_form b Hb Hb0) as (qb & _ & Hqb & Hdb & ->).
  unfold f64_add, SFadd. set (ez := Z.min _ _). rewrite !aligned_val by (done || lia).
  rewrite <- Z.mul_add_distr_r. apply normalize_exact; [done|lia].
Qed.

Lemma fl_sub a b : int53 a -> int53 b -> int53 (a - b) -> f64_sub (fl a) (fl b) = fl (a - b).
Proof.
  intros Ha Hb Hab. destruct (decide (b = 0)) as [->|Hb0].
  { rewrite Z.sub_0_r. destruct (decide (a = 0)) as [->|Ha0]; [done|].
    by destruct (fl_form a Ha Ha0) as (q & _ & _ & _ & ->). }
  destruct (decide (a = 0)) as [->|Ha0].
  { destruct (fl_form b Hb Hb0) as (q & _ & Hq & _ & ->). unfold int53 in *.
    destruct (fl_form (0 - b)) as (q' & _ & Hq' & _ & ->); [unfold int53; lia|lia|].
    replace (Z.abs (0 - b)) with (Z.abs b) in * by lia. assert (q' = q) as -> by lia.
    cbn [f64_sub SFsub fl f64_of_Z binary_normalize]. unfold f64_sub, SFsub. cbn. f_equal. lia. }
  destruct (fl_form a Ha Ha0) as (qa & _ & Hqa & Hda & ->). destruct (fl_form b Hb Hb0) as (qb & _ & Hqb & Hdb & ->).
  unfold f64_sub, SFsub. set (ez := Z.min _ _). rewrite !aligned_val by (done || lia).
  rewrite <- Z.mul_sub_distr_r. apply normalize_exact; [done|lia].
Qed.

(** The sign tests of the contracts. *)
Lemma fl_lt_0 z : int53 z -> f64_lt (fl z) (fl 0) = (z <? 0).
Proof.
  intros Hz. destruct (decide (z = 0)) as [->|H0]; [done|].
  destruct (fl_form z Hz H0) as (q & _ & _ & _ & ->). by destruct (Z.ltb_spec z 0).
Qed.

Lemma fl_gt_0 z : int53 z -> f64_lt (fl 0) (fl z) = (0 <? z).
Proof.
  intros Hz. destruct (decide (z = 0)) as [->|H0]; [done|].
  destruct (fl_form z Hz H0) as (q & _ & _ & _ & ->).
  destruct (Z.ltb_spec z 0), (Z.ltb_spec 0 z); cbn; (done || lia).
Qed.

Lemma fl_le_0 z : int53 z -> f64_le (fl z) (fl 0) = (z <=? 0).
Proof.
  intros Hz. destruct (decide (z = 0)) as [->|H0]; [done|].
  destruct (fl_form z Hz H0) as (q & _ & _ & _ & ->).
  destruct (Z.ltb_spec z 0), (Z.leb_spec z 0); cbn; (done || lia).
Qed.

Lemma fl_ge_0 z : int53 z -> f64_le (fl 0) (fl z) = (0 <=? z).
Proof.
  intros Hz. destruct (decide (z = 0)) as [->|H0]; [done|].
  destruct (fl_form z Hz H0) as (q & _ & _ & _ & ->).
  destruct (Z.ltb_spec z 0), (Z.leb_spec 0 z); cbn; (done || lia).
Qed.

Lemma fl_trunc z : int53 z -> f64_trunc_i64s (fl z) = Ok z.
Proof.
  intros Hz. destruct (decide (z = 0)) as [->|H0]; [done|].
  destruct (fl_form z Hz H0) as (q & _ & Hq & Hd & ->).
  unfold f64_trunc_i64s. rewrite fl_2_63, fl_m2_63. unfold f64_le, f64_lt, SFleb, SFltb. cbn [SFcompare].
  assert (Z.compare 11 (Zdigits2 (Z.abs z) - 53) = Gt) as -> by (apply Z.compare_gt_iff; lia).
  assert (Z.compare (Zdigits2 (Z.abs z) - 53) 11 = Lt) as -> by (apply Z.compare_lt_iff; lia).
  assert (Hv : f64_trunc_Z (S754_finite (z <? 0) q (Zdigits2 (Z.abs z) - 53)) = z).
  { cbn [f64_trunc_Z]. set (d := Zdigits2 (Z.abs z)) in *.
    assert (Ha : (if 0 <=? d - 53 then Z.pos q * 2^(d - 53) else Z.pos q / 2^(- (d - 53))) = Z.abs z).
    { rewrite Hq. destruct (Z.leb_spec 0 (d - 53)).
      - replace (d - 53) with 0 by lia. replace (53 - d) with 0 by lia. lia.
      - replace (- (d - 53)) with (53 - d) by lia. apply Z.div_mul. lia. }
    rewrite Ha. destruct (Z.ltb_spec z 0); lia. }
  rewrite Hv. by destruct (z <? 0).
Qed.

(** From here on the operations are used through their specifications, and
    evaluated only by [vm_compute]. *)

(** Doubles of exact integers compare like the integers. *)
Lemma magnitudes a b p q : 0 < a -> 0 < b -> Z.pos p = a * 2^(53 - Zdigits2 a) -> Z.pos q = b * 2^(53 - Zdigits2 b) ->
  Zdigits2 a <= 53 -> Zdigits2 b <= 53 ->
  match Zdigits2 a - 53 ?= Zdigits2 b - 53 with Lt => Lt | Gt => Gt | Eq => Pos.compare_cont Eq p q end = (a ?= b).
Proof.
  intros Ha Hb Hp Hq Da Db. pose proof (Zdigits2_bounds a Ha) as Ba. pose proof (Zdigits2_bounds b Hb) as Bb.
  assert (Hlt : forall x y, 0 < x -> 0 < y -> Zdigits2 x < Zdigits2 y -> x < y).
  { intros x y Hx Hy Hd. pose proof (Zdigits2_bounds x Hx) as Bx. pose proof (Zdigits2_bounds y Hy) as By.
    pose proof (Z.pow_le_mono_r 2 (Zdigits2 x) (Zdigits2 y - 1) ltac:(lia) ltac:(lia)). lia. }
  destruct (Z.compare_spec (Zdigits2 a - 53) (Zdigits2 b - 53)) as [He|Hl|Hg].
  - change (Pos.compare_cont Eq p q) with (Z.pos p ?= Z.pos q). rewrite Hp, Hq. replace (Zdigits2 b) with (Zdigits2 a) by lia.
    symmetry. rewrite !(Z.mul_comm _ (2^_)). apply Zmult_compare_compat_l. apply Z.lt_gt, Z.pow_pos_nonneg; lia.
  - symmetry. apply Z.compare_lt_iff. apply Hlt; lia.
  - symmetry. apply Z.compare_gt_iff. apply Hlt; lia.
Qed.

Lemma fl_compare a b : int53 a -> int53 b -> SFcompare (fl a) (fl b) = Some (a ?= b).
Proof.
  intros Ha Hb. destruct (decide (a = 0)) as [->|Ha0]; destruct (decide (b = 0)) as [->|Hb0].
  - done.
  - destruct (fl_form b Hb Hb0) as (q & _ & _ & _ & ->). cbn [SFcompare]. destruct (Z.ltb_spec b 0), (Z.compare_spec 0 b); (done || lia).
  - destruct (fl_form a Ha Ha0) as (p & _ & _ & _ & ->). cbn [SFcompare]. destruct (Z.ltb_spec a 0), (Z.compare_spec a 0); (done || lia).
  - destruct (fl_form a Ha Ha0) as (p & _ & Hp & Da & ->), (fl_form b Hb Hb0) as (q & _ & Hq & Db & ->). cbn [SFcompare].
    pose proof (magnitudes (Z.abs a) (Z.abs b) p q ltac:(lia) ltac:(lia) Hp Hq ltac:(lia) ltac:(lia)) as Hm.
    destruct (Z.ltb_spec a 0), (Z.ltb_spec b 0); f_equal.
    + rewrite !Z.abs_neq in * by lia. transitivity (CompOpp (- a ?= - b)); [rewrite <- Hm; by destruct (_ - 53 ?= _)|].
      destruct (Z.compare_spec (- a) (- b)), (Z.compare_spec a b); (done || lia).
    + symmetry. apply Z.compare_lt_iff. lia.
    + symmetry. apply Z.compare_gt_iff. lia.
    + rewrite !Z.abs_eq in * by lia. exact Hm.
Qed.

Lemma fl_lt a b : int53 a -> int53 b -> f64_lt (fl a) (fl b) = (a <? b).
Proof. intros Ha Hb. unfold f64_lt, SFltb. rewrite fl_compare by done. unfold Z.ltb. by destruct (a ?= b). Qed.

#[global] Opaque f64_add f64_sub f64_mul f64_div f64_sqrt f64_of_Z f64_trunc_i64s f64_trunc_i64u.
