(* ===== verification/Names.v ===== *)
(** * Account names and the strings the contracts build and parse

    contracts/eosiolib/types.hpp encodes an account name of up to 13 base-32
    characters in a 64-bit integer.  The contracts also pass names and numbers
    through transfer memos (hddpool::channellog, hdddeposit::undeppool2 write
    them, channel.sys parses them), so the string operations of that path are
    modelled here: [find_first_of], [substr], [atoi], [std::to_string]. *)

From S2P Require Import Prelude.

(** A name is the 64-bit integer of [eosio::name]. *)
Abbreviation name := Z.

Definition ascii_Z (c : Ascii.ascii) : Z := Z.of_nat (Ascii.nat_of_ascii c).
Definition Z_ascii (z : Z) : Ascii.ascii := Ascii.ascii_of_nat (Z.to_nat z).

(** ** C strings *)

(** The characters before the terminating NUL. *)
Fixpoint c_str (s : string) : list Ascii.ascii :=
  match s with
  | EmptyString => []
  | String c s' => if ascii_Z c =? 0 then [] else c :: c_str s'
  end.

(** ** Names as integers *)

Definition char_to_symbol (c : Ascii.ascii) : Z :=
  let z := ascii_Z c in
  if (97 <=? z) && (z <=? 122) then (z - 97) + 6
  else if (49 <=? z) && (z <=? 53) then (z - 49) + 1
  else 0.

(** The contribution of character [i] of the string to the name. *)
Definition name_part (str : list Ascii.ascii) (i : nat) : Z :=
  let c := match str !! i with Some a => char_to_symbol a | None => 0 end in
  if (i <? 12)%nat
  then Z.shiftl (Z.land c 31) (64 - 5 * (Z.of_nat i + 1))
  else Z.land c 15.

Definition string_to_name (str : string) : name :=
  let s := c_str str in
  foldl (fun value i => Z.lor value (name_part s i)) 0 (seq 0 13).

(** ** Names as strings *)

Definition charmap : list Ascii.ascii :=
  String.list_ascii_of_string ".12345abcdefghijklmnopqrstuvwxyz".

Definition charmap_at (d : Z) : Ascii.ascii :=
  default (Ascii.ascii_of_nat 46) (charmap !! Z.to_nat d).

(** The loop fills the 13 characters from the right: 4 bits for the last one,
    5 for each of the others; [name_chars_go k tmp] are the [k] first ones. *)
Fixpoint name_chars_go (k : nat) (tmp : Z) : list Ascii.ascii :=
  match k with
  | O => []
  | S k' => name_chars_go k' (Z.shiftr tmp 5) ++ [charmap_at (Z.land tmp 31)]
  end.

Definition name_chars (n : name) : list Ascii.ascii :=
  name_chars_go 12 (Z.shiftr n 4) ++ [charmap_at (Z.land n 15)].

(** Remove the dots at the right end. *)
Fixpoint trim_right_dots (s : list Ascii.ascii) : list Ascii.ascii :=
  match s with
  | [] => []
  | c :: s' =>
      match trim_right_dots s' with
      | [] => if ascii_Z c =? 46 then [] else [c]
      | t => c :: t
      end
  end.

Definition name_to_string (n : name) : string :=
  String.string_of_list_ascii (trim_right_dots (name_chars n)).

(** ** Decimal numbers *)

(** [std::to_string] of a nonnegative integer below 10^fuel. *)
Fixpoint dec_go (fuel : nat) (n : Z) (acc : string) : string :=
  match fuel with
  | O => acc
  | S f =>
      let acc' := String (Z_ascii (48 + n mod 10)) acc in
      if n <? 10 then acc' else dec_go f (n / 10) acc'
  end.

(** Twenty digits are enough for any 64-bit integer. *)
Definition to_string (n : Z) : string :=
  if n <? 0 then String (Z_ascii 45) (dec_go 20 (- n) EmptyString)
  else dec_go 20 n EmptyString.

Definition is_space (c : Ascii.ascii) : bool :=
  let z := ascii_Z c in (z =? 32) || ((9 <=? z) && (z <=? 13)).
Definition is_digit (c : Ascii.ascii) : bool :=
  let z := ascii_Z c in (48 <=? z) && (z <=? 57).

Fixpoint atoi_digits (s : list Ascii.ascii) (acc : Z) : Z :=
  match s with
  | c :: s' => if is_digit c then atoi_digits s' (10 * acc + (ascii_Z c - 48)) else acc
  | [] => acc
  end.

Fixpoint skip_space (s : list Ascii.ascii) : list Ascii.ascii :=
  match s with
  | c :: s' => if is_space c then skip_space s' else s
  | [] => []
  end.

(** The C library's [atoi]: white space, an optional sign, digits. *)
Definition atoi (str : string) : Z :=
  match skip_space (c_str str) with
  | c :: s' =>
      if ascii_Z c =? 45 then - atoi_digits s' 0
      else if ascii_Z c =? 43 then atoi_digits s' 0
      else atoi_digits (c :: s') 0
  | [] => 0
  end.

(** ** Searching a string *)

(** [s.find_first_of(c, pos)]; [None] is [npos]. *)
Fixpoint find_first_of (c : Ascii.ascii) (pos : nat) (s : string) : option nat :=
  match s, pos with
  | EmptyString, _ => None
  | String a s', O => if Ascii.eqb a c then Some O else S <$> find_first_of c O s'
  | String a s', S p => S <$> find_first_of c p s'
  end.

Definition substr (pos len : nat) (s : string) : string := String.substring pos len s.

Example string_to_name_eosio : string_to_name "eosio" = 6138663577826885632.
Proof. reflexivity. Qed.

Example name_roundtrip_hddpool :
  name_to_string (string_to_name "hddpool12345") = "hddpool12345"%string.
Proof. reflexivity. Qed.

Example atoi_type : atoi "2:abc"%string = 2.
Proof. reflexivity. Qed.

Example to_string_zero : to_string 0 = "0"%string /\ to_string 36030 = "36030"%string.
Proof. by split. Qed.

(** ** Properties *)

Lemma c_str_of_list l :
  Forall (fun c => ascii_Z c <> 0) l -> c_str (String.string_of_list_ascii l) = l.
Proof.
  induction 1 as [|c l Hc _ IH]; cbn; [done|].
  destruct (Z.eqb_spec (ascii_Z c) 0); [done|]. by rewrite IH.
Qed.

Lemma charmap_at_ok d :
  0 <= d < 32 -> char_to_symbol (charmap_at d) = d /\ ascii_Z (charmap_at d) <> 0.
Proof.
  intros Hd. assert (Hn : (Z.to_nat d < 32)%nat) by lia.
  rewrite <- (Z2Nat.id d) by lia. generalize dependent (Z.to_nat d). clear.
  intros n Hn. do 32 (destruct n as [|n]; [done|]). lia.
Qed.

Lemma dot_symbol c : ascii_Z c = 46 -> char_to_symbol c = 0.
Proof. intros H. unfold char_to_symbol. by rewrite H. Qed.

(** Dropping trailing dots does not change any character's symbol. *)
Lemma trim_symbols s i :
  default 0 (char_to_symbol <$> trim_right_dots s !! i) =
  default 0 (char_to_symbol <$> s !! i).
Proof.
  revert i. induction s as [|c s IH]; intros i; [done|]. cbn [trim_right_dots].
  destruct (trim_right_dots s) as [|t ts] eqn:E.
  - destruct i as [|i]; cbn.
    + destruct (Z.eqb_spec (ascii_Z c) 46) as [H|]; cbn; [by rewrite dot_symbol|done].
    + rewrite <- IH. by destruct (ascii_Z c =? 46).
  - destruct i as [|i]; [done|]. cbn. by rewrite <- IH.
Qed.

Lemma trim_Forall (P : Ascii.ascii -> Prop) s : Forall P s -> Forall P (trim_right_dots s).
Proof.
  induction 1 as [|c s Hc _ IH]; [constructor|]. cbn.
  destruct (trim_right_dots s); [|by constructor].
  destruct (ascii_Z c =? 46); repeat constructor. done.
Qed.

Lemma name_part_default str i :
  name_part str i =
    let c := default 0 (char_to_symbol <$> str !! i) in
    if (i <? 12)%nat then Z.shiftl (Z.land c 31) (64 - 5 * (Z.of_nat i + 1)) else Z.land c 15.
Proof. unfold name_part. by destruct (str !! i). Qed.

Lemma name_part_trim s i : name_part (trim_right_dots s) i = name_part s i.
Proof. rewrite !name_part_default. by rewrite trim_symbols. Qed.

Lemma land_ones_bound n w : 0 <= w -> 0 <= Z.land n (Z.ones w) < 2^w.
Proof. intros. rewrite Z.land_ones by done. apply Z.mod_pos_bound. lia. Qed.

Lemma land31 n : 0 <= Z.land n 31 < 32.
Proof. exact (land_ones_bound n 5 ltac:(done)). Qed.

Lemma land15 n : 0 <= Z.land n 15 < 32.
Proof. pose proof (land_ones_bound n 4 ltac:(done)) as H. change (Z.ones 4) with 15 in H. lia. Qed.

Lemma name_chars_in_charmap n : Forall (fun c => c ∈ charmap) (name_chars n).
Proof.
  assert (Hat : forall d, 0 <= d < 32 -> charmap_at d ∈ charmap).
  { intros d Hd. unfold charmap_at. destruct (lookup_lt_is_Some_2 charmap (Z.to_nat d)) as [c Hc].
    { change (length charmap) with 32%nat. lia. }
    rewrite Hc. cbn. apply list_elem_of_lookup. eauto. }
  assert (Hgo : forall k t, Forall (fun c => c ∈ charmap) (name_chars_go k t)).
  { induction k as [|k IH]; intros t; [constructor|]. cbn. apply Forall_app. split; [done|].
    constructor; [|done]. apply Hat, land31. }
  apply Forall_app. split; [done|]. constructor; [|done]. apply Hat, land15.
Qed.

(** The characters of a name are neither the terminating zero nor a colon. *)
Lemma charmap_plain c : c ∈ charmap -> ascii_Z c <> 0 /\ ascii_Z c <> 58.
Proof.
  intros H. assert (Hall : Forall (fun c => ascii_Z c <> 0 /\ ascii_Z c <> 58) charmap).
  { repeat constructor; done. }
  rewrite Forall_forall in Hall. auto.
Qed.

Lemma name_chars_nonzero n : Forall (fun c => ascii_Z c <> 0) (name_chars n).
Proof. eapply Forall_impl; [apply name_chars_in_charmap|]. intros c H. by apply charmap_plain. Qed.

(** A field of [w] bits at position [s], put back in place. *)
Lemma field_testbit n s w i :
  0 <= s -> 0 <= w -> 0 <= i ->
  Z.testbit (Z.shiftl (Z.land (Z.shiftr n s) (Z.ones w)) s) i =
  Z.testbit n i && ((s <=? i) && (i <? s + w)).
Proof.
  intros Hs Hw Hi. rewrite Z.shiftl_spec by done.
  destruct (Z.leb_spec s i); cbn.
  - rewrite Z.land_spec, Z.shiftr_spec by lia. replace (i - s + s) with i by lia.
    f_equal. destruct (Z.ltb_spec i (s + w)).
    + rewrite Z.ones_spec_low by lia. done.
    + rewrite Z.ones_spec_high by lia. done.
  - rewrite Z.testbit_neg_r by lia. by rewrite andb_false_r.
Qed.

(** The thirteen characters of a name carry its sixty-four bits. *)
Lemma name_part_chars n i :
  (i < 13)%nat ->
  name_part (name_chars n) i =
    (let s := if (i <? 12)%nat then 59 - 5 * Z.of_nat i else 0 in
     let w := if (i <? 12)%nat then 5 else 4 in
     Z.shiftl (Z.land (Z.shiftr n s) (Z.ones w)) s).
Proof.
  intros Hi. rewrite name_part_default.
  do 13 (destruct i as [|i]; [
    cbn -[Z.shiftr Z.shiftl Z.land charmap_at char_to_symbol Z.ones];
    rewrite ?Z.shiftr_shiftr by lia; cbn [Z.add Pos.add Pos.succ Pos.add_carry];
    first [rewrite (proj1 (charmap_at_ok _ (land31 _))) | rewrite (proj1 (charmap_at_ok _ (land15 _)))];
    rewrite <- ?Z.land_assoc; rewrite ?Z.land_diag, ?Z.shiftr_0_r, ?Z.shiftl_0_r; reflexivity|]).
  lia.
Qed.

Lemma fields_of_name n : is_u64 n ->
  foldl (fun value i => Z.lor value
    (let s := if (i <? 12)%nat then 59 - 5 * Z.of_nat i else 0 in
     let w := if (i <? 12)%nat then 5 else 4 in
     Z.shiftl (Z.land (Z.shiftr n s) (Z.ones w)) s)) 0 (seq 0 13) = n.
Proof.
  intros [H0 H1]. apply Z.bits_inj'. intros i Hi.
  cbn -[Z.shiftr Z.shiftl Z.land Z.ones Z.lor Z.testbit].
  rewrite !Z.lor_spec, !field_testbit, Z.bits_0, orb_false_l by lia.
  rewrite <- !andb_orb_distrib_r.
  destruct (Z.ltb_spec i 64).
  - rewrite <- andb_true_r. f_equal. lia.
  - rewrite <- (Z.mod_small n (2^64)), Z.mod_pow2_bits_high by lia. done.
Qed.

Lemma lor_u64 a b : is_u64 a -> is_u64 b -> is_u64 (Z.lor a b).
Proof.
  unfold is_u64. intros Ha Hb.
  replace (Z.lor a b) with (Z.lor a b mod 2^64); [apply Z.mod_pos_bound; lia|].
  rewrite <- !Z.land_ones, Z.land_lor_distr_l, !Z.land_ones by lia.
  by rewrite !Z.mod_small by lia.
Qed.

Lemma string_to_name_range str : is_u64 (string_to_name str).
Proof.
  assert (Hpart : forall s i, (i < 13)%nat -> is_u64 (name_part s i)).
  { intros s i Hi. rewrite name_part_default. cbn zeta.
    generalize (default 0 (char_to_symbol <$> s !! i)). intros c.
    pose proof (land31 c). pose proof (land15 c). unfold is_u64.
    destruct (Nat.ltb_spec i 12); [|lia]. rewrite Z.shiftl_mul_pow2 by lia.
    assert (2 ^ (64 - 5 * (Z.of_nat i + 1)) <= 2 ^ 59) by (apply Z.pow_le_mono_r; lia).
    nia. }
  assert (Hfold : forall l a, is_u64 a -> Forall (fun i => (i < 13)%nat) l ->
    is_u64 (foldl (fun v i => Z.lor v (name_part (c_str str) i)) a l)).
  { induction l as [|i l IH]; intros a Ha Hl; [done|]. inversion Hl; subst. cbn.
    apply IH; [|done]. specialize (Hpart (c_str str) i ltac:(done)).
    by apply lor_u64. }
  apply Hfold; [done|]. apply Forall_seq. lia.
Qed.

Lemma name_to_string_roundtrip n : is_u64 n -> string_to_name (name_to_string n) = n.
Proof.
  intros Hn. unfold string_to_name, name_to_string.
  rewrite c_str_of_list by (apply trim_Forall, name_chars_nonzero).
  transitivity (foldl (fun value i => Z.lor value (name_part (name_chars n) i)) 0 (seq 0 13)).
  - cbn [foldl seq]. by rewrite !name_part_trim.
  - etransitivity; [|exact (fields_of_name n Hn)]. cbn [foldl seq].
    by rewrite !name_part_chars by lia.
Qed.

(** converting an account name to a string and back gives the same name,
    for every 64-bit name (the last of the thirteen characters has four bits,
    the others five, and the trailing dots the string drops are zero fields). *)
Theorem name_string_roundtrip n : is_u64 n -> string_to_name (name_to_string n) = n.
Proof. exact (name_to_string_roundtrip n). Qed.

Lemma name_string_roundtrip_witness :
  name_to_string 7661566699875911760 = "hddpool12345"%string /\
  string_to_name (name_to_string 7661566699875911760) = 7661566699875911760.
Proof. split; [reflexivity|]. apply name_string_roundtrip. unfold is_u64. lia. Defined.

(** ** Fields of a string *)

#[local] Arguments String.append !_ _ / : simpl nomatch.

(** [c] does not occur in [s]. *)
Definition free_of (c : Ascii.ascii) (s : string) : Prop := find_first_of c 0 s = None.

Lemma find_first_of_here c s t :
  free_of c s -> find_first_of c 0 (s +:+ String c t)%string = Some (String.length s).
Proof.
  unfold free_of. induction s as [|a s IH]; cbn [String.append find_first_of String.length].
  - by rewrite Ascii.eqb_refl.
  - destruct (Ascii.eqb a c); [done|]. intros H. destruct (find_first_of c 0 s) eqn:E; [done|]. by rewrite IH.
Qed.

Lemma find_first_of_skip c s t :
  find_first_of c (String.length s) (s +:+ t)%string = Nat.add (String.length s) <$> find_first_of c 0 t.
Proof.
  induction s as [|a s IH]; cbn.
  - by destruct (find_first_of c 0 t).
  - rewrite IH. by destruct (find_first_of c 0 t).
Qed.

Lemma substr_prefix s t : substr 0 (String.length s) (s +:+ t)%string = s.
Proof.
  unfold substr. induction s as [|a s IH]; cbn; [by destruct t|]. by rewrite IH.
Qed.

Lemma substr_skip s n t : substr (String.length s) n (s +:+ t)%string = substr 0 n t.
Proof. unfold substr. induction s as [|a s IH]; cbn; [done|]. exact IH. Qed.

Lemma name_to_string_plain n : free_of (Z_ascii 58) (name_to_string n).
Proof.
  unfold free_of, name_to_string.
  assert (H : Forall (fun c => c ∈ charmap) (trim_right_dots (name_chars n)))
    by apply trim_Forall, name_chars_in_charmap.
  induction H as [|c l Hc _ IH]; [done|]. cbn. rewrite IH.
  destruct (Ascii.eqb_spec c (Z_ascii 58)) as [->|]; [|done].
  by apply charmap_plain in Hc as [_ ?].
Qed.

(** Decimal strings of bytes: read back by [atoi], and without colons. *)
Lemma to_string_byte n : 0 <= n < 256 -> atoi (to_string n) = n /\ free_of (Z_ascii 58) (to_string n).
Proof.
  intros Hn. unfold free_of.
  assert (H : forallb (fun n => (atoi (to_string n) =? n) && bool_decide (find_first_of (Z_ascii 58) 0 (to_string n) = None))
                (seqZ 0 256) = true) by (vm_compute; reflexivity).
  rewrite forallb_forall in H. specialize (H n). rewrite <- list_elem_of_In, elem_of_seqZ in H.
  specialize (H ltac:(lia)). apply andb_prop in H as [H1%Z.eqb_eq H2%bool_decide_eq_true]. done.
Qed.
