(* ===== verification/Asset.v ===== *)
(** * Symbols and assets

    contracts/eosiolib/symbol.hpp packs a token symbol into 64 bits: the
    precision in the low byte, then up to seven upper-case letters.
    contracts/eosiolib/asset.hpp pairs a signed 64-bit amount with a symbol and
    checks the range of every sum and difference.  The section on symbols shows
    that [is_valid_symbol] accepts exactly the encodings of one to seven
    letters; the section on amounts that the checked operations never let a
    wrapped amount through. *)

From S2P Require Import Prelude Names.

(** ** Symbols *)

Abbreviation symbol_name := Z.

Definition is_upper (c : Ascii.ascii) : bool :=
  (65 <=? ascii_Z c) && (ascii_Z c <=? 90).

Fixpoint symbol_letters (i : Z) (str : list Ascii.ascii) (result : Z) : Z :=
  match str with
  | [] => result
  | c :: str' =>
      symbol_letters (i + 1) str'
        (if is_upper c then Z.lor result (u64 (Z.shiftl (ascii_Z c) (8 * (1 + i)))) else result)
  end.

Definition string_to_symbol (precision : Z) (str : string) : symbol_name :=
  Z.lor (symbol_letters 0 (c_str str) 0) precision.

(** The inner loop of [is_valid_symbol]: the remaining bytes are zero. *)
Fixpoint symbol_tail (k : nat) (sym : Z) : bool :=
  match k with
  | O => true
  | S k' =>
      let sym := Z.shiftr sym 8 in
      if negb (Z.land sym 255 =? 0) then false else symbol_tail k' sym
  end.

(** The outer loop with [k] iterations left. *)
Fixpoint symbol_loop (k : nat) (sym : Z) : bool :=
  match k with
  | O => true
  | S k' =>
      let c := Z.land sym 255 in
      if negb ((65 <=? c) && (c <=? 90)) then false
      else
        let sym := Z.shiftr sym 8 in
        if Z.land sym 255 =? 0 then symbol_tail k sym else symbol_loop k' sym
  end.

Definition is_valid_symbol (sym : symbol_name) : bool :=
  symbol_loop 7 (Z.shiftr sym 8).

(** [symbol_type::name], [symbol_type::precision]. *)
Definition symbol_code (value : symbol_name) : Z := Z.shiftr value 8.
Definition symbol_precision (value : symbol_name) : Z := Z.land value 255.

(** [S(4,YTA)], the symbol the build configures. *)
Definition CORE_SYMBOL : symbol_name := Eval vm_compute in string_to_symbol 4 "YTA".

(** ** Assets *)

Record asset := mkAsset { amount : Z; symbol : symbol_name }.
#[export] Instance eta_asset : Eta asset := fun a => mkAsset (amount a) (symbol a).

Definition max_amount : Z := 2^62 - 1.

Definition is_amount_within_range (a : asset) : bool :=
  (- max_amount <=? amount a) && (amount a <=? max_amount).

Definition asset_is_valid (a : asset) : bool :=
  is_amount_within_range a && is_valid_symbol (symbol a).

(** [eosio_assert] outside the action monad. *)
Definition guard_ (b : bool) (msg : string) : res unit :=
  if b then Ok tt else Err (AssertFail msg).

(** The constructor [asset(a, s)]. *)
Definition asset_make (a : Z) (s : symbol_name) : res asset :=
  let r := mkAsset a s in
  _ ← guard_ (is_amount_within_range r) "magnitude of asset amount must be less than 2^62";
  _ ← guard_ (is_valid_symbol s) "invalid symbol name";
  Ok r.

Definition core (a : Z) : asset := mkAsset a CORE_SYMBOL.

(** [operator-=] and [operator+=]. *)
Definition asset_sub (x a : asset) : res asset :=
  _ ← guard_ (symbol a =? symbol x) "attempt to subtract asset with different symbol";
  let v := i64 (amount x - amount a) in
  _ ← guard_ (- max_amount <=? v) "subtraction underflow";
  _ ← guard_ (v <=? max_amount) "subtraction overflow";
  Ok (mkAsset v (symbol x)).

Definition asset_add (x a : asset) : res asset :=
  _ ← guard_ (symbol a =? symbol x) "attempt to add asset with different symbol";
  let v := i64 (amount x + amount a) in
  _ ← guard_ (- max_amount <=? v) "addition underflow";
  _ ← guard_ (v <=? max_amount) "addition overflow";
  Ok (mkAsset v (symbol x)).

(** [operator*=] multiplies in 128 bits, [operator/=] truncates. *)
Definition asset_mul (x : asset) (a : Z) : res asset :=
  let tmp := amount x * a in
  _ ← guard_ (tmp <=? max_amount) "multiplication overflow";
  _ ← guard_ (- max_amount <=? tmp) "multiplication underflow";
  Ok (mkAsset tmp (symbol x)).

Definition asset_div (x : asset) (a : Z) : res asset :=
  _ ← guard_ (negb (a =? 0)) "divide by zero";
  _ ← guard_ (negb ((amount x =? - 2^63) && (a =? -1))) "signed division overflow";
  Ok (mkAsset (Z.quot (amount x) a) (symbol x)).

(** The comparisons [a >= b], [a < b] demand one symbol. *)
Definition asset_ge (a b : asset) : res bool :=
  _ ← guard_ (symbol a =? symbol b) "comparison of assets with different symbols is not allowed";
  Ok (amount b <=? amount a).

Definition asset_lt (a b : asset) : res bool :=
  _ ← guard_ (symbol a =? symbol b) "comparison of assets with different symbols is not allowed";
  Ok (amount a <? amount b).

(** ** Properties of symbols *)

(** The letters of a symbol as a little-endian number. *)
Fixpoint letters_Z (str : list Ascii.ascii) : Z :=
  match str with [] => 0 | c :: str' => ascii_Z c + 256 * letters_Z str' end.

Lemma ascii_Z_range c : 0 <= ascii_Z c < 256.
Proof. unfold ascii_Z. pose proof (Ascii.nat_ascii_bounded c). lia. Qed.

Lemma ascii_Z_ascii z : 0 <= z < 256 -> ascii_Z (Z_ascii z) = z.
Proof.
  intros. unfold ascii_Z, Z_ascii. rewrite Ascii.nat_ascii_embedding by lia. lia.
Qed.

Lemma letters_range str : 0 <= letters_Z str < 256 ^ Z.of_nat (length str).
Proof.
  induction str as [|c str IH]; cbn [letters_Z length]; [done|].
  rewrite Nat2Z.inj_succ, Z.pow_succ_r by lia. pose proof (ascii_Z_range c). lia.
Qed.

Lemma symbol_letters_spec str i r :
  Forall (fun c => is_upper c = true) str -> 0 <= i -> i + Z.of_nat (length str) <= 7 ->
  0 <= r < 2^(8 * (1 + i)) ->
  symbol_letters i str r = r + letters_Z str * 2^(8 * (1 + i)).
Proof.
  intros Hup. revert i r. induction Hup as [|c str Hc Hup IH]; cbn [symbol_letters letters_Z length];
    intros i r Hi Hl Hr; [lia|].
  pose proof (ascii_Z_range c). rewrite Hc.
  assert (Hp : 0 < 2 ^ (8 * (1 + i))) by (apply Z.pow_pos_nonneg; lia).
  assert (H56 : 2 ^ (8 * (1 + i)) <= 2^56) by (apply Z.pow_le_mono_r; lia).
  assert (Hs : 2 ^ (8 * (1 + (i + 1))) = 256 * 2 ^ (8 * (1 + i))).
  { replace (8 * (1 + (i + 1))) with (8 + 8 * (1 + i)) by lia. rewrite Z.pow_add_r by lia. lia. }
  rewrite u64_id; [|unfold is_u64; rewrite Z.shiftl_mul_pow2 by lia; nia].
  rewrite lor_high, IH by (try lia; nia). rewrite Hs. ring.
Qed.

Lemma string_to_symbol_letters p str :
  Forall (fun c => is_upper c = true) str -> (length str <= 7)%nat -> 0 <= p < 256 ->
  string_to_symbol p (String.string_of_list_ascii str) = p + 256 * letters_Z str.
Proof.
  intros Hup Hlen Hp. unfold string_to_symbol.
  rewrite c_str_of_list, symbol_letters_spec; try done; try lia.
  - replace (0 + letters_Z str * 2 ^ (8 * (1 + 0))) with (Z.shiftl (letters_Z str) 8)
      by (rewrite Z.shiftl_mul_pow2 by done; lia).
    rewrite Z.lor_comm, lor_high by lia. lia.
  - eapply Forall_impl; [exact Hup|]. unfold is_upper. intros c Hc ?. lia.
Qed.

Lemma byte_split z : z = Z.land z 255 + 256 * Z.shiftr z 8.
Proof.
  change 255 with (Z.ones 8). rewrite Z.land_ones, Z.shiftr_div_pow2 by lia.
  pose proof (Z.div_mod z (2^8)). lia.
Qed.

Lemma byte_range z : 0 <= Z.land z 255 < 256.
Proof. exact (land_ones_bound z 8 ltac:(done)). Qed.

Lemma symbol_tail_zero k sym : symbol_tail k sym = true -> 0 <= sym ->
  Z.land sym 255 = 0 -> sym < 256 ^ Z.of_nat (S k) -> sym = 0.
Proof.
  revert sym. induction k as [|k IH]; intros sym Ht H0 Hz Hlt.
  - pose proof (byte_split sym). lia.
  - cbn [symbol_tail] in Ht. destruct (Z.eqb_spec (Z.land (Z.shiftr sym 8) 255) 0); [|done].
    cbn in Ht. pose proof (byte_split sym). rewrite Nat2Z.inj_succ, Z.pow_succ_r in Hlt by lia.
    assert (Z.shiftr sym 8 = 0) by (apply IH; (done || lia)). lia.
Qed.

Lemma symbol_tail_of_zero k : symbol_tail k 0 = true.
Proof. induction k; cbn; [done|]. by rewrite Z.shiftr_0_l. Qed.

Lemma symbol_loop_letters k sym : 0 <= sym < 256 ^ Z.of_nat k -> (0 < k)%nat ->
  symbol_loop k sym = true ->
  exists str, (1 <= length str <= k)%nat /\ Forall (fun c => is_upper c = true) str /\
    letters_Z str = sym.
Proof.
  revert sym. induction k as [|k IH]; [lia|]. intros sym Hs _. cbn [symbol_loop].
  pose proof (byte_range sym) as Hb. pose proof (byte_split sym) as E.
  set (c := Z.land sym 255) in *. set (q := Z.shiftr sym 8) in *.
  destruct ((65 <=? c) && (c <=? 90)) eqn:Hc; [|done]. cbn [negb].
  assert (Hup : is_upper (Z_ascii c) = true) by (unfold is_upper; rewrite ascii_Z_ascii; lia).
  rewrite Nat2Z.inj_succ, Z.pow_succ_r in Hs by lia.
  destruct (Z.eqb_spec (Z.land q 255) 0) as [Hz|Hz]; intros Ht.
  - assert (q = 0).
    { apply (symbol_tail_zero (S k)); try done; [lia|].
      rewrite !Nat2Z.inj_succ, !Z.pow_succ_r by lia. lia. }
    exists [Z_ascii c]. cbn. rewrite ascii_Z_ascii by done. repeat split; [lia|lia|by constructor|lia].
  - destruct k as [|k]; [exfalso; apply Hz; replace q with 0 by lia; done|].
    destruct (IH q) as (str & Hl & Hf & Hv); try done; try lia.
    exists (Z_ascii c :: str). cbn [length letters_Z]. rewrite ascii_Z_ascii by done.
    repeat split; try lia. by constructor.
Qed.

Lemma symbol_loop_of_letters k str : (1 <= length str <= k)%nat ->
  Forall (fun c => is_upper c = true) str -> symbol_loop k (letters_Z str) = true.
Proof.
  revert k. induction str as [|c str IH]; intros k Hl Hf; [cbn in *; lia|].
  inversion Hf as [|? ? Hc Hf']; subst. destruct k as [|k]; [cbn in *; lia|].
  cbn [symbol_loop letters_Z]. pose proof (ascii_Z_range c) as Hr.
  assert (Hlow : forall q, Z.land (ascii_Z c + 256 * q) 255 = ascii_Z c /\
                           Z.shiftr (ascii_Z c + 256 * q) 8 = q).
  { intros q. change 255 with (Z.ones 8). rewrite Z.land_ones, Z.shiftr_div_pow2 by lia.
    change (2^8) with 256. rewrite (Z.mul_comm 256), Z.mod_add, Z.div_add by lia.
    rewrite Z.mod_small, Z.div_small by lia. lia. }
  destruct (Hlow (letters_Z str)) as [-> ->].
  unfold is_upper in Hc. rewrite Hc. cbn [negb]. destruct str as [|d str].
  - cbn [letters_Z]. rewrite Z.land_0_l. by apply symbol_tail_of_zero.
  - inversion Hf' as [|? ? Hd _]; subst. unfold is_upper in Hd.
    assert (Hn : (Z.land (letters_Z (d :: str)) 255 =? 0) = false).
    { cbn [letters_Z]. change 255 with (Z.ones 8). rewrite Z.land_ones by lia.
      rewrite (Z.mul_comm 256), Z.mod_add by lia. pose proof (ascii_Z_range d).
      rewrite Z.mod_small; lia. }
    rewrite Hn. apply IH; [cbn in *; lia|done].
Qed.

(** [is_valid_symbol] accepts a 64-bit value exactly when it is the
    [string_to_symbol] encoding of one to seven upper-case letters, with the
    precision in the low byte. *)
Theorem is_valid_symbol_iff sym : is_u64 sym ->
  is_valid_symbol sym = true <->
  exists str, (1 <= length str <= 7)%nat /\ Forall (fun c => is_upper c = true) str /\
    sym = string_to_symbol (symbol_precision sym) (String.string_of_list_ascii str).
Proof.
  intros Hs. unfold is_u64 in Hs. unfold is_valid_symbol, symbol_precision.
  pose proof (byte_range sym) as Hb. pose proof (byte_split sym) as E. split.
  - intros Hv. destruct (symbol_loop_letters 7 (Z.shiftr sym 8)) as (str & Hl & Hf & Hz); try done; [lia..|].
    exists str. rewrite string_to_symbol_letters by (try done; lia). rewrite Hz. repeat split; try done; lia.
  - intros (str & Hl & Hf & Hv). rewrite string_to_symbol_letters in Hv by (try done; lia).
    replace (Z.shiftr sym 8) with (letters_Z str) by lia. by apply symbol_loop_of_letters.
Qed.

Lemma is_valid_symbol_iff_witness :
  is_u64 CORE_SYMBOL /\
  exists str, (1 <= length str <= 7)%nat /\ Forall (fun c => is_upper c = true) str /\
    CORE_SYMBOL = string_to_symbol (symbol_precision CORE_SYMBOL) (String.string_of_list_ascii str).
Proof. split; [done|]. apply (is_valid_symbol_iff CORE_SYMBOL ltac:(done)). reflexivity. Defined.

(** ** Properties of amounts *)

Definition in_range (a : asset) : Prop := - max_amount <= amount a <= max_amount.

Lemma within_range_iff a : is_amount_within_range a = true <-> in_range a.
Proof. unfold is_amount_within_range, in_range. lia. Qed.

Lemma guard_Ok b msg u : guard_ b msg = Ok u -> b = true.
Proof. by destruct b. Qed.

(** Two in-range amounts may overflow 64 bits in the wrapped sum, but then the
    wrapped value is out of range: a result in range is exact. *)
Lemma i64_in_range_exact v :
  - (2^63 + max_amount) <= v <= 2^63 + max_amount ->
  - max_amount <= i64 v <= max_amount -> i64 v = v.
Proof.
  unfold i64, max_amount. intros Hv.
  destruct (Z_lt_le_dec v (- 2^63)); [|destruct (Z_lt_le_dec v (2^63))].
  - replace (v + 2^63) with (v + 2^63 + 2^64 + (-1) * 2^64) by lia.
    rewrite Z.mod_add, Z.mod_small by lia. lia.
  - rewrite Z.mod_small by lia. lia.
  - replace (v + 2^63) with (v - 2^63 + 1 * 2^64) by lia.
    rewrite Z.mod_add, Z.mod_small by lia. lia.
Qed.

Lemma asset_add_Ok x a r : in_range x -> is_i64 (amount a) -> asset_add x a = Ok r ->
  symbol a = symbol x /\ r = mkAsset (amount x + amount a) (symbol x) /\ in_range r.
Proof.
  unfold in_range, is_i64, asset_add. intros Hx Ha H.
  repeat (apply res_bind_ok in H as (? & ?%guard_Ok & H)). zb.
  assert (E : i64 (amount x + amount a) = amount x + amount a).
  { apply i64_in_range_exact; unfold max_amount in *; lia. }
  inversion H; subst; cbn. rewrite E in *. auto.
Qed.

Lemma asset_sub_Ok x a r : in_range x -> is_i64 (amount a) -> asset_sub x a = Ok r ->
  symbol a = symbol x /\ r = mkAsset (amount x - amount a) (symbol x) /\ in_range r.
Proof.
  unfold in_range, is_i64, asset_sub. intros Hx Ha H.
  repeat (apply res_bind_ok in H as (? & ?%guard_Ok & H)). zb.
  assert (E : i64 (amount x - amount a) = amount x - amount a).
  { apply i64_in_range_exact; unfold max_amount in *; lia. }
  inversion H; subst; cbn. rewrite E in *. auto.
Qed.

Lemma asset_add_total x a : symbol a = symbol x ->
  - max_amount <= amount x + amount a <= max_amount ->
  asset_add x a = Ok (mkAsset (amount x + amount a) (symbol x)).
Proof.
  intros E H. unfold asset_add, max_amount in *. rewrite E, Z.eqb_refl. cbn.
  rewrite i64_id by (unfold is_i64; lia). unfold guard_.
  rewrite !(proj2 (Z.leb_le _ _)) by lia. done.
Qed.

Lemma asset_sub_total x a : symbol a = symbol x ->
  - max_amount <= amount x - amount a <= max_amount ->
  asset_sub x a = Ok (mkAsset (amount x - amount a) (symbol x)).
Proof.
  intros E H. unfold asset_sub, max_amount in *. rewrite E, Z.eqb_refl. cbn.
  rewrite i64_id by (unfold is_i64; lia). unfold guard_.
  rewrite !(proj2 (Z.leb_le _ _)) by lia. done.
Qed.

Lemma in_range_pos b : 0 < amount b <= max_amount -> in_range b.
Proof. unfold in_range, max_amount. lia. Qed.

Lemma valid_range q : asset_is_valid q = true -> in_range q.
Proof. unfold asset_is_valid. intros [H _]%andb_prop. by apply within_range_iff. Qed.

Lemma in_range_i64 a : in_range a -> is_i64 (amount a).
Proof. unfold in_range, is_i64, max_amount. lia. Qed.

(** A nonnegative amount of the core token. *)
Definition is_core (a : asset) : Prop := symbol a = CORE_SYMBOL /\ 0 <= amount a <= max_amount.

Lemma core_in_range a : is_core a -> in_range a.
Proof. intros [_ ?]. unfold in_range, max_amount in *. lia. Qed.

Lemma core_eta a : symbol a = CORE_SYMBOL -> a = core (amount a).
Proof. destruct a. cbn. by intros ->. Qed.

Lemma core_add_Ok x a r : is_core x -> is_i64 (amount a) -> asset_add x a = Ok r ->
  symbol a = CORE_SYMBOL /\ r = core (amount x + amount a) /\ amount x + amount a <= max_amount.
Proof.
  intros Hx Ha H. apply asset_add_Ok in H as (E & -> & Hr); [|by apply core_in_range|done].
  unfold in_range in Hr. cbn in Hr. rewrite (proj1 Hx) in *. repeat split; [done|lia].
Qed.

Lemma core_sub_Ok x a r : is_core x -> is_i64 (amount a) -> asset_sub x a = Ok r ->
  symbol a = CORE_SYMBOL /\ r = core (amount x - amount a).
Proof.
  intros Hx Ha H. apply asset_sub_Ok in H as (E & -> & Hr); [|by apply core_in_range|done].
  rewrite (proj1 Hx) in *. by split.
Qed.

Lemma core_is_core z : 0 <= z <= max_amount -> is_core (core z).
Proof. done. Qed.

Lemma asset_make_core z : - max_amount <= z <= max_amount -> asset_make z CORE_SYMBOL = Ok (core z).
Proof.
  intros Hz. unfold asset_make.
  assert (is_amount_within_range (mkAsset z CORE_SYMBOL) = true) as -> by (by apply within_range_iff).
  assert (is_valid_symbol CORE_SYMBOL = true) as -> by reflexivity. done.
Qed.

Lemma asset_make_Ok z sym r : asset_make z sym = Ok r -> r = mkAsset z sym /\ - max_amount <= z <= max_amount.
Proof.
  unfold asset_make. intros H. apply res_bind_ok in H as (? & Hg%guard_Ok & H).
  apply res_bind_ok in H as (? & _ & H). inversion H; subst. split; [done|]. by apply within_range_iff in Hg.
Qed.

(** the checked additions and subtractions of assets are exact.  For an
    asset in range and any 64-bit operand, [+=] ([-=]) succeeds exactly when
    the symbols agree and the true sum (difference) is in range, and then it is
    the result: a wrapped 64-bit sum is always rejected. *)
Theorem asset_arith_exact x a r : in_range x -> is_i64 (amount a) ->
  (asset_add x a = Ok r <->
     symbol a = symbol x /\ - max_amount <= amount x + amount a <= max_amount /\
     r = mkAsset (amount x + amount a) (symbol x)) /\
  (asset_sub x a = Ok r <->
     symbol a = symbol x /\ - max_amount <= amount x - amount a <= max_amount /\
     r = mkAsset (amount x - amount a) (symbol x)).
Proof.
  intros Hx Ha. split; split.
  - intros (E & -> & Hr)%asset_add_Ok; done.
  - intros (E & Hr & ->). by apply asset_add_total.
  - intros (E & -> & Hr)%asset_sub_Ok; done.
  - intros (E & Hr & ->). by apply asset_sub_total.
Qed.

Lemma asset_arith_exact_witness :
  asset_add (core max_amount) (core (2^63 - 1)) = Err (AssertFail "addition underflow") /\
  asset_sub (core 5) (core 3) = Ok (core 2).
Proof.
  split; [reflexivity|].
  apply (asset_arith_exact (core 5) (core 3) (core 2)); [|done|].
  - unfold in_range, max_amount. cbn. lia.
  - repeat split; unfold max_amount; cbn; lia.
Defined.
