(* ===== verification/Chain.v ===== *)
(** * Actions, the state of a contract and the action monad

    A contract action runs inside the node's [apply_context]
    (libraries/chain/apply_context.cpp): it may read any table, but it writes
    only the tables of its own account, and apart from that it can only queue
    inline actions, deferred transactions and notifications.  An action handler
    is therefore a computation [M S A]: it reads the context of the action,
    updates the tables [S] of its contract and the queues [out], and either
    returns or aborts with an error that discards every change.

    A table of the database is a finite map, held as a field of the state
    record of its contract; [find], [emplace], [modify] and [erase] are the
    operations of contracts/eosiolib/multi_index.hpp, [sget] and [sset] those
    of contracts/eosiolib/singleton.hpp. *)

From stdpp Require Export sorting.
From S2P Require Import Prelude Names Asset.

(** ** Actions *)

(** The macro [N(x)]. *)
Definition N (s : string) : name := string_to_name s.
Arguments N : simpl never.
#[global] Opaque N.

(** The values an action's data is packed from. *)
Inductive val :=
| VInt (z : Z)              (* 64-bit integers, names *)
| VU8 (z : Z)
| VU32 (z : Z)
| VBool (b : bool)
| VAsset (a : asset)
| VStr (s : string)
| VInts (l : list Z).       (* vectors of integers *)

Abbreviation permission_level := (name * name)%type.

Record action := mkAction {
  act_account : name;
  act_name : name;
  act_auth : list permission_level;
  act_data : list val
}.

(** [action(permission_level{actor, perm}, account, name, data)]. *)
Definition mk_action (actor perm account nm : name) (data : list val) : action :=
  mkAction account nm [(actor, perm)] data.

Record deferred := mkDeferred {
  d_sender : name;
  d_sender_id : Z;
  d_payer : name;
  d_delay_sec : Z;
  d_actions : list action
}.

(** What the node provides to a running action. *)
Record ctx := mkCtx {
  self : name;                            (* the receiver *)
  auths : list permission_level;          (* the authorization of the action *)
  is_account : name -> bool;
  current_time : Z;                       (* block time in microseconds *)
  tapos_block_num : Z;
  tapos_block_prefix : Z;
  may_send : action -> bool;              (* the authority check of execute_inline *)
  may_defer : deferred -> bool            (* the checks of schedule_deferred_transaction other than the one for a
                                             pending transaction: accounts, actor lists, network usage,
                                             authorizations and RAM, which Sending.v models *)
}.

(** The queues an action fills. *)
Record out := mkOut {
  inlines : list action;
  deferreds : list deferred;    (* pending deferred transactions *)
  notified : list name;
  console : list val
}.
#[export] Instance eta_out : Eta out := fun o =>
  mkOut (inlines o) (deferreds o) (notified o) (console o).

(** ** The monad *)

Definition M (S A : Type) : Type := ctx -> S -> out -> res (A * S * out).

#[export] Instance M_ret S : MRet (M S) := fun A a _ s o => Ok (a, s, o).
#[export] Instance M_bind S : MBind (M S) := fun A B f m c s o =>
  match m c s o with
  | Ok (a, s', o') => f a c s' o'
  | Err e => Err e
  end.

Definition fail {S A} (e : error) : M S A := fun _ _ _ => Err e.
Definition lift {S A} (r : res A) : M S A := fun _ s o =>
  match r with Ok a => Ok (a, s, o) | Err e => Err e end.
Definition ask {S A} (f : ctx -> A) : M S A := fun c s o => Ok (f c, s, o).
Definition gets {S A} (f : S -> A) : M S A := fun _ s o => Ok (f s, s, o).

Definition eosio_assert {S} (b : bool) (msg : string) : M S unit :=
  lift (guard_ b msg).

(** [if (b) m;] *)
Definition when {S} (b : bool) (m : M S unit) : M S unit :=
  if b then m else mret tt.

(** ** Authorization, notification, sending *)

Definition has_auth (c : ctx) (account : name) : bool :=
  existsb (fun p => fst p =? account) (auths c).

Definition require_auth {S} (account : name) : M S unit := fun c s o =>
  if has_auth c account then Ok (tt, s, o) else Err (MissingAuth account).

Definition has_recipient (o : out) (account : name) : bool :=
  existsb (fun n => n =? account) (notified o).

Definition require_recipient {S} (account : name) : M S unit := fun _ s o =>
  Ok (tt, s, if has_recipient o account then o
             else o <| notified := notified o ++ [account] |>).

Definition send {S} (a : action) : M S unit := fun c s o =>
  if may_send c a then Ok (tt, s, o <| inlines := inlines o ++ [a] |>)
  else Err (ChainError "unsatisfied authorization").

(** [transaction::send] with [replace_existing = false]: the node must accept the
    transaction; [deferreds] holds the pending ones, and none of the same sender and id
    may be among them. *)
Definition send_deferred {S} (d : deferred) : M S unit := fun c s o =>
  if negb (may_defer c d) then Err (ChainError "deferred transaction refused")
  else if existsb (fun d' => (d_sender d' =? d_sender d) && (d_sender_id d' =? d_sender_id d))
       (deferreds o)
  then Err (ChainError "deferred transaction with the same sender_id and payer already exists")
  else Ok (tt, s, o <| deferreds := deferreds o ++ [d] |>).

Definition print {S} (v : list val) : M S unit := fun _ s o =>
  Ok (tt, s, o <| console := console o ++ v |>).

(** ** Tables *)

Section tables.
Context {S K V : Type} `{Countable K} (tbl : S -> gmap K V) `{!Setter tbl}.

Definition find (k : K) : M S (option V) := gets (fun s => tbl s !! k).

(** [get(k, msg)]. *)
Definition get (k : K) (msg : string) : M S V :=
  r ← find k; lift (match r with Some v => Ok v | None => Err (AssertFail msg) end).

Definition put (k : K) (v : V) : M S unit := fun _ s o =>
  Ok (tt, setf tbl (<[k := v]> (tbl s)) s, o).

(** A row whose primary key is taken is rejected by the node's database. *)
Definition emplace (k : K) (v : V) : M S unit :=
  r ← find k;
  match r with
  | None => put k v
  | Some _ => fail (ChainError "primary key is not unique")
  end.

(** [modify(it, payer, f)] where [it] points at the row of key [k]; the updater
    sees the row as it is now, and may fail or compute a result on the side. *)
Definition modify_ret {B} (k : K) (f : V -> res (B * V)) : M S B :=
  v ← get k "cannot pass end iterator to modify";
  x ← lift (f v);
  _ ← put k (snd x);
  mret (fst x).

Definition modify (k : K) (f : V -> res V) : M S unit :=
  modify_ret k (fun v => (fun w => (tt, w)) <$> f v).

Definition erase (k : K) : M S unit := fun _ s o =>
  match tbl s !! k with
  | Some _ => Ok (tt, setf tbl (delete k (tbl s)) s, o)
  | None => Err (AssertFail "cannot pass end iterator to erase")
  end.
End tables.

Definition sget {S V} (f : S -> option V) : M S (option V) := gets f.
Definition sset {S V} (f : S -> option V) `{!Setter f} (v : V) : M S unit := fun _ s o =>
  Ok (tt, setf f (Some v) s, o).

(** Assigning a member variable. *)
Definition assign {S V} (f : S -> V) `{!Setter f} (v : V) : M S unit := fun _ s o => Ok (tt, setf f v s, o).

Definition row_le {V} (a b : Z * V) : Prop := fst a <= fst b.
#[export] Instance row_le_dec {V} : RelDecision (@row_le V).
Proof. intros a b. unfold row_le. apply _. Defined.

(** The rows of one scope of a scoped table, in primary key order. *)
Definition scope_rows {V} (scope : Z) (m : gmap (Z * Z) V) : list (Z * V) :=
  merge_sort row_le
    (omap (fun kv => if fst (fst kv) =? scope then Some (snd (fst kv), snd kv) else None)
       (map_to_list m)).

(** ** Inverting a successful run *)

Lemma bind_Ok {S A B} (m : M S A) (f : A -> M S B) c s o b s' o' :
  (m ≫= f) c s o = Ok (b, s', o') ->
  exists a s1 o1, m c s o = Ok (a, s1, o1) /\ f a c s1 o1 = Ok (b, s', o').
Proof.
  unfold mbind, M_bind. destruct (m c s o) as [[[a s1] o1]|e]; [|done].
  intros H. by exists a, s1, o1.
Qed.

Lemma bind_run {S A B} (m : M S A) (f : A -> M S B) c s o a s1 o1 :
  m c s o = Ok (a, s1, o1) -> (m ≫= f) c s o = f a c s1 o1.
Proof. unfold mbind, M_bind. by intros ->. Qed.

Lemma ret_Ok {S A} (a b : A) c (s s' : S) o o' :
  (mret a : M S A) c s o = Ok (b, s', o') -> b = a /\ s' = s /\ o' = o.
Proof. intros [= <- <- <-]. done. Qed.

Lemma lift_Ok {S A} (r : res A) a c (s s' : S) o o' :
  lift r c s o = Ok (a, s', o') -> r = Ok a /\ s' = s /\ o' = o.
Proof. unfold lift. destruct r; [intros [= <- <- <-]|]; done. Qed.

Lemma ask_Ok {S A} (f : ctx -> A) a c (s s' : S) o o' :
  ask f c s o = Ok (a, s', o') -> a = f c /\ s' = s /\ o' = o.
Proof. by intros [= <- <- <-]. Qed.

Lemma gets_Ok {S A} (f : S -> A) a c s s' o o' :
  gets f c s o = Ok (a, s', o') -> a = f s /\ s' = s /\ o' = o.
Proof. by intros [= <- <- <-]. Qed.

Lemma eosio_assert_Ok {S} b msg u c (s s' : S) o o' :
  eosio_assert b msg c s o = Ok (u, s', o') -> b = true /\ s' = s /\ o' = o.
Proof. by intros (?%guard_Ok & ? & ?)%lift_Ok. Qed.

Lemma require_auth_Ok {S} a u c (s s' : S) o o' :
  require_auth a c s o = Ok (u, s', o') -> has_auth c a = true /\ s' = s /\ o' = o.
Proof. unfold require_auth. destruct (has_auth c a); [intros [= <- <- <-]|]; done. Qed.

Lemma require_recipient_Ok {S} a u c (s s' : S) o o' :
  require_recipient a c s o = Ok (u, s', o') ->
  s' = s /\ o' = (if has_recipient o a then o else o <| notified := notified o ++ [a] |>).
Proof. by intros [= <- <- <-]. Qed.

Lemma send_Ok {S} a u c (s s' : S) o o' :
  send a c s o = Ok (u, s', o') ->
  may_send c a = true /\ s' = s /\ o' = o <| inlines := inlines o ++ [a] |>.
Proof. unfold send. destruct (may_send c a); [intros [= <- <- <-]|]; done. Qed.

Lemma send_deferred_Ok {S} d u c (s s' : S) o o' :
  send_deferred d c s o = Ok (u, s', o') ->
  s' = s /\ o' = o <| deferreds := deferreds o ++ [d] |>.
Proof. unfold send_deferred. destruct (negb _); [done|]. destruct (existsb _ _); [|intros [= <- <- <-]]; done. Qed.

Lemma print_Ok {S} v u c (s s' : S) o o' :
  print v c s o = Ok (u, s', o') -> s' = s /\ o' = o <| console := console o ++ v |>.
Proof. by intros [= <- <- <-]. Qed.

Lemma fail_Ok {S A} e a c (s s' : S) o o' : fail (A:=A) e c s o = Ok (a, s', o') -> False.
Proof. done. Qed.

Section table_inversions.
Context {S K V : Type} `{Countable K} (tbl : S -> gmap K V) `{!Setter tbl}.

Lemma find_Ok k r c s s' o o' :
  find tbl k c s o = Ok (r, s', o') -> r = tbl s !! k /\ s' = s /\ o' = o.
Proof. exact (gets_Ok _ _ _ _ _ _ _). Qed.

Lemma get_Ok k msg v c s s' o o' :
  get tbl k msg c s o = Ok (v, s', o') -> tbl s !! k = Some v /\ s' = s /\ o' = o.
Proof.
  intros (r & s1 & o1 & (-> & -> & ->)%find_Ok & (Hr & -> & ->)%lift_Ok)%bind_Ok.
  destruct (tbl s !! k); [|done]. by inversion Hr.
Qed.

Lemma put_Ok k v u c s s' o o' :
  put tbl k v c s o = Ok (u, s', o') -> s' = setf tbl (<[k := v]> (tbl s)) s /\ o' = o.
Proof. by intros [= _ <- <-]. Qed.

Lemma emplace_Ok k v u c s s' o o' :
  emplace tbl k v c s o = Ok (u, s', o') ->
  tbl s !! k = None /\ s' = setf tbl (<[k := v]> (tbl s)) s /\ o' = o.
Proof.
  intros (r & s1 & o1 & (-> & -> & ->)%find_Ok & Hr)%bind_Ok.
  destruct (tbl s !! k); [done|]. by apply put_Ok in Hr.
Qed.

Lemma modify_ret_Ok {B} k (f : V -> res (B * V)) b c s s' o o' :
  modify_ret tbl k f c s o = Ok (b, s', o') ->
  exists v w, tbl s !! k = Some v /\ f v = Ok (b, w) /\
    s' = setf tbl (<[k := w]> (tbl s)) s /\ o' = o.
Proof.
  intros (v & s1 & o1 & (Hv & -> & ->)%get_Ok & H1)%bind_Ok.
  apply bind_Ok in H1 as ([b' w] & s2 & o2 & (Hf & -> & ->)%lift_Ok & H2).
  apply bind_Ok in H2 as (u & s3 & o3 & (-> & ->)%put_Ok & (-> & -> & ->)%ret_Ok).
  exists v, w. cbn in *. auto.
Qed.

Lemma modify_Ok k (f : V -> res V) u c s s' o o' :
  modify tbl k f c s o = Ok (u, s', o') ->
  exists v w, tbl s !! k = Some v /\ f v = Ok w /\
    s' = setf tbl (<[k := w]> (tbl s)) s /\ o' = o.
Proof.
  intros (v & w & Hv & Hf & -> & ->)%modify_ret_Ok. exists v, w.
  unfold fmap, res_fmap in Hf. destruct (f v); [|done]. by inversion Hf.
Qed.

Lemma erase_Ok k u c s s' o o' :
  erase tbl k c s o = Ok (u, s', o') ->
  exists v, tbl s !! k = Some v /\ s' = setf tbl (delete k (tbl s)) s /\ o' = o.
Proof. unfold erase. destruct (tbl s !! k); [intros [= _ <- <-]; eauto|done]. Qed.
End table_inversions.

Lemma sget_Ok {S V} (f : S -> option V) r c s s' o o' :
  sget f c s o = Ok (r, s', o') -> r = f s /\ s' = s /\ o' = o.
Proof. exact (gets_Ok _ _ _ _ _ _ _). Qed.

Lemma sset_Ok {S V} (f : S -> option V) `{!Setter f} v u c s s' o o' :
  sset f v c s o = Ok (u, s', o') -> s' = setf f (Some v) s /\ o' = o.
Proof. by intros [= _ <- <-]. Qed.

Lemma assign_Ok {S V} (f : S -> V) `{!Setter f} v u c s s' o o' :
  assign f v c s o = Ok (u, s', o') -> s' = setf f v s /\ o' = o.
Proof. by intros [= _ <- <-]. Qed.

(** Running forward: one step whose outcome is known. *)
Lemma require_auth_run {S} a c (s : S) o : has_auth c a = true -> require_auth a c s o = Ok (tt, s, o).
Proof. unfold require_auth. by intros ->. Qed.

Lemma eosio_assert_run {S} b msg c (s : S) o : b = true -> eosio_assert b msg c s o = Ok (tt, s, o).
Proof. by intros ->. Qed.

Lemma lift_run {S A} (r : res A) a c (s : S) o : r = Ok a -> lift r c s o = Ok (a, s, o).
Proof. unfold lift. by intros ->. Qed.

Lemma get_run {S K V} `{Countable K} (tbl : S -> gmap K V) k msg v c s o :
  tbl s !! k = Some v -> get tbl k msg c s o = Ok (v, s, o).
Proof. intros E. unfold get, find, gets, lift, mbind, M_bind. by rewrite E. Qed.

Lemma modify_run {S K V} `{Countable K} (tbl : S -> gmap K V) `{!Setter tbl} k f v v' c s o :
  tbl s !! k = Some v -> f v = Ok v' -> modify tbl k f c s o = Ok (tt, setf tbl (<[k := v']> (tbl s)) s, o).
Proof.
  intros E1 E2. unfold modify, modify_ret.
  erewrite bind_run by (by apply get_run). erewrite bind_run; [|by apply lift_run; rewrite E2]. done.
Qed.

Lemma emplace_run {S K V} `{Countable K} (tbl : S -> gmap K V) `{!Setter tbl} k v c s o :
  tbl s !! k = None -> emplace tbl k v c s o = Ok (tt, setf tbl (<[k := v]> (tbl s)) s, o).
Proof. intros E. unfold emplace, find, gets, mbind, M_bind. by rewrite E. Qed.

(** [minv] takes apart every equation [m c s o = Ok (a, s', o')] of the context
    whose computation [m] is built from the operations above: it names the
    intermediate results, splits the branches and substitutes. *)
Ltac minv_step :=
  match goal with
  | H : (_ ≫= _) _ _ _ = Ok (_, _, _) |- _ =>
      let a := fresh "a" in let s := fresh "s" in let o := fresh "o" in
      let H1 := fresh "H" in let H2 := fresh "H" in
      apply bind_Ok in H as (a & s & o & H1 & H2)
  | H : mret _ _ _ _ = Ok (_, _, _) |- _ => apply ret_Ok in H as (-> & -> & ->)
  | H : lift _ _ _ _ = Ok (_, _, _) |- _ => apply lift_Ok in H as (? & -> & ->)
  | H : ask _ _ _ _ = Ok (_, _, _) |- _ => apply ask_Ok in H as (-> & -> & ->)
  | H : gets _ _ _ _ = Ok (_, _, _) |- _ => apply gets_Ok in H as (-> & -> & ->)
  | H : eosio_assert _ _ _ _ _ = Ok (_, _, _) |- _ => apply eosio_assert_Ok in H as (? & -> & ->)
  | H : require_auth _ _ _ _ = Ok (_, _, _) |- _ => apply require_auth_Ok in H as (? & -> & ->)
  | H : require_recipient _ _ _ _ = Ok (_, _, _) |- _ => apply require_recipient_Ok in H as (-> & ->)
  | H : send _ _ _ _ = Ok (_, _, _) |- _ => apply send_Ok in H as (? & -> & ->)
  | H : send_deferred _ _ _ _ = Ok (_, _, _) |- _ => apply send_deferred_Ok in H as (-> & ->)
  | H : print _ _ _ _ = Ok (_, _, _) |- _ => apply print_Ok in H as (-> & ->)
  | H : fail _ _ _ _ = Ok (_, _, _) |- _ => destruct (fail_Ok _ _ _ _ _ _ _ H)
  | H : find _ _ _ _ _ = Ok (_, _, _) |- _ => apply find_Ok in H as (-> & -> & ->)
  | H : get _ _ _ _ _ _ = Ok (_, _, _) |- _ => apply get_Ok in H as (? & -> & ->)
  | H : put _ _ _ _ _ _ = Ok (_, _, _) |- _ => apply put_Ok in H as (-> & ->)
  | H : emplace _ _ _ _ _ _ = Ok (_, _, _) |- _ => apply emplace_Ok in H as (? & -> & ->)
  | H : modify_ret _ _ _ _ _ _ = Ok (_, _, _) |- _ =>
      apply modify_ret_Ok in H as (? & ? & ? & ? & -> & ->)
  | H : modify _ _ _ _ _ _ = Ok (_, _, _) |- _ => apply modify_Ok in H as (? & ? & ? & ? & -> & ->)
  | H : erase _ _ _ _ _ = Ok (_, _, _) |- _ => apply erase_Ok in H as (? & ? & -> & ->)
  | H : sget _ _ _ _ = Ok (_, _, _) |- _ => apply sget_Ok in H as (-> & -> & ->)
  | H : sset _ _ _ _ _ = Ok (_, _, _) |- _ => apply sset_Ok in H as (-> & ->)
  | H : assign _ _ _ _ _ = Ok (_, _, _) |- _ => apply assign_Ok in H as (-> & ->)
  | H : when ?b _ _ _ _ = Ok (_, _, _) |- _ =>
      let E := fresh "E" in unfold when in H; destruct b eqn:E
  | H : (if ?b then _ else _) _ _ _ = Ok (_, _, _) |- _ =>
      let E := fresh "E" in destruct b eqn:E
  | H : (match ?x with Some _ => _ | None => _ end) _ _ _ = Ok (_, _, _) |- _ =>
      let E := fresh "E" in destruct x eqn:E
  | H : (match ?x with (_, _) => _ end) _ _ _ = Ok (_, _, _) |- _ =>
      let E := fresh "E" in destruct x eqn:E
  | H : (_ ≫= _) = Ok _ |- _ =>
      let a := fresh "r" in let H1 := fresh "H" in let H2 := fresh "H" in
      apply res_bind_ok in H as (a & H1 & H2)
  | H : guard_ _ _ = Ok _ |- _ => apply guard_Ok in H
  | H : Ok _ = Ok _ |- _ => injection H as H
  | H : Err _ = Ok _ |- _ => discriminate H
  end.

Ltac minv := repeat (minv_step; cbn beta zeta iota in * ); subst.

(** ** Reachable states *)

(** The states a contract can be in: those its successful actions lead to from
    the initial one, in any context and with any queues. *)
Inductive reach {S Act} (s0 : S) (run : Act -> M S unit) : S -> Prop :=
| reach_init : reach s0 run s0
| reach_step a c s o u s' o' :
    reach s0 run s -> run a c s o = Ok (u, s', o') -> reach s0 run s'.

Definition preserves {S A} (P : S -> Prop) (m : M S A) : Prop :=
  forall c s o a s' o', m c s o = Ok (a, s', o') -> P s -> P s'.

Lemma reach_invariant {S Act} (s0 : S) (run : Act -> M S unit) (P : S -> Prop) :
  P s0 -> (forall a, preserves P (run a)) -> forall s, reach s0 run s -> P s.
Proof.
  intros H0 Hstep s Hr. induction Hr as [|a c s o u s' o' _ IH Hrun]; [done|].
  exact (Hstep a c s o u s' o' Hrun IH).
Qed.

(** ** Rows of a scope *)

Lemma elem_of_scope_rows {V} (scope : Z) (m : gmap (Z * Z) V) (k : Z) (v : V) :
  (k, v) ∈ scope_rows scope m <-> m !! (scope, k) = Some v.
Proof.
  unfold scope_rows. rewrite merge_sort_Permutation, list_elem_of_omap. split.
  - intros ([[sc k'] v'] & Hin & H). cbn in H. destruct (Z.eqb_spec sc scope); [|done].
    inversion H; subst. by apply elem_of_map_to_list in Hin.
  - intros H. exists ((scope, k), v). split; [by apply elem_of_map_to_list|].
    cbn. by rewrite Z.eqb_refl.
Qed.

(** ** Concrete runs *)

Definition no_out : out := mkOut [] [] [] [].

(** A context in which every account exists and every inline action may be
    sent, with the given receiver, authorizations and time. *)
Definition ctx_of (receiver : name) (actors : list name) (t : Z) : ctx :=
  mkCtx receiver (map (fun a => (a, N "active")) actors) (fun _ => true) t 0 0 (fun _ => true) (fun _ => true).

Fixpoint exec_all {S Act} (run : Act -> M S unit) (l : list (Act * ctx)) (s : S) : res S :=
  match l with
  | [] => Ok s
  | (a, c) :: l' =>
      match run a c s no_out with
      | Ok (_, s', _) => exec_all run l' s'
      | Err e => Err e
      end
  end.

Lemma exec_all_reach {S Act} (s0 : S) (run : Act -> M S unit) l s s' :
  reach s0 run s -> exec_all run l s = Ok s' -> reach s0 run s'.
Proof.
  revert s. induction l as [|[a c] l IH]; cbn; intros s Hr H; [by inversion H; subst|].
  destruct (run a c s no_out) as [[[u s1] o1]|e] eqn:E; [|done].
  apply (IH s1); [|done]. by apply (reach_step s0 run a c s no_out u s1 o1).
Qed.

Definition ok_or {A} (d : A) (r : res A) : A := match r with Ok a => a | Err _ => d end.
