(* ===== verification/Views.v ===== *)
(** * What the contracts promise to each other

    The contracts read each other's tables through const member functions and
    static functions of their headers (hddlock::get_lock_asset,
    hdddeposit::get_deposit, hddpool::is_miner_exist, ...).  Each of those
    interfaces is a class; a contract is modelled against the classes of the
    contracts it reads, and the file of each contract gives the instance made
    from its tables.  The classes ending in [Ok] state the laws a client relies
    on. *)

From S2P Require Import Prelude Names Asset.

(** hddlock.hpp; the first argument is the block time in microseconds. *)
Class LockView := {
  is_frozen : Z -> name -> bool;
  get_lock_asset : Z -> name -> res asset
}.

(** eosio.token.hpp *)
Class TokenView := {
  get_supply : Z -> res asset;
  get_balance : name -> Z -> res asset
}.

(** hdddeposit.hpp *)
Class DepositView := {
  get_deposit : name -> res asset;
  get_depositfree : name -> res asset;
  get_miner_deposit : Z -> asset;
  get_miner_forfeit : Z -> res asset;
  get_miner_depacc : Z -> name;
  is_deposit_enough : asset -> Z -> res bool;
  calc_deposit : Z -> res asset;
  is_old_miner : Z -> bool
}.

(** eosio.system.hpp; the producer's sequence number and shadow account. *)
Class SystemView := {
  isActiveVoter : name -> bool;
  getProducerSeq : name -> Z * name
}.

(** hddpool.hpp *)
Class PoolView := {
  is_miner_exist : Z -> bool;
  get_yta_price : Z;
  get_usd_price : Z;
  get_next_reward_slot : Z;
  get_next_build_slot : Z
}.

(** channel.sys.hpp *)
Class ChannelView := {
  getfeebalance : name -> asset
}.

(** ** Laws *)

(** The amounts the lock and the deposit contract withhold from a transfer are
    amounts of the core token, and neither is negative. *)
Class LockViewOk (LV : LockView) : Prop := lock_view_ok t u a :
  get_lock_asset t u = Ok a -> symbol a = CORE_SYMBOL /\ 0 <= amount a <= max_amount.

Class DepositViewOk (DV : DepositView) : Prop := deposit_view_ok u a :
  get_deposit u = Ok a -> symbol a = CORE_SYMBOL /\ 0 <= amount a <= max_amount.

(** A balance is never negative. *)
Class TokenViewOk (TV : TokenView) : Prop := token_view_ok u code a :
  get_balance u code = Ok a -> 0 <= amount a <= max_amount.

(** ** Fixed views

    Interfaces that report the same amounts for every account, for evaluating a
    contract without the others. *)

Definition fixed_lock (locked : Z) : LockView := {|
  is_frozen := fun _ _ => false;
  get_lock_asset := fun _ _ => Ok (core locked)
|}.

Definition fixed_deposit (deposit : Z) : DepositView := {|
  get_deposit := fun _ => Ok (core deposit);
  get_depositfree := fun _ => Ok (core deposit);
  get_miner_deposit := fun _ => core deposit;
  get_miner_forfeit := fun _ => Ok (core 0);
  get_miner_depacc := fun _ => 0;
  is_deposit_enough := fun _ _ => Ok true;
  calc_deposit := fun _ => Ok (core deposit);
  is_old_miner := fun _ => false
|}.

Lemma fixed_lock_ok z : 0 <= z <= max_amount -> LockViewOk (fixed_lock z).
Proof. intros Hz t u a [= <-]. done. Qed.

Lemma fixed_deposit_ok z : 0 <= z <= max_amount -> DepositViewOk (fixed_deposit z).
Proof. intros Hz u a [= <-]. done. Qed.
