(* ===== verification/HddLock.v ===== *)
(** * hddlock: locked balances

    contracts/hddlock.  Rules release percentages of a locked quantity at given
    times; [locktransfer] records locked quantities per user and rule; the
    token contract asks [get_lock_asset] for the amount still locked and
    [is_frozen] whether the user may transfer at all. *)

From S2P Require Import Prelude Float64 Names Asset Chain Views.
#[local] Open Scope Z_scope.

(** ** State *)

Record lockrule := mkLockrule {
  rule_times : list Z;
  rule_percentage : list Z;
  rule_desc : string
}.

Record acclock := mkAcclock {
  al_quantity : asset;
  al_user : name;
  al_from : name;
  al_memo : string;
  al_time : Z
}.
#[export] Instance eta_acclock : Eta acclock := fun r =>
  mkAcclock (al_quantity r) (al_user r) (al_from r) (al_memo r) (al_time r).

(** Tables of scope [_self] are keyed by the primary key, [acclock] by the
    scope (the user) and the rule. *)
Record hddlock := mkHddlock {
  lockrules : gmap Z lockrule;
  acclocks : gmap (name * Z) acclock;
  accbigs : gmap name string;
  accfrozens : gmap name Z
}.
#[export] Instance eta_hddlock : Eta hddlock := fun s =>
  mkHddlock (lockrules s) (acclocks s) (accbigs s) (accfrozens s).

Definition hddlock_init : hddlock := mkHddlock ∅ ∅ ∅ ∅.

(** ** Queries *)

Definition seconds (t : Z) : Z := t / 1000000.

Definition lock_is_frozen (s : hddlock) (t : Z) (user : name) : bool :=
  match accfrozens s !! user with
  | Some deadline => seconds t <? deadline
  | None => false
  end.

(** The percentage released by the times that have passed: the loop stops at
    the first time in the future.  Reading past the end of [percentage] is
    undefined behaviour of the source. *)
Fixpoint released (times percentage : list Z) (curtime percent : Z) : res Z :=
  match times with
  | [] => Ok percent
  | t :: times' =>
      if curtime <? t then Ok percent
      else match percentage with
           | p :: percentage' => released times' percentage' curtime p
           | [] => Err (WasmTrap "percentage out of bounds")
           end
  end.

(** The amount of one lock still withheld when [percent] is locked. *)
Definition locked_amount (amount percent : Z) : res Z :=
  f64_trunc_i64s ((fl amount / fl 100) * fl percent)%f64.

Definition lock_row (s : hddlock) (curtime : Z) (lockruleid : Z) (row : acclock) : res Z :=
  match lockrules s !! lockruleid with
  | None => Err (AssertFail "lockruleid not existed in rule table")
  | Some rule =>
      percent ← released (rule_times rule) (rule_percentage rule) curtime 0;
      _ ← guard_ ((0 <=? percent) && (percent <=? 100)) "invalidate lock percentage";
      locked_amount (amount (al_quantity row)) (100 - percent)
  end.

Fixpoint lock_rows (s : hddlock) (curtime : Z) (rows : list (Z * acclock)) (acc : Z) : res Z :=
  match rows with
  | [] => Ok acc
  | (id, row) :: rows' =>
      v ← lock_row s curtime id row;
      lock_rows s curtime rows' (i64 (acc + v))
  end.

Definition lock_get_lock_asset (s : hddlock) (t : Z) (user : name) : res asset :=
  core <$> lock_rows s (seconds t) (scope_rows user (acclocks s)) 0.

#[export] Instance hddlock_view (s : hddlock) : LockView := {|
  is_frozen := lock_is_frozen s;
  get_lock_asset := lock_get_lock_asset s
|}.

(** ** Actions *)

Definition init : M hddlock unit := mret tt.

Definition addaccbig (user : name) (desc : string) : M hddlock unit :=
  _ ← require_auth (N "lockadminusr");
  it ← find accbigs user;
  _ ← eosio_assert (bool_decide (it = None)) "user already registered as big account";
  emplace accbigs user desc.

Definition rmvaccbig (user : name) : M hddlock unit :=
  _ ← require_auth (N "lockadminusr");
  it ← find accbigs user;
  match it with
  | Some _ => erase accbigs user
  | None => mret tt
  end.

Definition addrule (lockruleid : Z) (times percentage : list Z) (desc : string) : M hddlock unit :=
  _ ← require_auth (N "lockadminusr");
  _ ← eosio_assert (2 <=? length times)%nat "invalidate size of times array";
  _ ← eosio_assert (length times =? length percentage)%nat "times and percentage in different size.";
  it ← find lockrules lockruleid;
  _ ← eosio_assert (bool_decide (it = None)) "the id already existed in rule table";
  _ ← eosio_assert (forallb (fun p => (0 <=? p) && (p <=? 100)) percentage) "invalidate lock percentage";
  emplace lockrules lockruleid (mkLockrule times percentage desc).

Definition locktransfer (lockruleid : Z) (from to : name) (quantity amt : asset) (memo : string)
    : M hddlock unit :=
  _ ← require_auth from;
  _ ← eosio_assert (symbol quantity =? CORE_SYMBOL) "only core symbole support this lock transsfer";
  _ ← eosio_assert (symbol amt =? CORE_SYMBOL) "only core symbole support this lock transsfer";
  _ ← eosio_assert (0 <? amount quantity) "must locktransfer positive quantity";
  _ ← eosio_assert (0 <=? amount amt) "can not locktransfer negative amount";
  big ← find accbigs from;
  _ ← eosio_assert (bool_decide (is_Some big)) "from can not locktransfer";
  rule ← find lockrules lockruleid;
  _ ← eosio_assert (bool_decide (is_Some rule)) "lockruleid not existed in rule table";
  _ ← eosio_assert (amount amt <=? amount quantity) "overdrawn quantity";
  _ ← when (0 <? amount amt)
    (send (mk_action from (N "active") (N "eosio.token") (N "transfer")
             [VInt from; VInt to; VAsset amt; VStr memo]));
  t ← ask current_time;
  it ← find acclocks (to, lockruleid);
  match it with
  | Some _ =>
      modify acclocks (to, lockruleid) (fun row =>
        q ← asset_add (al_quantity row) quantity;
        Ok (row <| al_time := t |> <| al_quantity := q |>))
  | None =>
      emplace acclocks (to, lockruleid) (mkAcclock quantity to from memo t)
  end.

Definition frozenuser (user : name) (time : Z) : M hddlock unit :=
  _ ← require_auth (N "lockadminusr");
  it ← find accfrozens user;
  match it with
  | None => emplace accfrozens user time
  | Some _ => modify accfrozens user (fun _ => Ok time)
  end.

(** The actions of EOSIO_ABI. *)
Inductive lock_action :=
| LInit
| LAddrule (lockruleid : Z) (times percentage : list Z) (desc : string)
| LLocktransfer (lockruleid : Z) (from to : name) (quantity amt : asset) (memo : string)
| LAddaccbig (user : name) (desc : string)
| LRmvaccbig (user : name)
| LFrozenuser (user : name) (time : Z).

Definition lock_apply (a : lock_action) : M hddlock unit :=
  match a with
  | LInit => init
  | LAddrule id times percentage desc => addrule id times percentage desc
  | LLocktransfer id from to quantity amt memo => locktransfer id from to quantity amt memo
  | LAddaccbig user desc => addaccbig user desc
  | LRmvaccbig user => rmvaccbig user
  | LFrozenuser user time => frozenuser user time
  end.

(** ** The amount withheld by one lock *)

Lemma locked_amount_spec a p : 0 <= a < 2^48 -> 0 <= p <= 100 ->
  exists v, locked_amount a p = Ok v /\ 0 <= v <= a /\ a * p - 125 <= 100 * v <= a * p + 25.
Proof.
  intros Ha Hp. unfold locked_amount.
  assert (H100 := frac_exact 100 ltac:(lia)).
  destruct (decide (a = 0)) as [->|Ha0].
  { exists 0. split; [|lia]. rewrite fl_0, (frac_div_zero _ _ _ _ H100).
    destruct (decide (p = 0)) as [->|]; [reflexivity|].
    by rewrite (frac_mul_zero_l _ _ _ _ (frac_exact p ltac:(lia))). }
  assert (Hd := frac_div _ _ _ _ _ _ _ _ (frac_exact a ltac:(lia)) H100 ltac:(lia) ltac:(lia) ltac:(lia)).
  destruct (decide (p = 0)) as [->|Hp0].
  { exists 0. split; [|lia]. by rewrite fl_0, (frac_mul_zero _ _ _ _ Hd). }
  assert (Hm := frac_mul _ _ _ _ _ _ _ _ Hd (frac_exact p ltac:(lia)) ltac:(lia) ltac:(nia) ltac:(lia)).
  destruct (frac_trunc _ _ _ _ (frac_norm (a * p) 100 _ _ _ _ Hm ltac:(lia))) as (z & Hz & H0 & Hr);
    [nia|nia|].
  exists z. split; [exact Hz|]. nia.
Qed.

(** ** The invariant of the lock tables *)

Definition rule_ok (r : lockrule) : Prop :=
  length (rule_times r) = length (rule_percentage r) /\ (2 <= length (rule_times r))%nat /\
  Forall (fun p => 0 <= p <= 100) (rule_percentage r).

Definition lock_inv (s : hddlock) : Prop :=
  (forall id r, lockrules s !! id = Some r -> rule_ok r) /\
  (forall k row, acclocks s !! k = Some row ->
     is_Some (lockrules s !! snd k) /\ symbol (al_quantity row) = CORE_SYMBOL).

Lemma lock_inv_init : lock_inv hddlock_init.
Proof. split; intros ?? H; cbn in H; by rewrite lookup_empty in H. Qed.

Lemma addrule_inv id times percentage desc : preserves lock_inv (addrule id times percentage desc).
Proof.
  intros c s o u s' o' H [Hr Hl]. unfold addrule in H. minv. split; cbn.
  - intros id' r. destruct (decide (id = id')) as [->|]; [|rewrite lookup_insert_ne by done; apply Hr].
    rewrite lookup_insert_eq. intros [= <-]. unfold rule_ok; cbn.
    split; [by apply Nat.eqb_eq|]. split; [by apply Nat.leb_le|].
    apply Forall_forall. intros p Hp. rewrite forallb_forall in *.
    apply list_elem_of_In in Hp. match goal with H : forall x, In x _ -> _ |- _ => specialize (H p Hp) end. lia.
  - intros k row Hk. destruct (Hl k row Hk) as [[r Hr'] Hs]. split; [|done].
    destruct (decide (id = snd k)) as [->|]; [by rewrite lookup_insert_eq|by rewrite lookup_insert_ne].
Qed.

Lemma asset_add_symbol x a r : asset_add x a = Ok r -> symbol r = symbol x.
Proof. unfold asset_add. intros H. minv. done. Qed.

Lemma locktransfer_inv id from to quantity amt memo :
  preserves lock_inv (locktransfer id from to quantity amt memo).
Proof.
  intros c s o u s' o' H [Hr Hl]. unfold locktransfer in H. minv; zb; cbn in *; split; cbn; try done.
  all: intros k row; destruct (decide ((to, id) = k)) as [<-|];
    [rewrite lookup_insert_eq; intros [= <-]|rewrite lookup_insert_ne by done; apply Hl].
  all: (split; [done|cbn]); try done.
  all: match goal with H : asset_add _ _ = Ok _ |- _ => apply asset_add_symbol in H as -> end.
  all: by eapply Hl.
Qed.

Lemma lock_inv_preserved a : preserves lock_inv (lock_apply a).
Proof.
  destruct a; cbn [lock_apply]; [|apply addrule_inv|apply locktransfer_inv|..].
  all: intros c s o u s' o' H [Hr Hl];
    unfold init, addaccbig, rmvaccbig, frozenuser in H; minv; split; done.
Qed.

Lemma lock_reach_inv s : reach hddlock_init lock_apply s -> lock_inv s.
Proof. apply reach_invariant; [apply lock_inv_init|apply lock_inv_preserved]. Qed.

(** ** What a query returns *)

(** The number of times that have passed: those before the first future one. *)
Fixpoint passed (times : list Z) (curtime : Z) : nat :=
  match times with
  | [] => 0
  | t :: times' => if curtime <? t then 0 else S (passed times' curtime)
  end.

(** Reference: the percentage that goes with the last passed time, or nothing. *)
Definition released_percent (r : lockrule) (curtime : Z) : Z :=
  match passed (rule_times r) curtime with
  | O => 0
  | S n => nth n (rule_percentage r) 0
  end.

Lemma released_passed times percentage curtime p :
  length times = length percentage ->
  released times percentage curtime p =
    Ok (match passed times curtime with O => p | S n => nth n percentage 0 end).
Proof.
  revert percentage p. induction times as [|t times IH]; intros percentage p Hl; [done|].
  cbn. destruct (curtime <? t); [done|]. destruct percentage as [|q percentage]; [done|].
  rewrite IH by (cbn in Hl; lia). destruct times as [|t' times]; cbn; [done|].
  by destruct (curtime <? t').
Qed.

Lemma released_percent_range r curtime : rule_ok r -> 0 <= released_percent r curtime <= 100.
Proof.
  intros (_ & _ & Hf). unfold released_percent. destruct (passed _ _) as [|n]; [lia|].
  destruct (nth_in_or_default n (rule_percentage r) 0) as [Hin| ->]; [|lia].
  rewrite Forall_forall in Hf. apply Hf. by apply list_elem_of_In.
Qed.

(** A hundred times what a lock should still withhold. *)
Definition withheld100 (s : hddlock) (curtime : Z) (kr : Z * acclock) : Z :=
  match lockrules s !! fst kr with
  | Some rule => amount (al_quantity (snd kr)) * (100 - released_percent rule curtime)
  | None => 0
  end.

Definition sumf {A} (f : A -> Z) (l : list A) : Z := foldr (fun x acc => f x + acc) 0 l.
Definition lock_quantity (kr : Z * acclock) : Z := amount (al_quantity (snd kr)).

Lemma lock_row_spec s curtime id row :
  lock_inv s -> is_Some (lockrules s !! id) -> 0 <= amount (al_quantity row) < 2^48 ->
  exists v, lock_row s curtime id row = Ok v /\ 0 <= v <= lock_quantity (id, row) /\
    withheld100 s curtime (id, row) - 125 <= 100 * v <= withheld100 s curtime (id, row) + 25.
Proof.
  intros [Hr _] [r Hid] Hq. pose proof (Hr id r Hid) as Hok. unfold lock_row, withheld100, lock_quantity.
  cbn [fst snd]. rewrite Hid, released_passed by apply Hok.
  change (match passed (rule_times r) curtime with O => 0 | S n => nth n (rule_percentage r) 0 end)
    with (released_percent r curtime).
  pose proof (released_percent_range r curtime Hok) as Hp. unfold mbind, res_bind at 1. unfold guard_.
  replace ((0 <=? _) && (_ <=? 100)) with true by lia. cbn.
  destruct (locked_amount_spec (amount (al_quantity row)) (100 - released_percent r curtime))
    as (v & -> & ? & ?); [done|lia|]. eauto.
Qed.

Lemma sumf_cons {A} (f : A -> Z) x l : sumf f (x :: l) = f x + sumf f l.
Proof. done. Qed.

Lemma sumf_nonneg {A} (f : A -> Z) l : Forall (fun x => 0 <= f x) l -> 0 <= sumf f l.
Proof. induction 1; cbn; [done|]. unfold sumf in *. lia. Qed.

Lemma lock_rows_spec s curtime rows acc :
  lock_inv s ->
  Forall (fun kr => is_Some (lockrules s !! fst kr) /\ 0 <= lock_quantity kr < 2^48) rows ->
  0 <= acc -> acc + sumf lock_quantity rows < 2^62 ->
  exists v, lock_rows s curtime rows acc = Ok v /\
    acc <= v <= acc + sumf lock_quantity rows /\
    sumf (withheld100 s curtime) rows - 125 * Z.of_nat (length rows) <= 100 * (v - acc) /\
    100 * (v - acc) <= sumf (withheld100 s curtime) rows + 25 * Z.of_nat (length rows).
Proof.
  intros Hinv Hall. revert acc. induction Hall as [|[id row] rows [Hid Hq] Hall IH]; intros acc H0 Hs.
  { exists acc. split; [done|]. cbn. lia. }
  rewrite !sumf_cons in *. cbn [lock_rows].
  destruct (lock_row_spec s curtime id row) as (v & -> & Hv & Hv2); [done|done|exact Hq|].
  assert (0 <= sumf lock_quantity rows).
  { apply sumf_nonneg. eapply Forall_impl; [exact Hall|]. cbn. lia. }
  unfold mbind, res_bind. rewrite i64_id by (unfold is_i64; lia).
  destruct (IH (acc + v)) as (w & -> & Hw); [lia|lia|]. exists w. cbn [length]. split; [done|]. lia.
Qed.

(** in every reachable state of hddlock, [get_lock_asset] answers: for a
    user whose locks are below 2^48 units each and 2^62 together it returns a
    core-token amount between zero and the locked total, and it withholds, up
    to rounding of at most 1.25 units per lock, the part of each lock that the
    last passed time of its rule has not released. *)
Theorem lock_asset_spec s t user :
  reach hddlock_init lock_apply s ->
  (forall id row, acclocks s !! (user, id) = Some row -> 0 <= amount (al_quantity row) < 2^48) ->
  let rows := scope_rows user (acclocks s) in
  sumf lock_quantity rows < 2^62 ->
  exists a, lock_get_lock_asset s t user = Ok (core a) /\
    0 <= a <= sumf lock_quantity rows /\
    sumf (withheld100 s (seconds t)) rows - 125 * Z.of_nat (length rows) <= 100 * a /\
    100 * a <= sumf (withheld100 s (seconds t)) rows + 25 * Z.of_nat (length rows).
Proof.
  intros Hr Hb rows Hs. apply lock_reach_inv in Hr as Hinv.
  destruct (lock_rows_spec s (seconds t) rows 0 Hinv) as (a & Ha & Hv); [|lia|lia|].
  - apply Forall_forall. intros [id row] Hin%elem_of_scope_rows.
    split; [exact (proj1 (proj2 Hinv (user, id) row Hin))|exact (Hb id row Hin)].
  - exists a. unfold lock_get_lock_asset. fold rows. rewrite Ha. split; [done|]. lia.
Qed.

(** A big account locks 1000.0000 tokens for [userone] under a rule that
    releases 30% at second 100 and the rest at second 200. *)
Definition lock_demo_actions : list (lock_action * ctx) :=
  let c a := ctx_of (N "hddlock12345") [N a] 50000000 in
  [ (LAddaccbig (N "bigacc") "investor", c "lockadminusr");
    (LAddrule 7 [100; 200] [30; 100] "two steps", c "lockadminusr");
    (LLocktransfer 7 (N "bigacc") (N "userone") (core 10000000) (core 10000000) "lock", c "bigacc") ].

Definition lock_demo : hddlock :=
  ok_or hddlock_init (exec_all lock_apply lock_demo_actions hddlock_init).

Lemma lock_asset_spec_witness :
  lock_get_lock_asset lock_demo 150000000 (N "userone") = Ok (core 7000000) /\
  exists a, lock_get_lock_asset lock_demo 150000000 (N "userone") = Ok (core a) /\
    0 <= a <= 10000000.
Proof.
  split; [vm_compute; reflexivity|].
  destruct (lock_asset_spec lock_demo 150000000 (N "userone")) as (a & Ha & Hr & _).
  - apply (exec_all_reach _ _ lock_demo_actions hddlock_init); [constructor|]. vm_compute. reflexivity.
  - assert (H : map_Forall (fun _ row => 0 <= amount (al_quantity row) < 2^48) (acclocks lock_demo)).
    { apply (bool_decide_unpack _). vm_compute. exact I. }
    intros id row. apply (H (N "userone", id)).
  - vm_compute. reflexivity.
  - exists a. split; [exact Ha|].
    assert (E : sumf lock_quantity (scope_rows (N "userone") (acclocks lock_demo)) = 10000000)
      by (vm_compute; reflexivity).
    rewrite E in Hr. exact Hr.
Defined.




