(* ===== verification/Token.v ===== *)
(** * eosio.token: the token ledger

    contracts/eosio.token.  The standard EOSIO token with YottaChain's change:
    an ordinary transfer of the core token must leave the sender the storage
    deposit and the locked amount that hdddeposit and hddlock report. *)

From S2P Require Import Prelude Names Asset Chain Views.
#[local] Open Scope Z_scope.

(** ** State *)

Record currency_stats := mkStats {
  supply : asset;
  max_supply : asset;
  issuer : name
}.
#[export] Instance eta_stats : Eta currency_stats := fun s =>
  mkStats (supply s) (max_supply s) (issuer s).

(** [accounts] is keyed by owner (the scope) and symbol code; a row of [stat]
    has its symbol code both as scope and as primary key. *)
Record token := mkToken {
  accounts : gmap (name * Z) asset;
  stats : gmap Z currency_stats
}.
#[export] Instance eta_token : Eta token := fun s => mkToken (accounts s) (stats s).

Definition token_init : token := mkToken ∅ ∅.

(** ** Queries *)

Definition token_get_supply (s : token) (sym : Z) : res asset :=
  match stats s !! sym with
  | Some st => Ok (supply st)
  | None => Err (AssertFail "get_supply : can not find symbol")
  end.

Definition token_get_balance (s : token) (owner : name) (sym : Z) : res asset :=
  match accounts s !! (owner, sym) with
  | Some b => Ok b
  | None => Err (AssertFail "get_balance : can not find asset symbol")
  end.

#[export] Instance token_view (s : token) : TokenView := {|
  get_supply := token_get_supply s;
  get_balance := token_get_balance s
|}.

(** ** Balances *)

(** The end of [sub_balance] and [sub_balance_yta]: a balance that becomes zero
    loses its row. *)
Definition debit (owner : name) (b value : asset) : M token unit :=
  let k := (owner, symbol_code (symbol value)) in
  if amount b =? amount value then erase accounts k
  else modify accounts k (fun a => asset_sub a value).

Definition sub_balance (owner : name) (value : asset) : M token unit :=
  from ← get accounts (owner, symbol_code (symbol value)) "no balance object found";
  _ ← eosio_assert (amount value <=? amount from) "overdrawn balance";
  debit owner from value.

Definition add_balance (owner : name) (value : asset) : M token unit :=
  let k := (owner, symbol_code (symbol value)) in
  to ← find accounts k;
  match to with
  | None => emplace accounts k value
  | Some _ => modify accounts k (fun a => asset_add a value)
  end.

Section handlers.
Context {LV : LockView} {DV : DepositView}.

Definition sub_balance_yta (owner : name) (value : asset) (to : name) : M token unit :=
  from ← get accounts (owner, symbol_code (symbol value)) "no balance object found";
  t ← ask current_time;
  let frozen := is_frozen t owner in
  _ ← (if to =? N "eosio.stake" then
         _ ← eosio_assert (negb frozen) "user is frozen";
         deposit ← lift (get_deposit owner);
         _ ← eosio_assert (symbol deposit =? symbol value) "symbol precision mismatch";
         eosio_assert (amount value <=? i64 (amount from - amount deposit)) "overdrawn balance"
       else
         _ ← eosio_assert (negb frozen) "user is frozen";
         frozen_asset ← lift (get_deposit owner);
         lock_asset ← lift (get_lock_asset t owner);
         _ ← eosio_assert (symbol frozen_asset =? symbol lock_asset) "symbol precision mismatch";
         let withheld := i64 (amount frozen_asset + amount lock_asset) in
         _ ← eosio_assert (symbol frozen_asset =? symbol value) "symbol precision mismatch";
         eosio_assert (amount value <=? i64 (amount from - withheld)) "overdrawn balance");
  debit owner from value.

(** ** Actions *)

Definition create (issuer_ : name) (maximum_supply : asset) : M token unit :=
  me ← ask self;
  _ ← require_auth me;
  let sym := symbol maximum_supply in
  _ ← eosio_assert (is_valid_symbol sym) "invalid symbol name";
  _ ← eosio_assert (asset_is_valid maximum_supply) "invalid supply";
  _ ← eosio_assert (0 <? amount maximum_supply) "max-supply must be positive";
  existing ← find stats (symbol_code sym);
  _ ← eosio_assert (bool_decide (existing = None)) "token with symbol already exists";
  emplace stats (symbol_code sym) (mkStats (mkAsset 0 sym) maximum_supply issuer_).

Definition issue (to : name) (quantity : asset) (memo : string) : M token unit :=
  me ← ask self;
  let sym := symbol quantity in
  _ ← eosio_assert (is_valid_symbol sym) "invalid symbol name";
  _ ← eosio_assert (String.length memo <=? 256)%nat "memo has more than 256 bytes";
  st ← get stats (symbol_code sym) "token with symbol does not exist, create token before issue";
  _ ← require_auth (issuer st);
  _ ← eosio_assert (asset_is_valid quantity) "invalid quantity";
  _ ← eosio_assert (0 <? amount quantity) "must issue positive quantity";
  _ ← eosio_assert (symbol quantity =? symbol (supply st)) "symbol precision mismatch";
  _ ← eosio_assert (amount quantity <=? i64 (amount (max_supply st) - amount (supply st)))
        "quantity exceeds available supply";
  _ ← modify stats (symbol_code sym) (fun r =>
        v ← asset_add (supply r) quantity; Ok (r <| supply := v |>));
  _ ← add_balance (issuer st) quantity;
  when (negb (to =? issuer st))
    (send (mk_action (issuer st) (N "active") me (N "transfer")
             [VInt (issuer st); VInt to; VAsset quantity; VStr memo])).

Definition retire (quantity : asset) (memo : string) : M token unit :=
  let sym := symbol quantity in
  _ ← eosio_assert (is_valid_symbol sym) "invalid symbol name";
  _ ← eosio_assert (String.length memo <=? 256)%nat "memo has more than 256 bytes";
  st ← get stats (symbol_code sym) "token with symbol does not exist";
  _ ← require_auth (issuer st);
  _ ← eosio_assert (asset_is_valid quantity) "invalid quantity";
  _ ← eosio_assert (0 <? amount quantity) "must retire positive quantity";
  _ ← eosio_assert (symbol quantity =? symbol (supply st)) "symbol precision mismatch";
  _ ← modify stats (symbol_code sym) (fun r =>
        v ← asset_sub (supply r) quantity; Ok (r <| supply := v |>));
  sub_balance (issuer st) quantity.

Definition transfer (from to : name) (quantity : asset) (memo : string) : M token unit :=
  _ ← eosio_assert (negb (from =? to)) "cannot transfer to self";
  _ ← require_auth from;
  acc ← ask is_account;
  _ ← eosio_assert (acc to) "to account does not exist";
  st ← get stats (symbol_code (symbol quantity)) "unable to find key";
  _ ← eosio_assert (asset_is_valid quantity) "invalid quantity";
  _ ← eosio_assert (0 <? amount quantity) "must transfer positive quantity";
  _ ← eosio_assert (symbol quantity =? symbol (supply st)) "symbol precision mismatch";
  _ ← eosio_assert (String.length memo <=? 256)%nat "memo has more than 256 bytes";
  _ ← (if negb (symbol quantity =? CORE_SYMBOL) || (from =? N "hddbasefound") || (from =? N "fund.sys")
       then
         _ ← require_recipient from;
         _ ← require_recipient to;
         sub_balance from quantity
       else if (to =? N "yottaforfeit") || (to =? N "forfeit.sys") then
         _ ← require_recipient to;
         sub_balance from quantity
       else
         _ ← require_recipient from;
         _ ← require_recipient to;
         sub_balance_yta from quantity to);
  add_balance to quantity.
End handlers.

(** The actions of EOSIO_ABI; a transfer runs against what the lock and deposit
    contracts report at that moment, whatever it is. *)
Inductive token_action :=
| TCreate (issuer_ : name) (maximum_supply : asset)
| TIssue (to : name) (quantity : asset) (memo : string)
| TRetire (quantity : asset) (memo : string)
| TTransfer (LV : LockView) (DV : DepositView) (from to : name) (quantity : asset) (memo : string).

Definition token_apply (a : token_action) : M token unit :=
  match a with
  | TCreate i m => create i m
  | TIssue to q memo => issue to q memo
  | TRetire q memo => retire q memo
  | TTransfer LV DV from to q memo => transfer from to q memo
  end.

(** The actions that run while the two contracts withhold no negative amounts. *)
Definition lawful (a : token_action) : Prop :=
  match a with TTransfer LV DV _ _ _ _ => LockViewOk LV /\ DepositViewOk DV | _ => True end.

Record lawful_action := mkLawful { la_action : token_action; la_lawful : lawful la_action }.

(** ** The ledger: balances and their total *)

Definition bal (s : token) (owner : name) (code : Z) : Z :=
  match accounts s !! (owner, code) with Some b => amount b | None => 0 end.

Definition in_code (code : Z) (k : name * Z) (b : asset) : Z :=
  if snd k =? code then amount b else 0.

Definition total (s : token) (code : Z) : Z := map_sum (in_code code) (accounts s).

(** The lemmas below are about all actions ([pos] is false) and about the lawful ones
    ([pos] is true), under which no balance becomes negative. *)
Section invariant.
Context (pos : bool).

(** Every balance is in range and of a created token. *)
Definition acc_ok (s : token) : Prop := forall k b, accounts s !! k = Some b ->
  exists st, stats s !! snd k = Some st /\ symbol b = symbol (supply st) /\ in_range b /\ (pos = true -> 0 < amount b).

(** [s'] is [s] with [v] added to the balance [k] (taken from it for [v < 0]). *)
Definition ledger_upd (s s' : token) (k : name * Z) (v : Z) : Prop :=
  stats s' = stats s /\ acc_ok s' /\
  (forall code, total s' code = total s code + (if snd k =? code then v else 0)) /\
  (forall owner code, bal s' owner code = bal s owner code + (if decide ((owner, code) = k) then v else 0)).

(** Replacing the balance [k] by [b]. *)
Lemma ledger_upd_insert s k b v st :
  acc_ok s -> stats s !! snd k = Some st -> symbol b = symbol (supply st) ->
  in_range b -> (pos = true -> 0 < amount b) ->
  amount b = (match accounts s !! k with Some b0 => amount b0 | None => 0 end) + v ->
  ledger_upd s (s <| accounts := <[k := b]> (accounts s) |>) k v.
Proof.
  intros Hok Hst Hsym Hb Hp Hv. split; [done|]. split; [|split].
  - intros k' b'. cbn. destruct (decide (k = k')) as [<-|]; [|rewrite lookup_insert_ne by done; apply Hok].
    rewrite lookup_insert_eq. intros [= <-]. eauto.
  - intros code. unfold total; cbn.
    destruct (accounts s !! k) as [b0|] eqn:E;
      [rewrite (map_sum_insert _ _ k b0) by done|rewrite map_sum_insert_new by done];
      unfold in_code; destruct (snd k =? code); lia.
  - intros owner code. unfold bal; cbn. case_decide as Hk; [subst k|].
    + rewrite lookup_insert_eq. lia.
    + rewrite lookup_insert_ne by done. lia.
Qed.

Lemma ledger_upd_delete s k b :
  acc_ok s -> accounts s !! k = Some b ->
  ledger_upd s (s <| accounts := delete k (accounts s) |>) k (- amount b).
Proof.
  intros Hok Hk. split; [done|]. split; [|split].
  - intros k' b'. cbn. rewrite lookup_delete_Some. intros [_ H]. by apply Hok.
  - intros code. unfold total; cbn. rewrite (map_sum_delete _ _ k b) by done.
    unfold in_code. destruct (snd k =? code); lia.
  - intros owner code. unfold bal; cbn. case_decide as Hd; [subst k|].
    + rewrite lookup_delete_eq, Hk. lia.
    + rewrite lookup_delete_ne by done. lia.
Qed.

Section ledger.
Context (s : token) (q : asset) (st : currency_stats).
Hypotheses (Hok : acc_ok s) (Hst : stats s !! symbol_code (symbol q) = Some st)
  (Hsym : symbol q = symbol (supply st)) (Hq : in_range q) (Hpos : 0 < amount q).

Lemma add_balance_upd owner c o u s' o' :
  add_balance owner q c s o = Ok (u, s', o') ->
  ledger_upd s s' (owner, symbol_code (symbol q)) (amount q) /\ o' = o.
Proof.
  intros H. unfold add_balance in H. minv; (split; [|done]).
  - destruct (Hok _ _ E) as (st' & Hst' & Hs' & Hr' & Hp'). cbn in Hst'. simplify_eq.
    match goal with H : asset_add _ _ = Ok _ |- _ =>
      apply asset_add_Ok in H as (? & -> & Hr); [|done|by apply in_range_i64] end.
    eapply ledger_upd_insert; cbn; eauto; [intros; specialize (Hp' ltac:(done)); lia|]. by rewrite E.
  - eapply ledger_upd_insert; cbn; eauto. by rewrite E.
Qed.

Lemma debit_upd owner b c o u s' o' :
  accounts s !! (owner, symbol_code (symbol q)) = Some b -> (pos = true -> amount q <= amount b) ->
  debit owner b q c s o = Ok (u, s', o') ->
  ledger_upd s s' (owner, symbol_code (symbol q)) (- amount q) /\ o' = o.
Proof.
  intros Hb Hle H. unfold debit in H. destruct (Hok _ _ Hb) as (st' & Hst' & Hs' & Hr' & Hp').
  cbn in Hst'. minv; zb; simplify_eq; (split; [|done]).
  - rewrite <- E. by apply ledger_upd_delete.
  - match goal with H : asset_sub _ _ = Ok _ |- _ =>
      apply asset_sub_Ok in H as (? & -> & Hr); [|done|by apply in_range_i64] end.
    eapply ledger_upd_insert; cbn; eauto; [intros Hpos'; specialize (Hle Hpos'); lia|]. rewrite Hb. lia.
Qed.

Lemma sub_balance_upd owner c o u s' o' :
  sub_balance owner q c s o = Ok (u, s', o') ->
  ledger_upd s s' (owner, symbol_code (symbol q)) (- amount q) /\ o' = o.
Proof.
  intros H. unfold sub_balance in H. minv; zb. by eapply debit_upd.
Qed.
End ledger.

(** ** Ordinary transfers respect deposits and locks *)

(** What an ordinary transfer to [to] must leave the sender. *)
Definition reserved `{LV : LockView} `{DV : DepositView} (t : Z) (owner to : name) : res Z :=
  d ← get_deposit owner;
  if to =? N "eosio.stake" then Ok (amount d)
  else l ← get_lock_asset t owner; Ok (amount d + amount l).

(** What is withheld is an amount, not a wrapped sum. *)
Definition withholds `{LV : LockView} `{DV : DepositView} (t : Z) (owner : name) : Prop :=
  (forall a, get_deposit owner = Ok a -> 0 <= amount a <= max_amount) /\ (forall a, get_lock_asset t owner = Ok a -> 0 <= amount a <= max_amount).

Section reserve.
Context {LV : LockView} {DV : DepositView}.

Lemma sub_balance_yta_upd s q st owner to c o u s' o' :
  acc_ok s -> stats s !! symbol_code (symbol q) = Some st -> symbol q = symbol (supply st) ->
  in_range q -> 0 < amount q -> (pos = true -> withholds (current_time c) owner) ->
  sub_balance_yta owner q to c s o = Ok (u, s', o') ->
  ledger_upd s s' (owner, symbol_code (symbol q)) (- amount q) /\ o' = o /\
  is_frozen (current_time c) owner = false /\
  (withholds (current_time c) owner -> 0 <= bal s owner (symbol_code (symbol q)) -> exists r, reserved (current_time c) owner to = Ok r /\ 0 <= r /\
    r + amount q <= bal s owner (symbol_code (symbol q))).
Proof.
  intros Hok Hst Hsym Hq Hpos Hw H. unfold sub_balance_yta in H.
  assert (Hr : withholds (current_time c) owner -> 0 <= bal s owner (symbol_code (symbol q)) -> exists r, reserved (current_time c) owner to = Ok r /\ 0 <= r /\
    r + amount q <= bal s owner (symbol_code (symbol q))).
  { intros [Wd Wl] H0. unfold bal in H0. minv; zb; unfold reserved, bal;
    match goal with H : accounts s !! _ = Some _ |- _ => rewrite H in *; pose proof (Hok _ _ H) as (_ & _ & _ & Hb & _) end;
    match goal with H : get_deposit _ = Ok _ |- _ => rewrite H; cbn; pose proof (Wd _ H) end; unfold in_range, max_amount in *.
    - destruct (Z.eqb_spec to (N "eosio.stake")); [|done]. eexists. split; [reflexivity|]. rewrite i64_id in * by (unfold is_i64; lia). lia.
    - destruct (Z.eqb_spec to (N "eosio.stake")); [done|]. match goal with H : get_lock_asset _ _ = Ok _ |- _ => rewrite H; cbn; pose proof (Wl _ H) end.
      eexists. split; [reflexivity|]. rewrite !i64_id in * by (unfold is_i64; rewrite ?i64_id; unfold is_i64; lia). lia. }
  assert (Hf : is_frozen (current_time c) owner = false) by (minv; zb; done).
  assert (Hd : exists b, accounts s !! (owner, symbol_code (symbol q)) = Some b /\ debit owner b q c s o = Ok (u, s', o')) by (minv; zb; eauto).
  destruct Hd as (b & Hb & Hd). apply (debit_upd s q st) in Hd as [Hl ->]; [done|done..|]. intros Hp. destruct (Hr (Hw Hp)) as (r & _ & H0 & Hle).
  - unfold bal. rewrite Hb. destruct (Hok _ _ Hb) as (_ & _ & _ & _ & Hp'). specialize (Hp' Hp). lia.
  - unfold bal in Hle. rewrite Hb in Hle. lia.
Qed.
End reserve.

(** ** The supply invariant *)

Definition stat_ok (s : token) (code : Z) (st : currency_stats) : Prop :=
  symbol_code (symbol (supply st)) = code /\ symbol (max_supply st) = symbol (supply st) /\
  - max_amount <= amount (supply st) <= amount (max_supply st) /\ 0 < amount (max_supply st) <= max_amount /\
  total s code = amount (supply st).

Definition token_inv (s : token) : Prop :=
  acc_ok s /\ forall code st, stats s !! code = Some st -> stat_ok s code st.

Lemma token_inv_init : token_inv token_init.
Proof. split; intros ?? H; cbn in H; by rewrite lookup_empty in H. Qed.

Lemma total_no_stat s code : acc_ok s -> stats s !! code = None -> total s code = 0.
Proof.
  intros Hok Hn. apply map_sum_zero. intros k b Hk. unfold in_code.
  destruct (Z.eqb_spec (snd k) code) as [<-|]; [|done].
  destruct (Hok k b Hk) as (st & Hst & _). congruence.
Qed.

Lemma create_inv i m : preserves token_inv (create i m).
Proof.
  intros c s o u s' o' H [Hok Hst]. unfold create in H. minv; zb. split; cbn.
  - intros k b Hk. cbn in *. destruct (Hok k b Hk) as (st & Hk' & ?). exists st. split; [|done].
    cbn. rewrite lookup_insert_ne; [done|]. intros Heq. congruence.
  - intros code st. cbn. destruct (decide (symbol_code (symbol m) = code)) as [<-|].
    + rewrite lookup_insert_eq. intros [= <-]. unfold stat_ok; cbn.
      match goal with H : asset_is_valid _ = true |- _ => apply valid_range in H as Hr end.
      unfold in_range in Hr.
      repeat split; try lia. by apply (total_no_stat s).
    + rewrite lookup_insert_ne by done. apply Hst.
Qed.

(** A change of one balance and of its token's supply by the same amount. *)
Lemma stat_upd_inv s s1 s' code st v owner :
  token_inv s -> stats s !! code = Some st ->
  s1 = s <| stats := <[code := st <| supply := mkAsset (amount (supply st) + v) (symbol (supply st)) |>]> (stats s) |> ->
  ledger_upd s1 s' (owner, code) v ->
  - max_amount <= amount (supply st) + v <= amount (max_supply st) -> token_inv s'.
Proof.
  intros [Hok Hst] Hc -> (Hs & Hok' & Ht & _) Hv. split; [done|]. intros code' st'.
  rewrite Hs. cbn. destruct (decide (code = code')) as [<-|Hne].
  - rewrite lookup_insert_eq. intros [= <-]. destruct (Hst _ _ Hc) as (?&?&?&?&Htot).
    unfold stat_ok; cbn. repeat split; try lia; try done.
    rewrite Ht. cbn. rewrite Z.eqb_refl. unfold total in *. cbn. lia.
  - rewrite lookup_insert_ne by done. intros Hst'. destruct (Hst _ _ Hst') as (?&?&?&?&Htot).
    unfold stat_ok. repeat split; try lia; try done. rewrite Ht. cbn.
    destruct (Z.eqb_spec code code'); [done|]. unfold total in *. cbn. lia.
Qed.

(** Changing only supplies keeps the balances in order. *)
Lemma acc_ok_supply s code st v :
  acc_ok s -> stats s !! code = Some st ->
  acc_ok (s <| stats := <[code := st <| supply := mkAsset v (symbol (supply st)) |>]> (stats s) |>).
Proof.
  intros Hok Hc k b Hk. cbn in *. destruct (Hok k b Hk) as (st' & Hk' & ?).
  destruct (decide (code = snd k)) as [->|].
  - rewrite lookup_insert_eq. rewrite Hc in Hk'. inversion Hk'; subst. eexists. split; [done|]. done.
  - rewrite lookup_insert_ne by done. eauto.
Qed.

Lemma issue_inv to q memo : preserves token_inv (issue to q memo).
Proof.
  intros c s o u s' o' H [Hok Hst]. unfold issue in H.
  assert (Hgoal : forall s1 o1 u1 st, stats s !! symbol_code (symbol q) = Some st ->
    asset_is_valid q = true -> 0 < amount q -> symbol q = symbol (supply st) ->
    amount q <= i64 (amount (max_supply st) - amount (supply st)) ->
    add_balance (issuer st) q c (s <| stats := <[symbol_code (symbol q) :=
       st <| supply := mkAsset (amount (supply st) + amount q) (symbol (supply st)) |>]> (stats s) |>) o
      = Ok (u1, s1, o1) -> token_inv s1).
  { intros s1 o1 u1 st Hc Hv Hp Hsy Hm Hadd.
    pose proof (Hst _ _ Hc) as (?&?&?&?&?). unfold max_amount in *.
    rewrite i64_id in Hm by (unfold is_i64; lia).
    eapply add_balance_upd in Hadd as (Hadd & ->); cycle 1.
    - by apply acc_ok_supply.
    - cbn. apply lookup_insert_eq.
    - done.
    - by apply valid_range.
    - done.
    - eapply (stat_upd_inv s _ s1 _ st (amount q)); [by split|done|reflexivity|exact Hadd|unfold max_amount in *; lia]. }
  minv; zb;
  match goal with H : stats s !! _ = Some ?st, H1 : asset_add (supply ?r) q = Ok _ |- _ =>
    assert (r = st) as -> by congruence;
    apply asset_add_Ok in H1 as (_ & -> & _);
      [|pose proof (Hst _ _ H) as (?&?&?&?&?); unfold in_range, max_amount in *; lia
       |by apply in_range_i64, valid_range] end;
  eapply Hgoal; eauto.
Qed.

Lemma retire_inv q memo : preserves token_inv (retire q memo).
Proof.
  intros c s o u s' o' H [Hok Hst]. unfold retire in H. minv; zb.
  match goal with Hc : stats s !! _ = Some ?st, H1 : asset_sub (supply ?r) q = Ok _ |- _ =>
    assert (r = st) as -> by congruence; pose proof (Hst _ _ Hc) as (?&?&?&?&Htot);
    apply asset_sub_Ok in H1 as (_ & -> & Hr);
      [|unfold in_range, max_amount in *; lia|by apply in_range_i64, valid_range] end.
  match goal with Hs : sub_balance _ _ _ _ _ = _ |- _ =>
    eapply sub_balance_upd in Hs as (Hupd & _);
      [|first [by apply acc_ok_supply|cbn; apply lookup_insert_eq|by apply valid_range|done]..] end.
  unfold in_range in Hr. cbn in Hr.
  eapply (stat_upd_inv s _ s' _ _ (- amount q)); [by split|done|reflexivity|exact Hupd|lia].
Qed.

Lemma transfer_upd {LV : LockView} {DV : DepositView} from to q memo c s o u s' o' :
  token_inv s -> (pos = true -> withholds (current_time c) from) -> transfer from to q memo c s o = Ok (u, s', o') ->
  from <> to /\ 0 < amount q /\ exists s1,
    ledger_upd s s1 (from, symbol_code (symbol q)) (- amount q) /\
    ledger_upd s1 s' (to, symbol_code (symbol q)) (amount q) /\
    (symbol q = CORE_SYMBOL -> from <> N "hddbasefound" -> from <> N "fund.sys" ->
     to <> N "yottaforfeit" -> to <> N "forfeit.sys" ->
     is_frozen (current_time c) from = false /\
     (withholds (current_time c) from -> 0 <= bal s from (symbol_code (symbol q)) ->
      exists r, reserved (current_time c) from to = Ok r /\ 0 <= r /\
       r + amount q <= bal s from (symbol_code (symbol q)))).
Proof.
  intros [Hok Hst] Hw H. unfold transfer in H. minv; zb; (split; [done|]); (split; [done|]);
  match goal with Hv : asset_is_valid q = true |- _ => apply valid_range in Hv as Hr end;
  match goal with
  | Hs : sub_balance _ _ _ _ _ = _ |- _ =>
      eapply sub_balance_upd in Hs as (Hupd & ->); [|eassumption..]
  | Hs : sub_balance_yta _ _ _ _ _ _ = _ |- _ =>
      eapply sub_balance_yta_upd in Hs as (Hupd & -> & Hres); [|eassumption..]
  end;
  match goal with Hs : add_balance _ _ _ _ _ = _, Hc : stats s !! _ = _ |- _ =>
    eapply add_balance_upd in Hs as (Hupd2 & _);
      [|exact (proj1 (proj2 Hupd))|rewrite (proj1 Hupd); exact Hc|done..] end;
  eexists; (split; [exact Hupd|]); (split; [exact Hupd2|]).
  - intros Hsy ????. exfalso. repeat (destruct E as [E|E]; zb); congruence.
  - intros ?????. exfalso. destruct E0; zb; congruence.
  - intros. exact Hres.
Qed.

Lemma transfer_inv {LV : LockView} {DV : DepositView} from to q memo c s o u s' o' : (pos = true -> withholds (current_time c) from) ->
  token_inv s -> transfer from to q memo c s o = Ok (u, s', o') -> token_inv s'.
Proof.
  intros Hw Hinv H.
  destruct (transfer_upd from to q memo c s o u s' o' Hinv Hw H)
    as (_ & _ & s1 & (S1 & _ & T1 & _) & (S2 & Hok & T2 & _) & _).
  destruct Hinv as [_ Hst]. split; [done|]. intros code st. rewrite S2, S1. intros Hc.
  destruct (Hst _ _ Hc) as (?&?&?&?&?). repeat split; try done; try lia.
  rewrite T2, T1. cbn. destruct (_ =? _); lia.
Qed.

Lemma token_step a c s o u s' o' : (pos = true -> lawful a) -> token_inv s -> token_apply a c s o = Ok (u, s', o') -> token_inv s'.
Proof.
  intros Ha Hinv H. destruct a as [i m|to q memo|q memo|LV DV from to q memo]; cbn [token_apply lawful] in *.
  - by eapply create_inv. - by eapply issue_inv. - by eapply retire_inv.
  - eapply transfer_inv; [|exact Hinv|exact H]. intros Hp. destruct (Ha Hp) as [HL HD].
    split; intros a Hv; [apply (HD _ _ Hv)|apply (HL _ _ _ Hv)].
Qed.
End invariant.

Lemma token_reach_inv s : reach token_init token_apply s -> token_inv false s.
Proof. induction 1 as [|a c s o u s' o' _ IH H]; [apply token_inv_init|by eapply token_step]. Qed.

(** The states reached while no negative amount is withheld. *)
Definition lawful_reach (s : token) : Prop := reach token_init (fun a => token_apply (la_action a)) s.

Lemma lawful_reach_inv s : lawful_reach s -> token_inv true s.
Proof.
  induction 1 as [|a c s o u s' o' _ IH H]; [apply token_inv_init|]. eapply token_step; [|exact IH|exact H]. intros _. apply la_lawful.
Qed.

(** ** Theorems *)

(** C2: In every reachable state of the token ledger, whatever hddlock and hdddeposit
    report to a transfer, the balances of each created token add up to its recorded supply,
    which is at most the maximum supply, and every balance is in the range of an asset.  If
    the two contracts never withhold a negative amount from a transfer, no balance and no
    supply becomes negative. *)
Theorem token_supply_is_sum s code st :
  reach token_init token_apply s -> stats s !! code = Some st ->
  total s code = amount (supply st) /\ amount (supply st) <= amount (max_supply st) <= max_amount /\
  (forall owner, - max_amount <= bal s owner code <= max_amount) /\
  (lawful_reach s -> forall owner, 0 <= bal s owner code <= amount (supply st)).
Proof.
  intros [Hok Hst]%token_reach_inv Hc. destruct (Hst _ _ Hc) as (_ & _ & ? & ? & Ht).
  split; [done|]. split; [lia|]. split.
  - intros owner. unfold bal. destruct (accounts s !! (owner, code)) as [b|] eqn:E; [|unfold max_amount; lia].
    destruct (Hok _ _ E) as (_ & _ & _ & Hb & _). exact Hb.
  - intros [Hok' _]%lawful_reach_inv owner. rewrite <- Ht. unfold total.
    assert (Hn : forall k v, accounts s !! k = Some v -> 0 <= in_code code k v).
    { intros k v Hk. destruct (Hok' k v Hk) as (_ & _ & _ & _ & Hp). specialize (Hp eq_refl). unfold in_code. destruct (_ =? _); lia. }
    unfold bal. destruct (accounts s !! (owner, code)) as [b|] eqn:E; [|split; [lia|by apply map_sum_nonneg]].
    pose proof (map_sum_elem_le _ _ _ _ Hn E) as Hle. pose proof (Hn _ _ E) as Hz.
    assert (Hin : in_code code (owner, code) b = amount b) by (unfold in_code; cbn; by rewrite Z.eqb_refl).
    rewrite Hin in *. lia.
Qed.

(** a successful transfer moves exactly its quantity: the sender's balance
    of that token falls by it, the receiver's rises by it, every other balance
    and all supplies stay. *)
Theorem transfer_moves {LV : LockView} {DV : DepositView} s from to q memo c o u s' o' :
  reach token_init token_apply s -> transfer from to q memo c s o = Ok (u, s', o') ->
  let code := symbol_code (symbol q) in
  from <> to /\ 0 < amount q /\ stats s' = stats s /\
  bal s' from code = bal s from code - amount q /\
  bal s' to code = bal s to code + amount q /\
  forall owner code', (owner, code') <> (from, code) -> (owner, code') <> (to, code) ->
    bal s' owner code' = bal s owner code'.
Proof.
  intros Hinv%token_reach_inv H code.
  destruct (transfer_upd false from to q memo c s o u s' o' Hinv ltac:(done) H)
    as (Hne & Hq & s1 & (S1 & _ & _ & B1) & (S2 & _ & _ & B2) & _). fold code in B1, B2.
  split; [done|]. split; [done|]. split; [congruence|].
  split; [|split].
  3: intros owner code' H1 H2.
  all: rewrite B2, B1; repeat case_decide; simplify_eq; lia.
Qed.

(** What an ordinary transfer leaves the sender, for any contracts that withhold amounts
    in the range of an asset. *)
Lemma transfer_reserves {LV : LockView} {DV : DepositView} s from to q memo c o u s' o' :
  reach token_init token_apply s -> transfer from to q memo c s o = Ok (u, s', o') ->
  symbol q = CORE_SYMBOL -> from <> N "hddbasefound" -> from <> N "fund.sys" ->
  to <> N "yottaforfeit" -> to <> N "forfeit.sys" ->
  withholds (current_time c) from -> 0 <= bal s from (symbol_code CORE_SYMBOL) ->
  is_frozen (current_time c) from = false /\
  exists r, reserved (current_time c) from to = Ok r /\ 0 <= r <= bal s' from (symbol_code CORE_SYMBOL).
Proof.
  intros Hinv%token_reach_inv H Hsy ???? Hw H0.
  destruct (transfer_upd false from to q memo c s o u s' o' Hinv ltac:(done) H)
    as (Hne & Hq & s1 & (_ & _ & _ & B1) & (_ & _ & _ & B2) & Hres).
  destruct Hres as (Hf & Hr); try done. rewrite Hsy in Hr. destruct (Hr Hw H0) as (r & Er & Hr0 & Hle). split; [done|]. exists r. split; [done|].
  rewrite <- Hsy in *. rewrite B2, B1. rewrite decide_True by done.
  case_decide; [exfalso; congruence|lia].
Qed.

(** ** Witnesses *)

(** 1000000 units issued to the issuer [eosio], 400000 of them to [userone]. *)
Definition token_demo_actions : list (token_action * ctx) :=
  let c a := ctx_of (N "eosio.token") [N a] 0 in
  [ (TCreate (N "eosio") (core 5000000), c "eosio.token");
    (TIssue (N "eosio") (core 1000000) "m", c "eosio");
    (TTransfer (fixed_lock 0) (fixed_deposit 0) (N "eosio") (N "userone") (core 400000) "m", c "eosio") ].

Definition token_demo : token := ok_or token_init (exec_all token_apply token_demo_actions token_init).

Lemma token_demo_reach : reach token_init token_apply token_demo.
Proof.
  apply (exec_all_reach _ _ token_demo_actions token_init); [constructor|]. vm_compute. reflexivity.
Qed.

Lemma token_demo_lawful : lawful_reach token_demo.
Proof.
  assert (Hl : Forall lawful (map fst token_demo_actions)).
  { repeat (apply Forall_cons; split); [exact I|exact I|split; [by apply fixed_lock_ok|by apply fixed_deposit_ok]|constructor]. }
  assert (G : forall l s s', Forall lawful (map fst l) -> lawful_reach s -> exec_all token_apply l s = Ok s' -> lawful_reach s').
  { induction l as [|[a c] l IH]; cbn; intros s s' Hf Hs He; [by injection He as <-|]. apply Forall_cons in Hf as [Ha Hf].
    destruct (token_apply a c s no_out) as [[[u s1] o1]|] eqn:E; [|done]. eapply IH; [done| |done].
    eapply (reach_step _ _ (mkLawful a Ha)); [exact Hs|exact E]. }
  apply (G token_demo_actions token_init); [done|constructor|]. vm_compute. reflexivity.
Qed.

Lemma token_supply_is_sum_witness :
  total token_demo (symbol_code CORE_SYMBOL) = 1000000 /\
  0 <= bal token_demo (N "userone") (symbol_code CORE_SYMBOL) <= 1000000.
Proof.
  destruct (token_supply_is_sum token_demo (symbol_code CORE_SYMBOL)
    (mkStats (core 1000000) (core 5000000) (N "eosio")) token_demo_reach) as (H1 & _ & _ & H2).
  - vm_compute. reflexivity.
  - split; [exact H1|exact (H2 token_demo_lawful (N "userone"))].
Defined.
