(* ===== verification/HddDeposit.v ===== *)
(** * hdddeposit: the storage collateral

    contracts/hdddeposit (hdddeposit.hpp, hdddeposit.cpp, nmdeposit.cpp).  An
    account puts core tokens into a deposit pool (the tokens stay in its token
    balance; the token contract keeps them from being spent), and the pool
    backs the deposits of its miners.  [depositpool] is the pool of the old
    miners (type 0), [depositpool2] the pool fed through the cross-chain
    channel that backs the new ones (type 1). *)

From S2P Require Import Prelude Float64 Names Asset Chain Views.
#[local] Open Scope Z_scope.

(** ** State *)

Record depositpool := mkPool {
  dp_account : name;
  dp_pool_type : Z;
  deposit_total : asset;     (* deposited, less forfeits *)
  deposit_free : asset;      (* not backing any miner *)
  deposit_his : asset        (* deposited, forfeits included *)
}.
#[export] Instance eta_depositpool : Eta depositpool := fun p =>
  mkPool (dp_account p) (dp_pool_type p) (deposit_total p) (deposit_free p) (deposit_his p).

Record miner2dep := mkMiner2dep {
  miner_type : Z;
  md_account : name;
  md_deposit : asset;
  dep_total : asset
}.
#[export] Instance eta_miner2dep : Eta miner2dep := fun m =>
  mkMiner2dep (miner_type m) (md_account m) (md_deposit m) (dep_total m).

(** The row of [depstore]; its reserved fields are never read. *)
Record storedeposit := mkStoredeposit {
  sd_account : name;
  sd_deposit_total : asset
}.

(** The pools and [depstore] are kept in the scope of their owner, under the
    owner's name; [miner2dep] is keyed by the miner id. *)
Record hdddeposit := mkHdddeposit {
  depositpools : gmap (name * name) depositpool;
  depositpools2 : gmap (name * name) depositpool;
  depstores : gmap (name * name) storedeposit;
  mdeposits : gmap Z miner2dep;
  grate : option Z
}.
#[export] Instance eta_hdddeposit : Eta hdddeposit := fun s =>
  mkHdddeposit (depositpools s) (depositpools2 s) (depstores s) (mdeposits s) (grate s).

Definition hdddeposit_init : hdddeposit := mkHdddeposit ∅ ∅ ∅ ∅ None.

(** ** Queries *)

(** [a += b] for the total (free) deposit of the two pools. *)
Definition add_pool (f : depositpool -> asset) (acc : res asset) (p : option depositpool) : res asset :=
  a ← acc;
  match p with Some q => asset_add a (f q) | None => Ok a end.

Definition dep_get_deposit (s : hdddeposit) (user : name) : res asset :=
  add_pool deposit_total (add_pool deposit_total (asset_make 0 CORE_SYMBOL)
    (depositpools s !! (user, user))) (depositpools2 s !! (user, user)).

Definition dep_get_depositfree (s : hdddeposit) (user : name) : res asset :=
  add_pool deposit_free (add_pool deposit_free (asset_make 0 CORE_SYMBOL)
    (depositpools s !! (user, user))) (depositpools2 s !! (user, user)).

Definition dep_get_miner_deposit (s : hdddeposit) (minerid : Z) : asset :=
  match mdeposits s !! minerid with Some m => md_deposit m | None => core 0 end.

Definition dep_get_miner_forfeit (s : hdddeposit) (minerid : Z) : res asset :=
  match mdeposits s !! minerid with
  | Some m =>
      if amount (md_deposit m) <? amount (dep_total m)
      then asset_sub (dep_total m) (md_deposit m)
      else Ok (core 0)
  | None => Ok (core 0)
  end.

Definition dep_get_miner_depacc (s : hdddeposit) (minerid : Z) : name :=
  match mdeposits s !! minerid with Some m => md_account m | None => 0 end.

(** The amount that backs [space] slices of 16 KiB at the current rate. *)
Definition deposit_for (rate : option Z) (space : Z) : res Z :=
  let drate := (fl (default 100 rate) / fl 100)%f64 in
  f64_trunc_i64s ((fl space / fl (64 * 1024)) * drate * fl 10000)%f64.

Definition dep_is_deposit_enough (s : hdddeposit) (deposit : asset) (max_space : Z) : res bool :=
  am ← deposit_for (grate s) max_space;
  Ok (am <=? amount deposit).

Definition dep_calc_deposit (s : hdddeposit) (space : Z) : res asset :=
  am ← deposit_for (grate s) space;
  asset_make am CORE_SYMBOL.

Definition dep_is_old_miner (s : hdddeposit) (minerid : Z) : bool :=
  match mdeposits s !! minerid with
  | None => true
  | Some m => miner_type m =? 0
  end.

#[export] Instance hdddeposit_view (s : hdddeposit) : DepositView := {|
  get_deposit := dep_get_deposit s;
  get_depositfree := dep_get_depositfree s;
  get_miner_deposit := dep_get_miner_deposit s;
  get_miner_forfeit := dep_get_miner_forfeit s;
  get_miner_depacc := dep_get_miner_depacc s;
  is_deposit_enough := dep_is_deposit_enough s;
  calc_deposit := dep_calc_deposit s;
  is_old_miner := dep_is_old_miner s
|}.

(** ** Actions *)

Definition min_miner_space : Z := 100 * (1024 * 64).

(** The updates of a pool row. *)
Definition pool_pay (quant : asset) (a : depositpool) : res depositpool :=
  t ← asset_add (deposit_total a) quant;
  f ← asset_add (deposit_free a) quant;
  h ← asset_add (deposit_his a) quant;
  Ok (a <| deposit_total := t |> <| deposit_free := f |> <| deposit_his := h |>).

Definition pool_unpay (quant : asset) (a : depositpool) : res depositpool :=
  f ← asset_sub (deposit_free a) quant;
  t ← asset_sub (deposit_total a) quant;
  h ← asset_sub (deposit_his a) quant;
  Ok (a <| deposit_free := f |> <| deposit_total := t |> <| deposit_his := h |>).

Definition pool_use (quant : asset) (a : depositpool) : res depositpool :=
  f ← asset_sub (deposit_free a) quant; Ok (a <| deposit_free := f |>).

(** Give back a miner's deposit, at most up to the total. *)
Definition pool_release_capped (quant : asset) (a : depositpool) : res depositpool :=
  f ← asset_add (deposit_free a) quant;
  full ← asset_ge f (deposit_total a);
  Ok (a <| deposit_free := if (full : bool) then deposit_total a else f |>).

Definition pool_release (quant : asset) (a : depositpool) : res depositpool :=
  f ← asset_add (deposit_free a) quant; Ok (a <| deposit_free := f |>).

Definition pool_forfeit (quant : asset) (a : depositpool) : res depositpool :=
  t ← asset_sub (deposit_total a) quant; Ok (a <| deposit_total := t |>).

Section handlers.
Context {LV : LockView} {TV : TokenView} {SV : SystemView} {PV : PoolView}.

(** Let the system contract recount the votes of an active voter. *)
Definition change_votes (user : name) : M hdddeposit unit :=
  when (isActiveVoter user)
    (send (mk_action user (N "active") (N "eosio") (N "changevotes") [VInt user])).

Definition check_bp_account (bpacc : name) : M hdddeposit unit :=
  let '(seq_num, shadow) := getProducerSeq bpacc in
  _ ← eosio_assert ((0 <? seq_num) && (seq_num <? 22)) "invalidate bp account";
  require_auth shadow.

Definition paydeppool (user : name) (quant : asset) : M hdddeposit unit :=
  _ ← require_auth user;
  t ← ask current_time;
  _ ← eosio_assert (negb (is_frozen t user)) "frozen user can not create deposit pool";
  acc ← ask is_account;
  _ ← eosio_assert (acc user) "user is not an account.";
  _ ← eosio_assert (symbol quant =? CORE_SYMBOL) "must use core asset for hdd deposit.";
  _ ← eosio_assert (0 <? amount quant) "must use positive quant";
  balance ← lift (get_balance user (symbol_code (symbol quant)));
  it ← find depositpools (user, user);
  let real := match it with Some p => i64 (amount balance - amount (deposit_total p)) | None => amount balance end in
  it2 ← find depositpools2 (user, user);
  let real := match it2 with Some p => i64 (real - amount (deposit_total p)) | None => real end in
  _ ← eosio_assert (amount quant <=? real) "user balance not enough.";
  _ ← match it with
      | None => emplace depositpools (user, user) (mkPool user 0 quant quant quant)
      | Some _ => modify depositpools (user, user) (pool_pay quant)
      end;
  change_votes user.

Definition unpaydeppool (user : name) (quant : asset) : M hdddeposit unit :=
  _ ← require_auth user;
  _ ← eosio_assert (symbol quant =? CORE_SYMBOL) "must use core asset for hdd deposit.";
  _ ← eosio_assert (0 <? amount quant) "must use positive quant";
  t ← ask current_time;
  _ ← eosio_assert (negb (is_frozen t user)) "user is frozen";
  it ← get depositpools (user, user) "no deposit pool record for this user.";
  _ ← eosio_assert (amount quant <=? amount (deposit_free it)) "free deposit not enough.";
  _ ← eosio_assert (amount quant <=? amount (deposit_total it)) "deposit not enough.";
  _ ← eosio_assert (amount quant <=? amount (deposit_his it)) "deposit not enough.";
  _ ← modify depositpools (user, user) (pool_unpay quant);
  change_votes user.

Definition paydeppool2 (user : name) (quant : asset) : M hdddeposit unit :=
  _ ← require_auth (N "channel.sys");
  _ ← send (mk_action (N "channel.sys") (N "active") (N "eosio.token") (N "transfer")
         [VInt (N "channel.sys"); VInt user; VAsset quant; VStr "paydeppool2"]);
  t ← ask current_time;
  _ ← eosio_assert (negb (is_frozen t user)) "frozen user can not create deposit pool2";
  lock_asset ← lift (get_lock_asset t user);
  _ ← eosio_assert (amount lock_asset =? 0) "user has lock asset";
  acc ← ask is_account;
  _ ← eosio_assert (acc user) "user is not an account.";
  _ ← eosio_assert (symbol quant =? CORE_SYMBOL) "must use core asset for hdd deposit.";
  _ ← eosio_assert (0 <? amount quant) "must use positive quant";
  it2 ← find depositpools2 (user, user);
  _ ← match it2 with
      | None => emplace depositpools2 (user, user) (mkPool user 0 quant quant quant)
      | Some _ => modify depositpools2 (user, user) (pool_pay quant)
      end;
  change_votes user.

(** The memo the channel contract parses on the transfer back. *)
Definition undeppool2_memo (user : name) : string :=
  ("3:" +:+ name_to_string user +:+ ":0")%string.

Definition undeppool2 (user : name) (quant : asset) : M hdddeposit unit :=
  _ ← require_auth user;
  _ ← eosio_assert (symbol quant =? CORE_SYMBOL) "must use core asset for hdd deposit.";
  _ ← eosio_assert (0 <? amount quant) "must use positive quant";
  t ← ask current_time;
  _ ← eosio_assert (negb (is_frozen t user)) "user is frozen";
  it2 ← get depositpools2 (user, user) "no deposit pool record for this user.";
  _ ← eosio_assert (amount quant <=? amount (deposit_free it2)) "free deposit not enough.";
  _ ← eosio_assert (amount quant <=? amount (deposit_total it2)) "deposit not enough.";
  _ ← eosio_assert (amount quant <=? amount (deposit_his it2)) "deposit not enough.";
  _ ← modify depositpools2 (user, user) (pool_unpay quant);
  _ ← change_votes user;
  _ ← send (mk_action user (N "active") (N "eosio.token") (N "transfer")
         [VInt user; VInt (N "store.sys"); VAsset quant; VStr "unpaydeppool2"]);
  _ ← send (mk_action (N "store.sys") (N "active") (N "eosio.token") (N "transfer")
         [VInt (N "store.sys"); VInt (N "channel.sys"); VAsset quant; VStr (undeppool2_memo user)]);
  me ← ask self;
  send (mk_action me (N "active") me (N "channellog") [VU8 3; VAsset quant; VInt user]).

Definition channellog (type : Z) (quant : asset) (user : name) : M hdddeposit unit :=
  me ← ask self;
  _ ← require_auth me;
  require_recipient user.

(** The branch that adds to an existing record cannot be reached. *)
Definition depstore (user : name) (quant : asset) : M hdddeposit unit :=
  _ ← require_auth user;
  _ ← eosio_assert (symbol quant =? CORE_SYMBOL) "must use core asset for hdd deposit.";
  _ ← eosio_assert (amount quant =? 100000000) "invalid deposit amount";
  it ← find depstores (user, user);
  _ ← eosio_assert (bool_decide (it = None)) "already deposit";
  _ ← match it with
      | None => emplace depstores (user, user) (mkStoredeposit user quant)
      | Some _ => modify depstores (user, user) (fun a =>
          t ← asset_add (sd_deposit_total a) quant; Ok (mkStoredeposit (sd_account a) t))
      end;
  send (mk_action user (N "active") (N "eosio.token") (N "transfer")
         [VInt user; VInt (N "pool.sys"); VAsset quant; VStr "deopsit for data storage"]).

Definition undepstore (user caller : name) : M hdddeposit unit :=
  _ ← check_bp_account caller;
  it ← get depstores (user, user) "can not find deposit record";
  _ ← erase depstores (user, user);
  send (mk_action (N "pool.sys") (N "active") (N "eosio.token") (N "transfer")
         [VInt (N "pool.sys"); VInt user; VAsset (sd_deposit_total it); VStr "return deopsit for data storage"]).

Definition setrate (rate : Z) : M hdddeposit unit :=
  _ ← require_auth (N "hddpooladmin");
  sset grate rate.

Definition paydeposit (user : name) (minerid : Z) (quant : asset) : M hdddeposit unit :=
  _ ← require_auth (N "hddpooladmin");
  _ ← eosio_assert (is_miner_exist minerid) "miner not registered";
  t ← ask current_time;
  _ ← eosio_assert (negb (is_frozen t user)) "user is frozen";
  _ ← eosio_assert (symbol quant =? CORE_SYMBOL) "must use core asset for hdd deposit.";
  _ ← eosio_assert (0 <? amount quant) "must use positive quant";
  s ← gets id;
  enough ← lift (dep_is_deposit_enough s quant min_miner_space);
  _ ← eosio_assert enough "deposit quant is too low!";
  it2 ← get depositpools2 (user, user) "no deposit pool record for this user.";
  _ ← eosio_assert (amount quant <=? amount (deposit_free it2)) "free deposit not enough.";
  _ ← modify depositpools2 (user, user) (pool_use quant);
  miner ← find mdeposits minerid;
  _ ← eosio_assert (bool_decide (miner = None)) "already deposit.";
  _ ← emplace mdeposits minerid (mkMiner2dep 1 user quant quant);
  change_votes user.

(** [a.deposit += quant], the type and the highest deposit of a miner row. *)
Definition miner_increase (quant : asset) (a : miner2dep) : res miner2dep :=
  d ← asset_add (md_deposit a) quant;
  let a := a <| md_deposit := d |> <| miner_type := 1 |> in
  Ok (if amount (dep_total a) <? amount (md_deposit a)
      then a <| dep_total := mkAsset (amount (md_deposit a)) (symbol (dep_total a)) |>
      else a).

(** The reference [miner] sees the row after [modify]: the first branch takes
    the increased deposit from the second pool. *)
Definition incdeposit (minerid : Z) (quant : asset) : M hdddeposit unit :=
  _ ← require_auth (N "hddpooladmin");
  _ ← eosio_assert (symbol quant =? CORE_SYMBOL) "must use core asset for hdd deposit.";
  _ ← eosio_assert (0 <? amount quant) "must use positive quant";
  miner ← get mdeposits minerid "no deposit record for this minerid.";
  let acct := md_account miner in
  _ ← (if miner_type miner =? 0 then
         _ ← get depositpools (acct, acct) "no deposit pool record for this user.";
         acc2 ← get depositpools2 (acct, acct) "no deposit pool2 record for this user.";
         _ ← modify depositpools (acct, acct) (pool_release_capped (md_deposit miner));
         _ ← modify mdeposits minerid (miner_increase quant);
         miner' ← get mdeposits minerid "no deposit record for this minerid.";
         _ ← eosio_assert (amount (md_deposit miner') <=? amount (deposit_free acc2)) "free deposit not enough.";
         modify depositpools2 (acct, acct) (pool_use (md_deposit miner'))
       else
         acc2 ← get depositpools2 (acct, acct) "no deposit pool2 record for this user.";
         _ ← eosio_assert (amount quant <=? amount (deposit_free acc2)) "free deposit not enough.";
         _ ← modify mdeposits minerid (miner_increase quant);
         modify depositpools2 (acct, acct) (pool_use quant));
  change_votes acct.

Definition chgdeposit (user : name) (minerid : Z) (is_increase : bool) (quant : asset) : M hdddeposit unit :=
  eosio_assert false "not support now.".

Definition mforfeit (user : name) (minerid : Z) (quant : asset) (memo : string) (acc_type : Z) (caller : name)
    : M hdddeposit unit :=
  _ ← (if acc_type =? 2 then
         acc ← ask is_account;
         _ ← eosio_assert (acc caller) "caller not a account.";
         check_bp_account caller
       else me ← ask self; require_auth me);
  _ ← eosio_assert (symbol quant =? CORE_SYMBOL) "must use core asset for hdd deposit.";
  _ ← eosio_assert (0 <? amount quant) "must use positive quant";
  miner ← get mdeposits minerid "no deposit record for this minerid.";
  let quatreal := if amount (md_deposit miner) <? amount quant
                  then mkAsset (amount (md_deposit miner)) (symbol quant) else quant in
  _ ← modify mdeposits minerid (fun a =>
        Ok (a <| md_deposit := mkAsset (i64 (amount (md_deposit a) - amount quatreal)) (symbol (md_deposit a)) |>));
  let acct := md_account miner in
  _ ← (if miner_type miner =? 0 then
         acc ← get depositpools (acct, acct) "no deposit pool record for this user.";
         _ ← eosio_assert (amount quatreal <=? i64 (amount (deposit_total acc) - amount (deposit_free acc)))
               "overdrawn deposit.";
         modify depositpools (acct, acct) (pool_forfeit quatreal)
       else
         acc2 ← get depositpools2 (acct, acct) "no deposit pool2 record for this user.";
         _ ← eosio_assert (amount quatreal <=? i64 (amount (deposit_total acc2) - amount (deposit_free acc2)))
               "overdrawn deposit.";
         modify depositpools2 (acct, acct) (pool_forfeit quatreal));
  let to := if miner_type miner =? 0 then N "yottaforfeit" else N "forfeit.sys" in
  send (mk_action acct (N "active") (N "eosio.token") (N "transfer")
         [VInt acct; VInt to; VAsset quatreal; VStr memo]).

Definition delminer (minerid : Z) : M hdddeposit unit :=
  _ ← require_auth (N "hddpooladmin");
  it ← find mdeposits minerid;
  match it with
  | None => mret tt
  | Some miner =>
      let acct := md_account miner in
      _ ← (if miner_type miner =? 0 then
             acc ← find depositpools (acct, acct);
             when (bool_decide (is_Some acc))
               (modify depositpools (acct, acct) (pool_release_capped (md_deposit miner)))
           else
             acc2 ← find depositpools2 (acct, acct);
             when (bool_decide (is_Some acc2))
               (modify depositpools2 (acct, acct) (pool_release_capped (md_deposit miner))));
      _ ← change_votes acct;
      erase mdeposits minerid
  end.

Definition mchgdepacc (minerid : Z) (new_depacc : name) : M hdddeposit unit :=
  _ ← require_auth new_depacc;
  miner ← get mdeposits minerid "no deposit record for this minerid";
  let acct := md_account miner in
  _ ← eosio_assert (negb (acct =? new_depacc)) "must use different account to change deposit user";
  acc2_new ← get depositpools2 (new_depacc, new_depacc) "no deposit pool2 record for new deposit user";
  _ ← (if miner_type miner =? 0 then
         _ ← get depositpools (acct, acct) "no deposit pool record for original deposit user";
         _ ← eosio_assert (amount (dep_total miner) <=? amount (deposit_free acc2_new))
               "new deposit user free deposit not enough";
         modify depositpools (acct, acct) (pool_release (md_deposit miner))
       else
         _ ← get depositpools2 (acct, acct) "no deposit pool2 record for original deposit user";
         _ ← eosio_assert (amount (dep_total miner) <=? amount (deposit_free acc2_new))
               "new deposit user free deposit not enough";
         modify depositpools2 (acct, acct) (pool_release (md_deposit miner)));
  _ ← change_votes acct;
  _ ← modify mdeposits minerid (fun a =>
        Ok (a <| md_account := new_depacc |> <| md_deposit := dep_total a |> <| miner_type := 1 |>));
  _ ← modify depositpools2 (new_depacc, new_depacc) (pool_use (dep_total miner));
  change_votes new_depacc.

Definition updatevote (user : name) : M hdddeposit unit :=
  _ ← require_auth (N "hddpooladmin");
  change_votes user.
End handlers.

(** The actions of EOSIO_ABI, with the interfaces they read. *)
Inductive dep_action :=
| DPaydeppool (LV : LockView) (TV : TokenView) (SV : SystemView) (user : name) (quant : asset)
| DUnpaydeppool (LV : LockView) (SV : SystemView) (user : name) (quant : asset)
| DPaydeppool2 (LV : LockView) (SV : SystemView) (user : name) (quant : asset)
| DUndeppool2 (LV : LockView) (SV : SystemView) (user : name) (quant : asset)
| DDepstore (user : name) (quant : asset)
| DUndepstore (SV : SystemView) (user caller : name)
| DPaydeposit (LV : LockView) (SV : SystemView) (PV : PoolView) (user : name) (minerid : Z) (quant : asset)
| DChgdeposit (user : name) (minerid : Z) (is_increase : bool) (quant : asset)
| DMforfeit (SV : SystemView) (user : name) (minerid : Z) (quant : asset) (memo : string) (acc_type : Z) (caller : name)
| DDelminer (SV : SystemView) (minerid : Z)
| DSetrate (rate : Z)
| DMchgdepacc (SV : SystemView) (minerid : Z) (new_depacc : name)
| DUpdatevote (SV : SystemView) (user : name)
| DIncdeposit (SV : SystemView) (minerid : Z) (quant : asset)
| DChannellog (type : Z) (quant : asset) (user : name).

Definition dep_apply (a : dep_action) : M hdddeposit unit :=
  match a with
  | DPaydeppool _ _ _ user quant => paydeppool user quant
  | DUnpaydeppool _ _ user quant => unpaydeppool user quant
  | DPaydeppool2 _ _ user quant => paydeppool2 user quant
  | DUndeppool2 _ _ user quant => undeppool2 user quant
  | DDepstore user quant => depstore user quant
  | DUndepstore _ user caller => undepstore user caller
  | DPaydeposit _ _ _ user minerid quant => paydeposit user minerid quant
  | DChgdeposit user minerid inc quant => chgdeposit user minerid inc quant
  | DMforfeit _ user minerid quant memo acc_type caller => mforfeit user minerid quant memo acc_type caller
  | DDelminer _ minerid => delminer minerid
  | DSetrate rate => setrate rate
  | DMchgdepacc _ minerid new_depacc => mchgdepacc minerid new_depacc
  | DUpdatevote _ user => updatevote user
  | DIncdeposit _ minerid quant => incdeposit minerid quant
  | DChannellog type quant user => channellog type quant user
  end.

(** ** The collateral invariant *)

(** The pools of the old ([true]) and of the new miners. *)
Definition pools (old : bool) (s : hdddeposit) : gmap (name * name) depositpool :=
  if old then depositpools s else depositpools2 s.

(** What a miner takes from the pool of [acct] of the given kind. *)
Definition backs (old : bool) (acct : name) (m : miner2dep) : Z :=
  if (md_account m =? acct) && Bool.eqb (miner_type m =? 0) old then amount (md_deposit m) else 0.

Definition backing (ms : gmap Z miner2dep) (old : bool) (acct : name) : Z :=
  map_sum (fun _ => backs old acct) ms.

Definition pool_ok (ms : gmap Z miner2dep) (old : bool) (acct : name) (p : depositpool) : Prop :=
  is_core (deposit_total p) /\ is_core (deposit_free p) /\ is_core (deposit_his p) /\
  amount (deposit_total p) <= amount (deposit_his p) /\
  amount (deposit_total p) - amount (deposit_free p) = backing ms old acct.

Definition miner_ok (s : hdddeposit) (m : miner2dep) : Prop :=
  is_core (md_deposit m) /\ is_core (dep_total m) /\ amount (md_deposit m) <= amount (dep_total m) /\
  is_Some (pools (miner_type m =? 0) s !! (md_account m, md_account m)).

Definition dep_inv (s : hdddeposit) : Prop :=
  (forall old u p, pools old s !! (u, u) = Some p -> pool_ok (mdeposits s) old u p) /\
  (forall id m, mdeposits s !! id = Some m -> miner_ok s m).

(** What the node and the token contract guarantee of an action's arguments:
    quantities are 64-bit, and [paydeppool2], whose transfer the token contract
    checks, gets a quantity in range. *)
Definition dep_args_ok (a : dep_action) : Prop :=
  match a with
  | DPaydeppool _ TV _ _ quant => is_i64 (amount quant) /\ TokenViewOk TV
  | DPaydeppool2 _ _ _ quant => in_range quant
  | DUnpaydeppool _ _ _ quant | DUndeppool2 _ _ _ quant | DDepstore _ quant
  | DPaydeposit _ _ _ _ _ quant | DChgdeposit _ _ _ quant | DMforfeit _ _ _ quant _ _ _
  | DIncdeposit _ _ quant | DChannellog _ quant _ => is_i64 (amount quant)
  | _ => True
  end.

(** *** Sums *)

Lemma backs_nonneg old acct m : 0 <= amount (md_deposit m) -> 0 <= backs old acct m.
Proof. unfold backs. destruct (_ && _); lia. Qed.

Lemma backing_new ms old acct id m : ms !! id = None ->
  backing (<[id := m]> ms) old acct = backing ms old acct + backs old acct m.
Proof. intros. unfold backing. rewrite map_sum_insert_new by done. lia. Qed.

Lemma backing_change ms old acct id m m' : ms !! id = Some m ->
  backing (<[id := m']> ms) old acct = backing ms old acct - backs old acct m + backs old acct m'.
Proof. intros. unfold backing. by rewrite (map_sum_insert _ _ _ m). Qed.

Lemma backing_remove ms old acct id m : ms !! id = Some m ->
  backing (delete id ms) old acct = backing ms old acct - backs old acct m.
Proof. intros. unfold backing. by rewrite (map_sum_delete _ _ _ m). Qed.

Lemma backing_nonneg s old acct : dep_inv s -> 0 <= backing (mdeposits s) old acct.
Proof.
  intros [_ Hm]. apply map_sum_nonneg. intros id m Hid. apply backs_nonneg.
  destruct (Hm id m Hid) as ((_ & ?) & _). lia.
Qed.

(** *** Exact updates of a pool row *)

Lemma is_core_i64 a : is_core a -> is_i64 (amount a).
Proof. intros H. by apply in_range_i64, core_in_range. Qed.
#[local] Hint Resolve is_core_i64 : core.

Definition pool_core (p : depositpool) : Prop :=
  is_core (deposit_total p) /\ is_core (deposit_free p) /\ is_core (deposit_his p).

Section pool_updates.
Context (a b : depositpool) (q : asset).
Hypotheses (Ha : pool_core a) (Hq : is_i64 (amount q)).

Lemma pool_pay_Ok : pool_pay q a = Ok b ->
  b = mkPool (dp_account a) (dp_pool_type a) (core (amount (deposit_total a) + amount q))
        (core (amount (deposit_free a) + amount q)) (core (amount (deposit_his a) + amount q)) /\
  amount (deposit_free a) + amount q <= max_amount /\ amount (deposit_his a) + amount q <= max_amount.
Proof.
  destruct Ha as (H1 & H2 & H3). unfold pool_pay. intros H. minv.
  repeat match goal with H : asset_add _ _ = Ok _ |- _ => apply core_add_Ok in H as (? & -> & ?); [|done..] end.
  done.
Qed.

Lemma pool_unpay_Ok : pool_unpay q a = Ok b ->
  b = mkPool (dp_account a) (dp_pool_type a) (core (amount (deposit_total a) - amount q))
        (core (amount (deposit_free a) - amount q)) (core (amount (deposit_his a) - amount q)).
Proof.
  destruct Ha as (H1 & H2 & H3). unfold pool_unpay. intros H. minv.
  repeat match goal with H : asset_sub _ _ = Ok _ |- _ => apply core_sub_Ok in H as (? & ->); [|done..] end.
  done.
Qed.

Lemma pool_use_Ok : pool_use q a = Ok b ->
  b = a <| deposit_free := core (amount (deposit_free a) - amount q) |>.
Proof.
  destruct Ha as (H1 & H2 & H3). unfold pool_use. intros H. minv.
  match goal with H : asset_sub _ _ = Ok _ |- _ => apply core_sub_Ok in H as (? & ->); [|done..] end.
  done.
Qed.

Lemma pool_release_Ok : pool_release q a = Ok b ->
  b = a <| deposit_free := core (amount (deposit_free a) + amount q) |>.
Proof.
  destruct Ha as (H1 & H2 & H3). unfold pool_release. intros H. minv.
  match goal with H : asset_add _ _ = Ok _ |- _ => apply core_add_Ok in H as (? & -> & ?); [|done..] end.
  done.
Qed.

Lemma pool_release_capped_Ok : pool_release_capped q a = Ok b ->
  b = a <| deposit_free := core (Z.min (amount (deposit_free a) + amount q) (amount (deposit_total a))) |>.
Proof.
  destruct Ha as (H1 & H2 & H3). unfold pool_release_capped, asset_ge. intros H. minv.
  match goal with H : asset_add _ _ = Ok _ |- _ => apply core_add_Ok in H as (? & -> & ?); [|done..] end.
  cbn. f_equal. destruct (Z.leb_spec (amount (deposit_total a)) (amount (deposit_free a) + amount q)).
  - rewrite Z.min_r by done. by apply core_eta, H1.
  - by rewrite Z.min_l by lia.
Qed.

Lemma pool_forfeit_Ok : pool_forfeit q a = Ok b ->
  b = a <| deposit_total := core (amount (deposit_total a) - amount q) |>.
Proof.
  destruct Ha as (H1 & H2 & H3). unfold pool_forfeit. intros H. minv.
  match goal with H : asset_sub _ _ = Ok _ |- _ => apply core_sub_Ok in H as (? & ->); [|done..] end.
  done.
Qed.
End pool_updates.

Lemma miner_increase_Ok q a b : is_core (md_deposit a) -> is_core (dep_total a) -> is_i64 (amount q) ->
  miner_increase q a = Ok b ->
  b = mkMiner2dep 1 (md_account a) (core (amount (md_deposit a) + amount q))
        (core (Z.max (amount (dep_total a)) (amount (md_deposit a) + amount q))) /\
  amount (md_deposit a) + amount q <= max_amount.
Proof.
  intros H1 H2 Hq H. unfold miner_increase in H. minv.
  match goal with H : asset_add _ _ = Ok _ |- _ => apply core_add_Ok in H as (? & -> & ?); [|done..] end.
  split; [|done]. cbn. destruct (Z.ltb_spec (amount (dep_total a)) (amount (md_deposit a) + amount q)); cbn; f_equal.
  - rewrite (proj1 H2). unfold core. f_equal. lia.
  - rewrite Z.max_l by lia. apply core_eta, H2.
Qed.

(** *** Preservation *)

Lemma change_votes_Ok {SV : SystemView} user c s o u s' o' :
  change_votes user c s o = Ok (u, s', o') -> s' = s.
Proof. unfold change_votes. intros H. by minv. Qed.

Ltac skip_votes := repeat match goal with
  | H : change_votes _ _ _ _ = Ok _ |- _ => apply change_votes_Ok in H; subst
  end.

(** [row_cases] splits a lookup of an updated table into the changed row and
    the rows of the old table. *)
Ltac row_cases := repeat match goal with
  | H : <[?k := _]> _ !! ?k' = Some _ |- _ =>
      rewrite lookup_insert in H; case_decide; simplify_eq
  | H : delete ?k _ !! ?k' = Some _ |- _ => rewrite lookup_delete_Some in H; destruct H as [? H]
  end.

Lemma pool_ok_core ms old u p : pool_ok ms old u p -> pool_core p.
Proof. intros (? & ? & ? & _). done. Qed.

(** Replacing one pool row, the miners staying as they are. *)
Lemma inv_pool_row s s' old u p :
  dep_inv s -> mdeposits s' = mdeposits s ->
  pools old s' = <[(u, u) := p]> (pools old s) -> pools (negb old) s' = pools (negb old) s ->
  pool_ok (mdeposits s) old u p -> dep_inv s'.
Proof.
  intros [Hp Hm] Ems Eold Enew Hok.
  assert (Hsome : forall k o, is_Some (pools o s !! k) -> is_Some (pools o s' !! k)).
  { intros k o Hk. destruct (decide (o = old)) as [->|].
    - rewrite Eold, lookup_insert. by case_decide.
    - replace o with (negb old) by (by destruct o, old). rewrite Enew. by destruct o, old. }
  split; rewrite Ems.
  - intros o v p' H. destruct (decide (o = old)) as [->|].
    + rewrite Eold in H. row_cases; [done|by apply Hp].
    + replace o with (negb old) in * by (by destruct o, old). rewrite Enew in H. by apply Hp.
  - intros id m Hid. destruct (Hm id m Hid) as (?&?&?&?). repeat split; try done; try apply H; try apply H0.
    by apply Hsome.
Qed.

Section preservation.
Context {LV : LockView} {TV : TokenView} {SV : SystemView} {PV : PoolView}.

Lemma i64_sub_exact b t : - max_amount <= b <= max_amount -> 0 <= t <= max_amount -> i64 (b - t) = b - t.
Proof. intros. apply i64_id. unfold is_i64, max_amount in *. lia. Qed.

(** The balance left for a new deposit is at most the token balance. *)
Lemma real_balance_le s user b : dep_inv s -> 0 <= b <= max_amount ->
  let real := match depositpools s !! (user, user) with
              | Some p => i64 (b - amount (deposit_total p)) | None => b end in
  match depositpools2 s !! (user, user) with
  | Some p => i64 (real - amount (deposit_total p)) | None => real end <= b.
Proof.
  intros [Hp _] Hb.
  assert (Ht : forall o p, pools o s !! (user, user) = Some p -> 0 <= amount (deposit_total p) <= max_amount)
    by (intros o p H; apply (Hp o user p H)).
  pose proof (Ht true) as H1. pose proof (Ht false) as H2. cbn in H1, H2.
  destruct (depositpools s !! (user, user)) as [p|], (depositpools2 s !! (user, user)) as [p2|];
    cbn; try specialize (H1 _ eq_refl); try specialize (H2 _ eq_refl);
    rewrite ?(i64_sub_exact b) by lia; rewrite ?i64_sub_exact by lia; lia.
Qed.

(** Paying into a pool row keeps it in balance with its miners. *)
Lemma pool_pay_keeps ms old u p p' q : pool_ok ms old u p -> is_i64 (amount q) -> 0 < amount q ->
  pool_pay q p = Ok p' -> pool_ok ms old u p'.
Proof.
  intros Hok Hq Hpos H. apply pool_pay_Ok in H as [-> ?]; [|by eapply pool_ok_core|done].
  destruct Hok as ((?&?)&(?&?)&(?&?)&?&?). unfold pool_ok, is_core; cbn. repeat split; lia.
Qed.

Lemma pool_unpay_keeps ms old u p p' q : pool_ok ms old u p -> is_i64 (amount q) ->
  0 < amount q <= amount (deposit_free p) -> amount q <= amount (deposit_total p) ->
  pool_unpay q p = Ok p' -> pool_ok ms old u p'.
Proof.
  intros Hok Hq Hpos Ht H. apply pool_unpay_Ok in H as ->; [|by eapply pool_ok_core|done].
  destruct Hok as ((?&?)&(?&?)&(?&?)&?&?). unfold pool_ok, is_core; cbn. repeat split; lia.
Qed.

Lemma fresh_pool_ok s old u q : dep_inv s -> pools old s !! (u, u) = None ->
  symbol q = CORE_SYMBOL -> 0 < amount q <= max_amount -> pool_ok (mdeposits s) old u (mkPool u 0 q q q).
Proof.
  intros [Hp Hm] Hnone Hsy Hq. unfold pool_ok, is_core; cbn. repeat split; try lia; try done.
  rewrite Z.sub_diag. symmetry. apply map_sum_zero. intros id m Hid.
  destruct (Hm id m Hid) as (_ & _ & _ & Hs). unfold backs.
  destruct (Z.eqb_spec (md_account m) u) as [<-|]; [|done].
  destruct (Bool.eqb_spec (miner_type m =? 0) old) as [<-|]; [|done].
  destruct Hs as [? Hs]. congruence.
Qed.

Lemma paydeppool_inv user quant : is_i64 (amount quant) -> TokenViewOk TV ->
  preserves dep_inv (paydeppool user quant).
Proof.
  intros Hq HT c s o u s' o' H Hinv. unfold paydeppool in H. minv; zb; skip_votes;
  match goal with Hb : get_balance _ _ = Ok _ |- _ => apply token_view_ok in Hb as Hbal end;
  pose proof (real_balance_le s user _ Hinv Hbal) as Hreal; cbn zeta in Hreal.
  - apply (inv_pool_row s _ true user x0); try done.
    eapply pool_pay_keeps; [by apply (proj1 Hinv true)|done|done|eassumption].
  - rewrite E in Hreal. apply (inv_pool_row s _ true user (mkPool user 0 quant quant quant)); try done.
    apply fresh_pool_ok; try done. lia.
Qed.
Lemma unpaydeppool_inv user quant : is_i64 (amount quant) -> preserves dep_inv (unpaydeppool user quant).
Proof.
  intros Hq c s o u s' o' H Hinv. unfold unpaydeppool in H. minv; zb; skip_votes.
  apply (inv_pool_row s _ true user x0); try done. simplify_eq.
  eapply pool_unpay_keeps; [by apply (proj1 Hinv true)|done|done|done|eassumption].
Qed.

Lemma paydeppool2_inv user quant : in_range quant -> preserves dep_inv (paydeppool2 user quant).
Proof.
  intros Hq c s o u s' o' H Hinv. unfold paydeppool2 in H. minv; zb; skip_votes.
  - apply (inv_pool_row s _ false user x0); try done.
    eapply pool_pay_keeps; [by apply (proj1 Hinv false)|by apply in_range_i64|done|eassumption].
  - apply (inv_pool_row s _ false user (mkPool user 0 quant quant quant)); try done.
    unfold in_range in Hq. apply fresh_pool_ok; try done. lia.
Qed.

Lemma undeppool2_inv user quant : is_i64 (amount quant) -> preserves dep_inv (undeppool2 user quant).
Proof.
  intros Hq c s o u s' o' H Hinv. unfold undeppool2 in H. minv; zb; skip_votes.
  apply (inv_pool_row s _ false user x0); try done. simplify_eq.
  eapply pool_unpay_keeps; [by apply (proj1 Hinv false)|done|done|done|eassumption].
Qed.

(** Changing one miner from [m0] to [m1] (absent when [None]) and pool rows
    accordingly: enough that every pool row accounts for the change. *)
Definition backs_opt (old : bool) (acct : name) (m : option miner2dep) : Z :=
  match m with Some m => backs old acct m | None => 0 end.

Lemma backing_alter ms old acct id m1 :
  backing (match m1 with Some m => <[id := m]> ms | None => delete id ms end) old acct =
  backing ms old acct - backs_opt old acct (ms !! id) + backs_opt old acct m1.
Proof.
  destruct (ms !! id) as [m0|] eqn:E, m1 as [m1|]; cbn.
  - by apply backing_change.
  - rewrite (backing_remove _ _ _ _ m0) by done. lia.
  - rewrite backing_new by done. lia.
  - rewrite delete_id by done. lia.
Qed.

(** The pool row of [acct] of kind [o] changed from [p] to [q] while the backing
    grew by [d]. *)
Definition pool_moves (p q : depositpool) (d : Z) : Prop :=
  is_core (deposit_total q) /\ is_core (deposit_free q) /\ deposit_his q = deposit_his p /\
  amount (deposit_total q) <= amount (deposit_total p) /\
  amount (deposit_total q) - amount (deposit_free q) = amount (deposit_total p) - amount (deposit_free p) + d.

Lemma inv_miner_change s s' id m1 :
  dep_inv s ->
  mdeposits s' = (match m1 with Some m => <[id := m]> (mdeposits s) | None => delete id (mdeposits s) end) ->
  (forall old u q, pools old s' !! (u, u) = Some q -> exists p, pools old s !! (u, u) = Some p /\
     pool_moves p q (backs_opt old u m1 - backs_opt old u (mdeposits s !! id))) ->
  (forall old u, is_Some (pools old s !! (u, u)) -> is_Some (pools old s' !! (u, u))) ->
  (forall m, m1 = Some m -> is_core (md_deposit m) /\ is_core (dep_total m) /\
     amount (md_deposit m) <= amount (dep_total m) /\
     is_Some (pools (miner_type m =? 0) s !! (md_account m, md_account m))) ->
  dep_inv s'.
Proof.
  intros [Hp Hm] Ems Hrows Hsome Hm1. split.
  - intros old u q Hq. destruct (Hrows old u q Hq) as (p & Hpq & (H1 & H2 & H3 & H4 & H5)).
    destruct (Hp old u p Hpq) as (?&?&?&?&Hb). unfold pool_ok. rewrite H3, Ems, backing_alter.
    repeat split; try apply H1; try apply H2; try apply H; try apply H6; try apply H0; lia.
  - intros id' m Hid'. rewrite Ems in Hid'.
    assert (Hcase : m1 = Some m \/ mdeposits s !! id' = Some m).
    { destruct m1 as [m1|]; row_cases; auto. }
    destruct Hcase as [Hc|Hc].
    + destruct (Hm1 m Hc) as (?&?&?&?). repeat split; try apply H; try apply H0; [done|by apply Hsome].
    + destruct (Hm id' m Hc) as (?&?&?&?). repeat split; try apply H; try apply H0; [done|by apply Hsome].
Qed.

Lemma pool_moves_same s old u p d : dep_inv s -> pools old s !! (u, u) = Some p -> d = 0 -> pool_moves p p d.
Proof.
  intros [Hp _] H ->. destruct (Hp old u p H) as (?&?&?&?&?). unfold pool_moves. split_and!; (done || lia).
Qed.

Lemma backs_other old u m : md_account m <> u -> backs old u m = 0.
Proof. intros. unfold backs. by destruct (Z.eqb_spec (md_account m) u). Qed.

Lemma backs_same m : backs (miner_type m =? 0) (md_account m) m = amount (md_deposit m).
Proof. unfold backs. by rewrite Z.eqb_refl, Bool.eqb_reflx. Qed.

Lemma backs_kind old u m : Bool.eqb (miner_type m =? 0) old = false -> backs old u m = 0.
Proof. unfold backs. intros ->. by rewrite andb_false_r. Qed.

Lemma paydeposit_inv user minerid quant : is_i64 (amount quant) ->
  preserves dep_inv (paydeposit user minerid quant).
Proof.
  intros Hq c s o u s' o' H Hinv. unfold paydeposit in H. minv.
  match goal with H : dep_is_deposit_enough _ _ _ = _ |- _ => clear H end. zb; skip_votes; simplify_eq.
  match goal with H : depositpools2 s !! _ = Some ?p |- _ =>
    pose proof (proj1 Hinv false _ _ H) as Hok;
    match goal with H : pool_use _ _ = Ok _ |- _ =>
      apply pool_use_Ok in H as ->; [|by eapply pool_ok_core|done] end end.
  cbn in *. destruct Hok as ((?&?)&(?&?)&(?&?)&?&?).
  eapply (inv_miner_change s _ minerid (Some (mkMiner2dep 1 user quant quant))); try done.
  - intros old v q Hv. replace (mdeposits s !! minerid) with (@None miner2dep). cbn [backs_opt].
    destruct old; cbn in Hv; row_cases.
    + exists q. split; [done|]. eapply (pool_moves_same s true v); [done..|]. by rewrite backs_kind.
    + eexists. split; [eassumption|]. unfold pool_moves, is_core, backs; cbn. rewrite Z.eqb_refl; cbn.
      repeat split; try done; lia.
    + exists q. split; [done|]. eapply (pool_moves_same s false v); [done..|].
      rewrite backs_other; [done|]. cbn. congruence.
  - intros old v. destruct old; cbn; [done|]. intros Hv. rewrite lookup_insert. by case_decide.
  - intros m [= <-]. cbn. repeat split; try done; try lia.
Qed.
Lemma backing_elem s id m : dep_inv s -> mdeposits s !! id = Some m ->
  amount (md_deposit m) <= backing (mdeposits s) (miner_type m =? 0) (md_account m).
Proof.
  intros [_ Hm] Hid. rewrite <- (backs_same m). apply (map_sum_elem_le (fun _ => backs _ _)) with (k := id); [|done].
  intros k v Hk. apply backs_nonneg. destruct (Hm k v Hk) as ((_ & ?) & _). lia.
Qed.

(** The capped release never reaches the cap. *)
Lemma release_uncapped s id m p q : dep_inv s -> mdeposits s !! id = Some m ->
  pools (miner_type m =? 0) s !! (md_account m, md_account m) = Some p ->
  pool_release_capped (md_deposit m) p = Ok q ->
  q = p <| deposit_free := core (amount (deposit_free p) + amount (md_deposit m)) |> /\
  amount (deposit_free p) + amount (md_deposit m) <= amount (deposit_total p).
Proof.
  intros Hinv Hid Hp H. pose proof (backing_elem s id m Hinv Hid) as Hle.
  destruct (proj2 Hinv id m Hid) as (Hc & _). pose proof (proj1 Hinv _ _ _ Hp) as Hok.
  apply pool_release_capped_Ok in H as ->; [|by eapply pool_ok_core|by apply is_core_i64].
  destruct Hok as (_ & _ & _ & _ & Hb). rewrite Z.min_l by lia. split; [done|lia].
Qed.

(** Proves the obligation of [inv_miner_change] on the pool rows: every row of
    the new tables is either an old row whose miners are as before or one of
    the rows the action replaced. *)
Ltac solve_rows Hinv :=
  let old := fresh "old" in let v := fresh "v" in let q := fresh "q" in let Hv := fresh "Hv" in
  intros old v q Hv;
  repeat match goal with H : mdeposits _ !! _ = _ |- _ => rewrite H; clear H end;
  cbn [backs_opt]; destruct old; cbn in Hv; row_cases;
  (eexists; split; [eassumption|]);
  repeat match goal with H : depositpools _ !! _ = Some _ |- _ =>
    apply (proj1 Hinv true) in H as ((?&?)&(?&?)&(?&?)&?&?) end;
  repeat match goal with H : depositpools2 _ !! _ = Some _ |- _ =>
    apply (proj1 Hinv false) in H as ((?&?)&(?&?)&(?&?)&?&?) end;
  unfold pool_moves, is_core, backs in *; cbn in *;
  repeat match goal with
    | |- context [?a =? ?b] => destruct (Z.eqb_spec a b)
    end; cbn; subst; split_and!; (done || lia || congruence).

Ltac solve_some := intros old v; destruct old; cbn; rewrite ?lookup_insert; repeat case_decide; eauto.

Lemma incdeposit_inv minerid quant : is_i64 (amount quant) -> preserves dep_inv (incdeposit minerid quant).
Proof.
  intros Hq c s o u s' o' H Hinv. unfold incdeposit in H. minv; zb; skip_votes; cbn in *; simplify_eq;
  match goal with H : mdeposits s !! minerid = Some ?m |- _ =>
    rename H into Hid; rename m into m0; destruct (proj2 Hinv minerid m0 Hid) as (Hc1 & Hc2 & Hle & _) end;
  match goal with H : miner_increase _ _ = Ok _ |- _ =>
    apply miner_increase_Ok in H as (-> & ?); [|done..] end;
  pose proof Hc1 as [_ ?]; pose proof Hc2 as [_ ?]; pose proof (backing_elem s _ _ Hinv Hid).
  - match goal with H : <[_ := _]> _ !! _ = Some _ |- _ => rewrite lookup_insert_eq in H; injection H as <- end.
    match goal with H : pool_use _ _ = Ok _ |- _ =>
      apply pool_use_Ok in H as ->; [|eapply pool_ok_core, (proj1 Hinv false); eassumption
        |cbn; unfold is_i64, max_amount in *; lia] end.
    match goal with H : pool_release_capped _ _ = Ok _ |- _ =>
      eapply (release_uncapped s) in H as (-> & ?); [|done|exact Hid|by rewrite E] end.
    eapply (inv_miner_change s _ minerid (Some _)); [done|reflexivity|solve_rows Hinv|solve_some|].
    intros m [= <-]; cbn; split_and!; try (apply core_is_core; lia); [lia|by eexists].
  - match goal with H : pool_use _ _ = Ok _ |- _ =>
      apply pool_use_Ok in H as ->; [|eapply pool_ok_core, (proj1 Hinv false); eassumption|done] end.
    eapply (inv_miner_change s _ minerid (Some _)); [done|reflexivity|solve_rows Hinv|solve_some|].
    intros m [= <-]; cbn; split_and!; try (apply core_is_core; lia); [lia|by eexists].
Qed.
Lemma check_bp_account_Ok bpacc c s o u s' o' :
  check_bp_account bpacc c s o = Ok (u, s', o') -> s' = s /\ o' = o.
Proof. unfold check_bp_account. destruct (getProducerSeq bpacc). intros H. by minv. Qed.

(** The slashed amount: the quantity asked for, at most the miner's deposit. *)
Definition slashed (m : miner2dep) (quant : asset) : Z :=
  Z.min (amount quant) (amount (md_deposit m)).

(** What [mforfeit] does when it succeeds. *)
Lemma mforfeit_Ok user minerid quant memo acc_type caller c s o u s' o' :
  dep_inv s -> is_i64 (amount quant) ->
  mforfeit user minerid quant memo acc_type caller c s o = Ok (u, s', o') ->
  exists m p, mdeposits s !! minerid = Some m /\ symbol quant = CORE_SYMBOL /\ 0 < amount quant /\
    let old := miner_type m =? 0 in let k := (md_account m, md_account m) in let q := slashed m quant in
    pools old s !! k = Some p /\ 0 <= q <= amount (deposit_total p) - amount (deposit_free p) /\
    mdeposits s' = <[minerid := m <| md_deposit := core (amount (md_deposit m) - q) |>]> (mdeposits s) /\
    pools old s' = <[k := p <| deposit_total := core (amount (deposit_total p) - q) |>]> (pools old s) /\
    pools (negb old) s' = pools (negb old) s /\ grate s' = grate s /\ depstores s' = depstores s /\
    o' = o <| inlines := inlines o ++ [mk_action (md_account m) (N "active") (N "eosio.token") (N "transfer")
       [VInt (md_account m); VInt (if old then N "yottaforfeit" else N "forfeit.sys"); VAsset (core q); VStr memo]] |>.
Proof.
  intros Hinv Hq H. unfold mforfeit in H. minv; zb;
  repeat match goal with H : check_bp_account _ _ _ _ = Ok _ |- _ => apply check_bp_account_Ok in H as [-> ->] end;
  cbn in *; simplify_eq;
  match goal with H : mdeposits s !! minerid = Some ?m |- _ =>
    rename H into Hid; rename m into m0; destruct (proj2 Hinv minerid m0 Hid) as (Hc1 & Hc2 & Hle & _) end;
  pose proof Hc1 as [Hsy ?]; pose proof Hc2 as [_ ?];
  match goal with
  | H : depositpools s !! _ = Some ?p |- _ => rename H into Hp; rename p into p0; pose proof (proj1 Hinv true _ _ Hp) as Hok
  | H : depositpools2 s !! _ = Some ?p |- _ => rename H into Hp; rename p into p0; pose proof (proj1 Hinv false _ _ Hp) as Hok
  end;
  set (q := if amount (md_deposit m0) <? amount quant then _ else quant) in *;
  (assert (Eq : q = core (slashed m0 quant));
   [subst q; unfold slashed; destruct (Z.ltb_spec (amount (md_deposit m0)) (amount quant));
    [rewrite Z.min_r by lia|rewrite Z.min_l by lia; apply core_eta]; unfold core; congruence|]);
  clearbody q; subst q; cbn in *;
  match goal with H : pool_forfeit _ _ = Ok _ |- _ =>
    apply pool_forfeit_Ok in H as ->;
      [|by eapply pool_ok_core|unfold slashed; cbn; unfold is_i64, max_amount in *; lia] end;
  destruct Hok as ((?&?)&(?&?)&(?&?)&?&?);
  exists m0, p0; destruct (Z.eqb_spec (miner_type m0) 0); try done; cbn;
  rewrite i64_sub_exact in * by (unfold slashed in *; lia);
  (split; [done|]); (split; [done|]); (split; [done|]); (split; [done|]);
  (split; [unfold slashed in *; lia|]); rewrite ?Hsy; repeat (split; [done|]); done.
Qed.
Lemma mforfeit_inv user minerid quant memo acc_type caller : is_i64 (amount quant) ->
  preserves dep_inv (mforfeit user minerid quant memo acc_type caller).
Proof.
  intros Hq c s o u s' o' H Hinv.
  destruct (mforfeit_Ok _ _ _ _ _ _ _ _ _ _ _ _ Hinv Hq H)
    as (m & p & Hid & _ & _ & Hp & Hr & Ems & Eold & Enew & _). cbn zeta in *. clear H.
  set (old := miner_type m =? 0) in *. set (q := slashed m quant) in *.
  destruct (proj2 Hinv minerid m Hid) as (Hc1 & Hc2 & Hle & Hs). pose proof Hc1 as [_ ?].
  assert (Hqle : q <= amount (md_deposit m)) by (unfold q, slashed; lia).
  pose proof (proj1 Hinv _ _ _ Hp) as ((?&?)&(?&?)&(?&?)&?&?).
  apply (inv_miner_change s s' minerid (Some (m <| md_deposit := core (amount (md_deposit m) - q) |>)));
    [done|exact Ems| | |].
  - intros kind v r Hv. rewrite Hid. cbn [backs_opt].
    destruct (decide (kind = old)) as [->|Hk].
    + rewrite Eold in Hv. row_cases.
      * exists p. split; [done|]. unfold pool_moves, is_core, backs; cbn. fold old.
        rewrite Z.eqb_refl, Bool.eqb_reflx; cbn. split_and!; (done || lia).
      * exists r. split; [done|]. apply (pool_moves_same s old v); [done..|].
        rewrite !backs_other by (cbn; congruence). done.
    + replace kind with (negb old) in * by (by destruct kind, old). rewrite Enew in Hv.
      exists r. split; [done|]. apply (pool_moves_same s (negb old) v); [done..|].
      rewrite !backs_kind by (cbn; fold old; by destruct old). done.
  - intros kind v Hv. destruct (decide (kind = old)) as [->|Hk].
    + rewrite Eold, lookup_insert. by case_decide.
    + replace kind with (negb old) in * by (by destruct kind, old). by rewrite Enew.
  - intros m' [= <-]. cbn. split_and!; [apply core_is_core; lia|done|lia|exact Hs].
Qed.

Lemma delminer_inv minerid : preserves dep_inv (delminer minerid).
Proof.
  intros c s o u s' o' H Hinv. unfold delminer in H. minv; zb; skip_votes; cbn in *; simplify_eq; try done;
  match goal with H : mdeposits s !! minerid = Some ?m |- _ =>
    rename H into Hid; rename m into m0; destruct (proj2 Hinv minerid m0 Hid) as (Hc1 & Hc2 & Hle & Hs) end;
  pose proof Hc1 as [_ ?]; pose proof (backing_elem s _ _ Hinv Hid);
  destruct (Z.eqb_spec (miner_type m0) 0) as [E3|E3]; try done; cbn in Hs; try (by destruct Hs as [? Hs]; congruence).
  all: match goal with H : pool_release_capped _ _ = Ok _ |- _ =>
      eapply (release_uncapped s) in H as (-> & ?);
      [|done|exact Hid|by destruct (Z.eqb_spec (miner_type m0) 0)] end.
  all: apply (inv_miner_change s _ minerid None); [done|reflexivity|solve_rows Hinv|solve_some|done].
Qed.

Lemma mchgdepacc_inv minerid new_depacc : preserves dep_inv (mchgdepacc minerid new_depacc).
Proof.
  intros c s o u s' o' H Hinv. unfold mchgdepacc in H. minv; zb; skip_votes; cbn in *; simplify_eq;
  match goal with H : mdeposits s !! minerid = Some ?m |- _ =>
    rename H into Hid; rename m into m0; destruct (proj2 Hinv minerid m0 Hid) as (Hc1 & Hc2 & Hle & Hs) end;
  pose proof Hc1 as [_ ?]; pose proof Hc2 as [_ ?]; pose proof (backing_elem s _ _ Hinv Hid) as Hb;
  destruct (Z.eqb_spec (miner_type m0) 0) as [E3|E3]; try done; cbn in Hs, Hb;
  repeat match goal with H : <[(?a, ?a) := _]> _ !! (?b, ?b) = Some _ |- _ =>
    rewrite lookup_insert_ne in H by congruence end; simplify_eq;
  match goal with H : pool_use _ _ = Ok _ |- _ =>
    apply pool_use_Ok in H as ->; [|eapply pool_ok_core, (proj1 Hinv false); eassumption|by apply is_core_i64] end.
  - match goal with H : pool_release _ _ = Ok _ |- _ =>
      apply pool_release_Ok in H as ->; [|eapply pool_ok_core, (proj1 Hinv true); eassumption|by apply is_core_i64] end.
    eapply (inv_miner_change s _ minerid (Some _)); [done|reflexivity|solve_rows Hinv|solve_some|].
    intros m [= <-]; cbn; split_and!; try done; by eexists.
  - match goal with H : pool_release _ _ = Ok _ |- _ =>
      apply pool_release_Ok in H as ->; [|eapply pool_ok_core, (proj1 Hinv false); eassumption|by apply is_core_i64] end.
    eapply (inv_miner_change s _ minerid (Some _)); [done|reflexivity|solve_rows Hinv|solve_some|].
    intros m [= <-]; cbn; split_and!; try done; by eexists.
Qed.

(** The actions that touch no pool and no miner. *)
Lemma dep_inv_frame s s' :
  depositpools s' = depositpools s -> depositpools2 s' = depositpools2 s -> mdeposits s' = mdeposits s ->
  dep_inv s -> dep_inv s'.
Proof.
  intros E1 E2 E3 [Hp Hm].
  assert (Epools : forall old, pools old s' = pools old s) by (by intros []).
  split; rewrite E3.
  - intros old u p. rewrite Epools. apply Hp.
  - intros id m H. destruct (Hm id m H) as (?&?&?&?). unfold miner_ok. by rewrite Epools.
Qed.
End preservation.

Lemma dep_inv_step a : dep_args_ok a -> preserves dep_inv (dep_apply a).
Proof.
  destruct a; cbn [dep_apply dep_args_ok]; intros Ha.
  - by apply paydeppool_inv; destruct Ha.
  - by apply unpaydeppool_inv.
  - by apply paydeppool2_inv.
  - by apply undeppool2_inv.
  - intros c s o r s' o' H. unfold depstore in H. minv; zb; by apply dep_inv_frame.
  - intros c s o r s' o' H. unfold undepstore in H. minv.
    match goal with H : check_bp_account _ _ _ _ = Ok _ |- _ => apply check_bp_account_Ok in H as [-> ->] end.
    by apply dep_inv_frame.
  - by apply paydeposit_inv.
  - intros c s o r s' o' H. unfold chgdeposit in H. minv. done.
  - by apply mforfeit_inv.
  - by apply delminer_inv.
  - intros c s o r s' o' H. unfold setrate in H. minv. by apply dep_inv_frame.
  - by apply mchgdepacc_inv.
  - intros c s o r s' o' H. unfold updatevote in H. minv. skip_votes. done.
  - by apply incdeposit_inv.
  - intros c s o r s' o' H. unfold channellog in H. minv. done.
Qed.

(** ** The price of storage *)

Lemma deposit_for_spec rate space : 0 < rate < 2^31 -> 0 < space < 2^53 -> 25 * space * rate <= 2^60 ->
  exists z, deposit_for (Some rate) space = Ok z /\ 0 <= z /\
    25 * space * rate - 20480 < 16384 * z <= 25 * space * rate + 4096.
Proof.
  intros Hr Hs Hb. unfold deposit_for. cbn [default].
  assert (H1 := frac_div _ _ _ _ _ _ _ _ (frac_exact space ltac:(lia)) (frac_exact (64 * 1024) ltac:(lia))
    ltac:(lia) ltac:(lia) ltac:(lia)).
  assert (H2 := frac_div _ _ _ _ _ _ _ _ (frac_exact rate ltac:(lia)) (frac_exact 100 ltac:(lia))
    ltac:(lia) ltac:(lia) ltac:(lia)).
  assert (H3 := frac_mul _ _ _ _ _ _ _ _ H1 H2 ltac:(lia) ltac:(nia) ltac:(lia)).
  assert (H4 := frac_mul _ _ _ _ _ _ _ _ H3 (frac_exact 10000 ltac:(lia)) ltac:(lia) ltac:(nia) ltac:(lia)).
  destruct (frac_trunc _ _ _ _ (frac_norm (25 * space * rate) 16384 _ _ _ _ H4 ltac:(lia)))
    as (z & Hz & H0 & Hr'); [lia|lia|].
  exists z. split; [exact Hz|]. lia.
Qed.

Lemma dep_inv_init : dep_inv hdddeposit_init.
Proof. split; [intros []|]; intros ? ? Hk; cbn in Hk; by rewrite lookup_empty in Hk. Qed.

(** ** Theorems *)

(** C3: every action of hdddeposit keeps the collateral accounts in balance.
    In a balanced state each pool satisfies 0 <= free, total <= his, all within
    the range of an asset, and total - free is exactly the sum of the deposits
    of the miners the pool backs; each miner's deposit is between zero and its
    highest deposit, and its pool exists.  The empty state is balanced. *)
Theorem collateral_invariant a c s o u s' o' :
  dep_args_ok a -> dep_inv s -> dep_apply a c s o = Ok (u, s', o') ->
  dep_inv hdddeposit_init /\ dep_inv s'.
Proof.
  intros Ha Hinv H. split; [exact dep_inv_init|by eapply (dep_inv_step a Ha)].
Qed.

(** a forfeit takes from a miner the amount asked for, at most its deposit:
    the deposit and the total of the pool that backs it fall by that amount,
    the free part, every other pool and every other miner stay, and exactly one
    transfer of that amount from the depositor to the forfeit account of the
    miner's kind is queued. *)
Theorem mforfeit_effect {SV : SystemView} user minerid quant memo acc_type caller c s o u s' o' :
  dep_inv s -> is_i64 (amount quant) ->
  mforfeit user minerid quant memo acc_type caller c s o = Ok (u, s', o') ->
  exists m p, mdeposits s !! minerid = Some m /\ symbol quant = CORE_SYMBOL /\ 0 < amount quant /\
    let old := miner_type m =? 0 in let k := (md_account m, md_account m) in let q := slashed m quant in
    pools old s !! k = Some p /\ 0 <= q <= amount (deposit_total p) - amount (deposit_free p) /\
    mdeposits s' = <[minerid := m <| md_deposit := core (amount (md_deposit m) - q) |>]> (mdeposits s) /\
    pools old s' = <[k := p <| deposit_total := core (amount (deposit_total p) - q) |>]> (pools old s) /\
    pools (negb old) s' = pools (negb old) s /\ grate s' = grate s /\ depstores s' = depstores s /\
    o' = o <| inlines := inlines o ++ [mk_action (md_account m) (N "active") (N "eosio.token") (N "transfer")
       [VInt (md_account m); VInt (if old then N "yottaforfeit" else N "forfeit.sys"); VAsset (core q); VStr memo]] |>.
Proof. exact (mforfeit_Ok user minerid quant memo acc_type caller c s o u s' o'). Qed.

Lemma add_pool_core f acc p a : (forall x, acc = Ok x -> is_core x) ->
  (forall q, p = Some q -> is_core (f q)) -> add_pool f acc p = Ok a -> is_core a.
Proof.
  intros Hacc Hp H. unfold add_pool in H. minv. destruct p as [q|]; minv; [|by apply Hacc].
  pose proof (Hp q eq_refl) as [_ ?]. pose proof (Hacc _ eq_refl) as Hx. pose proof Hx as [_ ?].
  apply core_add_Ok in H1 as (_ & -> & ?); [|done|by apply is_core_i64, Hp].
  apply core_is_core. lia.
Qed.

Lemma add_pool_sum f x p : 0 <= x -> (forall q, p = Some q -> is_core (f q)) ->
  x + (match p with Some q => amount (f q) | None => 0 end) <= max_amount ->
  add_pool f (Ok (core x)) p = Ok (core (x + match p with Some q => amount (f q) | None => 0 end)).
Proof.
  intros Hx Hp Hle. unfold add_pool; cbn. destruct p as [q|]; [|by rewrite Z.add_0_r].
  destruct (Hp q eq_refl) as [S ?]. rewrite asset_add_total; [done|done|].
  unfold max_amount in *. cbn. lia.
Qed.

(** what hdddeposit tells the token contract obeys the interface the
    transfer theorems assume: in a balanced state [get_deposit] is an amount of
    the core token between zero and the maximum, equal to the two pool totals
    together. *)
Theorem deposit_view_lawful s : dep_inv s ->
  DepositViewOk (hdddeposit_view s) /\
  forall u, let t o := match pools o s !! (u, u) with Some p => amount (deposit_total p) | None => 0 end in
    t true + t false <= max_amount -> @get_deposit (hdddeposit_view s) u = Ok (core (t true + t false)).
Proof.
  intros Hinv. split.
  - intros u a. cbn. unfold dep_get_deposit. apply add_pool_core.
    + intros x. apply add_pool_core; [intros y [= <-]; by apply core_is_core|].
      intros q Hq. by destruct (proj1 Hinv true u q Hq).
    + intros q Hq. by destruct (proj1 Hinv false u q Hq).
  - intros u t Ht. cbn. unfold dep_get_deposit. change (asset_make 0 CORE_SYMBOL) with (Ok (core 0)).
    assert (Hc : forall o p, pools o s !! (u, u) = Some p -> is_core (deposit_total p))
      by (intros o p Hp; by destruct (proj1 Hinv o u p Hp)).
    assert (H0 : forall o, 0 <= t o).
    { intros o. unfold t. destruct (pools o s !! (u, u)) eqn:E; [destruct (Hc _ _ E)|]; lia. }
    pose proof (H0 true). pose proof (H0 false).
    rewrite (add_pool_sum deposit_total 0 (depositpools s !! (u, u)));
      [|lia|exact (Hc true)|change (0 + t true <= max_amount); lia].
    rewrite add_pool_sum; [done|change (0 <= 0 + t true); lia|exact (Hc false)|].
    change (0 + t true + t false <= max_amount). lia.
Qed.

(** the deposit [calc_deposit] asks for is the floating-point rendering of
    space * rate * 100 / 65536 units: for every rate below 2^31 and space below
    2^53 in the stated range it exists and is within 1.25 units of the exact
    price, and [is_deposit_enough] accepts exactly the deposits of at least that
    amount. *)
Theorem calc_deposit_price s rate space : grate s = Some rate ->
  0 < rate < 2^31 -> 0 < space < 2^53 -> 25 * space * rate <= 2^60 ->
  exists z, dep_calc_deposit s space = Ok (core z) /\ 0 <= z /\
    25 * space * rate - 20480 < 16384 * z <= 25 * space * rate + 4096 /\
    forall d, dep_is_deposit_enough s d space = Ok (z <=? amount d).
Proof.
  intros Hg Hr Hs Hb. destruct (deposit_for_spec rate space Hr Hs Hb) as (z & Hz & H0 & Hz').
  exists z. unfold dep_calc_deposit, dep_is_deposit_enough. rewrite Hg, Hz. cbn.
  split; [|done]. apply asset_make_core. unfold max_amount. lia.
Qed.

(** ** Witnesses *)

(** A depositor with an old miner (id 9, deposit 300 of 500) and 1000 units in
    the new pool. *)
Definition dep_demo : hdddeposit :=
  let u := N "depositor" in
  mkHdddeposit
    {[ (u, u) := mkPool u 0 (core 500) (core 200) (core 500) ]}
    {[ (u, u) := mkPool u 0 (core 1000) (core 1000) (core 1000) ]}
    ∅
    {[ 9 := mkMiner2dep 0 u (core 300) (core 300) ]}
    (Some 100).

Lemma dep_demo_inv : dep_inv dep_demo.
Proof.
  split.
  - intros old u p Hp. destruct old; cbn in Hp; apply lookup_singleton_Some in Hp as [[= <-] <-];
      unfold pool_ok, is_core, backing, max_amount; cbn; rewrite map_sum_singleton; split_and!; try lia;
      unfold backs; cbn; rewrite Z.eqb_refl; done.
  - intros id m Hm. cbn in Hm. apply lookup_singleton_Some in Hm as [<- <-].
    unfold miner_ok, is_core, max_amount; cbn. split_and!; done.
Qed.

Definition no_voters : SystemView :=
  {| isActiveVoter := fun _ => false; getProducerSeq := fun _ => (0, 0) |}.

Definition dep_admin_ctx : ctx := ctx_of (N "hdddeposit12") [N "hddpooladmin"; N "hdddeposit12"] 0.

(** The old miner raises its deposit by 50 and moves to the new pool. *)
Lemma collateral_invariant_witness : exists s' o',
  dep_apply (DIncdeposit no_voters 9 (core 50)) dep_admin_ctx dep_demo no_out = Ok (tt, s', o') /\
  mdeposits s' !! 9 = Some (mkMiner2dep 1 (N "depositor") (core 350) (core 350)) /\ dep_inv s'.
Proof.
  eexists _, _. split; [vm_compute; reflexivity|]. split; [vm_compute; reflexivity|].
  refine (proj2 (collateral_invariant (DIncdeposit no_voters 9 (core 50)) dep_admin_ctx dep_demo no_out tt _ _
    ltac:(done) dep_demo_inv _)).
  vm_compute. reflexivity.
Defined.

Lemma mforfeit_effect_witness : exists s' o',
  @mforfeit no_voters (N "x") 9 (core 400) "fine" 1 (N "x") dep_admin_ctx dep_demo no_out = Ok (tt, s', o') /\
  exists m, mdeposits dep_demo !! 9 = Some m /\ slashed m (core 400) = 300 /\
    mdeposits s' = <[9 := m <| md_deposit := core (amount (md_deposit m) - slashed m (core 400)) |>]> (mdeposits dep_demo).
Proof.
  eexists _, _. split; [vm_compute; reflexivity|].
  edestruct (@mforfeit_effect no_voters (N "x") 9 (core 400) "fine" 1 (N "x") dep_admin_ctx dep_demo no_out tt)
    as (m & p & Hm & _ & _ & _ & _ & Hs & _);
    [exact dep_demo_inv|done|vm_compute; reflexivity|].
  exists m. split; [exact Hm|]. split; [|exact Hs].
  vm_compute in Hm. injection Hm as <-. reflexivity.
Defined.

Lemma deposit_view_lawful_witness :
  @get_deposit (hdddeposit_view dep_demo) (N "depositor") = Ok (core 1500).
Proof.
  refine (proj2 (deposit_view_lawful dep_demo dep_demo_inv) (N "depositor") _). vm_compute. discriminate.
Defined.

(** 100 GiB at the base rate cost 100 tokens of 10000 units. *)
Lemma calc_deposit_price_witness : exists z,
  dep_calc_deposit dep_demo min_miner_space = Ok (core z) /\ 0 <= z /\
  25 * min_miner_space * 100 - 20480 < 16384 * z <= 25 * min_miner_space * 100 + 4096.
Proof.
  destruct (calc_deposit_price dep_demo 100 min_miner_space) as (z & H1 & H2 & H3 & _);
    [reflexivity|lia|unfold min_miner_space; lia|unfold min_miner_space; lia|].
  exists z. split; [exact H1|]. split; [exact H2|exact H3].
Defined.
