(* ===== verification/Reserve.v ===== *)
(** * Transfers against the deposits and locks of the other contracts

    The transfer of eosio.token (Token.v) run on the tables of hddlock (HddLock.v) and
    hdddeposit (HddDeposit.v): what it leaves the sender, and what goes wrong when a lock has
    wrapped around. *)

From S2P Require Import Prelude Names Asset Chain Views Token HddLock HddDeposit.
#[local] Open Scope Z_scope.

(** The locks of a user are amounts a user can have: each below 2^48 units, together below 2^62. *)
Definition sane_locks (sl : hddlock) (user : name) : Prop :=
  (forall id row, acclocks sl !! (user, id) = Some row -> 0 <= amount (al_quantity row) < 2^48) /\
  sumf lock_quantity (scope_rows user (acclocks sl)) < 2^62.

Lemma contracts_withhold sl sd t user : reach hddlock_init lock_apply sl -> sane_locks sl user -> dep_inv sd ->
  @withholds (hddlock_view sl) (hdddeposit_view sd) t user.
Proof.
  intros Hr [Hq Hs] Hd. split; intros a Ha.
  - by apply (proj1 (deposit_view_lawful sd Hd) user a).
  - destruct (lock_asset_spec sl t user Hr Hq Hs) as (v & Hv & Hb & _). cbn in Ha. rewrite Hv in Ha. injection Ha as <-. cbn. unfold max_amount. lia.
Qed.

(** C35: An ordinary transfer of the core token (not from a fund account, not a forfeit
    payment) is possible only for an account that is not frozen, and it leaves the sender at
    least the storage deposit that hdddeposit holds plus the locked amount that hddlock
    computes; a transfer to the stake account may use locked tokens but not the deposit.
    This is shown for hddlock in any state it reaches in which the sender's locks are
    nonnegative, below 2^48 units each and 2^62 together, hdddeposit in any state in which its
    collateral accounts balance, and a sender whose balance is not negative. *)
Theorem transfer_leaves_reserved sl sd s from to q memo c o u s' o' :
  reach hddlock_init lock_apply sl -> sane_locks sl from -> dep_inv sd ->
  reach token_init token_apply s -> 0 <= bal s from (symbol_code CORE_SYMBOL) ->
  @transfer (hddlock_view sl) (hdddeposit_view sd) from to q memo c s o = Ok (u, s', o') ->
  symbol q = CORE_SYMBOL -> from <> N "hddbasefound" -> from <> N "fund.sys" -> to <> N "yottaforfeit" -> to <> N "forfeit.sys" ->
  lock_is_frozen sl (current_time c) from = false /\
  exists d, dep_get_deposit sd from = Ok d /\ 0 <= amount d <= bal s' from (symbol_code CORE_SYMBOL) /\
    (to <> N "eosio.stake" -> exists l, lock_get_lock_asset sl (current_time c) from = Ok l /\ 0 <= amount l /\
       amount d + amount l <= bal s' from (symbol_code CORE_SYMBOL)).
Proof.
  intros Hl Hs Hd Ht Hb H Hq H1 H2 H3 H4. pose proof (contracts_withhold sl sd (current_time c) from Hl Hs Hd) as W.
  destruct (@transfer_reserves (hddlock_view sl) (hdddeposit_view sd) s from to q memo c o u s' o' Ht H Hq H1 H2 H3 H4 W Hb) as (Hf & r & Hr & Hle).
  split; [exact Hf|]. unfold reserved in Hr. apply res_bind_ok in Hr as (d & Ed & Hr). destruct W as [Wd Wl]. pose proof (Wd d Ed) as Hd0.
  exists d. split; [exact Ed|]. destruct (Z.eqb_spec to (N "eosio.stake")) as [->|Hne].
  - injection Hr as <-. split; [lia|done].
  - apply res_bind_ok in Hr as (l & El & Hr). injection Hr as <-. pose proof (Wl l El). split; [lia|]. intros _. exists l. split; [exact El|]. lia.
Qed.

(** [userone] has 400000 units.  [bigacc] has locked amounts for that account. *)
Definition locks_of (amounts : list Z) : hddlock :=
  ok_or hddlock_init (exec_all lock_apply
    (take 2 lock_demo_actions ++
     map (fun z => (LLocktransfer 7 (N "bigacc") (N "userone") (core z) (core 0) "lock", ctx_of (N "hddlock12345") [N "bigacc"] 50000000)) amounts)
    hddlock_init).

Definition reserve_transfer (sl : hddlock) (t amt : Z) : res (unit * token * out) :=
  @transfer (hddlock_view sl) (hdddeposit_view hdddeposit_init) (N "userone") (N "usertwo") (core amt) "pay"
    (ctx_of (N "eosio.token") [N "userone"] t) token_demo no_out.

(** Of 100000 locked units 70000 are withheld at second 150. *)
Lemma transfer_leaves_reserved_witness :
  reserve_transfer (locks_of [100000]) 150000000 330001 = Err (AssertFail "overdrawn balance") /\
  exists s' o', reserve_transfer (locks_of [100000]) 150000000 330000 = Ok (tt, s', o') /\
    exists l, lock_get_lock_asset (locks_of [100000]) 150000000 (N "userone") = Ok l /\ amount l = 70000 /\
      70000 <= bal s' (N "userone") (symbol_code CORE_SYMBOL).
Proof.
  split; [vm_compute; reflexivity|].
  destruct (reserve_transfer (locks_of [100000]) 150000000 330000) as [[[[] s'] o']|e] eqn:E; [|exfalso; revert E; vm_compute; discriminate].
  exists s', o'. split; [reflexivity|].
  destruct (transfer_leaves_reserved (locks_of [100000]) hdddeposit_init token_demo (N "userone") (N "usertwo") (core 330000) "pay"
    (ctx_of (N "eosio.token") [N "userone"] 150000000) no_out tt s' o') as (_ & d & Ed & Hd & Hl);
    [| |exact dep_inv_init|exact token_demo_reach|vm_compute; discriminate|exact E|reflexivity|vm_compute; discriminate..|].
  - apply (exec_all_reach _ _ (take 2 lock_demo_actions ++ map (fun z => (LLocktransfer 7 (N "bigacc") (N "userone") (core z) (core 0) "lock",
      ctx_of (N "hddlock12345") [N "bigacc"] 50000000)) [100000]) hddlock_init); [constructor|]. vm_compute. reflexivity.
  - split; [|vm_compute; reflexivity].
    assert (H : map_Forall (fun _ row => 0 <= amount (al_quantity row) < 2^48) (acclocks (locks_of [100000]))) by (apply (bool_decide_unpack _); vm_compute; exact I).
    intros id row. apply (H (N "userone", id)).
  - destruct Hl as (l & El & _ & Hle); [vm_compute; discriminate|]. exists l. split; [exact El|].
    assert (E70 : lock_get_lock_asset (locks_of [100000]) 150000000 (N "userone") = Ok (core 70000)) by (vm_compute; reflexivity).
    assert (El' : Ok l = Ok (core 70000)) by (etransitivity; [symmetry; exact El|exact E70]). injection El' as ->. split; [reflexivity|]. cbn in Hle. lia.
Defined.

(** After the two locks of [locktransfer_wraps] a transfer takes more than the sender has: the
    negative lock is subtracted from the balance, and the balance becomes negative. *)
Theorem wrapped_lock_overdraws : exists s' o',
  reserve_transfer (locks_of [2^63 - 1; 2^63 - 1]) 60000000 400002 = Ok (tt, s', o') /\
  bal token_demo (N "userone") (symbol_code CORE_SYMBOL) = 400000 /\ bal s' (N "userone") (symbol_code CORE_SYMBOL) = -2.
Proof. eexists _, _. split; [vm_compute; reflexivity|]. split; vm_compute; reflexivity. Qed.
