(* ===== verification/Channel.v ===== *)
(** * channel.sys: the cross-chain channel

    contracts/channel.sys.  The channel keeps, per user, a balance of tokens on
    their way to the other chain (type 1) and a balance for fees (type 2).  It
    is credited by token transfers to its account, whose memo says what they
    are for ([transfercore], run as a notification of eosio.token's transfer),
    and pays out with [mapc]. *)

From S2P Require Import Prelude Float64 Names Asset Chain Views.
#[local] Open Scope Z_scope.

(** ** State *)

(** [cbalances], keyed by user (the scope) and balance type. *)
Record mchannel := mkMchannel { cbalances : gmap (name * Z) asset }.
#[export] Instance eta_mchannel : Eta mchannel := fun s => mkMchannel (cbalances s).

Definition mchannel_init : mchannel := mkMchannel ∅.

Definition chan_getfeebalance (s : mchannel) (user : name) : asset :=
  match cbalances s !! (user, 2) with Some b => b | None => core 0 end.

#[export] Instance mchannel_view (s : mchannel) : ChannelView := {|
  getfeebalance := chan_getfeebalance s
|}.

(** ** Balance updates *)

(** [find]; [a.balance += quant] on the row, or a new row. *)
Definition credit (user : name) (type : Z) (quant : asset) : M mchannel unit :=
  it ← find cbalances (user, type);
  match it with
  | Some _ => modify cbalances (user, type) (fun a => asset_add a quant)
  | None => emplace cbalances (user, type) quant
  end.

(** ** The memo of a transfer to the channel *)

Definition colon : Ascii.ascii := Z_ascii 58.

(** <type>:<user>:<anything> *)
Definition parse_memo (memo : string) : res (Z * name) :=
  match find_first_of colon 0 memo with
  | None => Err (AssertFail "invalid memo")
  | Some pos1 =>
      let trans_type := u8 (atoi (substr 0 pos1 memo)) in
      match find_first_of colon (S pos1) memo with
      | None => Err (AssertFail "invalid memo")
      | Some pos2 => Ok (trans_type, string_to_name (substr (S pos1) (pos2 - S pos1) memo))
      end
  end.

(** ** Actions *)

Section handlers.
Context {PV : PoolView}.

Definition transfercore (from to : name) (quantity : asset) (memo : string) : M mchannel unit :=
  me ← ask self;
  if negb (to =? me) then mret tt else
  _ ← eosio_assert (symbol quantity =? CORE_SYMBOL) "invalid symbol";
  tu ← lift (parse_memo memo);
  let '(trans_type, user) := tu in
  if (trans_type =? 1) || (trans_type =? 2) then
    _ ← eosio_assert (from =? N "fund.sys") "invalid from user";
    credit user 1 quantity
  else if trans_type =? 3 then
    _ ← eosio_assert (from =? N "store.sys") "invalid from user";
    credit user 1 quantity
  else if trans_type =? 4 then
    _ ← eosio_assert (from =? N "ytapro.map") "invalid from user";
    send (mk_action (N "channel.sys") (N "active") (N "hdddeposit12") (N "paydeppool2")
            [VInt user; VAsset quantity])
  else if trans_type =? 5 then
    _ ← eosio_assert (from =? N "ytapro.map") "invalid from user";
    _ ← credit user 2 quantity;
    send (mk_action me (N "active") me (N "channellog") [VU8 5; VAsset quantity; VInt user; VStr ""])
  else eosio_assert false "invalid memo type".

Definition mapc (user : name) (quant gas : asset) (bscaddr : string) : M mchannel unit :=
  _ ← require_auth user;
  _ ← eosio_assert (symbol quant =? CORE_SYMBOL) "invalid quant symbol";
  _ ← eosio_assert (symbol gas =? CORE_SYMBOL) "invalid gas symbol";
  _ ← eosio_assert (negb (user =? N "node.sys")) "invalid user";
  _ ← eosio_assert (0 <? amount quant) "must use positive quantity";
  _ ← eosio_assert (0 <? amount gas) "must use positive gas";
  total_trans_asset ← lift (asset_add quant gas);
  it ← get cbalances (user, 1) "invalid user";
  enough ← lift (asset_ge it total_trans_asset);
  _ ← eosio_assert enough "overdrawn user channel balance";
  _ ← modify cbalances (user, 1) (fun a => asset_sub a total_trans_asset);
  _ ← send (mk_action (N "channel.sys") (N "active") (N "eosio.token") (N "transfer")
         [VInt (N "channel.sys"); VInt (N "ytapro.map"); VAsset quant; VStr ("BSC" +:+ bscaddr)%string]);
  _ ← send (mk_action (N "channel.sys") (N "active") (N "eosio.token") (N "transfer")
         [VInt (N "channel.sys"); VInt (N "ytapro.map"); VAsset gas; VStr "fee"]);
  me ← ask self;
  both ← lift (asset_add quant gas);
  send (mk_action me (N "active") me (N "channellog") [VU8 4; VAsset both; VInt user; VStr ""]).

Definition feetoc (user : name) (quant : asset) : M mchannel unit :=
  _ ← require_auth user;
  itfee ← get cbalances (user, 2) "no fee balance";
  _ ← eosio_assert (symbol quant =? CORE_SYMBOL) "invalid quant symbol";
  _ ← eosio_assert (0 <? amount quant) "must use positive quantity";
  _ ← eosio_assert (amount quant <=? amount itfee) "overdrawn fee";
  _ ← modify cbalances (user, 2) (fun a => asset_sub a quant);
  _ ← credit user 1 quant;
  me ← ask self;
  send (mk_action me (N "active") me (N "channellog") [VU8 6; VAsset quant; VInt user; VStr ""]).

Definition subfee (user : name) (quant : asset) (memo : string) : M mchannel unit :=
  me ← ask self;
  _ ← require_auth me;
  _ ← eosio_assert (0 <=? amount quant) "must use positive quantity";
  fee ← get cbalances (user, 2) "no fee balance";
  _ ← eosio_assert (symbol quant =? CORE_SYMBOL) "invalid quant symbol";
  _ ← eosio_assert (amount quant <=? amount fee) "overdrawn fee";
  _ ← eosio_assert (String.length memo <=? 256)%nat "memo has more than 256 bytes";
  _ ← modify cbalances (user, 2) (fun a => asset_sub a quant);
  credit (N "gas.sys") 1 quant.

(** The share of the gas that goes to the nodes, in percent. *)
Definition split_rate (yta_price usd_price : Z) : res Z :=
  let yta_usd_price := (fl yta_price / fl usd_price)%f64 in
  f64_trunc_i64u (fl 20 + fl 60 * (fl 1 / (yta_usd_price + fl 1)))%f64.

Definition splitgas : M mchannel unit :=
  _ ← require_auth (N "node.sys");
  rate ← lift (split_rate get_yta_price get_usd_price);
  _ ← eosio_assert ((20 <=? rate) && (rate <=? 80)) "invalid split action";
  itgas ← get cbalances (N "gas.sys", 1) "no gas";
  let amt := amount itgas in
  if amt <=? 0 then mret tt else
  _ ← modify cbalances (N "gas.sys", 1) (fun a => Ok (a <| amount := 0 |>));
  let amount_node := Z.quot (i64 (amt * rate)) 100 in
  _ ← eosio_assert (amount_node <=? amt) "invalid split";
  let amount_null := i64 (amt - amount_node) in
  quant_node ← lift (asset_make amount_node CORE_SYMBOL);
  quant_null ← lift (asset_make amount_null CORE_SYMBOL);
  _ ← credit (N "node.sys") 1 quant_node;
  credit (N "null.sys") 1 quant_null.

Definition rewardnode (user : name) (quant : asset) (memo : string) : M mchannel unit :=
  _ ← require_auth (N "node.sys");
  _ ← eosio_assert (0 <? amount quant) "must use positive quantity";
  itnode ← get cbalances (N "node.sys", 1) "no balance";
  _ ← eosio_assert (amount quant <=? amount itnode) "overdrawn balance";
  _ ← modify cbalances (N "node.sys", 1) (fun a => asset_sub a quant);
  _ ← credit user 1 quant;
  me ← ask self;
  send (mk_action me (N "active") me (N "channellog") [VU8 7; VAsset quant; VInt user; VStr memo]).

Definition chan_channellog (type : Z) (quant : asset) (user : name) (memo : string) : M mchannel unit :=
  me ← ask self;
  _ ← require_auth me;
  _ ← eosio_assert (String.length memo <=? 256)%nat "memo has more than 256 bytes";
  require_recipient user.
End handlers.

(** The actions [apply] dispatches; [CTransfercore] is the notification of a
    token transfer. *)
Inductive chan_action :=
| CTransfercore (from to : name) (quantity : asset) (memo : string)
| CMapc (user : name) (quant gas : asset) (bscaddr : string)
| CFeetoc (user : name) (quant : asset)
| CSubfee (user : name) (quant : asset) (memo : string)
| CSplitgas (PV : PoolView)
| CRewardnode (user : name) (quant : asset) (memo : string)
| CChannellog (type : Z) (quant : asset) (user : name) (memo : string).

Definition chan_apply (a : chan_action) : M mchannel unit :=
  match a with
  | CTransfercore from to quantity memo => transfercore from to quantity memo
  | CMapc user quant gas bscaddr => mapc user quant gas bscaddr
  | CFeetoc user quant => feetoc user quant
  | CSubfee user quant memo => subfee user quant memo
  | CSplitgas _ => splitgas
  | CRewardnode user quant memo => rewardnode user quant memo
  | CChannellog type quant user memo => chan_channellog type quant user memo
  end.

(** ** Balances and their total *)

Definition cbal (s : mchannel) (k : name * Z) : Z :=
  match cbalances s !! k with Some b => amount b | None => 0 end.

Definition ctotal (s : mchannel) : Z := map_sum (fun _ => amount) (cbalances s).

Definition chan_inv (s : mchannel) : Prop := forall k b, cbalances s !! k = Some b -> is_core b.

(** [s'] is [s] with [v] added to the balance [k]. *)
Definition chan_upd (s s' : mchannel) (k : name * Z) (v : Z) : Prop :=
  chan_inv s' /\ ctotal s' = ctotal s + v /\
  forall k', cbal s' k' = cbal s k' + (if decide (k' = k) then v else 0).

Lemma chan_upd_put s k b v : chan_inv s -> is_core b -> amount b = cbal s k + v ->
  chan_upd s (s <| cbalances := <[k := b]> (cbalances s) |>) k v.
Proof.
  intros Hinv Hb Hv. split; [|split].
  - intros k' b'. cbn. rewrite lookup_insert. case_decide; [by intros [= <-]|apply Hinv].
  - unfold ctotal; cbn. unfold cbal in Hv. destruct (cbalances s !! k) as [b0|] eqn:E.
    + rewrite (map_sum_insert _ _ _ b0) by done. lia.
    + rewrite map_sum_insert_new by done. lia.
  - intros k'. unfold cbal at 1; cbn. rewrite lookup_insert. do 2 case_decide; subst; try done.
    unfold cbal. lia.
Qed.

Lemma cbal_Some s k b : cbalances s !! k = Some b -> cbal s k = amount b.
Proof. unfold cbal. by intros ->. Qed.

Lemma credit_upd user type q c s o u s' o' : chan_inv s -> is_core q ->
  credit user type q c s o = Ok (u, s', o') -> chan_upd s s' (user, type) (amount q) /\ o' = o.
Proof.
  intros Hinv Hq H. unfold credit in H. minv; (split; [|done]).
  - simplify_eq. match goal with H : asset_add _ _ = Ok _ |- _ =>
      apply core_add_Ok in H as (_ & -> & ?); [|by eapply Hinv|by apply in_range_i64, core_in_range] end.
    pose proof (Hinv _ _ E) as [_ ?]. destruct Hq as [_ ?].
    apply chan_upd_put; [done|apply core_is_core; lia|]. by rewrite (cbal_Some _ _ _ E).
  - apply chan_upd_put; [done..|]. unfold cbal. by rewrite E.
Qed.

(** The row after [a.balance -= q]. *)
Lemma chan_debit_upd s k q b b' : chan_inv s -> cbalances s !! k = Some b ->
  0 <= amount q <= amount b -> asset_sub b q = Ok b' ->
  chan_upd s (s <| cbalances := <[k := b']> (cbalances s) |>) k (- amount q) /\ is_core q.
Proof.
  intros Hinv Hb Hq H. pose proof (Hinv _ _ Hb) as Hc. pose proof Hc as [_ ?].
  apply core_sub_Ok in H as (? & ->); [|done|unfold is_i64, max_amount in *; lia].
  split; [|split; [done|lia]]. apply chan_upd_put; [done|apply core_is_core; lia|].
  rewrite (cbal_Some _ _ _ Hb). cbn. lia.
Qed.

(** ** Tokens in, tokens out *)

(** What a queued action takes out of the channel's token account: a transfer
    from it, or [paydeppool2], which transfers from it to the user. *)
Definition act_outflow (a : action) : Z :=
  if (act_account a =? N "eosio.token") && (act_name a =? N "transfer") then
    match act_data a with
    | [VInt from; VInt _; VAsset q; VStr _] => if from =? N "channel.sys" then amount q else 0
    | _ => 0
    end
  else if (act_account a =? N "hdddeposit12") && (act_name a =? N "paydeppool2") then
    match act_data a with [VInt _; VAsset q] => amount q | _ => 0 end
  else 0.

Definition outflow (l : list action) : Z := foldr (fun a acc => act_outflow a + acc) 0 l.

(** What a call brings in: the notified transfer to the channel. *)
Definition inflow (me : name) (a : chan_action) : Z :=
  match a with
  | CTransfercore _ to q _ => if to =? me then amount q else 0
  | _ => 0
  end.

(** Quantities are 64-bit.  That of a notified transfer was checked by the token
    contract, and so will those of the transfers [mapc] sends. *)
Definition chan_args_ok (a : chan_action) : Prop :=
  match a with
  | CTransfercore _ _ q _ => in_range q /\ 0 < amount q
  | CMapc _ q g _ => in_range q /\ in_range g
  | CFeetoc _ q | CSubfee _ q _ | CRewardnode _ q _ | CChannellog _ q _ _ => is_i64 (amount q)
  | CSplitgas _ => True
  end.

Lemma outflow_app l a : outflow (l ++ [a]) = outflow l + act_outflow a.
Proof. unfold outflow. induction l as [|x l IH]; cbn; [lia|]. rewrite IH. lia. Qed.

Definition chan_flow (a : chan_action) : Prop := forall c s o u s' o',
  chan_inv s -> ctotal s <= 2^56 -> chan_apply a c s o = Ok (u, s', o') ->
  chan_inv s' /\ ctotal s' = ctotal s + inflow (self c) a - (outflow (inlines o') - outflow (inlines o)).

(** The log takes nothing out. *)
Lemma act_outflow_log actor perm me data : act_outflow (mk_action actor perm me (N "channellog") data) = 0.
Proof.
  unfold act_outflow; cbn.
  assert ((N "channellog" =? N "transfer") = false) as -> by (vm_compute; reflexivity).
  assert ((N "channellog" =? N "paydeppool2") = false) as -> by (vm_compute; reflexivity).
  by rewrite !andb_false_r.
Qed.

Lemma act_outflow_transfer actor perm to q memo :
  act_outflow (mk_action actor perm (N "eosio.token") (N "transfer")
    [VInt (N "channel.sys"); VInt to; VAsset q; VStr memo]) = amount q.
Proof. unfold act_outflow; cbn. by rewrite !Z.eqb_refl. Qed.

Lemma act_outflow_paydeppool2 actor perm user q :
  act_outflow (mk_action actor perm (N "hdddeposit12") (N "paydeppool2") [VInt user; VAsset q]) = amount q.
Proof.
  unfold act_outflow; cbn. rewrite !Z.eqb_refl.
  by assert ((N "hdddeposit12" =? N "eosio.token") = false) as -> by (vm_compute; reflexivity).
Qed.

Ltac flow := cbn [inlines setf eta_out eta_mchannel deferreds notified console amount cbalances inflow] in *;
  rewrite ?outflow_app, ?act_outflow_log, ?act_outflow_transfer, ?act_outflow_paydeppool2; lia.

Lemma transfercore_flow from to q memo : in_range q -> 0 < amount q ->
  chan_flow (CTransfercore from to q memo).
Proof.
  intros Hq Hp c s o u s' o' Hinv _ H. cbn in H. unfold transfercore in H. minv; zb; cbn [inflow].
  { destruct (Z.eqb_spec to (self c)); [done|]. split; [done|lia]. }
  all: try discriminate; subst to; rewrite Z.eqb_refl;
    (assert (Hc : is_core q); [split; [assumption|unfold in_range in Hq; lia]|]);
    try (match goal with H : credit _ _ _ _ _ _ = _ |- _ =>
      apply credit_upd in H as ((? & Ht & _) & ->); [|assumption..] end); (split; [assumption|]); flow.
Qed.

(** Finds the debited row and replaces its update by [chan_debit_upd]. *)
Ltac debit := match goal with
  | Hb : cbalances ?s !! ?k = Some ?b, Hs : asset_sub ?b ?q = Ok _, Hi : chan_inv ?s |- _ =>
      let Hq := fresh "Hq" in
      destruct (chan_debit_upd s k q b _ Hi Hb ltac:(cbn; lia) Hs) as ((? & ? & ?) & Hq); clear Hs
  end.
Ltac credited := match goal with H : credit _ _ _ _ _ _ = _ |- _ =>
  apply credit_upd in H as ((? & ? & ?) & ->); [|done..] end.

Lemma mapc_flow user q g addr : in_range q -> in_range g -> chan_flow (CMapc user q g addr).
Proof.
  intros Hq Hg c s o u s' o' Hinv _ H. cbn in H. unfold mapc in H. minv; zb.
  match goal with H : asset_ge _ _ = Ok true |- _ => unfold asset_ge in H; minv; zb end.
  repeat match goal with H : asset_add q g = Ok _ |- _ =>
    apply asset_add_Ok in H as (_ & -> & _); [|done|by apply in_range_i64] end.
  simplify_eq. cbn [amount] in *. debit. split; [done|]. flow.
Qed.

Lemma feetoc_flow user q : chan_flow (CFeetoc user q).
Proof.
  intros c s o u s' o' Hinv _ H. cbn in H. unfold feetoc in H. minv; zb. simplify_eq.
  debit. credited. split; [done|]. flow.
Qed.

Lemma subfee_flow user q memo : chan_flow (CSubfee user q memo).
Proof.
  intros c s o u s' o' Hinv _ H. cbn in H. unfold subfee in H. minv; zb. simplify_eq.
  debit. credited. split; [done|]. flow.
Qed.

Lemma rewardnode_flow user q memo : chan_flow (CRewardnode user q memo).
Proof.
  intros c s o u s' o' Hinv _ H. cbn in H. unfold rewardnode in H. minv; zb. simplify_eq.
  debit. credited. split; [done|]. flow.
Qed.

Lemma channellog_flow type q user memo : chan_flow (CChannellog type q user memo).
Proof.
  intros c s o u s' o' Hinv _ H. cbn in H. unfold chan_channellog in H. minv.
  split; [done|]. destruct (has_recipient o user); flow.
Qed.

Lemma ctotal_ge s k b : chan_inv s -> cbalances s !! k = Some b -> amount b <= ctotal s.
Proof.
  intros Hinv Hb. unfold ctotal.
  apply (map_sum_elem_le (fun _ => amount) (cbalances s) k b); [|done].
  intros k' b' H. apply Hinv in H as [_ ?]. lia.
Qed.

Lemma cbal_le_total s k : chan_inv s -> cbal s k <= ctotal s.
Proof.
  intros Hinv. unfold cbal. destruct (cbalances s !! k) as [b|] eqn:E; [by eapply ctotal_ge|].
  apply map_sum_nonneg. intros k' b' H. apply Hinv in H as [_ ?]. lia.
Qed.

(** The rate is 20 + 60 u/(y+u) for a price ratio y/u, up to a quarter and
    rounded down. *)
Lemma split_rate_spec y u : 0 < y < 2^53 -> 0 < u < 2^53 -> y <= u * 2^30 ->
  exists z, split_rate y u = Ok z /\ 20 <= z <= 80 /\
    4 * (20 * (y + u) + 60 * u) - 5 * (y + u) < 4 * (y + u) * z <= 4 * (20 * (y + u) + 60 * u) + (y + u).
Proof.
  intros Hy Hu Hyu. destruct y as [|y|y], u as [|u|u]; try lia.
  pose proof (frac_div _ _ _ _ _ _ _ _ (frac_exact _ Hy) (frac_exact _ Hu) ltac:(lia) ltac:(lia) ltac:(lia)) as H1.
  apply (frac_norm (Z.pos y) u) in H1; [|lia].
  pose proof (frac_norm (Z.pos u) u _ _ _ _ (frac_exact 1 ltac:(lia)) ltac:(lia)) as H2.
  apply (frac_weaken _ _ _ _ 2) in H2; [|lia].
  pose proof (frac_add _ _ _ _ _ _ H1 H2 ltac:(lia) ltac:(lia) ltac:(lia)) as H3.
  pose proof (frac_div _ _ _ (y + u) _ _ _ _ (frac_exact 1 ltac:(lia)) H3 ltac:(lia) ltac:(lia) ltac:(lia)) as H4.
  pose proof (frac_mul _ _ _ _ _ _ _ _ (frac_exact 60 ltac:(lia)) H4 ltac:(lia) ltac:(lia) ltac:(lia)) as H5.
  apply (frac_norm (60 * Z.pos u) (y + u)) in H5; [|lia].
  pose proof (frac_norm (20 * Z.pos (y + u)) (y + u) _ _ _ _ (frac_exact 20 ltac:(lia)) ltac:(lia)) as H6.
  apply (frac_weaken _ _ _ _ 8) in H6; [|lia].
  pose proof (frac_add _ _ _ _ _ _ H6 H5 ltac:(lia) ltac:(lia) ltac:(lia)) as H7.
  destruct (frac_floor _ _ _ _ H7 ltac:(lia)) as (z & _ & Hz & H0 & L & G).
  exists z. unfold split_rate. split; [exact Hz|]. rewrite Pos2Z.inj_add in *.
  assert (20 <= z <= 80) by nia. split; [done|]. nia.
Qed.

(** What [splitgas] does: the gas balance is emptied, the nodes get
    [rate] percent of it, rounded down, and the null account the rest. *)
Lemma splitgas_Ok {PV : PoolView} c s o u s' o' : chan_inv s -> ctotal s <= 2^56 ->
  splitgas c s o = Ok (u, s', o') ->
  exists rate b, split_rate get_yta_price get_usd_price = Ok rate /\ 20 <= rate <= 80 /\
    cbalances s !! (N "gas.sys", 1) = Some b /\ o' = o /\
    (amount b = 0 /\ s' = s \/
     let to_node := amount b * rate / 100 in
     exists s1 s2, chan_upd s s1 (N "gas.sys", 1) (- amount b) /\
       chan_upd s1 s2 (N "node.sys", 1) to_node /\
       chan_upd s2 s' (N "null.sys", 1) (amount b - to_node)).
Proof.
  intros Hinv Htot H. unfold splitgas in H. minv; zb.
  - match goal with H : cbalances s !! _ = Some ?b |- _ => pose proof (Hinv _ _ H) as [_ ?]; exists a0, b end.
    repeat split; try lia; try done. left. split; [lia|done].
  - simplify_eq. match goal with H : cbalances s !! _ = Some ?b |- _ =>
      pose proof (Hinv _ _ H) as [_ ?]; pose proof (ctotal_ge _ _ _ Hinv H); rename H into Hb; exists a0, b;
      rename b into b0 end.
    rewrite (i64_id (amount b0 * _)) in * by (unfold is_i64; nia).
    rewrite Z.quot_div_nonneg in * by nia.
    assert (0 <= amount b0 * a0 / 100) by (apply Z.div_pos; nia).
    rewrite i64_id in * by (unfold is_i64; lia).
    repeat match goal with H : asset_make _ _ = Ok _ |- _ => apply asset_make_Ok in H as (-> & ?) end.
    assert (Hz : chan_upd s (s <| cbalances := <[(N "gas.sys", 1) := b0 <| amount := 0 |>]> (cbalances s) |>)
                   (N "gas.sys", 1) (- amount b0)).
    { apply chan_upd_put; [done| |rewrite (cbal_Some _ _ _ Hb); cbn; lia].
      split; [apply (Hinv _ _ Hb)|done]. }
    match goal with H : credit (N "node.sys") _ _ _ _ _ = _ |- _ =>
      apply credit_upd in H as (Hn & ->); [|apply Hz|apply core_is_core; cbn in *; lia] end.
    match goal with H : credit _ _ _ _ _ _ = _ |- _ =>
      apply credit_upd in H as (Hl & ->); [|apply Hn|apply core_is_core; lia] end.
    repeat split; [done..|]. right. do 2 eexists. split; [exact Hz|]. by split.
Qed.

Lemma splitgas_flow PV : chan_flow (CSplitgas PV).
Proof.
  intros c s o u s' o' Hinv Htot H.
  destruct (splitgas_Ok _ _ _ _ _ _ Hinv Htot H)
    as (rate & b & _ & _ & _ & -> & [(_ & ->)|(s1 & s2 & (_ & ? & _) & (_ & ? & _) & (? & ? & _))]);
    (split; [done|]); cbn [inflow]; lia.
Qed.

(** C25: the channel conserves the token.  Every action keeps the user balances
    well formed (the core symbol, between 0 and 2^62 - 1) and changes their
    total by exactly the tokens that come in (the notified transfer) minus the
    tokens that go out (the transfers and the pool deposits it queues): [mapc]
    debits what it pays, [feetoc], [subfee], [splitgas] and [rewardnode] only
    move balances.  The total is bounded so that the product in [splitgas] does
    not overflow. *)
Theorem channel_conservation a c s o u s' o' :
  chan_inv s -> ctotal s <= 2^56 -> chan_args_ok a -> chan_apply a c s o = Ok (u, s', o') ->
  chan_inv s' /\
  ctotal s' + outflow (inlines o') = ctotal s + inflow (self c) a + outflow (inlines o).
Proof.
  intros Hinv Htot Ha H.
  assert (Hf : chan_flow a).
  { destruct a; cbn in Ha; first [apply transfercore_flow|apply mapc_flow|apply feetoc_flow|apply subfee_flow
      |apply splitgas_flow|apply rewardnode_flow|apply channellog_flow]; tauto. }
  destruct (Hf c s o u s' o' Hinv Htot H) as [? ?]. split; [done|lia].
Qed.

Definition chan_demo : mchannel := mkMchannel {[ (N "alice", 1) := core 900; (N "gas.sys", 1) := core 1001 ]}.

Lemma chan_demo_inv : chan_inv chan_demo /\ ctotal chan_demo <= 2^56.
Proof.
  split; [|vm_compute; discriminate].
  intros k b. unfold chan_demo; cbn. rewrite lookup_insert, lookup_singleton.
  repeat case_decide; intros [=]; subst; by apply core_is_core.
Qed.

Lemma channel_conservation_witness :
  let a := CMapc (N "alice") (core 300) (core 5) "0x" in
  match chan_apply a (ctx_of (N "channel.sys") [N "alice"] 0) chan_demo no_out with
  | Ok (_, s', o') => ctotal s' = 1596 /\ outflow (inlines o') = 305 /\
      ctotal s' + outflow (inlines o') = ctotal chan_demo + 0 + 0
  | Err _ => False
  end.
Proof.
  intros a. set (c := ctx_of _ _ _). assert (Ha : chan_args_ok a) by (split; by apply core_in_range).
  destruct (chan_apply a c chan_demo no_out) as [[[u s'] o']|] eqn:E; [|vm_compute in E; discriminate].
  destruct (channel_conservation a c chan_demo no_out u s' o' (proj1 chan_demo_inv) (proj2 chan_demo_inv) Ha E)
    as [_ Hc].
  split; [|split; [|exact Hc]]; vm_compute in E; injection E as <- <- <-; vm_compute; reflexivity.
Defined.

(** ** Splitting the gas *)

Lemma credit_total user type q c s o : chan_inv s -> is_core q -> cbal s (user, type) + amount q <= max_amount ->
  exists s', credit user type q c s o = Ok (tt, s', o).
Proof.
  intros Hinv Hq Hb. unfold credit, cbal in *.
  unfold modify, modify_ret, emplace, get, put, find, gets, lift, mbind, M_bind, mret, M_ret.
  destruct (cbalances s !! (user, type)) as [b|] eqn:E; [|eexists; by rewrite E].
  destruct (Hinv _ _ E) as [Hs ?], Hq as [? ?]. rewrite E, asset_add_total by (first [congruence|lia]).
  by eexists.
Qed.

Lemma splitgas_runs {PV : PoolView} c s o b rate :
  chan_inv s -> ctotal s <= 2^56 -> split_rate get_yta_price get_usd_price = Ok rate -> 20 <= rate <= 80 ->
  has_auth c (N "node.sys") = true -> cbalances s !! (N "gas.sys", 1) = Some b -> 0 < amount b ->
  exists s', splitgas c s o = Ok (tt, s', o).
Proof.
  intros Hinv Htot Hrate Hr Hauth Hb Hpos. pose proof (ctotal_ge _ _ _ Hinv Hb).
  pose proof (Hinv _ _ Hb) as [Hsym ?].
  assert (Hd : 0 <= amount b * rate / 100 <= amount b).
  { split; [apply Z.div_pos; nia|]. apply Z.div_le_upper_bound; nia. }
  assert (E1 : Z.quot (i64 (amount b * rate)) 100 = amount b * rate / 100).
  { rewrite i64_id by (unfold is_i64; nia). apply Z.quot_div_nonneg; nia. }
  assert (E2 : i64 (amount b - amount b * rate / 100) = amount b - amount b * rate / 100)
    by (apply i64_id; unfold is_i64; lia).
  unfold splitgas. erewrite bind_run by (by apply require_auth_run).
  erewrite bind_run by (by apply lift_run). cbn beta.
  erewrite bind_run by (apply eosio_assert_run; lia).
  erewrite bind_run by (by apply get_run). cbn beta zeta. rewrite E1, E2.
  assert ((amount b <=? 0) = false) as -> by lia.
  erewrite bind_run by (eapply modify_run; [exact Hb|reflexivity]).
  erewrite bind_run by (apply eosio_assert_run; lia).
  do 2 erewrite bind_run by (apply lift_run, asset_make_core; lia).
  assert (Hz : chan_upd s (s <| cbalances := <[(N "gas.sys", 1) := b <| amount := 0 |>]> (cbalances s) |>)
                 (N "gas.sys", 1) (- amount b)) by (by apply chan_upd_put; [|split|rewrite (cbal_Some _ _ _ Hb); cbn; lia]).
  assert (2^56 <= max_amount) by (vm_compute; discriminate).
  edestruct (credit_total (N "node.sys") 1 (core (amount b * rate / 100))) as [s1 Hs1];
    [apply Hz|apply core_is_core; lia| |].
  { eapply Z.le_trans; [apply Z.add_le_mono_r, cbal_le_total, Hz|]. rewrite (proj1 (proj2 Hz)). cbn. lia. }
  erewrite bind_run by exact Hs1.
  apply credit_upd in Hs1 as [Hn _]; [|apply Hz|apply core_is_core; lia].
  apply credit_total; [apply Hn|apply core_is_core; lia|].
  eapply Z.le_trans; [apply Z.add_le_mono_r, cbal_le_total, Hn|].
  rewrite (proj1 (proj2 Hn)), (proj1 (proj2 Hz)). cbn. lia.
Qed.

(** Decides the comparisons of literal keys. *)
Ltac key_cases := repeat match goal with |- context [decide (?k = ?k')] =>
  let E := fresh "E" in destruct (decide (k = k')) as [E|E];
    [try (apply (f_equal fst) in E; vm_compute in E; discriminate)|try by destruct E]; clear E end.

(** [splitgas] splits the gas balance.  For positive prices with
    yta_price <= 2^30 * usd_price the computed rate passes the check
    20 <= rate <= 80, so the action of node.sys succeeds; it empties the gas
    balance, credits the nodes with [rate] percent of it rounded down and the
    null account with the rest, and touches no other balance. *)
Theorem splitgas_splits {PV : PoolView} c s o b :
  chan_inv s -> ctotal s <= 2^56 ->
  0 < get_yta_price < 2^53 -> 0 < get_usd_price < 2^53 -> get_yta_price <= get_usd_price * 2^30 ->
  has_auth c (N "node.sys") = true -> cbalances s !! (N "gas.sys", 1) = Some b -> 0 < amount b ->
  exists rate s', splitgas c s o = Ok (tt, s', o) /\ 20 <= rate <= 80 /\
    split_rate get_yta_price get_usd_price = Ok rate /\
    cbal s' (N "gas.sys", 1) = 0 /\
    cbal s' (N "node.sys", 1) = cbal s (N "node.sys", 1) + amount b * rate / 100 /\
    cbal s' (N "null.sys", 1) = cbal s (N "null.sys", 1) + (amount b - amount b * rate / 100) /\
    (forall k, k ∉ [(N "gas.sys", 1); (N "node.sys", 1); (N "null.sys", 1)] -> cbal s' k = cbal s k).
Proof.
  intros Hinv Htot Hy Hu Hyu Hauth Hb Hpos.
  destruct (split_rate_spec _ _ Hy Hu Hyu) as (rate & Hrate & Hr & _).
  destruct (splitgas_runs c s o b rate) as [s' Hs']; [done..|]. exists rate, s'.
  destruct (splitgas_Ok _ _ _ _ _ _ Hinv Htot Hs')
    as (rate' & b' & Hr' & _ & Hb' & _ & [(? & _)|(s1 & s2 & (_ & _ & U1) & (_ & _ & U2) & (_ & _ & U3))]);
    rewrite Hrate in Hr'; rewrite Hb in Hb'; simplify_eq; [lia|].
  rewrite !U3, !U2, !U1, (cbal_Some _ _ _ Hb).
  split; [exact Hs'|]. split; [exact Hr|]. split; [exact Hrate|]. repeat split.
  1-3: clear Hs' Hrate; key_cases; lia.
  intros k Hk. rewrite U3, U2, U1. rewrite !not_elem_of_cons in Hk.
  rewrite !decide_False by tauto. lia.
Qed.

#[local] Instance demo_prices : PoolView := {|
  is_miner_exist _ := false;
  get_yta_price := 3000;
  get_usd_price := 9000;
  get_next_reward_slot := 0;
  get_next_build_slot := 0
|}.

Lemma splitgas_splits_witness : exists rate s',
  splitgas (ctx_of (N "channel.sys") [N "node.sys"] 0) chan_demo no_out = Ok (tt, s', no_out) /\ 20 <= rate <= 80 /\
  cbal s' (N "gas.sys", 1) = 0 /\ cbal s' (N "node.sys", 1) = 0 + 1001 * rate / 100.
Proof.
  destruct (splitgas_splits (ctx_of (N "channel.sys") [N "node.sys"] 0) chan_demo no_out (core 1001))
    as (rate & s' & H1 & H2 & _ & H3 & H4 & _);
    [apply chan_demo_inv|apply chan_demo_inv|by vm_compute|by vm_compute|by vm_compute|reflexivity|reflexivity|done|].
  exists rate, s'. split; [exact H1|]. split; [exact H2|]. split; [exact H3|exact H4].
Defined.

(** ** The memos of transfers to the channel *)

#[local] Arguments String.append !_ _ / : simpl nomatch.

Lemma parse_memo_fields t u r : free_of colon t -> free_of colon u ->
  parse_memo (t +:+ String colon (u +:+ String colon r))%string = Ok (u8 (atoi t), string_to_name u).
Proof.
  intros Ht Hu. unfold parse_memo. rewrite (find_first_of_here _ _ _ Ht), substr_prefix.
  set (tc := (t +:+ String colon "")%string).
  assert (E : (t +:+ String colon (u +:+ String colon r) = tc +:+ (u +:+ String colon r))%string)
    by (subst tc; clear; induction t as [|a t IH]; cbn; [done|by rewrite IH]).
  assert (L : S (String.length t) = String.length tc)
    by (subst tc; clear; induction t as [|a t IH]; cbn; [done|by rewrite <- IH]).
  rewrite E, L, find_first_of_skip, (find_first_of_here _ _ _ Hu). cbn.
  replace (String.length tc + String.length u - String.length tc)%nat with (String.length u) by lia.
  by rewrite substr_skip, substr_prefix.
Qed.
