(* ===== verification/PoolTables.v ===== *)
(** * hddpool: the tables of the storage pool

    contracts/hddpool/hddpool.hpp: the structs of the contract's tables and
    singletons, its state, the constructor and destructor that load and store
    the two counters around every action, the static functions other contracts
    read the tables with, and the compact miner table of the new reward model
    ([insert_miner2], [del_miner2]): an array of slots whose free ones are linked
    into a list. *)

From S2P Require Import Prelude Float64 Names Asset Chain Views.
#[local] Open Scope Z_scope.

(** ** Constants *)

Definition milliseconds_in_one_day : Z := 24 * 60 * 60 * 1000.
Definition milliseconds_in_one_year : Z := milliseconds_in_one_day * 365.
Definition fee_cycle : Z := milliseconds_in_one_day.
Definition microseconds_in_one_day : Z := 24 * 60 * 60 * 1000000.
Definition days_in_one_month : Z := 30.
Definition hddm_latest_stop_time : Z := 1639745400000000.
Definition blocks_per_day : Z := 2 * 24 * 3600.

(** Space is counted in slices of 16 KiB. *)
Definition one_gb : Z := 64 * 1024.
Definition max_user_space : Z := one_gb * 1024 * (1024 * 500).
Definition max_profit_space : Z := one_gb * 1024 * (1024 * 500).
Definition max_pool_space : Z := one_gb * 1024 * (1024 * 500).
Definition max_miner_space : Z := one_gb * (1024 * 100).
Definition min_miner_space : Z := 100 * one_gb.
Definition max_buy_sell_hdd_amount : Z := 2 * 1024 * 1024 * 100000000.
Definition min_buy_hdd_amount : Z := 2 * 100000000.
Definition profit_percent : f64 := f64_lit 9 10.
Definition defaul_miner_level : Z := 66438.

Definition token_account : name := N "eosio.token".
Definition hdd_exchg_acc : name := N "hddpoolexchg".
Definition hdd_deposit : name := N "hdddeposit12".
Definition hdd_subsidy_acc : name := N "hddsubsidyeu".
Definition ecologyfound_acc : name := N "ecologyfound".

Definition max_hdd_amount : Z := 2^62 - 1.
Definition is_hdd_amount_within_range (amount : Z) : bool :=
  (- max_hdd_amount <=? amount) && (amount <=? max_hdd_amount).

(** ** Rows *)

Record userhdd := mkUserhdd {
  u_account : name;
  hdd_storehhdd : Z;
  hdd_per_cycle_fee : Z;
  hdd_space_store : Z;
  last_hddstore_time : Z;
  hdd_minerhdd : Z;
  u_per_cycle_profit : Z;
  hdd_space_profit : Z;
  last_hddprofit_time : Z
}.
#[export] Instance eta_userhdd : Eta userhdd := fun r =>
  mkUserhdd (u_account r) (hdd_storehhdd r) (hdd_per_cycle_fee r) (hdd_space_store r)
    (last_hddstore_time r) (hdd_minerhdd r) (u_per_cycle_profit r) (hdd_space_profit r)
    (last_hddprofit_time r).

Record maccount := mkMaccount {
  ma_minerid : Z;
  ma_owner : name;
  ma_space : Z;
  ma_per_cycle_profit : Z;
  hdd_balance : Z;
  last_hdd_time : Z
}.
#[export] Instance eta_maccount : Eta maccount := fun r =>
  mkMaccount (ma_minerid r) (ma_owner r) (ma_space r) (ma_per_cycle_profit r) (hdd_balance r)
    (last_hdd_time r).

Record storepool := mkStorepool {
  sp_pool_id : name;
  pool_owner : name;
  sp_max_space : Z;
  sp_space_left : Z
}.
#[export] Instance eta_storepool : Eta storepool := fun r =>
  mkStorepool (sp_pool_id r) (pool_owner r) (sp_max_space r) (sp_space_left r).

Record minerinfo := mkMinerinfo {
  mi_minerid : Z;
  mi_owner : name;
  mi_admin : name;
  mi_pool_id : name;
  mi_max_space : Z;
  mi_space_left : Z
}.
#[export] Instance eta_minerinfo : Eta minerinfo := fun r =>
  mkMinerinfo (mi_minerid r) (mi_owner r) (mi_admin r) (mi_pool_id r) (mi_max_space r) (mi_space_left r).

(** The miner table of the new reward model. *)
Record miner := mkMiner {
  m_minerid : Z;
  m_owner : name;
  m_admin : name;
  m_pool_id : name;
  m_max_space : Z;
  m_space : Z;
  last_modify_time : Z;
  internal_id : Z;
  internal_id2 : Z;
  real_space : Z;
  m_reserved1 : Z;
  level : Z;
  status : Z
}.
#[export] Instance eta_miner : Eta miner := fun r =>
  mkMiner (m_minerid r) (m_owner r) (m_admin r) (m_pool_id r) (m_max_space r) (m_space r)
    (last_modify_time r) (internal_id r) (internal_id2 r) (real_space r) (m_reserved1 r) (level r)
    (status r).

(** A slot of the compact table: the miner in it, or the next free slot. *)
Record miner2 := mkMiner2 {
  m2_internal_id : Z;
  m2_minerid : Z;
  m2_next_id : Z
}.
#[export] Instance eta_miner2 : Eta miner2 := fun r =>
  mkMiner2 (m2_internal_id r) (m2_minerid r) (m2_next_id r).

Record miner2ex := mkMiner2ex {
  next_id : Z;
  max_table_count : Z;
  max_miner_count : Z
}.
#[export] Instance eta_miner2ex : Eta miner2ex := fun r =>
  mkMiner2ex (next_id r) (max_table_count r) (max_miner_count r).
Definition miner2ex0 : miner2ex := mkMiner2ex 1 0 0.

(** An entry of a probability table: the upper end of the miner's interval. *)
Record mscore := mkMscore {
  sc_mid : Z;
  sc_minerid : Z;
  sc_range : Z
}.
#[export] Instance eta_mscore : Eta mscore := fun r => mkMscore (sc_mid r) (sc_minerid r) (sc_range r).

Record mscore2ex := mkMscore2ex {
  mscore1_s0_count : Z;
  mscore1_s1_count : Z;
  mscore2_s0_count : Z;
  mscore2_s1_count : Z;
  build_proc_id : Z;
  prev_build_range1 : Z;
  prev_build_range2 : Z;
  build_count1 : Z;
  build_count2 : Z;
  current_s : Z
}.
#[export] Instance eta_mscore2ex : Eta mscore2ex := fun r =>
  mkMscore2ex (mscore1_s0_count r) (mscore1_s1_count r) (mscore2_s0_count r) (mscore2_s1_count r)
    (build_proc_id r) (prev_build_range1 r) (prev_build_range2 r) (build_count1 r) (build_count2 r)
    (current_s r).
Definition mscore2ex0 : mscore2ex := mkMscore2ex 0 0 0 0 1 0 0 0 0 0.

(** The parameters of the new model; the two unused random seeds are left out. *)
Record newmparam := mkNewmparam {
  start_time : Z;
  next_day_time : Z;
  start_space : Z;
  task_space : Z;
  last_day_inc_space : Z;
  last_month_inc_space : Z;
  total_issue : Z;
  total_destory : Z;
  cur_issue : Z;
  cur_destory : Z;
  cur_reward1 : Z;
  cur_reward2 : Z;
  cur_reward1gas : Z;
  cur_reward2gas : Z;
  reward_day : Z;
  reward_month : Z;
  last_reward_slot : Z;
  span_reward_slot : Z;
  new_span_reward_slot : Z;
  last_build_slot : Z;
  span_build_slot : Z;
  np_reward_type : Z;
  is_started : bool
}.
#[export] Instance eta_newmparam : Eta newmparam := fun r =>
  mkNewmparam (start_time r) (next_day_time r) (start_space r) (task_space r) (last_day_inc_space r)
    (last_month_inc_space r) (total_issue r) (total_destory r) (cur_issue r) (cur_destory r)
    (cur_reward1 r) (cur_reward2 r) (cur_reward1gas r) (cur_reward2gas r) (reward_day r)
    (reward_month r) (last_reward_slot r) (span_reward_slot r) (new_span_reward_slot r)
    (last_build_slot r) (span_build_slot r) (np_reward_type r) (is_started r).
Definition newmparam0 : newmparam :=
  mkNewmparam 0 0 0 0 0 0 0 0 0 0 0 0 0 0 0 0 0 12 12 0 2 0 false.

Record hdd_global_param := mkGparams {
  hdd_price : Z;
  yta_price : Z;
  dup_remove_ratio : Z;
  dup_remove_dist_ratio : Z;
  hdd_counter : Z
}.
#[export] Instance eta_gparams : Eta hdd_global_param := fun r =>
  mkGparams (hdd_price r) (yta_price r) (dup_remove_ratio r) (dup_remove_dist_ratio r) (hdd_counter r).
Definition gparams0 : hdd_global_param := mkGparams 5760 8000 10000 10000 (2 * 1024 * 1024 * 100000000).

Record hdd_price_guard := mkGuard {
  last_yta_guard_price1 : Z;
  last_ytaprice_guard_time1 : Z;
  last_yta_guard_price2 : Z;
  last_ytaprice_guard_time2 : Z;
  last_dup_remove_guard_ratio1 : Z;
  last_duprmv_ratio_guard_time1 : Z;
  last_dup_remove_guard_ratio2 : Z;
  last_duprmv_ratio_guard_time2 : Z;
  yta_price_delta_1 : Z;
  yta_price_timespan_1 : Z;
  yta_price_delta_2 : Z;
  yta_price_timespan_2 : Z;
  duprmv_ratio_delta_1 : Z;
  duprmv_ratio_timespan_1 : Z;
  duprmv_ratio_delta_2 : Z;
  duprmv_ratio_timespan_2 : Z
}.
#[export] Instance eta_guard : Eta hdd_price_guard := fun r =>
  mkGuard (last_yta_guard_price1 r) (last_ytaprice_guard_time1 r) (last_yta_guard_price2 r)
    (last_ytaprice_guard_time2 r) (last_dup_remove_guard_ratio1 r) (last_duprmv_ratio_guard_time1 r)
    (last_dup_remove_guard_ratio2 r) (last_duprmv_ratio_guard_time2 r) (yta_price_delta_1 r)
    (yta_price_timespan_1 r) (yta_price_delta_2 r) (yta_price_timespan_2 r) (duprmv_ratio_delta_1 r)
    (duprmv_ratio_timespan_1 r) (duprmv_ratio_delta_2 r) (duprmv_ratio_timespan_2 r).
Definition guard0 (now : Z) : hdd_price_guard :=
  mkGuard 8000 now 8000 now 10000 now 10000 now 15 (8 * 60) 50 (60 * 60 * 24)
    10 (60 * 60 * 24) 50 (60 * 60 * 240).

Record deposit_rate := mkDeposit_rate { dr_rate : Z; last_rate_time : Z }.
#[export] Instance eta_deposit_rate : Eta deposit_rate := fun r => mkDeposit_rate (dr_rate r) (last_rate_time r).

(** ** State

    [userhdds] is scoped and keyed by the same account, so it is keyed by the
    account; [maccounts] is scoped by the owner and keyed by the miner id;
    [mscores1] and [mscores2] are scoped by the build they belong to.  [gstateu]
    and [gstatem] are the members of the contract object the counters are
    loaded into; [counterstat1] is the registered space in GB. *)
Record hddpool := mkHddpool {
  userhdds : gmap name userhdd;
  maccounts : gmap (name * Z) maccount;
  storepools : gmap name storepool;
  minerinfos : gmap Z minerinfo;
  miners : gmap Z miner;
  miner2s : gmap Z miner2;
  miner2ex1 : option miner2ex;
  mscores1 : gmap (name * Z) mscore;
  mscores2 : gmap (name * Z) mscore;
  mscore2ex1 : option mscore2ex;
  newmparama : option newmparam;
  counterstat1 : option Z;
  gparams : option hdd_global_param;
  paramguard : option hdd_price_guard;
  gdeprate : option deposit_rate;
  gusdprice : option Z;
  gusercount : option Z;
  gmacccount : option Z;
  gstateu : Z;
  gstatem : Z
}.
#[export] Instance eta_hddpool : Eta hddpool := fun s =>
  mkHddpool (userhdds s) (maccounts s) (storepools s) (minerinfos s) (miners s) (miner2s s)
    (miner2ex1 s) (mscores1 s) (mscores2 s) (mscore2ex1 s) (newmparama s) (counterstat1 s) (gparams s)
    (paramguard s) (gdeprate s) (gusdprice s) (gusercount s) (gmacccount s) (gstateu s) (gstatem s).

Definition hddpool_init : hddpool :=
  mkHddpool ∅ ∅ ∅ ∅ ∅ ∅ None ∅ ∅ None None None None None None None None None 0 0.

(** The constructor and the destructor of the contract object: every action
    runs between them. *)
Definition ctor : M hddpool unit :=
  u ← sget gusercount;
  _ ← assign gstateu (default 0 u);
  m ← sget gmacccount;
  assign gstatem (default 0 m).

Definition dtor : M hddpool unit :=
  u ← gets gstateu;
  _ ← sset gusercount u;
  m ← gets gstatem;
  sset gmacccount m.

Definition in_object (m : M hddpool unit) : M hddpool unit :=
  _ ← ctor; _ ← m; dtor.

(** ** Static functions *)

Definition pool_is_miner_exist (s : hddpool) (minerid : Z) : bool :=
  match minerinfos s !! minerid with Some _ => true | None => false end.

Definition get_miner_max_space (s : hddpool) (minerid : Z) : Z :=
  match minerinfos s !! minerid with Some mi => mi_max_space mi | None => 0 end.

Definition get_miner_pool_id (s : hddpool) (minerid : Z) : name :=
  match minerinfos s !! minerid with Some mi => mi_pool_id mi | None => 0 end.

(** The default constructor of [name] is the empty name, 0. *)
Definition get_miner_pool_owner (s : hddpool) (minerid : Z) : name :=
  match minerinfos s !! minerid with
  | Some mi =>
      match storepools s !! mi_pool_id mi with Some p => pool_owner p | None => 0 end
  | None => 0
  end.

Definition pool_get_next_reward_slot (s : hddpool) : Z :=
  match newmparama s with
  | Some g => u32 (last_reward_slot g + span_reward_slot g)
  | None => 4294967295
  end.

Definition pool_get_next_build_slot (s : hddpool) : Z :=
  match newmparama s with
  | Some g => u32 (last_build_slot g + span_build_slot g)
  | None => 4294967295
  end.

Definition pool_get_yta_price (s : hddpool) : Z :=
  match gparams s with Some g => yta_price g | None => 8000 end.

Definition pool_get_usd_price (s : hddpool) : Z := default 64500 (gusdprice s).

#[export] Instance hddpool_view (s : hddpool) : PoolView := {|
  is_miner_exist := pool_is_miner_exist s;
  get_yta_price := pool_get_yta_price s;
  get_usd_price := pool_get_usd_price s;
  get_next_reward_slot := pool_get_next_reward_slot s;
  get_next_build_slot := pool_get_next_build_slot s
|}.

(** ** Shared helpers *)

(** The newline some messages end with. *)
Definition nl : string := String (Z_ascii 10) EmptyString.

(** [(space & 65535) == 0]: a whole number of GB. *)
Definition slice_aligned (space : Z) : bool := Z.land space 65535 =? 0.

(** Only one of the first 21 producers acts, with its shadow account. *)
Definition check_bp_account {SV : SystemView} (bpacc : name) : M hddpool unit :=
  let '(seq_num, shadow) := getProducerSeq bpacc in
  _ ← eosio_assert ((0 <? seq_num) && (seq_num <? 22)) "invalidate bp account";
  require_auth shadow.

Definition get_newmodel_start_time : Z := hddm_latest_stop_time.

Definition chg_total_space (space_delta : Z) (is_increase : bool) : M hddpool unit :=
  g ← sget counterstat1;
  let total_space := default 0 g in
  let delta_gb := Z.shiftr space_delta 16 in
  sset counterstat1
    (if is_increase then u64 (total_space + delta_gb)
     else if delta_gb <? total_space then total_space - delta_gb else 0).

(** ** The compact miner table *)

Definition insert_miner2 (minerid : Z) : M hddpool Z :=
  g ← sget miner2ex1;
  let gstate := default miner2ex0 g in
  let gstate := gstate <| max_miner_count := u64 (max_miner_count gstate + 1) |> in
  let nid := next_id gstate in
  _ ← (if nid =? u64 (max_table_count gstate + 1) then
         let gstate := gstate <| max_table_count := u64 (max_table_count gstate + 1) |>
                              <| next_id := u64 (next_id gstate + 1) |> in
         _ ← emplace miner2s nid (mkMiner2 nid minerid 0);
         sset miner2ex1 gstate
       else
         it ← get miner2s nid "can not find next_id";
         let gstate := gstate <| next_id := m2_next_id it |> in
         _ ← modify miner2s nid (fun row => Ok (row <| m2_minerid := minerid |> <| m2_next_id := 0 |>));
         sset miner2ex1 gstate);
  mret (u32 nid).

Definition del_miner2 (iid : Z) : M hddpool unit :=
  if iid =? 0 then mret tt else
  g ← sget miner2ex1;
  match g with
  | None => eosio_assert false "miner2 table is empty"
  | Some gstate =>
      let gstate := gstate <| max_miner_count := u64 (max_miner_count gstate - 1) |> in
      it ← get miner2s iid "can not find next_id";
      let nid := next_id gstate in
      let gstate := gstate <| next_id := iid |> in
      _ ← modify miner2s iid (fun row => Ok (row <| m2_minerid := 0 |> <| m2_next_id := nid |>));
      sset miner2ex1 gstate
  end.
