(* ===== verification/PoolSlots.v ===== *)
(** * hddpool: the compact miner table is a slot allocator

    [insert_miner2] puts a miner into a free slot of the table [miner2], or into
    a new one at its end when none is free; [del_miner2] frees a slot. The free
    slots are linked through [next_id], the last link being the first unused
    slot number. The abstract state of the table is the finite map [slots_of]
    from occupied slots to miners: the two operations insert and delete in it,
    and never fail on a well-formed table. *)

From S2P Require Import Prelude Float64 Names Asset Chain Views PoolTables.
#[local] Open Scope Z_scope.

(** ** The abstract state and the invariant *)

Definition occupant (r : miner2) : option Z := if m2_minerid r =? 0 then None else Some (m2_minerid r).

Definition slots_of (s : hddpool) : gmap Z Z := omap occupant (miner2s s).

Definition slot_meta (s : hddpool) : miner2ex := default miner2ex0 (miner2ex1 s).

(** The slots [l] are linked from [h], and the last link is [e]. *)
Fixpoint chain (t : gmap Z miner2) (h : Z) (l : list Z) (e : Z) : Prop :=
  match l with
  | [] => h = e
  | i :: l' => h = i /\ exists r, t !! i = Some r /\ chain t (m2_next_id r) l' e
  end.

Record slots_inv (s : hddpool) (free : list Z) : Prop := {
  si_chain : chain (miner2s s) (next_id (slot_meta s)) free (max_table_count (slot_meta s) + 1);
  si_nodup : NoDup free;
  si_dom i : is_Some (miner2s s !! i) <-> 1 <= i <= max_table_count (slot_meta s);
  si_free i r : miner2s s !! i = Some r -> (m2_minerid r = 0 <-> i ∈ free);
  si_live : max_miner_count (slot_meta s) = Z.of_nat (size (slots_of s));
  si_count : max_table_count (slot_meta s) = max_miner_count (slot_meta s) + Z.of_nat (length free)
}.

Definition slots_ok (s : hddpool) : Prop := exists free, slots_inv s free.

(** ** Lemmas *)

Lemma chain_ne t h l e i r : i ∉ l -> chain t h l e -> chain (<[i:=r]> t) h l e.
Proof.
  revert h. induction l as [|j l IH]; cbn; intros h Hi; [done|].
  intros (-> & r' & Hr & Hc). apply not_elem_of_cons in Hi as [Hij Hil]. split; [done|].
  exists r'. rewrite lookup_insert_ne by done. auto.
Qed.

Lemma slots_lookup s i : slots_of s !! i = miner2s s !! i ≫= occupant.
Proof. unfold slots_of. by rewrite lookup_omap. Qed.

(** Putting a row into a table puts its occupant, or nothing, into the slots. *)
Lemma slots_insert (t : gmap Z miner2) (i : Z) (r : miner2) :
  (omap occupant (<[i:=r]> t) : gmap Z Z) =
    match occupant r with Some m => <[i:=m]> (omap occupant t) | None => delete i (omap occupant t) end.
Proof.
  apply map_eq. intros j. rewrite lookup_omap, lookup_insert.
  case_decide as E; [subst j|].
  - cbn. destruct (occupant r) as [m|]; [by rewrite lookup_insert_eq|by rewrite lookup_delete_eq].
  - destruct (occupant r) as [m|]; [rewrite lookup_insert_ne by done|rewrite lookup_delete_ne by done];
      by rewrite lookup_omap.
Qed.

Lemma slots_ok_init : slots_ok hddpool_init.
Proof.
  exists []. split; cbn; [done|apply NoDup_nil_2|..]; try done.
  intros i. rewrite lookup_empty. split; [by intros [? ?]|lia].
Qed.

Lemma occupant_some id r : id <> 0 -> m2_minerid r = id -> occupant r = Some id.
Proof. unfold occupant. intros Hn ->. by destruct (Z.eqb_spec id 0). Qed.

(** The state after one of the operations: only the table and its metadata
    change. *)
Definition with_slots (t : gmap Z miner2) (g : miner2ex) (s : hddpool) : hddpool :=
  s <| miner2s := t |> <| miner2ex1 := Some g |>.

Section operations.
Context (s : hddpool).
#[local] Abbreviation g := (slot_meta s).

Lemma slot_bounds free : slots_inv s free -> 0 <= max_miner_count g <= max_table_count g.
Proof. intros Hs. pose proof (si_live _ _ Hs). pose proof (si_count _ _ Hs). lia. Qed.

Lemma free_in_table free i : slots_inv s free -> i ∈ free -> 1 <= i <= max_table_count g.
Proof.
  intros Hs Hi. apply (si_dom _ _ Hs). pose proof (si_chain _ _ Hs) as Hc. revert Hi Hc. clear.
  generalize (next_id (slot_meta s)). induction free as [|j l IH]; cbn; intros h Hi Hc; [by apply not_elem_of_nil in Hi|].
  destruct Hc as (-> & r & Hr & Hc). apply elem_of_cons in Hi as [->|Hi]; eauto.
Qed.

(** A new slot at the end of the table. *)
Lemma insert_new_slot id : slots_inv s [] -> id <> 0 ->
  let i := max_table_count g + 1 in
  slots_of s !! i = None /\ next_id g = i /\ miner2s s !! i = None /\
  slots_inv (with_slots (<[i := mkMiner2 i id 0]> (miner2s s))
    (mkMiner2ex (i + 1) i (max_miner_count g + 1)) s) [] /\
  slots_of (with_slots (<[i := mkMiner2 i id 0]> (miner2s s))
    (mkMiner2ex (i + 1) i (max_miner_count g + 1)) s) = <[i:=id]> (slots_of s).
Proof.
  intros Hs Hid i. pose proof (si_chain _ _ Hs) as Hc. cbn in Hc. pose proof (slot_bounds _ Hs).
  assert (Hnone : miner2s s !! i = None).
  { apply eq_None_not_Some. rewrite (si_dom _ _ Hs). lia. }
  assert (Hsl : slots_of s !! i = None) by (by rewrite slots_lookup, Hnone).
  assert (Heq : slots_of (with_slots (<[i := mkMiner2 i id 0]> (miner2s s))
    (mkMiner2ex (i + 1) i (max_miner_count g + 1)) s) = <[i:=id]> (slots_of s)).
  { unfold slots_of at 1; cbn. rewrite slots_insert. by rewrite (occupant_some id). }
  split; [done|]. split; [done|]. split; [done|]. split; [|done].
  split; [done|apply NoDup_nil_2|..]; cbn.
  - intros j. rewrite lookup_insert. case_decide as E.
    + subst j. split; [lia|by eexists].
    + rewrite (si_dom _ _ Hs). lia.
  - intros j r. rewrite lookup_insert. case_decide; [intros [= <-]; cbn|].
    + split; [done|]. intros Hj. by apply not_elem_of_nil in Hj.
    + apply (si_free _ _ Hs).
  - cbn in Heq. rewrite Heq, map_size_insert_None by done. pose proof (si_live _ _ Hs). lia.
  - pose proof (si_count _ _ Hs). cbn in *. lia.
Qed.

(** A free slot, taken from the head of the list. *)
Lemma insert_free_slot id i l r : slots_inv s (i :: l) -> id <> 0 -> miner2s s !! i = Some r ->
  let s' := with_slots (<[i := r <| m2_minerid := id |> <| m2_next_id := 0 |>]> (miner2s s))
              (mkMiner2ex (m2_next_id r) (max_table_count g) (max_miner_count g + 1)) s in
  slots_of s !! i = None /\ slots_inv s' l /\ slots_of s' = <[i:=id]> (slots_of s).
Proof.
  intros Hs Hid Hr s'. pose proof (si_chain _ _ Hs) as (Hnx & r' & Hr' & Hc).
  rewrite Hr in Hr'. injection Hr' as <-.
  pose proof (si_nodup _ _ Hs) as [Hil Hnd]%NoDup_cons.
  assert (Hz : m2_minerid r = 0) by (apply (si_free _ _ Hs i r Hr); left).
  assert (Hsl : slots_of s !! i = None) by (rewrite slots_lookup, Hr; cbn; unfold occupant; by rewrite Hz).
  assert (Heq : slots_of s' = <[i:=id]> (slots_of s)).
  { unfold slots_of at 1; cbn. rewrite slots_insert. by rewrite (occupant_some id). }
  split; [done|]. split; [|done]. split; cbn.
  - by apply chain_ne.
  - done.
  - intros j. rewrite lookup_insert. case_decide as E; [subst j|by apply (si_dom _ _ Hs)].
    rewrite <- (si_dom _ _ Hs), Hr. by split; eexists.
  - intros j r0. rewrite lookup_insert. case_decide as E; [subst j; intros [= <-]; cbn|].
    + split; [done|]. intros Hj. by destruct Hil.
    + intros Hj. rewrite (si_free _ _ Hs j r0 Hj), elem_of_cons. split; [by intros [?|]|by right].
  - cbn in Heq. rewrite Heq, map_size_insert_None by done. pose proof (si_live _ _ Hs). lia.
  - pose proof (si_count _ _ Hs) as Hn. cbn in Hn. lia.
Qed.

(** Freeing an occupied slot. *)
Lemma free_slot free id i r : slots_inv s free -> slots_of s !! i = Some id -> miner2s s !! i = Some r ->
  let s' := with_slots (<[i := r <| m2_minerid := 0 |> <| m2_next_id := next_id g |>]> (miner2s s))
              (mkMiner2ex i (max_table_count g) (max_miner_count g - 1)) s in
  slots_inv s' (i :: free) /\ slots_of s' = delete i (slots_of s).
Proof.
  intros Hs Hi Hr s'.
  assert (Hni : i ∉ free).
  { rewrite <- (si_free _ _ Hs i r Hr). rewrite slots_lookup, Hr in Hi. cbn in Hi. unfold occupant in Hi.
    by destruct (Z.eqb_spec (m2_minerid r) 0). }
  assert (Heq : slots_of s' = delete i (slots_of s)) by (unfold slots_of at 1; cbn; by rewrite slots_insert).
  split; [|done]. subst s'. split; cbn.
  - split; [done|]. eexists. rewrite lookup_insert_eq. split; [done|]. cbn. apply chain_ne; [done|apply Hs].
  - apply NoDup_cons. split; [done|apply Hs].
  - intros j. rewrite lookup_insert. case_decide as E; [subst j|by apply (si_dom _ _ Hs)].
    rewrite <- (si_dom _ _ Hs), Hr. by split; eexists.
  - intros j r0. rewrite lookup_insert. case_decide as E; [subst j; intros [= <-]; cbn|].
    + split; [intros _; left|done].
    + intros Hj. rewrite (si_free _ _ Hs j r0 Hj), elem_of_cons. split; [by right|by intros [?|]].
  - pose proof (map_size_delete_Some i (slots_of s) (ex_intro _ _ Hi)) as Hsz. cbn in Heq. rewrite Heq. pose proof (si_live _ _ Hs).
    assert (size (slots_of s) <> 0%nat) by (intros E; apply map_size_empty_inv in E; rewrite E in Hi; done).
     lia.
  - pose proof (si_count _ _ Hs) as Hn. lia.
Qed.
End operations.

(** ** The operations refine insertion and deletion *)

Lemma insert_miner2_runs id c s o :
  slots_ok s -> id <> 0 -> max_table_count (slot_meta s) < 2^32 - 1 ->
  exists i s', insert_miner2 id c s o = Ok (i, s', o) /\
    1 <= i <= max_table_count (slot_meta s') /\ slots_of s !! i = None /\
    slots_ok s' /\ slots_of s' = <[i := id]> (slots_of s) /\
    max_table_count (slot_meta s') =
      Z.max (max_table_count (slot_meta s)) (Z.of_nat (size (slots_of s)) + 1) /\
    s' = with_slots (miner2s s') (slot_meta s') s.
Proof.
  intros [free Hs] Hid Hmax. pose proof (slot_bounds _ _ Hs). pose proof (si_count _ _ Hs).
  pose proof (si_live _ _ Hs) as Hlive.
  unfold insert_miner2. erewrite bind_run by reflexivity. fold (slot_meta s). cbn beta zeta.
  cbn [max_table_count next_id max_miner_count setf eta_miner2ex].
  rewrite (u64_id (max_miner_count _ + 1)) by (unfold is_u64; lia).
  rewrite (u64_id (max_table_count _ + 1)) by (unfold is_u64; lia).
  destruct free as [|i l].
  - destruct (insert_new_slot s id Hs Hid) as (H1 & -> & H2 & H3 & H4). rewrite Z.eqb_refl.
    set (i := max_table_count (slot_meta s) + 1) in *. cbn in *.
    exists i, (with_slots (<[i := mkMiner2 i id 0]> (miner2s s)) (mkMiner2ex (i + 1) i (max_miner_count (slot_meta s) + 1)) s).
    rewrite u64_id by (unfold is_u64; lia). split.
    { erewrite bind_run by (erewrite bind_run by (by apply emplace_run); reflexivity). rewrite u32_id by lia. done. }
    split; [cbn; lia|]. split; [done|]. split; [by exists []|]. split; [done|]. split; [cbn; lia|done].
  - destruct (si_chain _ _ Hs) as (Hnx & r & Hr & _). rewrite Hnx.
    destruct (insert_free_slot s id i l r Hs Hid Hr) as (H1 & H2 & H3).
    pose proof (free_in_table s _ i Hs ltac:(left)).
    destruct (Z.eqb_spec i (max_table_count (slot_meta s) + 1)); [lia|].
    eexists i, _. split.
    { erewrite bind_run; [|erewrite bind_run by (by apply get_run); erewrite bind_run by (eapply modify_run; [exact Hr|reflexivity]); reflexivity].
      rewrite u32_id by lia. reflexivity. }
    split; [cbn; lia|]. split; [done|]. split; [by exists l|]. split; [done|].
    split; [cbn in *; lia|done].
Qed.

(** C24: inserting a miner into the compact table.  On a well-formed table with
    fewer than 2^32 - 1 slots [insert_miner2] always succeeds: it returns a slot
    that was free, and the table afterwards is well formed and holds exactly
    one more miner, the given one, in that slot.  The table grows by one slot
    only when every slot is occupied; nothing else of the contract's state
    changes. *)
Theorem insert_miner2_spec id c s o :
  slots_ok s -> id <> 0 -> max_table_count (slot_meta s) < 2^32 - 1 ->
  exists i s', insert_miner2 id c s o = Ok (i, s', o) /\
    1 <= i <= max_table_count (slot_meta s') /\ slots_of s !! i = None /\
    slots_ok s' /\ slots_of s' = <[i := id]> (slots_of s) /\
    max_table_count (slot_meta s') =
      Z.max (max_table_count (slot_meta s)) (Z.of_nat (size (slots_of s)) + 1) /\
    s' = with_slots (miner2s s') (slot_meta s') s.
Proof. exact (insert_miner2_runs id c s o). Qed.

Lemma del_miner2_runs i id c s o :
  slots_ok s -> slots_of s !! i = Some id -> max_table_count (slot_meta s) < 2^63 ->
  exists s', del_miner2 i c s o = Ok (tt, s', o) /\
    slots_ok s' /\ slots_of s' = delete i (slots_of s) /\ next_id (slot_meta s') = i /\
    max_table_count (slot_meta s') = max_table_count (slot_meta s) /\
    s' = with_slots (miner2s s') (slot_meta s') s.
Proof.
  intros [free Hs] Hi Hmax. pose proof Hi as Hi'. rewrite slots_lookup in Hi'.
  destruct (miner2s s !! i) as [r|] eqn:Hr; [|done].
  pose proof (proj1 (si_dom _ _ Hs i) (ex_intro _ _ Hr)). pose proof (slot_bounds _ _ Hs).
  pose proof (si_count _ _ Hs). pose proof (si_live _ _ Hs) as Hlive.
  destruct (free_slot s free id i r Hs Hi Hr) as [Hinv Heq].
  assert (Hpos : 1 <= max_miner_count (slot_meta s)).
  { assert (size (slots_of s) <> 0%nat) by (intros E; apply map_size_empty_inv in E; rewrite E in Hi; done). lia. }
  destruct (miner2ex1 s) as [g|] eqn:Eg; [|unfold slot_meta in *; rewrite Eg in *; cbn in *; lia].
  assert (Em : slot_meta s = g) by (unfold slot_meta; by rewrite Eg). rewrite Em in *.
  unfold del_miner2. destruct (Z.eqb_spec i 0); [lia|].
  eexists. split.
  { erewrite bind_run by (unfold sget, gets; rewrite Eg; reflexivity). cbn beta iota zeta.
    cbn [max_table_count next_id max_miner_count setf eta_miner2ex].
    rewrite u64_id by (unfold is_u64; lia).
    erewrite bind_run by (by apply get_run). erewrite bind_run by (eapply modify_run; [exact Hr|reflexivity]).
    reflexivity. }
  split; [by exists (i :: free)|]. split; [exact Heq|]. done.
Qed.

(** removing a miner from the compact table.  On a well-formed table
    [del_miner2] of an occupied slot always succeeds; afterwards the table is
    well formed, the slot is free and will be the next one used, every other
    miner keeps its slot, and nothing else of the state changes. *)
Theorem del_miner2_spec i id c s o :
  slots_ok s -> slots_of s !! i = Some id -> max_table_count (slot_meta s) < 2^63 ->
  exists s', del_miner2 i c s o = Ok (tt, s', o) /\
    slots_ok s' /\ slots_of s' = delete i (slots_of s) /\ next_id (slot_meta s') = i /\
    max_table_count (slot_meta s') = max_table_count (slot_meta s) /\
    s' = with_slots (miner2s s') (slot_meta s') s.
Proof. exact (del_miner2_runs i id c s o). Qed.

(** Two miners in the slots 1 and 2, the first one removed again. *)
Definition slots_demo : hddpool :=
  ok_or hddpool_init (exec_all (fun m => m)
    [(_ ← insert_miner2 7; mret tt, ctx_of 0 [] 0); (_ ← insert_miner2 8; mret tt, ctx_of 0 [] 0);
     (del_miner2 1, ctx_of 0 [] 0)] hddpool_init).

Lemma slots_demo_inv : slots_inv slots_demo [1].
Proof.
  split.
  - vm_compute. split; [done|]. eexists. split; [reflexivity|]. reflexivity.
  - apply NoDup_singleton.
  - intros i. change (slot_meta slots_demo) with (mkMiner2ex 1 2 1).
    change (miner2s slots_demo) with (<[1 := mkMiner2 1 0 3]> (<[2 := mkMiner2 2 8 0]> (∅ : gmap Z miner2))).
    rewrite !lookup_insert, lookup_empty. cbn. repeat case_decide; subst; split; try lia; try by eexists.
  - intros i r. change (miner2s slots_demo) with (<[1 := mkMiner2 1 0 3]> (<[2 := mkMiner2 2 8 0]> (∅ : gmap Z miner2))).
    rewrite !lookup_insert, lookup_empty. repeat case_decide; intros [= <-]; subst; cbn.
    + split; [intros _; left|done].
    + split; [done|]. intros E%list_elem_of_singleton. done.
  - reflexivity.
  - reflexivity.
Qed.

Lemma insert_miner2_spec_witness :
  exists i s', insert_miner2 9 (ctx_of 0 [] 0) slots_demo no_out = Ok (i, s', no_out) /\ i = 1 /\
    slots_of s' = <[1 := 9]> (slots_of slots_demo).
Proof.
  destruct (insert_miner2_spec 9 (ctx_of 0 [] 0) slots_demo no_out) as (i & s' & H1 & _ & _ & _ & H2 & _);
    [by exists [1]; apply slots_demo_inv|done|reflexivity|].
  exists i, s'. split; [exact H1|]. vm_compute in H1. injection H1 as <- <-. split; [reflexivity|exact H2].
Defined.

Lemma del_miner2_spec_witness :
  exists s', del_miner2 2 (ctx_of 0 [] 0) slots_demo no_out = Ok (tt, s', no_out) /\
    slots_of s' = delete 2 (slots_of slots_demo) /\ next_id (slot_meta s') = 2.
Proof.
  destruct (del_miner2_spec 2 8 (ctx_of 0 [] 0) slots_demo no_out) as (s' & H1 & _ & H2 & H3 & _);
    [by exists [1]; apply slots_demo_inv|reflexivity|reflexivity|].
  exists s'. split; [exact H1|]. split; [exact H2|exact H3].
Defined.
