(* ===== verification/PoolBalance.v ===== *)
(** * hddpool: balances of storage and of mining

    contracts/hddpool/hddpool.cpp, the part on the table [userhddinfo].  A user
    has an amount of the storage unit HDD that fees are deducted from
    ([hdd_storehhdd]), and one that mining profit is credited to
    ([hdd_minerhdd]).  Both accrue lazily: a row keeps the rate per day and the
    time of the last settlement, and [calculate_fee_balance] and
    [calculate_profit_balance] settle it with double-precision arithmetic.  Of
    every settled profit 90 percent go to the miner's owner and the rest to the
    account ecologyfound. *)

From S2P Require Import Prelude Float64 Names Asset Chain Views PoolTables.
#[local] Open Scope Z_scope.

(** ** Settling a balance *)

(** The fraction of a fee cycle between two times in microseconds. *)
Definition tick (last_hdd_time current_time : Z) : f64 :=
  let slot_t := (current_time - last_hdd_time) / 1000 in
  (fl slot_t / fl fee_cycle)%f64.

Definition calculate_fee_balance (oldbalance hdd_per_cycle_fee last_hdd_time current_time : Z) : res Z :=
  if current_time <=? last_hdd_time then Ok oldbalance else
  delta ← f64_trunc_i64s (tick last_hdd_time current_time * fl (i64 (0 - hdd_per_cycle_fee)))%f64;
  Ok (i64 (oldbalance + delta)).

(** Returns the balance, and the deadline the reference parameter is set to. *)
Definition calculate_profit_balance (oldbalance hdd_per_cycle_profit last_hdd_time current_time deadline_time : Z)
    : res (Z * Z) :=
  let deadline_time := if deadline_time =? 0 then get_newmodel_start_time else deadline_time in
  let current_time := if deadline_time <? current_time then deadline_time else current_time in
  if current_time <=? last_hdd_time then Ok (oldbalance, deadline_time) else
  delta ← f64_trunc_i64s (tick last_hdd_time current_time * fl hdd_per_cycle_profit)%f64;
  Ok (i64 (oldbalance + delta), deadline_time).

(** The share of the profit that stays with the owner, added to the old
    balance: [(int64_t)(profit_percent * (new - old)) + old]. *)
Definition owner_share (new_balance last_balance : Z) : res Z :=
  part ← f64_trunc_i64s (profit_percent * fl (i64 (new_balance - last_balance)))%f64;
  Ok (i64 (part + last_balance)).

(** Profit per cycle of a production space:
    (space / 1GB) * (cycle / 1 year), in 10^-8 HDD. *)
Definition cycle_profit (space : Z) : res Z :=
  f64_trunc_i64s ((fl space / fl one_gb) * (fl fee_cycle / fl milliseconds_in_one_year) * fl 100000000)%f64.

Definition hdd_range_msg : string := "magnitude of user hdd_minerhdd must be less than 2^62".
Definition store_range_msg : string := "magnitude of user hdd_storehhdd must be less than 2^62".

(** ** Rows of [userhddinfo] *)

(** [new_user_hdd(userhdd, user, balance, payer)]. *)
Definition new_user_hdd (user : name) (balance : Z) : M hddpool unit :=
  now ← ask current_time;
  n ← gets gstateu;
  _ ← assign gstateu (u64 (n + 1));
  emplace userhdds user (mkUserhdd user balance 0 0 now 0 0 0 now).

(** The profit share of ecologyfound. *)
Definition credit_eco (eco_inc_balance : Z) : M hddpool unit :=
  when (0 <? eco_inc_balance)
    (_ ← get userhdds ecologyfound_acc "ecologyfound account is not open";
     modify userhdds ecologyfound_acc (fun row =>
       let b := i64 (hdd_minerhdd row + eco_inc_balance) in
       _ ← guard_ (is_hdd_amount_within_range b) hdd_range_msg;
       Ok (row <| hdd_minerhdd := b |>))).

(** Settling the profit of a row: the increment for ecologyfound and the row. *)
Definition settle_profit (now deadline : Z) (row : userhdd) : res (Z * userhdd) :=
  nb ← calculate_profit_balance (hdd_minerhdd row) (u_per_cycle_profit row) (last_hddprofit_time row) now deadline;
  let '(new_balance, _) := nb in
  _ ← guard_ (is_hdd_amount_within_range new_balance) hdd_range_msg;
  mine ← owner_share new_balance (hdd_minerhdd row);
  Ok (i64 (new_balance - mine), row <| hdd_minerhdd := mine |> <| last_hddprofit_time := now |>).

Definition calcprofit (user : name) : M hddpool unit :=
  _ ← require_auth user;
  if user =? ecologyfound_acc then mret tt else
  _ ← get userhdds user "user is not a storage provider";
  now ← ask current_time;
  eco ← modify_ret userhdds user (settle_profit now 0);
  credit_eco eco.

(** The new production space of an owner. *)
Definition new_space (old space_delta : Z) (is_increase : bool) : Z :=
  if is_increase then u64 (old + space_delta)
  else if space_delta <? old then old - space_delta else 0.

Definition chg_owner_space (minerowner : name) (space_delta : Z) (is_increase is_calc : bool) (ct deadline_time : Z)
    : M hddpool unit :=
  if minerowner =? ecologyfound_acc then mret tt else
  _ ← get userhdds minerowner "no owner exists in userhdd table";
  eco ← modify_ret userhdds minerowner (fun row =>
    er ← (if is_calc then settle_profit ct deadline_time row else Ok (0, row));
    let '(eco, row) := er in
    let newspace := new_space (hdd_space_profit row) space_delta is_increase in
    _ ← guard_ (newspace <=? max_profit_space) "execeed max profie space";
    profit ← cycle_profit newspace;
    Ok (eco, row <| hdd_space_profit := newspace |> <| u_per_cycle_profit := profit |>));
  credit_eco eco.

(** Settling the fees of a row. *)
Definition settle_fee (now : Z) (row : userhdd) : res userhdd :=
  b ← calculate_fee_balance (hdd_storehhdd row) (hdd_per_cycle_fee row) (last_hddstore_time row) now;
  _ ← guard_ (is_hdd_amount_within_range b) store_range_msg;
  Ok (row <| hdd_storehhdd := b |> <| last_hddstore_time := now |>).

(** The printed object {"balance": b}. *)
Definition quote : string := String (Z_ascii 34) EmptyString.
Definition print_balance (b : Z) : M hddpool unit :=
  print [VStr ("{" +:+ quote +:+ "balance" +:+ quote +:+ ":")%string; VInt b; VStr "}"].

(** [storehhdd += amount] and [-= amount], with the range check. *)
Definition store_add (amount : Z) (row : userhdd) : res userhdd :=
  let b := i64 (hdd_storehhdd row + amount) in
  _ ← guard_ (is_hdd_amount_within_range b) store_range_msg;
  Ok (row <| hdd_storehhdd := b |>).

(** Credits [receiver], opening its row when it has none. *)
Definition store_credit (receiver : name) (amount : Z) : M hddpool unit :=
  it ← find userhdds receiver;
  match it with
  | None => new_user_hdd receiver amount
  | Some _ => modify userhdds receiver (store_add amount)
  end.

Definition get_gparams : M hddpool hdd_global_param :=
  g ← sget gparams; mret (default gparams0 g).

(** ** Actions *)

Section handlers.
Context {SV : SystemView}.

Definition getbalance (user : name) (acc_type : Z) (caller : name) : M hddpool unit :=
  ok ← ask (fun c => is_account c user);
  _ ← eosio_assert ok "user not a account.";
  _ ← (if acc_type =? 1 then require_auth user
       else if acc_type =? 2 then
         okc ← ask (fun c => is_account c caller);
         _ ← eosio_assert okc "caller not a account.";
         check_bp_account caller
       else me ← ask self; require_auth me);
  it ← find userhdds user;
  match it with
  | None => print_balance 0
  | Some _ =>
      now ← ask current_time;
      b ← modify_ret userhdds user (fun row => r ← settle_fee now row; Ok (hdd_storehhdd r, r));
      print_balance b
  end.

(** The price in tokens of an amount of HDD, rounded down. *)
Definition hdd_cost (amount : Z) (g : hdd_global_param) : f64 :=
  ((fl amount / fl 10000) * (fl (hdd_price g) / fl (yta_price g)))%f64.

Definition buyhdd (from receiver : name) (amount : Z) (memo : string) : M hddpool unit :=
  _ ← require_auth from;
  ok1 ← ask (fun c => is_account c from);
  _ ← eosio_assert ok1 "user not a account";
  ok2 ← ask (fun c => is_account c receiver);
  _ ← eosio_assert ok2 "receiver not a account";
  ok3 ← ask (fun c => is_account c hdd_exchg_acc);
  _ ← eosio_assert ok3 "to not a account";
  _ ← eosio_assert (min_buy_hdd_amount <=? amount) "amount too low";
  _ ← eosio_assert (amount <=? max_buy_sell_hdd_amount) "exceed single purchase volume";
  _ ← eosio_assert (is_hdd_amount_within_range amount) "magnitude of amount must be less than 2^62";
  g ← get_gparams;
  _ ← eosio_assert (amount <=? hdd_counter g) "hdd_counter overdrawn";
  _ ← sset gparams (g <| hdd_counter := i64 (hdd_counter g - amount) |>);
  let delta := if 0 <? Z.rem amount 10000 then 1 else 0 in
  yta_amount ← lift (f64_trunc_i64s (hdd_cost amount g));
  quant ← lift (asset_make (i64 (yta_amount + delta)) CORE_SYMBOL);
  _ ← send (mk_action from (N "active") token_account (N "transfer")
         [VInt from; VInt hdd_exchg_acc; VAsset quant; VStr memo]);
  store_credit receiver amount.

Definition transhdds (from to : name) (amount : Z) (memo : string) : M hddpool unit :=
  _ ← require_auth from;
  ok1 ← ask (fun c => is_account c from);
  _ ← eosio_assert ok1 "user not a account";
  ok2 ← ask (fun c => is_account c to);
  _ ← eosio_assert ok2 "to not a account";
  _ ← eosio_assert (0 <? amount) "cannot transfer negative hdd amount";
  _ ← eosio_assert (is_hdd_amount_within_range amount) "magnitude of amount must be less than 2^62";
  _ ← eosio_assert (String.length memo <=? 256)%nat "memo has more than 256 bytes";
  _ ← require_recipient from;
  _ ← require_recipient to;
  itfrom ← get userhdds from "from not exists in userhdd table";
  _ ← eosio_assert (amount <=? hdd_storehhdd itfrom) "hdd overdrawn.";
  _ ← modify userhdds from (store_add (- amount));
  store_credit to amount.

Definition sellhdd (user : name) (amount : Z) (memo : string) : M hddpool unit :=
  _ ← require_auth user;
  _ ← eosio_assert (0 <? amount) "cannot sell negative hdd amount";
  _ ← eosio_assert (amount <=? max_buy_sell_hdd_amount) "exceed single sale volume";
  _ ← eosio_assert (is_hdd_amount_within_range amount) "magnitude of user hdd amount must be less than 2^62";
  it ← get userhdds user "user not exists in userhdd table.";
  _ ← eosio_assert (amount <=? hdd_minerhdd it) "hdd overdrawn.";
  _ ← modify userhdds user (fun row =>
        let b := i64 (hdd_minerhdd row - amount) in
        _ ← guard_ (is_hdd_amount_within_range b) hdd_range_msg;
        Ok (row <| hdd_minerhdd := b |>));
  g ← get_gparams;
  yta_amount ← lift (f64_trunc_i64s
    (hdd_cost amount g * (fl (dup_remove_ratio g) / fl 10000) * (fl (dup_remove_dist_ratio g) / fl 10000))%f64);
  quant ← lift (asset_make yta_amount CORE_SYMBOL);
  _ ← send (mk_action hdd_exchg_acc (N "active") token_account (N "transfer")
         [VInt hdd_exchg_acc; VInt user; VAsset quant; VStr memo]);
  if user =? ecologyfound_acc then mret tt else
  now ← ask current_time;
  if 1605243600 <? now / 1000000 then mret tt else
  when (dup_remove_ratio g <? 40000)
    (yta_amount2 ← lift (f64_trunc_i64s
       (hdd_cost amount g * (fl (40000 - dup_remove_ratio g) / fl 10000) * (fl (dup_remove_dist_ratio g) / fl 10000))%f64);
     quant2 ← lift (asset_make yta_amount2 CORE_SYMBOL);
     send (mk_action hdd_subsidy_acc (N "active") token_account (N "transfer")
       [VInt hdd_subsidy_acc; VInt user; VAsset quant2; VStr "hdd subsidy"])).

Definition sethfee (user : name) (fee : Z) (caller : name) : M hddpool unit :=
  ok1 ← ask (fun c => is_account c user);
  _ ← eosio_assert ok1 "user invalidate";
  ok2 ← ask (fun c => is_account c caller);
  _ ← eosio_assert ok2 "caller not an account.";
  _ ← eosio_assert (0 <=? fee) "must use positive fee value";
  it ← get userhdds user "user not exists in userhdd table";
  _ ← eosio_assert (negb (fee =? hdd_per_cycle_fee it)) (" the fee is the same " +:+ nl)%string;
  _ ← check_bp_account caller;
  _ ← eosio_assert (is_hdd_amount_within_range fee) "magnitude of fee must be less than 2^62";
  now ← ask current_time;
  modify userhdds user (fun row => r ← settle_fee now row; Ok (r <| hdd_per_cycle_fee := fee |>)).

Definition subbalance (user : name) (balance acc_type : Z) (caller : name) : M hddpool unit :=
  ok1 ← ask (fun c => is_account c user);
  _ ← eosio_assert ok1 "user invalidate";
  _ ← (if acc_type =? 2 then
         ok2 ← ask (fun c => is_account c caller);
         _ ← eosio_assert ok2 "caller not a account.";
         check_bp_account caller
       else me ← ask self; require_auth me);
  _ ← eosio_assert (is_hdd_amount_within_range balance) "magnitude of hddbalance must be less than 2^62";
  _ ← eosio_assert (0 <=? balance) "must use positive balance value";
  _ ← get userhdds user "user not exists in userhdd table";
  _ ← check_bp_account caller;
  modify userhdds user (fun row =>
    let b := i64 (hdd_storehhdd row - balance) in
    _ ← guard_ (is_hdd_amount_within_range b) "magnitude of user hddbalance must be less than 2^62";
    Ok (row <| hdd_storehhdd := b |>)).

Definition addhspace (user : name) (space : Z) (caller : name) : M hddpool unit :=
  ok1 ← ask (fun c => is_account c user);
  _ ← eosio_assert ok1 "user invalidate";
  ok2 ← ask (fun c => is_account c caller);
  _ ← eosio_assert ok2 "caller not an account.";
  _ ← get userhdds user "user not exists in userhdd table";
  _ ← check_bp_account caller;
  modify userhdds user (fun row =>
    let sp := u64 (hdd_space_store row + space) in
    _ ← guard_ (sp <=? max_user_space) "overflow max_userspace";
    Ok (row <| hdd_space_store := sp |>)).

Definition subhspace (user : name) (space : Z) (caller : name) : M hddpool unit :=
  ok1 ← ask (fun c => is_account c user);
  _ ← eosio_assert ok1 "user invalidate";
  ok2 ← ask (fun c => is_account c caller);
  _ ← eosio_assert ok2 "caller not an account.";
  _ ← get userhdds user "user not exists in userhdd table";
  _ ← check_bp_account caller;
  modify userhdds user (fun row =>
    Ok (row <| hdd_space_store := if space <=? hdd_space_store row then hdd_space_store row - space else 0 |>)).

(** Switched off. *)
Definition fixownspace (owner : name) (space : Z) : M hddpool unit :=
  _ ← eosio_assert false "not support now!";
  _ ← require_auth (N "hddpooladmin");
  _ ← get userhdds owner "no owner exists in userhdd table";
  modify userhdds owner (fun row =>
    _ ← guard_ (space <=? max_profit_space) "execeed max profie space";
    profit ← (if 0 <? space then cycle_profit space else Ok 0);
    Ok (row <| hdd_space_profit := space |> <| u_per_cycle_profit := profit |>)).
End handlers.

(** ** Settlement in integers *)

(** Truncation of an approximation of a/d, with a relative error of n parts in
    2^52. *)
Definition floor_upto (n a d z : Z) : Prop :=
  0 <= z /\ z * d * 2^52 <= a * (2^52 + n) /\ a * (2^52 - n) < (z + 1) * d * 2^52.

Lemma fl_trunc_zero : f64_trunc_i64s (fl 0) = Ok 0.
Proof. rewrite fl_0. apply f64_trunc_zero. Qed.

Lemma tick_frac last now : 0 < (now - last) / 1000 < 2^53 ->
  near_frac (tick last now) ((now - last) / 1000) 86400000 2.
Proof.
  intros Ht. unfold tick.
  pose proof (frac_div _ _ _ _ _ _ _ _ (frac_exact _ Ht) (frac_exact 86400000 ltac:(lia)) ltac:(lia) ltac:(lia) ltac:(lia)) as H.
  by apply (frac_norm ((now - last) / 1000) 86400000) in H; [|lia].
Qed.

(** What accrues at the rate [p] per day between two times. *)
Lemma accrue_spec last now p : last <= now -> (now - last) / 1000 < 2^53 -> 0 <= p < 2^63 ->
  (now - last) / 1000 * p <= 86400000 * 2^62 ->
  exists z, f64_trunc_i64s (tick last now * fl p)%f64 = Ok z /\
    floor_upto 5 ((now - last) / 1000 * p) 86400000 z.
Proof.
  intros Hl Ht Hp Htp. assert (0 <= (now - last) / 1000) by (apply Z.div_pos; lia).
  assert (Z0 : forall d, floor_upto 5 0 (Z.pos d) 0) by (intros d; unfold floor_upto; lia).
  destruct (decide ((now - last) / 1000 = 0)) as [E|E].
  { exists 0. rewrite E. split; [|apply Z0]. unfold tick. rewrite E, fl_0. change fee_cycle with 86400000.
    rewrite (frac_div_zero _ _ _ _ (frac_exact 86400000 ltac:(lia))).
    destruct (decide (p = 0)) as [->|]; [rewrite fl_0; by vm_compute|].
    rewrite (frac_mul_zero_l _ _ _ _ (frac_u64 p ltac:(lia))). apply f64_trunc_zero. }
  pose proof (tick_frac last now ltac:(lia)) as Hk.
  destruct (decide (p = 0)) as [->|].
  { exists 0. rewrite Z.mul_0_r. split; [|apply Z0]. rewrite fl_0, (frac_mul_zero _ _ _ _ Hk). apply f64_trunc_zero. }
  pose proof (frac_mul _ _ _ _ _ _ _ _ Hk (frac_u64 p ltac:(lia)) ltac:(lia) ltac:(nia) ltac:(lia)) as Hm.
  destruct (frac_floor _ _ _ _ Hm ltac:(lia)) as (z & Hz & _ & H1 & H2 & H3).
  exists z. split; [done|]. unfold floor_upto. lia.
Qed.

(** The owner's 90 percent of a profit [d]. *)
Lemma owner_part_spec d : 0 <= d < 2^62 ->
  exists z, f64_trunc_i64s (profit_percent * fl d)%f64 = Ok z /\ floor_upto 5 (9 * d) 10 z /\ z <= d.
Proof.
  intros Hd. assert (Hp : near_frac profit_percent 9 10 2).
  { apply (frac_div _ _ 9 10 1 1 0 0 (frac_exact 9 ltac:(lia)) (frac_exact 10 ltac:(lia))); lia. }
  destruct (decide (d = 0)) as [->|].
  { exists 0. rewrite fl_0, (frac_mul_zero _ _ _ _ Hp). split; [apply f64_trunc_zero|]. unfold floor_upto. lia. }
  pose proof (frac_mul _ _ _ _ _ _ _ _ Hp (frac_u64 d ltac:(lia)) ltac:(lia) ltac:(lia) ltac:(lia)) as H.
  destruct (frac_floor _ _ _ _ H ltac:(lia)) as (z & Hz & _ & H1 & H2 & H3).
  exists z. split; [done|]. unfold floor_upto. lia.
Qed.

(** Milliseconds between two times, and those of the profit period: it ends
    with the old model. *)
Definition fee_elapsed (last now : Z) : Z := if now <=? last then 0 else (now - last) / 1000.
Abbreviation profit_elapsed last now := (fee_elapsed last (Z.min now hddm_latest_stop_time)).

Lemma fee_elapsed_range last now : 0 <= last -> now < 2^62 -> 0 <= fee_elapsed last now < 2^53.
Proof.
  intros. unfold fee_elapsed. destruct (Z.leb_spec now last); [lia|].
  split; [apply Z.div_pos; lia|apply Z.div_lt_upper_bound; lia].
Qed.

Lemma accrue_or_keep old p last ct :
  is_i64 old -> 0 <= last -> ct < 2^62 -> 0 <= p < 2^63 -> fee_elapsed last ct * p <= 86400000 * 2^62 ->
  exists a, (if ct <=? last then Ok old else
    delta ← f64_trunc_i64s (tick last ct * fl p)%f64; Ok (i64 (old + delta))) = Ok (i64 (old + a)) /\
    floor_upto 5 (fee_elapsed last ct * p) 86400000 a.
Proof.
  intros Hold Hl Hct Hp Hb. unfold fee_elapsed in *. destruct (Z.leb_spec ct last).
  - exists 0. rewrite Z.add_0_r, i64_id by assumption. split; [reflexivity|]. unfold floor_upto. lia.
  - assert (Hlt : (ct - last) / 1000 < 2^53) by (apply Z.div_lt_upper_bound; lia).
    destruct (accrue_spec last ct p) as (a & Ha & Hf); [lia..|]. exists a. rewrite Ha. split; [reflexivity|exact Hf].
Qed.

Lemma calculate_profit_unfold old p last now :
  calculate_profit_balance old p last now 0 =
    b ← (let ct := Z.min now hddm_latest_stop_time in
         if ct <=? last then Ok old else
         delta ← f64_trunc_i64s (tick last ct * fl p)%f64; Ok (i64 (old + delta)));
    Ok (b, hddm_latest_stop_time).
Proof.
  unfold calculate_profit_balance, get_newmodel_start_time. rewrite Z.eqb_refl. cbv zeta.
  generalize hddm_latest_stop_time. intros stop.
  assert (E : (if stop <? now then stop else now) = Z.min now stop) by (destruct (Z.ltb_spec stop now); lia).
  rewrite E. destruct (Z.min now stop <=? last); [reflexivity|]. by destruct (f64_trunc_i64s _).
Qed.

Lemma calculate_fee_spec old fee last now :
  is_i64 old -> 0 <= last -> now < 2^62 -> 0 <= fee < 2^63 -> fee_elapsed last now * fee <= 86400000 * 2^62 ->
  exists z, calculate_fee_balance old fee last now = Ok (i64 (old - z)) /\
    floor_upto 5 (fee_elapsed last now * fee) 86400000 z.
Proof.
  intros Hold Hl Hn Hp Hb. unfold calculate_fee_balance, fee_elapsed in *. destruct (Z.leb_spec now last).
  { exists 0. rewrite Z.sub_0_r, i64_id by done. split; [done|]. unfold floor_upto. lia. }
  assert (Hlt : (now - last) / 1000 < 2^53) by (apply Z.div_lt_upper_bound; lia).
  destruct (accrue_spec last now fee) as (z & Hz & Hf); [lia..|]. exists z. split; [|done].
  rewrite i64_id by (unfold is_i64; lia). replace (0 - fee) with (- fee) by lia.
  enough (E : f64_trunc_i64s (tick last now * fl (- fee))%f64 = Ok (- z)) by (rewrite E; cbn; do 2 f_equal; lia).
  destruct (decide (fee = 0)) as [->|]; [|destruct (decide ((now - last) / 1000 = 0)) as [E|]].
  - change (- 0) with 0. rewrite Hz. f_equal. unfold floor_upto in Hf. lia.
  - rewrite f64_of_Z_neg, f64_mul_neg by lia. unfold tick in *. rewrite E, fl_0 in *. change fee_cycle with 86400000 in *.
    rewrite (frac_div_zero _ _ _ _ (frac_exact 86400000 ltac:(lia))) in *.
    rewrite (frac_mul_zero_l _ _ _ _ (frac_u64 fee ltac:(lia))) in *.
    assert (z = 0) as -> by (unfold floor_upto in Hf; lia). by vm_compute.
  - rewrite f64_of_Z_neg, f64_mul_neg by lia. assert (0 <= (now - last) / 1000) by (apply Z.div_pos; lia).
    pose proof (frac_mul _ _ _ _ _ _ _ _ (tick_frac last now ltac:(lia)) (frac_u64 fee ltac:(lia))
      ltac:(lia) ltac:(nia) ltac:(lia)) as Hm.
    eapply frac_trunc_neg; [exact Hm|lia|exact Hz].
Qed.

Lemma calculate_profit_spec old p last now :
  is_i64 old -> 0 <= last -> now < 2^62 -> 0 <= p < 2^63 -> profit_elapsed last now * p <= 86400000 * 2^62 ->
  exists a, calculate_profit_balance old p last now 0 = Ok (i64 (old + a), hddm_latest_stop_time) /\
    floor_upto 5 (profit_elapsed last now * p) 86400000 a.
Proof.
  intros Hold Hl Hn Hp Hb. rewrite calculate_profit_unfold.
  destruct (accrue_or_keep old p last (Z.min now hddm_latest_stop_time)) as (a & Ha & Hf); [done|done|lia|done..|].
  exists a. cbv zeta. rewrite Ha. split; [reflexivity|exact Hf].
Qed.

(** ** Rows *)

Lemma hdd_range_iff z : is_hdd_amount_within_range z = true <-> - max_hdd_amount <= z <= max_hdd_amount.
Proof. unfold is_hdd_amount_within_range. rewrite andb_true_iff, !Z.leb_le. lia. Qed.

(** A row whose rates and times are sensible and whose accrual is representable. *)
Record user_ok (now : Z) (r : userhdd) : Prop := {
  uo_store : - max_hdd_amount <= hdd_storehhdd r <= max_hdd_amount;
  uo_miner : - max_hdd_amount <= hdd_minerhdd r <= max_hdd_amount;
  uo_fee : 0 <= hdd_per_cycle_fee r < 2^63;
  uo_profit : 0 <= u_per_cycle_profit r < 2^63;
  uo_times : 0 <= last_hddstore_time r /\ 0 <= last_hddprofit_time r;
  uo_fee_accrual : fee_elapsed (last_hddstore_time r) now * hdd_per_cycle_fee r <= 86400000 * 2^61;
  uo_profit_accrual :
    profit_elapsed (last_hddprofit_time r) now * u_per_cycle_profit r <= 86400000 * 2^61
}.

Lemma floor_upto_bound a z : floor_upto 5 a 86400000 z -> a <= 86400000 * 2^61 -> 0 <= z < 2^62.
Proof. unfold floor_upto. lia. Qed.

Lemma settle_profit_Ok now r eco r' :
  user_ok now r -> now < 2^62 -> settle_profit now 0 r = Ok (eco, r') ->
  exists a part,
    floor_upto 5 (profit_elapsed (last_hddprofit_time r) now * u_per_cycle_profit r) 86400000 a /\
    floor_upto 5 (9 * a) 10 part /\ part <= a /\ eco = a - part /\
    hdd_minerhdd r + a <= max_hdd_amount /\
    r' = r <| hdd_minerhdd := hdd_minerhdd r + part |> <| last_hddprofit_time := now |>.
Proof.
  intros Hr Hn H. destruct Hr as [_ Hm _ Hp [_ Ht] _ Ha]. unfold settle_profit in H. unfold max_hdd_amount in *.
  destruct (calculate_profit_spec (hdd_minerhdd r) (u_per_cycle_profit r) (last_hddprofit_time r) now)
    as (a & E & Hf); [unfold is_i64; lia|done|done|done|lia|]. rewrite E in H. cbn [mbind res_bind] in H.
  pose proof (floor_upto_bound _ _ Hf Ha). rewrite (i64_id (_ + a)) in H by (unfold is_i64; lia).
  apply res_bind_ok in H as (_ & Hg%guard_Ok & H). apply hdd_range_iff in Hg. unfold max_hdd_amount in Hg.
  unfold owner_share in H. replace (hdd_minerhdd r + a - hdd_minerhdd r) with a in H by lia.
  rewrite (i64_id a) in H by (unfold is_i64; lia).
  destruct (owner_part_spec a ltac:(lia)) as (part & E' & Hf' & Hle). rewrite E' in H. cbn in H. clear E E'.
  pose proof (proj1 Hf'). rewrite (i64_id (part + _)) in H by (unfold is_i64; lia).
  rewrite i64_id in H by (unfold is_i64; lia).
  exists a, part. injection H as <- <-. repeat split; try apply Hf; try apply Hf'; try lia.
  unfold setf; cbn. f_equal; lia.
Qed.

(** settling the fees of a storage user.  The amount deducted is the fee per
    day times the elapsed milliseconds over 86400000, computed in double
    precision with a relative error below 5 parts in 2^52 and rounded down; the
    row is rejected exactly when the balance leaves the range of 62 bits. *)
Theorem fee_settlement now r :
  user_ok now r -> now < 2^62 ->
  exists z, floor_upto 5 (fee_elapsed (last_hddstore_time r) now * hdd_per_cycle_fee r) 86400000 z /\
    settle_fee now r =
      if - max_hdd_amount <=? hdd_storehhdd r - z
      then Ok (r <| hdd_storehhdd := hdd_storehhdd r - z |> <| last_hddstore_time := now |>)
      else Err (AssertFail store_range_msg).
Proof.
  intros [Hs _ Hfee _ [Ht _] Hacc _] Hn. unfold settle_fee, max_hdd_amount in *.
  destruct (calculate_fee_spec (hdd_storehhdd r) (hdd_per_cycle_fee r) (last_hddstore_time r) now)
    as (z & E & Hf); [unfold is_i64; lia|done|done|done|lia|].
  pose proof (floor_upto_bound _ _ Hf Hacc). exists z. split; [done|]. rewrite E. clear E. cbn [mbind res_bind].
  rewrite i64_id by (unfold is_i64; lia). unfold is_hdd_amount_within_range, max_hdd_amount.
  assert ((hdd_storehhdd r - z <=? 2^62 - 1) = true) as -> by lia. rewrite andb_true_r.
  by destruct (- (2 ^ 62 - 1) <=? hdd_storehhdd r - z).
Qed.

Definition user_demo : userhdd :=
  mkUserhdd (N "alice") 500000000 273972 65536 1600000000000000 700 273972 65536 1600000000000000.

Lemma user_demo_ok : user_ok (1600000000000000 + 86400000000) user_demo.
Proof. split; vm_compute; repeat split; discriminate. Qed.

Lemma fee_settlement_witness : exists z, floor_upto 5 (86400000 * 273972) 86400000 z /\
  settle_fee (1600000000000000 + 86400000000) user_demo =
    if - max_hdd_amount <=? 500000000 - z
    then Ok (user_demo <| hdd_storehhdd := 500000000 - z |> <| last_hddstore_time := 1600000000000000 + 86400000000 |>)
    else Err (AssertFail store_range_msg).
Proof.
  destruct (fee_settlement (1600000000000000 + 86400000000) user_demo) as (z & H1 & H2);
    [apply user_demo_ok|reflexivity|].
  exists z. split; [exact H1|exact H2].
Defined.

(** ** Conservation *)

Definition minerhdd (s : hddpool) (u : name) : Z := default 0 (hdd_minerhdd <$> userhdds s !! u).
Definition storehdd (s : hddpool) (u : name) : Z := default 0 (hdd_storehhdd <$> userhdds s !! u).
Definition total_minerhdd (s : hddpool) : Z := map_sum (fun _ => hdd_minerhdd) (userhdds s).
Definition total_storehdd (s : hddpool) : Z := map_sum (fun _ => hdd_storehhdd) (userhdds s).

Lemma credit_eco_Ok eco c s o u s' o' :
  (forall v r, userhdds s !! v = Some r -> - max_hdd_amount <= hdd_minerhdd r <= max_hdd_amount) ->
  0 <= eco < 2^62 -> credit_eco eco c s o = Ok (u, s', o') ->
  o' = o /\ minerhdd s' ecologyfound_acc = minerhdd s ecologyfound_acc + eco /\
  total_minerhdd s' = total_minerhdd s + eco /\
  (forall v, v <> ecologyfound_acc -> userhdds s' !! v = userhdds s !! v) /\
  s' = s <| userhdds := userhdds s' |>.
Proof.
  intros Hr He H. unfold credit_eco in H. minv; zb.
  - simplify_eq. match goal with H : userhdds s !! _ = Some ?r |- _ => pose proof (Hr _ _ H); rename H into E1 end.
    unfold max_hdd_amount in *. i64s. unfold minerhdd, total_minerhdd; cbn.
    rewrite lookup_insert_eq, E1, (map_sum_insert _ _ _ _ _ E1). cbn. split; [done|]. split; [lia|]. split; [lia|].
    split; [|done]. intros v Hv. by rewrite lookup_insert_ne.
  - split; [done|]. split; [lia|]. split; [lia|]. split; [done|]. by destruct s.
Qed.

(** settling the profit of an owner.  A successful [calcprofit] of an owner
    other than ecologyfound accrues the profit per day times the milliseconds
    elapsed (up to the end of the old model) over 86400000; the owner gets 90
    percent of it, ecologyfound the rest, nobody else's row changes, and the
    total of all mining balances grows by exactly what accrued. *)
Theorem calcprofit_conserves user c s o u s' o' r :
  (forall v r, userhdds s !! v = Some r -> user_ok (current_time c) r) -> current_time c < 2^62 ->
  user <> ecologyfound_acc -> userhdds s !! user = Some r ->
  calcprofit user c s o = Ok (u, s', o') ->
  exists accrued part,
    floor_upto 5 (profit_elapsed (last_hddprofit_time r) (current_time c) * u_per_cycle_profit r) 86400000 accrued /\
    floor_upto 5 (9 * accrued) 10 part /\ part <= accrued /\
    minerhdd s' user = minerhdd s user + part /\
    minerhdd s' ecologyfound_acc = minerhdd s ecologyfound_acc + (accrued - part) /\
    total_minerhdd s' = total_minerhdd s + accrued /\
    (forall v, v <> user -> v <> ecologyfound_acc -> userhdds s' !! v = userhdds s !! v).
Proof.
  intros Hok Hn Hne Hr H. unfold calcprofit in H.
  apply Z.eqb_neq in Hne as Hne'. rewrite Hne' in H. minv. simplify_eq.
  match goal with H : settle_profit _ _ _ = Ok _ |- _ => apply settle_profit_Ok in H as
    (acc & part & F1 & F2 & F3 & -> & F4 & ->); [|by eapply Hok|done] end.
  pose proof (floor_upto_bound _ _ F1 (uo_profit_accrual _ _ (Hok _ _ Hr))).
  pose proof (uo_miner _ _ (Hok _ _ Hr)) as Hm. pose proof (proj1 F2).
  match goal with H : credit_eco _ _ _ _ = _ |- _ => apply credit_eco_Ok in H as (-> & E1 & E2 & E3 & _) end; [|cbn|lia].
  - exists acc, part. split; [done|]. split; [done|]. split; [done|].
    unfold minerhdd, total_minerhdd in *. cbn in E1, E2, E3. rewrite (E3 user) by done.
    rewrite E1, E2, Hr, lookup_insert_eq, lookup_insert_ne, (map_sum_insert _ _ _ _ _ Hr) by done.
    cbn. split; [lia|]. split; [lia|]. split; [lia|].
    intros v Hv Hve. rewrite E3 by done. by rewrite lookup_insert_ne.
  - intros v r'. rewrite lookup_insert. case_decide; [intros [= <-]; cbn; lia|intros Hv; apply (Hok _ _ Hv)].
Qed.

(** An owner and ecologyfound, one day after the last settlement. *)
Definition balance_demo : hddpool := hddpool_init
  <| userhdds := {[ N "alice" := user_demo;
                    ecologyfound_acc := mkUserhdd ecologyfound_acc 0 0 0 1600000000000000 0 0 0 1600000000000000 ]} |>.
Definition balance_ctx : ctx := ctx_of (N "hddpool12345") [N "alice"] (1600000000000000 + 86400000000).

Lemma balance_demo_ok v r : userhdds balance_demo !! v = Some r -> user_ok (current_time balance_ctx) r.
Proof.
  cbn. rewrite lookup_insert, lookup_singleton. repeat case_decide; intros [= <-]; [apply user_demo_ok|].
  split; vm_compute; repeat split; discriminate.
Qed.

Lemma calcprofit_conserves_witness :
  match calcprofit (N "alice") balance_ctx balance_demo no_out with
  | Ok (_, s', _) => exists accrued part, floor_upto 5 (86400000 * 273972) 86400000 accrued /\
      minerhdd s' (N "alice") = 700 + part /\ minerhdd s' ecologyfound_acc = 0 + (accrued - part)
  | Err _ => False
  end.
Proof.
  assert (Hne : N "alice" <> ecologyfound_acc) by (vm_compute; discriminate).
  pose proof (calcprofit_conserves (N "alice") balance_ctx balance_demo no_out) as Hc.
  destruct (calcprofit (N "alice") balance_ctx balance_demo no_out) as [[[u s'] o']|] eqn:E; [|vm_compute in E; discriminate].
  destruct (Hc u s' o' user_demo balance_demo_ok eq_refl Hne eq_refl eq_refl) as (a & p & H1 & _ & _ & H2 & H3 & _).
  exists a, p. split; [exact H1|]. split; [exact H2|exact H3].
Defined.

(** The effect of [store_add] and [store_credit] on the storage balances. *)
Lemma store_credit_Ok receiver q c s o u s' o' :
  (forall v r, userhdds s !! v = Some r -> - max_hdd_amount <= hdd_storehhdd r <= max_hdd_amount) ->
  0 <= q <= max_hdd_amount -> store_credit receiver q c s o = Ok (u, s', o') ->
  o' = o /\ storehdd s' receiver = storehdd s receiver + q /\ total_storehdd s' = total_storehdd s + q /\
  (forall v, v <> receiver -> userhdds s' !! v = userhdds s !! v) /\ gparams s' = gparams s.
Proof.
  intros Hr Hq H. unfold store_credit, new_user_hdd, store_add in H. minv; zb; unfold storehdd, total_storehdd; cbn.
  - simplify_eq. match goal with H : userhdds s !! _ = Some ?r |- _ => pose proof (Hr _ _ H); rename H into E1 end.
    unfold max_hdd_amount in *. i64s. rewrite lookup_insert_eq, E1, (map_sum_insert _ _ _ _ _ E1). cbn.
    split; [done|]. split; [lia|]. split; [lia|]. split; [|done]. intros v Hv. by rewrite lookup_insert_ne.
  - rewrite lookup_insert_eq, E, map_sum_insert_new by done. cbn.
    split; [done|]. split; [lia|]. split; [lia|]. split; [|done]. intros v Hv. by rewrite lookup_insert_ne.
Qed.

(** transferring storage HDD.  A successful [transhdds] was authorized by the
    sender, who had the amount; it moves the amount from the sender to the
    receiver, whose row it opens when there is none, leaves every other row
    alone and keeps the total of all storage balances. *)
Theorem transhdds_conserves from to q memo c s o u s' o' :
  (forall v r, userhdds s !! v = Some r -> - max_hdd_amount <= hdd_storehhdd r <= max_hdd_amount) ->
  transhdds from to q memo c s o = Ok (u, s', o') ->
  has_auth c from = true /\ 0 < q <= storehdd s from /\
  total_storehdd s' = total_storehdd s /\
  (forall v, storehdd s' v =
     storehdd s v - (if decide (v = from) then q else 0) + (if decide (v = to) then q else 0)) /\
  (forall v, v <> from -> v <> to -> userhdds s' !! v = userhdds s !! v).
Proof.
  intros Hr H. unfold transhdds, store_add in H. minv; zb. simplify_eq.
  repeat match goal with H : is_hdd_amount_within_range _ = true |- _ => apply hdd_range_iff in H end.
  match goal with H : userhdds s !! from = Some ?r |- _ => pose proof (Hr _ _ H); rename H into E1; rename r into r0 end.
  unfold max_hdd_amount in *. i64s.
  match goal with H : store_credit _ _ _ _ _ = _ |- _ => apply store_credit_Ok in H as (_ & F1 & F2 & F3 & _) end;
    [|cbn|unfold max_hdd_amount; lia].
  - unfold storehdd, total_storehdd in *. cbn in F1, F2, F3. rewrite E1. cbn. split; [done|]. split; [lia|].
    split; [rewrite F2, (map_sum_insert _ _ _ _ _ E1); cbn; lia|]. split.
    + intros v. destruct (decide (v = to)) as [->|Hto].
      * rewrite F1, lookup_insert. repeat case_decide; subst; rewrite ?E1; cbn; try done; lia.
      * rewrite F3, lookup_insert by done. repeat case_decide; subst; rewrite ?E1; cbn; try done; lia.
    + intros v Hv1 Hv2. rewrite F3 by done. by rewrite lookup_insert_ne.
  - intros v r1. unfold max_hdd_amount. rewrite lookup_insert.
    case_decide; [intros [= <-]; cbn; lia|intros Hv; apply (Hr _ _ Hv)].
Qed.

Lemma transhdds_conserves_witness :
  let c := ctx_of (N "hddpool12345") [N "alice"] 0 in
  match transhdds (N "alice") (N "bob") 1000 "rent" c balance_demo no_out with
  | Ok (_, s', _) => total_storehdd s' = total_storehdd balance_demo /\ storehdd s' (N "alice") = 499999000 /\
      storehdd s' (N "bob") = 1000
  | Err _ => False
  end.
Proof.
  intros c. pose proof (transhdds_conserves (N "alice") (N "bob") 1000 "rent" c balance_demo no_out) as Hc.
  destruct (transhdds _ _ _ _ c balance_demo no_out) as [[[u s'] o']|] eqn:E; [|vm_compute in E; discriminate].
  destruct (Hc u s' o') as (_ & _ & H1 & H2 & _);
    [intros v r Hv; apply (uo_store _ _ (balance_demo_ok _ _ Hv))|reflexivity|].
  split; [exact H1|]. rewrite !H2. split; vm_compute; reflexivity.
Defined.

(** ** Buying HDD *)

Lemma hdd_cost_spec q g :
  0 < q < 2^53 -> 0 < hdd_price g < 2^53 -> 0 < yta_price g < 2^53 ->
  q * hdd_price g <= 10000 * yta_price g * 2^60 ->
  exists z, f64_trunc_i64s (hdd_cost q g) = Ok z /\ floor_upto 6 (q * hdd_price g) (10000 * yta_price g) z.
Proof.
  intros Hq Hh Hy Hb. unfold hdd_cost. destruct (yta_price g) as [|y|y]; [lia| |lia].
  pose proof (frac_div _ _ _ _ _ _ _ _ (frac_exact q Hq) (frac_exact 10000 ltac:(lia)) ltac:(lia) ltac:(lia) ltac:(lia)) as H1.
  pose proof (frac_div _ _ _ _ _ _ _ _ (frac_exact _ Hh) (frac_exact _ Hy) ltac:(lia) ltac:(lia) ltac:(lia)) as H2.
  pose proof (frac_mul _ _ _ _ _ _ _ _ H1 H2 ltac:(lia) ltac:(nia) ltac:(lia)) as H3.
  apply (frac_norm (q * hdd_price g) (10000 * y)) in H3; [|lia].
  destruct (frac_floor _ _ _ _ H3 ltac:(lia)) as (z & Hz & _ & G1 & G2 & G3).
  exists z. split; [done|]. unfold floor_upto. lia.
Qed.

(** buying storage HDD.  A successful [buyhdd] takes the amount off the
    counter of HDD for sale, credits it to the receiver, and queues exactly one
    action: the buyer's payment to hddpoolexchg of amount * hdd_price over
    10000 * yta_price tokens, in double precision with a relative error below 6
    parts in 2^52, rounded down, plus one unit when the amount is not a multiple
    of 10000. *)
Theorem buyhdd_effect from receiver q memo c s o u s' o' :
  let g := default gparams0 (gparams s) in
  (forall v r, userhdds s !! v = Some r -> - max_hdd_amount <= hdd_storehhdd r <= max_hdd_amount) ->
  0 < hdd_price g < 2^53 -> 0 < yta_price g < 2^53 -> q * hdd_price g <= 10000 * yta_price g * 2^60 ->
  hdd_counter g < 2^63 ->
  buyhdd from receiver q memo c s o = Ok (u, s', o') ->
  has_auth c from = true /\ 0 < q <= hdd_counter g /\
  gparams s' = Some (g <| hdd_counter := hdd_counter g - q |>) /\
  storehdd s' receiver = storehdd s receiver + q /\ total_storehdd s' = total_storehdd s + q /\
  exists z, floor_upto 6 (q * hdd_price g) (10000 * yta_price g) z /\
    o' = o <| inlines := inlines o ++ [mk_action from (N "active") token_account (N "transfer")
           [VInt from; VInt hdd_exchg_acc; VAsset (core (z + if q mod 10000 =? 0 then 0 else 1)); VStr memo]] |>.
Proof.
  intros g Hr Hh Hy Hb Hcnt H. unfold buyhdd, get_gparams in H. minv; zb. subst g.
  set (g := default gparams0 (gparams s)) in *. clearbody g.
  repeat match goal with H : is_hdd_amount_within_range _ = true |- _ => apply hdd_range_iff in H end.
  assert (min_buy_hdd_amount = 200000000 /\ max_buy_sell_hdd_amount = 209715200000000) as [E1 E2] by (by split).
  rewrite E1, E2 in *. clear E1 E2.
  destruct (hdd_cost_spec q g) as (z & Hz & Hf); [lia|done..|].
  match goal with H : f64_trunc_i64s _ = Ok _ |- _ => rewrite Hz in H; injection H as <- end. clear Hz.
  assert (0 <= z < 2^62) by (unfold floor_upto in Hf; nia).
  rewrite (i64_id (hdd_counter g - q)) in * by (unfold is_i64; lia).
  assert (Hd : (if 0 <? Z.rem q 10000 then 1 else 0) = if q mod 10000 =? 0 then 0 else 1).
  { rewrite Z.rem_mod_nonneg by lia. pose proof (Z.mod_pos_bound q 10000). destruct (Z.ltb_spec 0 (q mod 10000)), (Z.eqb_spec (q mod 10000) 0); lia. }
  rewrite Hd in *. set (d := if q mod 10000 =? 0 then 0 else 1) in *.
  assert (0 <= d <= 1) by (subst d; destruct (q mod 10000 =? 0); lia). clearbody d.
  rewrite i64_id in * by (unfold is_i64; lia).
  match goal with H : asset_make _ _ = Ok _ |- _ => apply asset_make_Ok in H as (-> & _) end.
  match goal with H : store_credit _ _ _ _ _ = _ |- _ => apply store_credit_Ok in H as (-> & F1 & F2 & _ & F3) end;
    [|exact Hr|unfold max_hdd_amount; lia].
  split; [done|]. split; [lia|]. split; [done|]. split; [done|]. split; [done|]. exists z. by split.
Qed.

Lemma buyhdd_effect_witness :
  let c := ctx_of (N "hddpool12345") [N "alice"] 0 in
  match buyhdd (N "alice") (N "alice") 200000001 "buy" c balance_demo no_out with
  | Ok (_, s', o') => storehdd s' (N "alice") = 700000001 /\
      exists z, floor_upto 6 (200000001 * 5760) (10000 * 8000) z /\
        o' = no_out <| inlines := [mk_action (N "alice") (N "active") token_account (N "transfer")
           [VInt (N "alice"); VInt hdd_exchg_acc; VAsset (core (z + 1)); VStr "buy"]] |>
  | Err _ => False
  end.
Proof.
  intros c. pose proof (buyhdd_effect (N "alice") (N "alice") 200000001 "buy" c balance_demo no_out) as Hc.
  destruct (buyhdd _ _ _ _ c balance_demo no_out) as [[[u s'] o']|] eqn:E; [|vm_compute in E; discriminate].
  clear E. destruct (Hc u s' o') as (_ & _ & _ & H1 & _ & H2);
    [intros v r Hv; apply (uo_store _ _ (balance_demo_ok _ _ Hv))|by vm_compute|by vm_compute|by vm_compute|by vm_compute|reflexivity|].
  split; [|exact H2]. rewrite H1. vm_compute. reflexivity.
Defined.
