(* ===== verification/PoolMiner.v ===== *)
(** * hddpool: miners and storage pools

    contracts/hddpool/hddpool.cpp, the part on the tables [minerinfo],
    [maccount], [storepool] and [miner].  A miner belongs to a storage pool,
    whose quota it uses up, and to an owner, under whose account its production
    space is booked; the table [miner] of the new reward model is kept in sync
    with [minerinfo] by every action. *)

From S2P Require Import Prelude Float64 Names Asset Chain Views PoolTables PoolBalance.
#[local] Open Scope Z_scope.

Definition assert_account (a : name) (msg : string) : M hddpool unit :=
  ok ← ask (fun c => is_account c a); eosio_assert ok msg.

(** The block between "sync start" and "sync end": update the row in [miner]
    if there is one. *)
Definition sync_miner (minerid : Z) (f : miner -> miner) : M hddpool unit :=
  it ← find miners minerid;
  match it with Some _ => modify miners minerid (fun row => Ok (f row)) | None => mret tt end.

(** Settling the balance of a miner account: the deadline of the profit and the
    row. *)
Definition settle_macc (now : Z) (row : maccount) : res (Z * maccount) :=
  nb ← calculate_profit_balance (hdd_balance row) (ma_per_cycle_profit row) (last_hdd_time row) now 0;
  let '(new_balance, deadline) := nb in
  _ ← guard_ (is_hdd_amount_within_range new_balance) "magnitude of miner hddbalance must be less than 2^62";
  b ← owner_share new_balance (hdd_balance row);
  Ok (deadline, row <| hdd_balance := b |> <| last_hdd_time := now |>).

Definition no_minerinfo_msg : string := "minerid not exist in minerinfo".

(** ** Production space *)

Section handlers.
Context {SV : SystemView} {DV : DepositView}.

Definition addmprofit (owner : name) (minerid space : Z) (caller : name) : M hddpool unit :=
  _ ← assert_account caller "caller not an account.";
  _ ← check_bp_account caller;
  _ ← eosio_assert (slice_aligned space) "invalid space";
  mi ← get minerinfos minerid no_minerinfo_msg;
  it ← get maccounts (mi_owner mi, minerid) "minerid not register";
  _ ← when (0 <? ma_space it) (eosio_assert (0 <? ma_per_cycle_profit it) "miner is deactive");
  _ ← eosio_assert (0 <? mi_max_space mi) "invalid max space";
  _ ← eosio_assert (space <=? mi_space_left mi) "exceed max space";
  _ ← modify minerinfos minerid (fun row => Ok (row <| mi_space_left := u64 (mi_space_left row - space) |>));
  now ← ask current_time;
  deadline ← modify_ret maccounts (mi_owner mi, minerid) (fun row =>
    dr ← settle_macc now row;
    let '(deadline, row) := dr in
    let newspace := u64 (ma_space row + space) in
    profit ← cycle_profit newspace;
    Ok (deadline, row <| ma_space := newspace |> <| ma_per_cycle_profit := profit |>));
  _ ← chg_owner_space (mi_owner mi) space true true now deadline;
  sync_miner minerid (fun row =>
    row <| m_space := u64 (m_space row + space) |> <| status := if status row =? 2 then 0 else status row |>).

Definition submprofit (owner : name) (minerid space : Z) (caller : name) : M hddpool unit :=
  _ ← assert_account caller "caller not an account.";
  _ ← check_bp_account caller;
  _ ← eosio_assert (slice_aligned space) "invalid space";
  mi ← get minerinfos minerid no_minerinfo_msg;
  it ← get maccounts (mi_owner mi, minerid) "minerid not register";
  let mactive := negb ((0 <? ma_space it) && (ma_per_cycle_profit it =? 0)) in
  _ ← eosio_assert (u64 (mi_space_left mi + space) <=? mi_max_space mi) "exceed max space";
  _ ← modify minerinfos minerid (fun row => Ok (row <| mi_space_left := u64 (mi_space_left row + space) |>));
  now ← ask current_time;
  deadline ← modify_ret maccounts (mi_owner mi, minerid) (fun row =>
    dr ← settle_macc now row;
    let '(deadline, row) := dr in
    _ ← guard_ (space <=? ma_space row) "invalid new production space";
    let newspace := u64 (ma_space row - space) in
    profit ← (if mactive then cycle_profit newspace else Ok (ma_per_cycle_profit row));
    Ok (deadline, row <| ma_space := newspace |> <| ma_per_cycle_profit := profit |>));
  _ ← when mactive (chg_owner_space (mi_owner mi) space false mactive now deadline);
  sync_miner minerid (fun row => row <| m_space := u64 (m_space row - space) |>).

(** Switched off. *)
Definition calcmbalance (owner : name) (minerid : Z) : M hddpool unit :=
  eosio_assert false "not support now!".

Definition mdeactive (owner : name) (minerid : Z) (caller : name) : M hddpool unit :=
  _ ← assert_account caller "caller not an account.";
  _ ← check_bp_account caller;
  mi ← get minerinfos minerid no_minerinfo_msg;
  it ← get maccounts (mi_owner mi, minerid) "minerid not register";
  let space := ma_space it in
  _ ← when (0 <? space) (eosio_assert (0 <? ma_per_cycle_profit it) "miner has no cycle profit");
  now ← ask current_time;
  deadline ← modify_ret maccounts (mi_owner mi, minerid) (fun row =>
    dr ← settle_macc now row;
    let '(deadline, row) := dr in
    Ok (deadline, row <| ma_per_cycle_profit := 0 |>));
  _ ← chg_owner_space (mi_owner mi) space false true now deadline;
  sync_miner minerid (fun row => row <| status := 1 |>).

Definition mactive (owner : name) (minerid : Z) (caller : name) : M hddpool unit :=
  _ ← assert_account caller "caller not an account.";
  _ ← check_bp_account caller;
  mi ← get minerinfos minerid no_minerinfo_msg;
  it ← get maccounts (mi_owner mi, minerid) "minerid not register";
  profit ← lift (cycle_profit (ma_space it));
  now ← ask current_time;
  let space := ma_space it in
  _ ← eosio_assert (ma_per_cycle_profit it =? 0) "miner already has cycle profit";
  _ ← modify maccounts (mi_owner mi, minerid) (fun row =>
        Ok (row <| ma_per_cycle_profit := profit |> <| last_hdd_time := now |>));
  _ ← chg_owner_space (mi_owner mi) space true true now 0;
  sync_miner minerid (fun row => row <| status := 0 |>).

(** ** Removing a miner *)

Definition delminer (minerid acc_type : Z) (caller : name) : M hddpool unit :=
  mi ← get minerinfos minerid "minerid not exist in minerinfo table";
  _ ← (if acc_type =? 1 then
         _ ← assert_account caller "caller not a account.";
         _ ← check_bp_account caller;
         eosio_assert false "not support"
       else if acc_type =? 2 then
         _ ← require_auth (mi_admin mi);
         eosio_assert false "not support"
       else require_auth (N "hddpooladml2"));
  _ ← send (mk_action (N "hddpooladmin") (N "active") hdd_deposit (N "delminer") [VInt minerid]);
  _ ← when (negb (mi_owner mi =? 0))
        (itm ← find maccounts (mi_owner mi, minerid);
         match itm with
         | None => mret tt
         | Some ma =>
             now ← ask current_time;
             _ ← when (0 <? ma_per_cycle_profit ma)
                   (chg_owner_space (mi_owner mi) (ma_space ma) false false now 0);
             erase maccounts (mi_owner mi, minerid)
         end);
  _ ← when (negb (mi_pool_id mi =? 0))
        (itp ← find storepools (mi_pool_id mi);
         match itp with
         | None => mret tt
         | Some _ => modify storepools (mi_pool_id mi) (fun row =>
             Ok (row <| sp_space_left := u64 (sp_space_left row + mi_max_space mi) |>))
         end);
  _ ← erase minerinfos minerid;
  _ ← chg_total_space (mi_max_space mi) false;
  itm ← find miners minerid;
  match itm with
  | None => mret tt
  | Some m =>
      _ ← when (negb (internal_id m =? 0)) (del_miner2 (internal_id m));
      erase miners minerid
  end.

(** ** Storage pools *)

Definition delstrpool (poolid : name) : M hddpool unit :=
  _ ← require_auth (N "hddpooladmin");
  it ← find storepools poolid;
  match it with
  | None => mret tt
  | Some p =>
      _ ← eosio_assert (u64 (sp_max_space p - sp_space_left p) =? 0) "can not delete this storepool.";
      erase storepools poolid
  end.

Definition regstrpool (pool_id pool_owner : name) : M hddpool unit :=
  _ ← require_auth pool_owner;
  it ← find storepools pool_id;
  _ ← eosio_assert (match it with None => true | Some _ => false end) "storepool already registered";
  _ ← emplace storepools pool_id (mkStorepool pool_id pool_owner max_pool_space max_pool_space);
  quant ← lift (asset_make 100000 CORE_SYMBOL);
  send (mk_action pool_owner (N "active") token_account (N "transfer")
    [VInt pool_owner; VInt hdd_exchg_acc; VAsset quant; VStr "pay for creation storepool"]).

Definition chgpoolspace (pool_id : name) (is_increase : bool) (delta_space : Z) : M hddpool unit :=
  _ ← require_auth (N "hddpooladml2");
  it ← get storepools pool_id "storepool not exist";
  let max_space :=
    if is_increase then u64 (sp_max_space it + delta_space)
    else if delta_space <? sp_max_space it then sp_max_space it - delta_space else 0 in
  _ ← eosio_assert (max_space <=? max_pool_space) "execeed max pool space";
  modify storepools pool_id (fun row =>
    let space_used := u64 (sp_max_space row - sp_space_left row) in
    _ ← guard_ (space_used <=? max_space) "invalid max_space";
    Ok (row <| sp_max_space := max_space |> <| sp_space_left := u64 (max_space - space_used) |>)).

(** ** Registering a miner *)

(** [_maccount.begin() == _maccount.end()] *)
Definition no_maccounts (owner : name) (s : hddpool) : bool :=
  match scope_rows owner (maccounts s) with [] => true | _ => false end.

(** The miner's account under its owner, and the owner's row. *)
Definition bind_owner (minerid : Z) (minerowner : name) : M hddpool unit :=
  first ← gets (no_maccounts minerowner);
  n ← gets gstatem;
  _ ← when first (assign gstatem (u64 (n + 1)));
  itm ← find maccounts (minerowner, minerid);
  _ ← eosio_assert (match itm with None => true | Some _ => false end) "miner already bind to a owner";
  now ← ask current_time;
  _ ← emplace maccounts (minerowner, minerid) (mkMaccount minerid minerowner 0 0 0 now);
  itu ← find userhdds minerowner;
  match itu with None => new_user_hdd minerowner 0 | Some _ => mret tt end.

(** Switched off. *)
Definition newminer (minerid : Z) (adminacc dep_acc : name) (dep_amount : asset) : M hddpool unit :=
  _ ← eosio_assert false "not support now.";
  _ ← require_auth dep_acc;
  _ ← assert_account adminacc "adminacc invalidate";
  _ ← assert_account dep_acc "dep_acc invalidate";
  _ ← eosio_assert (0 <? amount dep_amount) "must use positive dep_amount";
  _ ← eosio_assert (0 <? minerid) "minerid must greater than zero";
  it ← find minerinfos minerid;
  _ ← eosio_assert (match it with None => true | Some _ => false end) ("miner already registered " +:+ nl)%string;
  _ ← emplace minerinfos minerid (mkMinerinfo minerid 0 adminacc 0 0 0);
  itm ← find miners minerid;
  _ ← eosio_assert (match itm with None => true | Some _ => false end) "already sync";
  _ ← emplace miners minerid (mkMiner minerid 0 adminacc 0 0 0 0 0 0 0 0 defaul_miner_level 1);
  send (mk_action (N "hddpooladmin") (N "active") hdd_deposit (N "paydeposit")
    [VInt dep_acc; VInt minerid; VAsset dep_amount]).

(** Switched off. *)
Definition addm2pool (minerid : Z) (pool_id minerowner : name) (max_space : Z) : M hddpool unit :=
  _ ← eosio_assert false "not support now.";
  _ ← assert_account minerowner "minerowner invalidate";
  sp ← get storepools pool_id "storepool not registered";
  _ ← require_auth (pool_owner sp);
  mi ← get minerinfos minerid ("miner not registered " +:+ nl)%string;
  _ ← require_auth (mi_admin mi);
  _ ← eosio_assert (mi_pool_id mi =? 0) ("miner already join to a pool(@@err:alreadyinpool@@)" +:+ nl)%string;
  _ ← eosio_assert (slice_aligned max_space) "invalid max_space";
  _ ← eosio_assert (max_space <=? max_miner_space) ("miner max_space overflow" +:+ nl)%string;
  _ ← eosio_assert (min_miner_space <=? max_space) ("miner max_space underflow" +:+ nl)%string;
  _ ← eosio_assert ((0 <? sp_space_left sp) && (max_space <=? sp_space_left sp)) "pool space not enough";
  enough ← lift (is_deposit_enough (get_miner_deposit minerid) max_space);
  _ ← eosio_assert enough "deposit not enough for miner's max_space -- addm2pool";
  _ ← modify minerinfos minerid (fun row =>
        Ok (row <| mi_pool_id := pool_id |> <| mi_owner := minerowner |> <| mi_max_space := max_space |>
                <| mi_space_left := max_space |>));
  _ ← modify storepools pool_id (fun row => Ok (row <| sp_space_left := u64 (sp_space_left row - max_space) |>));
  _ ← bind_owner minerid minerowner;
  _ ← chg_total_space max_space true;
  itm ← find miners minerid;
  match itm with
  | None => mret tt
  | Some _ =>
      iid ← insert_miner2 minerid;
      now ← ask current_time;
      modify miners minerid (fun row =>
        Ok (row <| m_pool_id := pool_id |> <| m_owner := minerowner |> <| m_max_space := max_space |>
                <| m_space := 0 |> <| status := 2 |> <| internal_id := iid |> <| last_modify_time := now |>))
  end.

Definition regminer (minerid : Z) (adminacc dep_acc pool_id minerowner : name) (max_space : Z)
    (dep_amount : asset) (is_calc : bool) : M hddpool unit :=
  _ ← assert_account adminacc "adminacc invalidate";
  _ ← assert_account dep_acc "dep_acc invalidate";
  _ ← assert_account minerowner "minerowner invalidate";
  _ ← eosio_assert (0 <? minerid) "minerid must greater than zero";
  _ ← require_auth dep_acc;
  sp ← get storepools pool_id "storepool not registered";
  _ ← require_auth (pool_owner sp);
  it ← find minerinfos minerid;
  _ ← eosio_assert (match it with None => true | Some _ => false end) ("miner already registered " +:+ nl)%string;
  _ ← eosio_assert (slice_aligned max_space) "invalid max_space";
  _ ← eosio_assert (max_space <=? max_miner_space) ("miner max_space overflow" +:+ nl)%string;
  _ ← eosio_assert (min_miner_space <=? max_space) ("miner max_space underflow" +:+ nl)%string;
  _ ← eosio_assert ((0 <? sp_space_left sp) && (max_space <=? sp_space_left sp)) "pool space not enough";
  _ ← modify storepools pool_id (fun row => Ok (row <| sp_space_left := u64 (sp_space_left row - max_space) |>));
  _ ← bind_owner minerid minerowner;
  _ ← emplace minerinfos minerid (mkMinerinfo minerid minerowner adminacc pool_id max_space max_space);
  _ ← chg_total_space max_space true;
  itm ← find miners minerid;
  _ ← eosio_assert (match itm with None => true | Some _ => false end) "already sync";
  now ← ask current_time;
  iid ← insert_miner2 minerid;
  _ ← emplace miners minerid
        (mkMiner minerid minerowner adminacc pool_id max_space 0 now iid 0 0 0 defaul_miner_level 2);
  quant ← (if is_calc then lift (calc_deposit max_space)
           else enough ← lift (is_deposit_enough dep_amount max_space);
                _ ← eosio_assert enough "deposit not enough for miner's max_space -- regminer";
                mret dep_amount);
  send (mk_action (N "hddpooladmin") (N "active") hdd_deposit (N "paydeposit")
    [VInt dep_acc; VInt minerid; VAsset quant]).

(** ** Changing a miner *)

Definition not_registered_msg : string := ("miner not registered " +:+ nl)%string.

Definition mchgstrpool (minerid : Z) (new_poolid : name) : M hddpool unit :=
  mi ← get minerinfos minerid not_registered_msg;
  sp ← get storepools new_poolid "storepool not registered";
  _ ← require_auth (mi_admin mi);
  _ ← require_auth (pool_owner sp);
  _ ← get storepools (mi_pool_id mi) "original storepool not registered";
  _ ← modify storepools (mi_pool_id mi) (fun row =>
        let left := u64 (sp_space_left row + mi_max_space mi) in
        Ok (row <| sp_space_left := if sp_max_space row <? left then sp_max_space row else left |>));
  (* the iterator of the new pool sees the update when it is the old one *)
  sp' ← get storepools new_poolid "storepool not registered";
  _ ← eosio_assert (mi_max_space mi <=? sp_space_left sp') "new pool space not enough";
  _ ← modify storepools new_poolid (fun row => Ok (row <| sp_space_left := u64 (sp_space_left row - mi_max_space mi) |>));
  _ ← modify minerinfos minerid (fun row => Ok (row <| mi_pool_id := new_poolid |>));
  sync_miner minerid (fun row => row <| m_pool_id := new_poolid |>).

Definition mincdeposit (minerid space : Z) (dep_amount : asset) (is_calc : bool) : M hddpool unit :=
  m ← get miners minerid "miner not registered!";
  _ ← eosio_assert (slice_aligned space) "invalid max_space!";
  _ ← eosio_assert (u64 (space + m_max_space m) <=? max_miner_space) "miner max_space overflow!";
  _ ← eosio_assert (min_miner_space <=? u64 (space + m_max_space m)) "miner max_space underflow!";
  _ ← require_auth (get_miner_depacc minerid);
  owner ← gets (fun s => get_miner_pool_owner s minerid);
  _ ← require_auth owner;
  _ ← get storepools (m_pool_id m) "storepool not exist";
  _ ← modify storepools (m_pool_id m) (fun row =>
        _ ← guard_ (space <=? sp_space_left row) "exceed storepool's max space";
        Ok (row <| sp_space_left := u64 (sp_space_left row - space) |>));
  _ ← modify miners minerid (fun row =>
        Ok (row <| m_max_space := u64 (m_max_space row + space) |>
                <| real_space := if 0 <? real_space row then u64 (real_space row + space) else real_space row |>));
  _ ← chg_total_space space true;
  forfeit ← lift (get_miner_forfeit minerid);
  more ← lift (calc_deposit space);
  need ← lift (asset_add forfeit more);
  need_amount ← (if negb is_calc then
                   _ ← eosio_assert (amount need <=? amount dep_amount) "deposit not enough";
                   mret dep_amount
                 else mret need);
  _ ← send (mk_action (N "hddpooladmin") (N "active") hdd_deposit (N "incdeposit") [VInt minerid; VAsset need_amount]);
  it ← find minerinfos minerid;
  match it with
  | None => mret tt
  | Some _ => modify minerinfos minerid (fun row =>
      Ok (row <| mi_max_space := u64 (mi_max_space row + space) |>
              <| mi_space_left := u64 (mi_space_left row + space) |>))
  end.

(** Switched off. *)
Definition mchgspace (minerid max_space : Z) : M hddpool unit :=
  _ ← eosio_assert false "not support now.";
  mi ← get minerinfos minerid not_registered_msg;
  _ ← eosio_assert (slice_aligned max_space) "invalid max_space";
  _ ← eosio_assert (max_space <=? max_miner_space) ("miner max_space overflow" +:+ nl)%string;
  _ ← eosio_assert (min_miner_space <=? max_space) ("miner max_space underflow" +:+ nl)%string;
  _ ← require_auth (mi_admin mi);
  owner ← gets (fun s => get_miner_pool_owner s minerid);
  _ ← require_auth owner;
  enough ← lift (is_deposit_enough (get_miner_deposit minerid) max_space);
  _ ← eosio_assert enough "deposit not enough for miner's max_space -- addm2pool";
  ma ← get maccounts (mi_owner mi, minerid) "miner owner invalidate";
  _ ← eosio_assert (ma_space ma <=? max_space) "max_space less then miner profit space";
  _ ← get storepools (mi_pool_id mi) "storepool not exist";
  let is_increase := mi_max_space mi <? max_space in
  let space_delta := if is_increase then max_space - mi_max_space mi else mi_max_space mi - max_space in
  _ ← modify storepools (mi_pool_id mi) (fun row =>
        if is_increase then
          _ ← guard_ (space_delta <=? sp_space_left row) "exceed storepool's max space";
          Ok (row <| sp_space_left := u64 (sp_space_left row - space_delta) |>)
        else Ok (row <| sp_space_left := u64 (sp_space_left row + space_delta) |>));
  _ ← modify minerinfos minerid (fun row =>
        let space_used := u64 (mi_max_space row - mi_space_left row) in
        _ ← guard_ (space_used <=? max_space) "invalid max_space";
        Ok (row <| mi_max_space := max_space |> <| mi_space_left := u64 (max_space - space_used) |>));
  _ ← chg_total_space space_delta is_increase;
  sync_miner minerid (fun row =>
    row <| m_max_space := max_space |>
        <| real_space :=
             if 0 <? real_space row then
               if is_increase then u64 (real_space row + space_delta)
               else if space_delta <? real_space row then real_space row - space_delta else 1
             else real_space row |>).

Definition mchgadminacc (minerid : Z) (new_adminacc : name) : M hddpool unit :=
  mi ← get minerinfos minerid not_registered_msg;
  _ ← require_auth (mi_admin mi);
  _ ← assert_account new_adminacc "new admin is not an account.";
  _ ← modify minerinfos minerid (fun row => Ok (row <| mi_admin := new_adminacc |>));
  sync_miner minerid (fun row => row <| m_admin := new_adminacc |>).

Definition mchgowneracc (minerid : Z) (new_owneracc : name) : M hddpool unit :=
  mi ← get minerinfos minerid not_registered_msg;
  _ ← assert_account new_owneracc "new owner is not an account.";
  _ ← eosio_assert (negb (mi_owner mi =? 0)) "no owner for this miner";
  owner ← gets (fun s => get_miner_pool_owner s minerid);
  _ ← require_auth (mi_admin mi);
  _ ← require_auth owner;
  old ← get maccounts (mi_owner mi, minerid) "minerid not register";
  let isChangeTotal := 0 <? ma_per_cycle_profit old in
  let space := ma_space old in
  now ← ask current_time;
  _ ← when isChangeTotal (chg_owner_space (mi_owner mi) space false true now 0);
  itu ← find userhdds new_owneracc;
  _ ← (match itu with None => new_user_hdd new_owneracc 0 | Some _ => mret tt end);
  _ ← when isChangeTotal (chg_owner_space new_owneracc space true true now 0);
  itn ← find maccounts (new_owneracc, minerid);
  _ ← eosio_assert (match itn with None => true | Some _ => false end) "new owner already own this miner";
  _ ← emplace maccounts (new_owneracc, minerid)
        (mkMaccount minerid new_owneracc (ma_space old) (ma_per_cycle_profit old) (hdd_balance old) (last_hdd_time old));
  _ ← erase maccounts (mi_owner mi, minerid);
  _ ← modify minerinfos minerid (fun row => Ok (row <| mi_owner := new_owneracc |>));
  sync_miner minerid (fun row => row <| m_owner := new_owneracc |>).

(** ** The table of the new model *)

(** Takes over a miner registered before the table [miner] existed. *)
Definition oldsync (minerid : Z) : M hddpool unit :=
  _ ← require_auth (N "hddpooladmin");
  it ← find miners minerid;
  _ ← eosio_assert (match it with None => true | Some _ => false end) "already sync";
  mi ← get minerinfos minerid "miner not registered";
  let space := if mi_space_left mi <=? mi_max_space mi then mi_max_space mi - mi_space_left mi else 0 in
  let row := mkMiner minerid (mi_owner mi) (mi_admin mi) (mi_pool_id mi) (mi_max_space mi) space
               0 0 0 0 0 defaul_miner_level 0 in
  row ← (if 0 <? mi_max_space mi then
           ma ← get maccounts (mi_owner mi, minerid) "maccount not found";
           iid ← insert_miner2 minerid;
           now ← ask current_time;
           mret (row <| status := if (0 <? ma_space ma) && (ma_per_cycle_profit ma =? 0) then 1 else 0 |>
                     <| internal_id := iid |> <| last_modify_time := now |>)
         else mret (row <| status := 1 |>));
  emplace miners minerid row.

Definition mlevel (minerid lvl : Z) (caller : name) : M hddpool unit :=
  _ ← check_bp_account caller;
  m ← get miners minerid "minerid not found";
  _ ← eosio_assert (negb (level m =? lvl)) "same level as before";
  _ ← eosio_assert (lvl <=? 89657) "level invalidate";
  modify miners minerid (fun row => Ok (row <| level := lvl |>)).

Definition mrspace (minerid rspace : Z) (caller : name) : M hddpool unit :=
  _ ← check_bp_account caller;
  m ← get miners minerid "minerid not found";
  _ ← eosio_assert (slice_aligned rspace) "invalid real_space";
  _ ← eosio_assert (0 <? rspace) "invalid read_space";
  _ ← eosio_assert (negb (rspace =? real_space m)) "same real space";
  _ ← eosio_assert (rspace <=? m_max_space m) "real space must less then max_space";
  modify miners minerid (fun row => Ok (row <| real_space := rspace |>)).
End handlers.
