(* ===== verification/PoolParams.v ===== *)
(** * hddpool: prices and the parameters of the reward model

    contracts/hddpool/hddpool.cpp: the price and ratio setters with their
    guards, [calc_deposit_rate], and the reward model ([startnewm],
    [update_newmodel_params]): a day's issue is the difference of the values of
    20000000000000 * (1 - 2^(-day/2880)) at two days.  [std::pow] of the C
    library is not part of the sources; it is the parameter [pow] here. *)

From S2P Require Import Prelude Float64 Names Asset Chain Views PoolTables PoolBalance.
#[local] Open Scope Z_scope.

(** ** Prices *)

(** The account a price change needs, by account type. *)
Definition price_auth (acc_type : Z) : M hddpool unit :=
  if acc_type =? 1 then require_auth (N "hddpooladml1")
  else if acc_type =? 2 then require_auth (N "hddpooladmin")
  else me ← ask self; require_auth me.

(** The deposit rate in basis points for a token price in 1/10000 USD. *)
Definition rate_of_price (yta_u_price : Z) : res Z :=
  if yta_u_price <=? 2000 then Ok 10000
  else
    let drate := ((fl 1 / f64_sqrt (fl yta_u_price / fl 10000)) * f64_lit 38 100)%f64 in
    f64_trunc_i64s (drate * fl 10000)%f64.

Definition calc_deposit_rate : M hddpool unit :=
  u ← sget gusdprice;
  g ← get_gparams;
  yta_u_price ← lift (u64_div (u64 (yta_price g * 10000)) (default 64500 u));
  rate ← lift (rate_of_price yta_u_price);
  r ← sget gdeprate;
  now ← ask current_time;
  _ ← sset gdeprate ((default (mkDeposit_rate 10000 now) r) <| dr_rate := rate |>);
  let rate2 := Z.quot rate 100 in
  send (mk_action (N "hddpooladmin") (N "active") hdd_deposit (N "setrate") [VInt rate2]).

Definition sethddprice (price : Z) : M hddpool unit :=
  me ← ask self;
  _ ← require_auth me;
  _ ← eosio_assert (0 <? price) "invalid price";
  g ← get_gparams;
  sset gparams (g <| hdd_price := price |>).

Definition setdrdratio (ratio : Z) : M hddpool unit :=
  me ← ask self;
  _ ← require_auth me;
  _ ← eosio_assert (10000 <=? ratio) "invalid deduplication ratio";
  g ← get_gparams;
  sset gparams (g <| dup_remove_dist_ratio := ratio |>).

Definition setusdprice (price acc_type : Z) : M hddpool unit :=
  _ ← price_auth acc_type;
  _ ← eosio_assert (0 <? price) "invalid price";
  _ ← sset gusdprice price;
  calc_deposit_rate.

(** Seconds since a guard was set. *)
Definition guard_age (ct last : Z) : Z := u64 (ct - last) / 1000000.

(** The change in percent of the guarded value. *)
Definition guard_delta (v last : Z) : res Z := u64_div (u64 (u64 (i64 (Z.abs (i64 (i64 v - i64 last)))) * 100)) last.

(** A guard lets a change pass when it is old enough or the change is small. *)
Definition guard_pass (ct last_time timespan v last_v max_delta : Z) : res bool :=
  delta ← guard_delta v last_v;
  Ok (negb ((guard_age ct last_time <? timespan) && (max_delta <? delta))).

Definition get_paramguard : M hddpool hdd_price_guard :=
  g ← sget paramguard; now ← ask current_time; mret (default (guard0 now) g).

(** The new price and guards of a guarded change; [None] when a guard stops it. *)
Definition guarded_yta_price (ct price : Z) (g : hdd_price_guard) : res (option hdd_price_guard) :=
  p1 ← guard_pass ct (last_ytaprice_guard_time1 g) (yta_price_timespan_1 g) price (last_yta_guard_price1 g) (yta_price_delta_1 g);
  if negb p1 then Ok None else
  p2 ← guard_pass ct (last_ytaprice_guard_time2 g) (yta_price_timespan_2 g) price (last_yta_guard_price2 g) (yta_price_delta_2 g);
  if negb p2 then Ok None else
  let g := if yta_price_timespan_1 g <? guard_age ct (last_ytaprice_guard_time1 g)
           then g <| last_yta_guard_price1 := price |> <| last_ytaprice_guard_time1 := ct |> else g in
  let g := if yta_price_timespan_2 g <? guard_age ct (last_ytaprice_guard_time2 g)
           then g <| last_yta_guard_price2 := price |> <| last_ytaprice_guard_time2 := ct |> else g in
  Ok (Some g).

Definition setytaprice (price acc_type : Z) : M hddpool unit :=
  _ ← price_auth acc_type;
  _ ← eosio_assert (0 <? price) "invalid price";
  gp ← get_gparams;
  g ← get_paramguard;
  ct ← ask current_time;
  _ ← (if acc_type =? 100 then
         r ← lift (guarded_yta_price ct price g);
         match r with
         | None => _ ← sset gparams gp; sset paramguard g
         | Some g' => _ ← sset gparams (gp <| yta_price := price |>); sset paramguard g'
         end
       else
         _ ← sset gparams (gp <| yta_price := price |>);
         sset paramguard (g <| last_yta_guard_price1 := price |> <| last_yta_guard_price2 := price |>
                            <| last_ytaprice_guard_time1 := ct |> <| last_ytaprice_guard_time2 := ct |>));
  calc_deposit_rate.

Definition guarded_dr_ratio (ct ratio : Z) (g : hdd_price_guard) : res (option hdd_price_guard) :=
  p1 ← guard_pass ct (last_duprmv_ratio_guard_time1 g) (duprmv_ratio_timespan_1 g) ratio
         (last_dup_remove_guard_ratio1 g) (duprmv_ratio_delta_1 g);
  if negb p1 then Ok None else
  p2 ← guard_pass ct (last_duprmv_ratio_guard_time2 g) (duprmv_ratio_timespan_2 g) ratio
         (last_dup_remove_guard_ratio2 g) (duprmv_ratio_delta_2 g);
  if negb p2 then Ok None else
  let g := if duprmv_ratio_timespan_1 g <? guard_age ct (last_duprmv_ratio_guard_time1 g)
           then g <| last_dup_remove_guard_ratio1 := ratio |> <| last_duprmv_ratio_guard_time1 := ct |> else g in
  let g := if duprmv_ratio_timespan_2 g <? guard_age ct (last_duprmv_ratio_guard_time2 g)
           then g <| last_dup_remove_guard_ratio2 := ratio |> <| last_duprmv_ratio_guard_time2 := ct |> else g in
  Ok (Some g).

Definition setdrratio (ratio acc_type : Z) : M hddpool unit :=
  _ ← price_auth acc_type;
  _ ← eosio_assert ((0 <? ratio) && (ratio <=? 10000)) "invalid deduplication distribute ratio";
  gp ← get_gparams;
  g ← get_paramguard;
  ct ← ask current_time;
  if acc_type =? 1 then
    r ← lift (guarded_dr_ratio ct ratio g);
    match r with
    | None => _ ← sset gparams gp; sset paramguard g
    | Some g' => _ ← sset gparams (gp <| dup_remove_ratio := ratio |>); sset paramguard g'
    end
  else
    _ ← sset gparams (gp <| dup_remove_ratio := ratio |>);
    sset paramguard (g <| last_dup_remove_guard_ratio1 := ratio |> <| last_dup_remove_guard_ratio2 := ratio |>
                       <| last_duprmv_ratio_guard_time1 := ct |> <| last_duprmv_ratio_guard_time2 := ct |>).

Definition addhddcnt (count acc_type : Z) : M hddpool unit :=
  _ ← price_auth acc_type;
  g ← get_gparams;
  sset gparams (g <| hdd_counter := i64 (hdd_counter g + count) |>).

(** ** The reward model *)

(** [(int64_t)(((double)blocks_per_day / (2 * span)) + 0.5)]: rewards per day and
    kind; [2 * span] is computed in 32 bits. *)
Definition rewards_per_day (span : Z) : res Z :=
  f64_trunc_i64s ((fl blocks_per_day / fl (u32 (2 * span))) + f64_lit 1 2)%f64.

(** The parts of one reward: capacity (80 percent), storage (the rest), and the
    gas of both. *)
Definition set_rewards (g : newmparam) (real_rewardtotal : Z) : res newmparam :=
  n ← rewards_per_day (span_reward_slot g);
  real_reward ← i64_div real_rewardtotal n;
  real_reward1 ← f64_trunc_i64s (fl real_reward * f64_lit 8 10)%f64;
  let real_reward2 := i64 (real_reward - real_reward1) in
  gas1 ← f64_trunc_i64s (fl real_reward1 * f64_lit 1 10)%f64;
  gas2 ← f64_trunc_i64s (fl real_reward2 * f64_lit 1 10)%f64;
  Ok (g <| cur_reward1 := real_reward1 |> <| cur_reward2 := real_reward2 |>
        <| cur_reward1gas := gas1 |> <| cur_reward2gas := gas2 |>).

Section model.
Context (pow : f64 -> f64 -> f64) {TV : TokenView}.

(** The total issue up to a day. *)
Definition reward_issue (day : Z) : res Z :=
  f64_trunc_i64s ((fl 1 - pow (fl 2) (fl (-1) * (fl day / fl 2880))) * fl 20000000000000)%f64.

Definition issue_action (quant : asset) : action :=
  mk_action (N "eosio") (N "active") token_account (N "issue")
    [VInt (N "fund.sys"); VAsset quant; VStr "issue tokens for reward"].

Definition startnewm : M hddpool unit :=
  _ ← require_auth (N "hddpooladmin");
  ctr ← sget counterstat1;
  _ ← eosio_assert (match ctr with Some _ => true | None => false end) "can not start new model";
  g0 ← sget newmparama;
  let g := default newmparam0 g0 in
  _ ← eosio_assert (negb (is_started g)) "new model already started";
  ct ← ask current_time;
  issued ← lift (reward_issue 1);
  let g := g <| start_time := ct |> <| span_reward_slot := 12 |> <| new_span_reward_slot := 12 |>
             <| np_reward_type := 0 |> <| reward_day := 1 |> <| reward_month := 1 |>
             <| next_day_time := u64 (ct + microseconds_in_one_day) |> <| total_destory := 0 |>
             <| cur_destory := 0 |> <| total_issue := issued |> <| cur_issue := issued |> in
  quant ← lift (asset_make (cur_issue g) CORE_SYMBOL);
  _ ← send (issue_action quant);
  g ← lift (set_rewards g issued);
  let g := g <| start_space := default 0 ctr |> <| last_month_inc_space := 14365491 |> in
  let g := g <| last_day_inc_space := last_month_inc_space g / 30 |> in
  let g := g <| task_space := u64 (start_space g + last_day_inc_space g) |> <| is_started := true |> in
  sset newmparama g.

(** The growth target of a new month. *)
Definition new_month (g : newmparam) : newmparam :=
  let month := u32 (u32 (reward_day g - 1) / days_in_one_month + 1) in
  if reward_month g <? month then
    let inc := if last_month_inc_space g <? 104858 then 0 else last_month_inc_space g - 104858 in
    g <| reward_month := month |> <| last_month_inc_space := inc |> <| last_day_inc_space := inc / 30 |>
  else g.

(** Destroying what is left of the fund, up to a reserve. *)
Definition destroy_fund (g : newmparam) : M hddpool newmparam :=
  fund ← lift (get_balance (N "fund.sys") (symbol_code CORE_SYMBOL));
  let min_amount := 1000000000 in
  let real_destory := if min_amount <? amount fund then i64 (amount fund - min_amount) else 0 in
  if 0 <? real_destory then
    quant ← lift (asset_make real_destory CORE_SYMBOL);
    _ ← send (mk_action (N "fund.sys") (N "active") token_account (N "transfer")
           [VInt (N "fund.sys"); VInt (N "eosio.null"); VAsset quant; VStr "destory reward tokens"]);
    mret (g <| total_destory := i64 (total_destory g + real_destory) |>)
  else mret g.

(** The change of the day: the issue and the rewards of the next day.  Returns
    whether rewards are paid. *)
Definition next_day (ct total_space : Z) (g : newmparam) : M hddpool (bool * newmparam) :=
  let g := g <| reward_day := u32 (reward_day g + 1) |> in
  let is_destory := total_space <? task_space g in
  let g := new_month g in
  let g := g <| task_space := u64 (task_space g + last_day_inc_space g) |> in
  issued ← lift (reward_issue (reward_day g));
  let cur := i64 (issued - total_issue g) in
  bg ← (if (total_issue g <? issued) && (cur <=? 4812942883) then
          let g := g <| cur_destory := 0 |> in
          g ← (if is_destory then
                 d ← lift (f64_trunc_i64s (fl cur * f64_lit 7 10)%f64);
                 destroy_fund (g <| cur_destory := d |>)
               else mret g);
          let g := g <| cur_issue := cur |> in
          quant ← lift (asset_make cur CORE_SYMBOL);
          _ ← send (issue_action quant);
          let g := g <| total_issue := issued |> <| span_reward_slot := new_span_reward_slot g |> in
          g ← lift (set_rewards g (i64 (cur - cur_destory g)));
          mret (true, g)
        else
          mret (false, g <| cur_issue := 0 |> <| cur_destory := 0 |> <| cur_reward1 := 0 |> <| cur_reward2 := 0 |>
                         <| cur_reward1gas := 0 |> <| cur_reward2gas := 0 |>));
  let '(bret, g) := bg in
  mret (bret, g <| next_day_time :=
    if u64 (next_day_time g + microseconds_in_one_day) <=? ct then u64 (ct + microseconds_in_one_day)
    else u64 (next_day_time g + microseconds_in_one_day) |>).

Record reward_round := mkRound {
  rr_ok : bool;            (* the return value *)
  rr_reward : Z;
  rr_destory : bool;
  rr_type : Z
}.

Definition no_round : reward_round := mkRound false 0 false 0.

Definition update_newmodel_params (slot : Z) : M hddpool reward_round :=
  g0 ← sget newmparama;
  match g0 with
  | None => mret no_round
  | Some g =>
      let g := g <| last_reward_slot := slot |> in
      if negb (is_started g) then _ ← sset newmparama g; mret no_round else
      ctr ← sget counterstat1;
      match ctr with
      | None => mret no_round
      | Some total_space =>
          ct ← ask current_time;
          bg ← (if next_day_time g <=? ct then next_day ct total_space g else mret (true, g));
          let '(bret, g) := bg in
          let is_reward_destory := 0 <? cur_destory g in
          n ← lift (rewards_per_day (span_reward_slot g));
          real_reward ← lift (i64_div (cur_issue g) n);
          if np_reward_type g =? 0 then
            reward ← lift (f64_trunc_i64s (fl real_reward * f64_lit 8 10)%f64);
            _ ← sset newmparama (g <| np_reward_type := 1 |>);
            mret (mkRound bret reward is_reward_destory 0)
          else
            reward ← lift (f64_trunc_i64s (fl real_reward * f64_lit 2 10)%f64);
            _ ← sset newmparama (g <| np_reward_type := 0 |>);
            mret (mkRound bret reward is_reward_destory 1)
      end
  end.
End model.
