(* ===== verification/PoolReward.v ===== *)
(** * hddpool: building the probability tables and drawing the rewards

    contracts/hddpool/hddpool.cpp: [onbuild] walks the compact miner table, three
    slots per call, and writes for every miner that takes part the upper end of
    its interval into the inactive copy of two tables (one weighted by capacity,
    one by stored space); when the walk is complete the copies switch.
    [onreward] draws a number below the last upper end and finds the interval it
    falls into by binary search ([rewardproc1], [rewardproc2]); the reward is
    paid by a deferred transaction. *)

From S2P Require Import Prelude Float64 Names Asset Chain Views PoolTables PoolBalance PoolMiner PoolParams.
#[local] Open Scope Z_scope.

(** ** Building *)

(** Writes entry [mid] of a probability table. *)
Definition put_score (tbl : hddpool -> gmap (name * Z) mscore) `{!Setter tbl} (scope : name) (mid minerid range : Z)
    : M hddpool unit :=
  it ← find tbl (scope, mid);
  match it with
  | Some _ => modify tbl (scope, mid) (fun row => Ok (row <| sc_minerid := minerid |> <| sc_range := range |>))
  | None => emplace tbl (scope, mid) (mkMscore mid minerid range)
  end.

(** The capacity that counts, in GB: what was measured, if it is less than what
    is registered. *)
Definition real_space_gb (m : miner) : Z :=
  let realspace := if (0 <? real_space m) && (real_space m <? m_max_space m) then real_space m else m_max_space m in
  Z.shiftr realspace 16.

(** [(uint64_t)((double)(realspace_gb * level) / 100)] *)
Definition capacity_range (m : miner) : res Z :=
  f64_trunc_i64u (fl (u64 (real_space_gb m * level m)) / fl 100)%f64.

Definition storage_range (m : miner) : Z :=
  let space_gb := Z.shiftr (m_space m) 16 in
  let space_gb := if space_gb =? 0 then 1 else space_gb in
  u64 (space_gb * 3).

(** The entries of one miner. *)
Definition build_capacity (scope : name) (m : miner) (minerid : Z) (g : mscore2ex) : M hddpool mscore2ex :=
  if negb (0 <? real_space_gb m) then mret g else
  range ← lift (capacity_range m);
  if negb (0 <? range) then mret g else
  let g := g <| prev_build_range1 := u64 (prev_build_range1 g + range) |> in
  let mid := u64 (build_count1 g + 1) in
  _ ← put_score mscores1 scope mid minerid (prev_build_range1 g);
  mret (g <| build_count1 := mid |>).

Definition build_storage (scope : name) (m : miner) (minerid : Z) (g : mscore2ex) : M hddpool mscore2ex :=
  let g := g <| prev_build_range2 := u64 (prev_build_range2 g + storage_range m) |> in
  let mid := u64 (build_count2 g + 1) in
  _ ← put_score mscores2 scope mid minerid (prev_build_range2 g);
  mret (g <| build_count2 := mid |>).

(** The miner in slot [build_proc_id], if it takes part. *)
Definition build_slot (scope : name) (g : mscore2ex) : M hddpool mscore2ex :=
  it2 ← find miner2s (build_proc_id g);
  match it2 with
  | None => mret g
  | Some m2 =>
      if m2_minerid m2 =? 0 then mret g else
      it ← find miners (m2_minerid m2);
      match it with
      | None => mret g
      | Some m =>
          if (status m =? 0) && (0 <? m_max_space m) then
            g ← build_capacity scope m (m2_minerid m2) g;
            build_storage scope m (m2_minerid m2) g
          else mret g
      end
  end.

(** The walk is complete: publish the counts and switch the copies. *)
Definition build_done (g : mscore2ex) : mscore2ex :=
  let g := if current_s g =? 0
           then g <| current_s := 1 |> <| mscore1_s1_count := build_count1 g |> <| mscore2_s1_count := build_count2 g |>
           else g <| current_s := 0 |> <| mscore1_s0_count := build_count1 g |> <| mscore2_s0_count := build_count2 g |> in
  g <| build_proc_id := 1 |> <| prev_build_range1 := 0 |> <| prev_build_range2 := 0 |>
    <| build_count1 := 0 |> <| build_count2 := 0 |>.

(** The copy being built: the one that is not read. *)
Definition build_scope (g : mscore2ex) : name := if current_s g =? 0 then N "scopeb" else N "scopea".

(** At most [n] slots of the walk. *)
Fixpoint build_slots (n : nat) (scope : name) (max_table_count : Z) (g : mscore2ex) : M hddpool mscore2ex :=
  match n with
  | O => mret g
  | S n' =>
      g ← build_slot scope g;
      let g := g <| build_proc_id := u64 (build_proc_id g + 1) |> in
      if max_table_count <? build_proc_id g then mret (build_done g) else build_slots n' scope max_table_count g
  end.

Definition onbuild (slot : Z) : M hddpool unit :=
  me ← ask self;
  _ ← require_auth me;
  p ← sget newmparama;
  match p with
  | None => mret tt
  | Some np =>
      _ ← sset newmparama (np <| last_build_slot := slot |> <| span_build_slot := 2 |>);
      x ← sget miner2ex1;
      match x with
      | None => mret tt
      | Some ex =>
          g0 ← sget mscore2ex1;
          let g := default mscore2ex0 g0 in
          if max_table_count ex <? build_proc_id g then sset mscore2ex1 (build_done g) else
          g ← build_slots 3 (build_scope g) (max_table_count ex) g;
          sset mscore2ex1 g
      end
  end.

(** ** Drawing *)

(** The loop [while (low <= high)] with [n] of the 20 probes left: the miner of
    an exact hit (0 for none) and the bounds at the end; [None] when the function
    returns from within the loop. *)
Fixpoint search (n : nat) (rows : Z -> option mscore) (sel_range low high : Z) : option (Z * Z * Z) :=
  if negb (low <=? high) then Some (0, low, high) else
  match n with
  | O => None
  | S n' =>
      let mid := u64 (low + high) / 2 in
      it ← rows mid;
      if sc_range it =? sel_range then Some (sc_minerid it, low, high)
      else
        let '(low, high) := if sc_range it <? sel_range then (u64 (mid + 1), high) else (low, u64 (mid - 1)) in
        match n' with
        | O => None                      (* times >= 20 *)
        | S _ => search n' rows sel_range low high
        end
  end.

(** From the bounds to the miner. *)
Definition select (rows : Z -> option mscore) (sel_range : Z) (r : Z * Z * Z) : option Z :=
  let '(sel_minerid, low, high) := r in
  if negb (sel_minerid =? 0) then Some sel_minerid else
  let high := if low =? 1 then 1 else high in
  it ← rows high;
  if sel_range <=? sc_range it then Some (sc_minerid it)
  else it2 ← rows low; Some (sc_minerid it2).

(** The reward is paid by a deferred transaction. *)
Definition rewardlog (minerid reward_type reward : Z) (is_reward_destory : bool) (slot : Z) : M hddpool unit :=
  me ← ask self;
  _ ← require_auth me;
  reward_t ← lift (asset_make reward CORE_SYMBOL);
  send_deferred (mkDeferred me (Z.lor (Z.shiftl me 64) slot) me 1
    [mk_action me (N "active") me (N "payrewardnew")
       [VU8 reward_type; VAsset reward_t; VInt minerid; VBool is_reward_destory]]).

(** [rewardproc1] and [rewardproc2], which differ in the table and the type. *)
Definition rewardproc (tbl : hddpool -> gmap (name * Z) mscore) (s0_count s1_count : mscore2ex -> Z) (reward_type : Z)
    (random slot reward : Z) (is_reward_destory : bool) : M hddpool unit :=
  x ← sget mscore2ex1;
  match x with
  | None => mret tt
  | Some g =>
      let '(tablescope, max_count) :=
        if current_s g =? 0 then (N "scopea", s0_count g) else (N "scopeb", s1_count g) in
      t ← gets tbl;
      let rows := fun mid => t !! (tablescope, mid) in
      match rows max_count with
      | None => mret tt
      | Some itmax =>
          r ← lift (u64_rem random (sc_range itmax));
          let sel_range := u64 (r + 1) in
          match search 20 rows sel_range 1 max_count ≫= select rows sel_range with
          | None => mret tt
          | Some sel_minerid =>
              when (negb (sel_minerid =? 0)) (rewardlog sel_minerid reward_type reward is_reward_destory slot)
          end
      end
  end.

Definition rewardproc1 := rewardproc mscores1 mscore1_s0_count mscore1_s1_count 1.
Definition rewardproc2 := rewardproc mscores2 mscore2_s0_count mscore2_s1_count 2.

Section handlers.
Context (pow : f64 -> f64 -> f64) {TV : TokenView} {DV : DepositView} {CV : ChannelView}.

(** [tapos_block_prefix] is a signed [int], converted to 64 bits. *)
Definition onreward (slot : Z) : M hddpool unit :=
  me ← ask self;
  _ ← require_auth me;
  rr ← update_newmodel_params pow slot;
  if negb (rr_ok rr) then mret tt else
  if rr_reward rr =? 0 then mret tt else
  prefix ← ask tapos_block_prefix;
  num ← ask tapos_block_num;
  let random := u64 (u64 (u64 prefix * u64 num) * u64 num) in
  if rr_type rr =? 0
  then rewardproc1 random slot (rr_reward rr) (rr_destory rr)
  else rewardproc2 random slot (rr_reward rr) (rr_destory rr).

(** ** Paying *)

Definition payrewardnew (type : Z) (quant : asset) (minerid : Z) (is_destory : bool) : M hddpool unit :=
  me ← ask self;
  _ ← require_auth me;
  m ← get miners minerid "invalid mimerid";
  gas0 ← lift (f64_trunc_i64s (fl (amount quant) * f64_lit 1 10)%f64);
  rg ← lift (if is_old_miner minerid && is_destory then
               r ← f64_trunc_i64s (fl (amount quant) * f64_lit 8 10)%f64;
               g ← f64_trunc_i64s (fl r * f64_lit 1 10)%f64;
               Ok (r, g)
             else Ok (amount quant, gas0));
  let '(reward_amount, gas_amount) := rg in
  reward ← lift (asset_make reward_amount CORE_SYMBOL);
  gas ← lift (asset_make gas_amount CORE_SYMBOL);
  let owner := m_owner m in
  let fee := getfeebalance owner in
  let nm := if amount gas <=? amount fee then N "channellog" else N "channelfail" in
  send (mk_action me (N "active") me nm
    [VU8 type; VAsset reward; VInt minerid; VAsset gas; VInt owner]).

Definition channelfail (type : Z) (quant : asset) (minerid : Z) (gas : asset) (owner : name) : M hddpool unit :=
  me ← ask self;
  _ ← require_auth me;
  require_recipient owner.

(** The memo <type>:<owner>:<minerid>. *)
Definition reward_memo (type : Z) (owner : name) (minerid : Z) : string :=
  (to_string type +:+ ":" +:+ name_to_string owner +:+ ":" +:+ to_string minerid)%string.

Definition channellog (type : Z) (quant : asset) (minerid : Z) (gas : asset) (owner : name) : M hddpool unit :=
  me ← ask self;
  _ ← require_auth me;
  _ ← require_recipient owner;
  _ ← send (mk_action (N "channel.sys") (N "active") (N "channel.sys") (N "subfee")
         [VInt owner; VAsset gas; VStr (reward_memo type owner minerid +:+ ":gas")%string]);
  send (mk_action (N "fund.sys") (N "active") token_account (N "transfer")
    [VInt (N "fund.sys"); VInt (N "channel.sys"); VAsset quant; VStr (reward_memo type owner minerid)]).
End handlers.

(** ** The draw is correct *)

(** A probability table of [n] entries: the upper ends grow strictly, and every
    entry has a miner. *)
Record table_ok (rows : Z -> option mscore) (n : Z) (f : Z -> Z) : Prop := {
  to_rows i : 1 <= i <= n -> exists r, rows i = Some r /\ sc_range r = f i /\ sc_minerid r <> 0;
  to_mono i j : 1 <= i -> i < j -> j <= n -> f i < f j
}.

(** The entry whose interval contains [x]: the first that ends at or above it. *)
Definition first_above (f : Z -> Z) (n x i : Z) : Prop :=
  1 <= i <= n /\ x <= f i /\ (forall j, 1 <= j < i -> f j < x).

Section draw.
Context (rows : Z -> option mscore) (n : Z) (f : Z -> Z) (Ht : table_ok rows n f) (Hn : 1 <= n < 2^32).
Context (x : Z) (Hx : x <= f n).

Definition search_inv (low high : Z) : Prop :=
  1 <= low <= high + 1 /\ high <= n /\ low <= n /\
  (forall i, 1 <= i < low -> f i < x) /\ (forall i, high < i <= n -> x < f i).

(** Enough probes: fewer than 2^(k-1) entries are left. *)
Lemma search_spec k low high :
  search_inv low high -> high - low + 1 < 2^(Z.of_nat k - 1) ->
  exists r, search k rows x low high = Some r /\
    (exists i row, first_above f n x i /\ rows i = Some row /\ select rows x r = Some (sc_minerid row)).
Proof.
  revert low high. induction k as [|k IH]; intros low high (Hl & Hh & Hln & Hlt & Hgt) Hk.
  { exfalso. cbn in Hk. lia. }
  cbn [search]. destruct (Z.leb_spec low high) as [Hle|Hle]; cbn [negb].
  2: { eexists. split; [reflexivity|]. destruct (to_rows _ _ _ Ht low) as (row & Hr & Hf & _); [lia|].
       assert (high = low - 1) as -> by lia.
       exists low, row. split; [split; [lia|]; split; [|done]|split; [done|]].
       - destruct (decide (low = n)) as [->|]; [done|]. specialize (Hgt low). lia.
       - unfold select. cbn [negb Z.eqb]. destruct (Z.eqb_spec low 1) as [->|]; cbn.
         + rewrite Hr. cbn. assert (Hx1 : x <= sc_range row) by (rewrite Hf; specialize (Hgt 1); lia).
           by apply Z.leb_le in Hx1 as ->.
         + destruct (to_rows _ _ _ Ht (low - 1)) as (row' & Hr' & Hf' & _); [lia|]. rewrite Hr'. cbn.
           specialize (Hlt (low - 1)). destruct (Z.leb_spec x (sc_range row')); [lia|]. by rewrite Hr. }
  assert (Hmid : u64 (low + high) / 2 = (low + high) / 2) by (rewrite u64_id by (unfold is_u64; lia); done).
  rewrite Hmid. clear Hmid. set (mid := (low + high) / 2).
  assert (Hm : low + high - 1 <= 2 * mid <= low + high) by (subst mid; Z.div_mod_to_equations; lia). clearbody mid.
  destruct (to_rows _ _ _ Ht mid) as (row & Hr & Hf & Hne); [lia|]. rewrite Hr. cbn [mbind option_bind].
  replace (Z.of_nat (S k) - 1) with (Z.of_nat k) in Hk by lia.
  destruct k as [|k]; [cbn in Hk; lia|].
  assert (Hpow : 2 ^ Z.of_nat (S k) = 2 * 2 ^ (Z.of_nat (S k) - 1)) by (rewrite <- Z.pow_succ_r by lia; by replace (Z.succ (Z.of_nat (S k) - 1)) with (Z.of_nat (S k)) by lia).
  destruct (Z.eqb_spec (sc_range row) x) as [Heq|Hneq].
  { eexists. split; [reflexivity|]. exists mid, row. split; [split; [lia|]; split; [lia|]|split; [done|]].
    - intros j Hj. rewrite <- Heq, Hf. apply (to_mono _ _ _ Ht); lia.
    - unfold select. by destruct (Z.eqb_spec (sc_minerid row) 0). }
  destruct (Z.ltb_spec (sc_range row) x) as [Hs|Hs].
  - rewrite u64_id by (unfold is_u64; lia). apply IH; [|lia].
    assert (mid < n) by (destruct (decide (mid = n)) as [->|]; lia).
    split; [lia|]. split; [lia|]. split; [lia|]. split; [|done].
    intros i Hi. destruct (decide (i = mid)) as [->|]; [lia|].
    pose proof (to_mono _ _ _ Ht i mid). lia.
  - rewrite u64_id by (unfold is_u64; lia). apply IH; [|lia].
    split; [lia|]. split; [lia|]. split; [lia|]. split; [done|].
    intros i Hi. destruct (decide (i = mid)) as [->|]; [lia|].
    pose proof (to_mono _ _ _ Ht mid i). lia.
Qed.
End draw.

Lemma draw_spec rows n f x : table_ok rows n f -> 1 <= n < 2^19 -> x <= f n ->
  exists i row, first_above f n x i /\ rows i = Some row /\
    search 20 rows x 1 n ≫= select rows x = Some (sc_minerid row).
Proof.
  intros Ht Hn Hx. destruct (search_spec rows n f Ht ltac:(lia) x Hx 20 1 n) as (r & Hr & i & row & H1 & H2 & H3).
  - split; [lia|]. split; [lia|]. split; [lia|]. split; intros; lia.
  - cbn. lia.
  - exists i, row. rewrite Hr. auto.
Qed.

(** The copy of the tables that is read, and its number of capacity entries. *)
Definition read_scope (g : mscore2ex) : name := if current_s g =? 0 then N "scopea" else N "scopeb".
Definition read_count1 (g : mscore2ex) : Z := if current_s g =? 0 then mscore1_s0_count g else mscore1_s1_count g.

(** The deferred payment of a reward to a miner. *)
Definition reward_payment (me : name) (slot reward minerid : Z) (d : bool) : deferred :=
  mkDeferred me (Z.lor (Z.shiftl me 64) slot) me 1
    [mk_action me (N "active") me (N "payrewardnew") [VU8 1; VAsset (core reward); VInt minerid; VBool d]].

(** No transaction of this slot is pending. *)
Definition none_pending (me : name) (slot : Z) (o : out) : Prop :=
  forall d, d ∈ deferreds o -> d_sender d = me -> d_sender_id d <> Z.lor (Z.shiftl me 64) slot.

Lemma send_deferred_run {S} d c (s : S) o : may_defer c d = true ->
  (forall d', d' ∈ deferreds o -> d_sender d' = d_sender d -> d_sender_id d' <> d_sender_id d) ->
  send_deferred d c s o = Ok (tt, s, o <| deferreds := deferreds o ++ [d] |>).
Proof.
  intros Hm Hp. unfold send_deferred. rewrite Hm. cbn [negb]. destruct (existsb _ _) eqn:E; [|done].
  apply existsb_exists in E as (d' & Hin%list_elem_of_In & H). rewrite andb_true_iff, !Z.eqb_eq in H. destruct H as [H1 H2]. by destruct (Hp d' Hin H1).
Qed.

(** [rewardproc1] finds, within its 20 probes, the first entry whose upper end is
    at least random mod (last upper end) + 1, and queues the payment to it. *)
Lemma rewardproc1_draws g f random slot reward d c s o :
  mscore2ex1 s = Some g -> table_ok (fun i => mscores1 s !! (read_scope g, i)) (read_count1 g) f ->
  1 <= read_count1 g < 2^19 -> 0 < f (read_count1 g) < 2^64 ->
  is_u64 random -> - max_amount <= reward <= max_amount ->
  has_auth c (self c) = true -> none_pending (self c) slot o -> (forall id, may_defer c (reward_payment (self c) slot reward id d) = true) ->
  exists i row, first_above f (read_count1 g) (random mod f (read_count1 g) + 1) i /\
    mscores1 s !! (read_scope g, i) = Some row /\
    rewardproc1 random slot reward d c s o =
      Ok (tt, s, o <| deferreds := deferreds o ++ [reward_payment (self c) slot reward (sc_minerid row) d] |>).
Proof.
  intros Hg Ht Hn Hf Hr Hrew Hauth Hdef Hmay. set (n := read_count1 g) in *. set (x := random mod f n + 1).
  pose proof (Z.mod_pos_bound random (f n) ltac:(lia)).
  destruct (draw_spec _ n f x Ht Hn) as (i & row & H1 & H2 & H3); [subst x; lia|].
  exists i, row. split; [exact H1|]. split; [exact H2|].
  destruct (to_rows _ _ _ Ht i) as (row' & Hrow & _ & Hne); [destruct H1; lia|]. rewrite H2 in Hrow. injection Hrow as <-.
  destruct (to_rows _ _ _ Ht n) as (last & Hl & Hlf & _); [lia|].
  unfold rewardproc1, rewardproc. erewrite bind_run by (unfold sget, gets; rewrite Hg; reflexivity). cbn beta iota.
  assert (E : (if current_s g =? 0 then (N "scopea", mscore1_s0_count g) else (N "scopeb", mscore1_s1_count g))
              = (read_scope g, n)) by (subst n; unfold read_scope, read_count1; by destruct (current_s g =? 0)).
  rewrite E. clear E. erewrite bind_run by reflexivity. cbn beta zeta. rewrite Hl.
  assert (Er : u64_rem random (sc_range last) = Ok (random mod f n)).
  { unfold u64_rem. rewrite Hlf. by destruct (Z.eqb_spec (f n) 0); [lia|]. }
  erewrite bind_run by (by apply lift_run). rewrite u64_id by (unfold is_u64; lia). fold x. rewrite H3.
  unfold when. destruct (Z.eqb_spec (sc_minerid row) 0); [done|]. cbn [negb]. unfold rewardlog.
  erewrite bind_run by reflexivity. erewrite bind_run by (by apply require_auth_run).
  erewrite bind_run by (by apply lift_run, asset_make_core). apply (send_deferred_run (reward_payment (self c) slot reward (sc_minerid row) d)); [apply Hmay|].
  intros d' Hin. by apply Hdef.
Qed.

(** ** The walk that builds the tables *)

(** The miner in slot [j], if it takes part in the rewards. *)
Definition takes_part (s : hddpool) (j : Z) : option (Z * miner) :=
  m2 ← miner2s s !! j;
  if m2_minerid m2 =? 0 then None else
  m ← miners s !! m2_minerid m2;
  if (status m =? 0) && (0 <? m_max_space m) then Some (m2_minerid m2, m) else None.

(** Its capacity entry: the miner and the length of its interval. *)
Definition capacity_entry (s : hddpool) (j : Z) : option (Z * Z) :=
  im ← takes_part s j;
  if 0 <? real_space_gb im.2 then
    match capacity_range im.2 with
    | Ok w => if 0 <? w then Some (im.1, w) else None
    | Err _ => None
    end
  else None.

Definition storage_entry (s : hddpool) (j : Z) : option (Z * Z) :=
  im ← takes_part s j; Some (im.1, storage_range im.2).

(** The entries of the slots before [j], in slot order. *)
Definition entries_before (e : Z -> option (Z * Z)) (j : Z) : list (Z * Z) := omap e (seqZ 1 (j - 1)).

Definition total_weight (l : list (Z * Z)) : Z := foldr (fun iw acc => snd iw + acc) 0 l.

(** The rows 1, 2, ... of a copy hold the miners of [l], and the sums of their
    weights up to each. *)
Definition holds_entries (t : gmap (name * Z) mscore) (scope : name) (l : list (Z * Z)) : Prop :=
  forall i id w, l !! i = Some (id, w) ->
    exists r, t !! (scope, Z.of_nat i + 1) = Some r /\ sc_minerid r = id /\ sc_range r = total_weight (take (S i) l).

Lemma total_weight_app l l' : total_weight (l ++ l') = total_weight l + total_weight l'.
Proof. unfold total_weight. induction l as [|x l IH]; cbn; [done|]. rewrite IH. lia. Qed.

Lemma entries_before_step e j : 1 <= j ->
  entries_before e (j + 1) = entries_before e j ++ match e j with Some x => [x] | None => [] end.
Proof.
  intros Hj. unfold entries_before. replace (j + 1 - 1) with ((j - 1) + 1) by lia.
  rewrite seqZ_app by lia. rewrite omap_app. f_equal. replace (1 + (j - 1)) with j by lia.
  rewrite seqZ_cons by lia. change (Z.pred 1) with 0. rewrite seqZ_nil by lia. cbn. by destruct (e j).
Qed.

(** Writing the next row extends the entries. *)
Lemma holds_entries_snoc t scope l id w r :
  holds_entries t scope l -> sc_minerid r = id -> sc_range r = total_weight l + w ->
  holds_entries (<[(scope, Z.of_nat (length l) + 1) := r]> t) scope (l ++ [(id, w)]).
Proof.
  intros Hh Hid Hw i id' w' Hi. destruct (decide (i = length l)) as [->|Hne].
  - rewrite lookup_app_r, Nat.sub_diag in Hi by lia. injection Hi as <- <-. exists r.
    rewrite lookup_insert_eq. split; [done|]. split; [done|].
    rewrite take_ge by (rewrite length_app; cbn; lia). rewrite total_weight_app. cbn. lia.
  - assert (i < length l)%nat by (apply lookup_lt_Some in Hi; rewrite length_app in Hi; cbn in Hi; lia).
    rewrite lookup_app_l in Hi by done. destruct (Hh i id' w' Hi) as (r' & Hr & Hm & Hs).
    exists r'. rewrite lookup_insert_ne by (intros [=]; lia). split; [done|]. split; [done|].
    rewrite Hs. by rewrite take_app_le by lia.
Qed.

Lemma put_score_run (tbl : hddpool -> gmap (name * Z) mscore) `{!Setter tbl} scope mid id range c s o :
  exists r, put_score tbl scope mid id range c s o = Ok (tt, setf tbl (<[(scope, mid) := r]> (tbl s)) s, o) /\
    sc_minerid r = id /\ sc_range r = range.
Proof.
  unfold put_score. erewrite bind_run by reflexivity. destruct (tbl s !! (scope, mid)) as [r|] eqn:E.
  - eexists. erewrite modify_run; [|exact E|reflexivity]. done.
  - eexists. rewrite emplace_run by done. done.
Qed.

(** The length of a capacity interval is always computed. *)
Lemma capacity_range_ok m : exists w, capacity_range m = Ok w /\
  floor_upto 3 (u64 (real_space_gb m * level m)) 100 w.
Proof.
  unfold capacity_range. pose proof (u64_range (real_space_gb m * level m)) as Hr. revert Hr.
  generalize (u64 (real_space_gb m * level m)). intros p [H0 H1].
  destruct (decide (p = 0)) as [->|].
  { exists 0. split; [by vm_compute|]. unfold floor_upto. lia. }
  pose proof (frac_div _ _ _ _ _ _ _ _ (frac_u64 p ltac:(lia)) (frac_exact 100 ltac:(lia)) ltac:(lia) ltac:(lia) ltac:(lia)) as H.
  destruct (frac_floor _ _ _ _ H ltac:(lia)) as (z & _ & Hz & G1 & G2 & G3).
  exists z. split; [exact Hz|]. unfold floor_upto. lia.
Qed.

Definition weights_nonneg (l : list (Z * Z)) : Prop := Forall (fun iw => 0 <= snd iw) l.

Lemma total_weight_nonneg l : weights_nonneg l -> 0 <= total_weight l.
Proof. unfold total_weight. induction 1; cbn; lia. Qed.

Lemma capacity_entry_pos s j id w : capacity_entry s j = Some (id, w) -> 0 < w.
Proof.
  unfold capacity_entry. destruct (takes_part s j) as [[i m]|]; cbn; [|done].
  destruct (0 <? real_space_gb m); [|done]. destruct (capacity_range m); [|done].
  destruct (Z.ltb_spec 0 a); [|done]. by intros [= <- <-].
Qed.

Lemma storage_entry_pos s j id w : storage_entry s j = Some (id, w) -> 0 <= w.
Proof.
  unfold storage_entry. destruct (takes_part s j) as [[i m]|]; cbn; [|done].
  intros [= <- <-]. unfold storage_range. apply u64_range.
Qed.

Lemma entries_before_nonneg e j : (forall i id w, e i = Some (id, w) -> 0 <= w) -> weights_nonneg (entries_before e j).
Proof.
  intros He. unfold weights_nonneg, entries_before. apply Forall_forall. intros [id w] Hin.
  apply list_elem_of_omap in Hin as (i & _ & Hi). by apply He in Hi.
Qed.

(** Partial sums stay below the total. *)
Lemma total_before_mono e j k : (forall i id w, e i = Some (id, w) -> 0 <= w) -> 1 <= j <= k ->
  0 <= total_weight (entries_before e j) <= total_weight (entries_before e k).
Proof.
  intros He [Hj Hk]. split; [by apply total_weight_nonneg, entries_before_nonneg|].
  unfold entries_before. replace (k - 1) with ((j - 1) + (k - j)) by lia.
  rewrite seqZ_app, omap_app, total_weight_app by lia.
  enough (0 <= total_weight (omap e (seqZ (1 + (j - 1)) (k - j)))) by lia.
  apply total_weight_nonneg. unfold weights_nonneg. apply Forall_forall. intros [id w] Hin.
  apply list_elem_of_omap in Hin as (i & _ & Hi). by apply He in Hi.
Qed.

Lemma entries_before_length e j : 1 <= j -> Z.of_nat (length (entries_before e j)) <= j - 1.
Proof.
  intros Hj. unfold entries_before.
  assert (H : forall l : list Z, (length (omap e l) <= length l)%nat).
  { induction l as [|x l IH]; cbn; [lia|]. destruct (e x); cbn; lia. }
  specialize (H (seqZ 1 (j - 1))). rewrite length_seqZ in H. lia.
Qed.

(** The entries of the slots before [build_proc_id] are in the copy [scope]. *)
Record walk_inv (s : hddpool) (scope : name) (g : mscore2ex) : Prop := {
  wi_proc : 1 <= build_proc_id g;
  wi_count1 : build_count1 g = Z.of_nat (length (entries_before (capacity_entry s) (build_proc_id g)));
  wi_range1 : prev_build_range1 g = total_weight (entries_before (capacity_entry s) (build_proc_id g));
  wi_table1 : holds_entries (mscores1 s) scope (entries_before (capacity_entry s) (build_proc_id g));
  wi_count2 : build_count2 g = Z.of_nat (length (entries_before (storage_entry s) (build_proc_id g)));
  wi_range2 : prev_build_range2 g = total_weight (entries_before (storage_entry s) (build_proc_id g));
  wi_table2 : holds_entries (mscores2 s) scope (entries_before (storage_entry s) (build_proc_id g))
}.

(** The table is small enough for 64-bit sums. *)
Definition walk_bounded (s : hddpool) (max : Z) : Prop :=
  max < 2^32 /\ total_weight (entries_before (capacity_entry s) (max + 1)) < 2^64 /\
  total_weight (entries_before (storage_entry s) (max + 1)) < 2^64.

(** Only the copy [scope] of the score tables differs, so the participants and
    the other copy are the same. *)
Definition only_scores (scope : name) (s s' : hddpool) : Prop :=
  s' = s <| mscores1 := mscores1 s' |> <| mscores2 := mscores2 s' |> /\
  forall k, k.1 <> scope -> mscores1 s' !! k = mscores1 s !! k /\ mscores2 s' !! k = mscores2 s !! k.

Lemma only_scores_entries scope s s' : only_scores scope s s' ->
  capacity_entry s' = capacity_entry s /\ storage_entry s' = storage_entry s.
Proof. intros [-> _]. done. Qed.

Lemma only_scores_refl scope s : only_scores scope s s.
Proof. split; [by destruct s|done]. Qed.

Lemma only_scores_trans scope s1 s2 s3 : only_scores scope s1 s2 -> only_scores scope s2 s3 -> only_scores scope s1 s3.
Proof.
  intros [E1 K1] [E2 K2]. split; [rewrite E2, E1; done|].
  intros k Hk. destruct (K1 k Hk) as [<- <-]. by apply K2.
Qed.

Section slot.
Context (s : hddpool) (scope : name) (g : mscore2ex) (j : Z) (max : Z).
Context (Hg : walk_inv s scope g) (Hj : build_proc_id g = j) (Hmax : j <= max) (Hb : walk_bounded s max).
Context (id : Z) (m : miner) (Hp : takes_part s j = Some (id, m)).

Lemma cap_bounds : Z.of_nat (length (entries_before (capacity_entry s) j)) + 1 < 2^64 /\
  0 <= total_weight (entries_before (capacity_entry s) (j + 1)) < 2^64.
Proof.
  pose proof (wi_proc _ _ _ Hg). destruct Hb as (? & ? & _). pose proof (entries_before_length (capacity_entry s) j).
  pose proof (total_before_mono (capacity_entry s) (j + 1) (max + 1)) as Hm.
  assert (Hpos : forall i id w, capacity_entry s i = Some (id, w) -> 0 <= w)
    by (intros ? ? ? Hi%capacity_entry_pos; lia). specialize (Hm Hpos). lia.
Qed.

Lemma sto_bounds : Z.of_nat (length (entries_before (storage_entry s) j)) + 1 < 2^64 /\
  0 <= total_weight (entries_before (storage_entry s) (j + 1)) < 2^64.
Proof.
  pose proof (wi_proc _ _ _ Hg). destruct Hb as (? & _ & ?). pose proof (entries_before_length (storage_entry s) j).
  pose proof (total_before_mono (storage_entry s) (j + 1) (max + 1) (storage_entry_pos s)). lia.
Qed.

Lemma capacity_entry_run g0 c o :
  match capacity_entry s j with
  | None => build_capacity scope m id g0 c s o = Ok (g0, s, o)
  | Some (id', w) => id' = id /\
      build_capacity scope m id g0 c s o =
        (let g1 := g0 <| prev_build_range1 := u64 (prev_build_range1 g0 + w) |> in
         let mid := u64 (build_count1 g0 + 1) in
         _ ← put_score mscores1 scope mid id (prev_build_range1 g1);
         mret (g1 <| build_count1 := mid |>)) c s o
  end.
Proof.
  unfold capacity_entry, build_capacity. rewrite Hp. cbn [mbind option_bind fst snd].
  destruct (0 <? real_space_gb m); [|done]. cbn [negb].
  destruct (capacity_range_ok m) as (w & -> & _). destruct (0 <? w) eqn:Ew.
  - split; [done|]. erewrite bind_run by reflexivity. by rewrite Ew.
  - erewrite bind_run by reflexivity. by rewrite Ew.
Qed.

Lemma build_capacity_run c o :
  let l := entries_before (capacity_entry s) (j + 1) in
  exists t, build_capacity scope m id g c s o =
    Ok (g <| prev_build_range1 := total_weight l |> <| build_count1 := Z.of_nat (length l) |>, s <| mscores1 := t |>, o) /\
    holds_entries t scope l /\ (forall k, k.1 <> scope -> t !! k = mscores1 s !! k).
Proof.
  intros l. subst l. pose proof cap_bounds as [Hl Ht]. rewrite entries_before_step in * by (pose proof (wi_proc _ _ _ Hg); lia).
  rewrite total_weight_app, length_app in *. pose proof (wi_count1 _ _ _ Hg) as C. pose proof (wi_range1 _ _ _ Hg) as R.
  pose proof (wi_table1 _ _ _ Hg) as T. rewrite Hj in *. set (l := entries_before (capacity_entry s) j) in *.
  pose proof (capacity_entry_run g c o) as H. destruct (capacity_entry s j) as [[id' w]|].
  - destruct H as [-> ->]. cbn in Ht. rewrite R, C. cbn [total_weight foldr snd length].
    rewrite (u64_id (total_weight l + w)) by (unfold is_u64; lia). rewrite (u64_id (_ + 1)) by (unfold is_u64; lia).
    destruct (put_score_run mscores1 scope (Z.of_nat (length l) + 1) id (total_weight l + w) c s o) as (r & Hr & Hid & Hw).
    exists (<[(scope, Z.of_nat (length l) + 1) := r]> (mscores1 s)). erewrite bind_run by exact Hr. split.
    + unfold mret, M_ret. do 3 f_equal. cbn. f_equal; lia.
    + split; [by apply holds_entries_snoc|]. intros k Hk. rewrite lookup_insert_ne; [done|]. by intros <-.
  - exists (mscores1 s). rewrite H. cbn. rewrite app_nil_r, Z.add_0_r, Nat.add_0_r. split; [|done].
    rewrite <- R, <- C. by destruct g, s.
Qed.

(** Run after the capacity entry, in a state and with counters that differ from
    [s] and [g] only in the capacity part. *)
Lemma build_storage_run t1 g1 c o :
  prev_build_range2 g1 = prev_build_range2 g -> build_count2 g1 = build_count2 g ->
  let l := entries_before (storage_entry s) (j + 1) in
  exists t, build_storage scope m id g1 c (s <| mscores1 := t1 |>) o =
    Ok (g1 <| prev_build_range2 := total_weight l |> <| build_count2 := Z.of_nat (length l) |>,
        s <| mscores1 := t1 |> <| mscores2 := t |>, o) /\
    holds_entries t scope l /\ (forall k, k.1 <> scope -> t !! k = mscores2 s !! k).
Proof.
  intros E1 E2 l. subst l. pose proof sto_bounds as [Hl Ht].
  rewrite entries_before_step in * by (pose proof (wi_proc _ _ _ Hg); lia).
  rewrite total_weight_app, length_app in *. pose proof (wi_count2 _ _ _ Hg) as C. pose proof (wi_range2 _ _ _ Hg) as R.
  pose proof (wi_table2 _ _ _ Hg) as T. rewrite Hj in *. set (l := entries_before (storage_entry s) j) in *.
  assert (E : storage_entry s j = Some (id, storage_range m)) by (unfold storage_entry; by rewrite Hp).
  rewrite E in *. cbn [total_weight foldr snd length] in *. unfold build_storage. cbn beta zeta.
  cbn [prev_build_range2 build_count2 setf eta_mscore2ex]. rewrite E1, E2, R, C.
  rewrite (u64_id (total_weight l + _)) by (unfold is_u64; lia). rewrite (u64_id (_ + 1)) by (unfold is_u64; lia).
  destruct (put_score_run mscores2 scope (Z.of_nat (length l) + 1) id (total_weight l + storage_range m) c
    (s <| mscores1 := t1 |>) o) as (r & Hr & Hid & Hw).
  exists (<[(scope, Z.of_nat (length l) + 1) := r]> (mscores2 s)). erewrite bind_run by exact Hr. split.
  - unfold mret, M_ret. do 3 f_equal. cbn. f_equal; lia.
  - split; [by apply holds_entries_snoc|]. intros k Hk. rewrite lookup_insert_ne; [done|]. by intros <-.
Qed.
End slot.

(** One slot of the walk. *)
Lemma build_slot_run s scope g max c o :
  walk_inv s scope g -> build_proc_id g <= max -> walk_bounded s max ->
  exists g' s', build_slot scope g c s o = Ok (g', s', o) /\ only_scores scope s s' /\
    walk_inv s' scope (g' <| build_proc_id := build_proc_id g + 1 |>) /\
    build_proc_id g' = build_proc_id g /\ current_s g' = current_s g /\
    mscore1_s0_count g' = mscore1_s0_count g /\ mscore1_s1_count g' = mscore1_s1_count g /\
    mscore2_s0_count g' = mscore2_s0_count g /\ mscore2_s1_count g' = mscore2_s1_count g.
Proof.
  intros Hg Hm Hb. set (j := build_proc_id g).
  assert (Hnone : takes_part s j = None -> build_slot scope g c s o = Ok (g, s, o)).
  { unfold takes_part, build_slot. intros H. erewrite bind_run by reflexivity. fold j.
    destruct (miner2s s !! j) as [m2|]; [|done]. cbn in H. destruct (m2_minerid m2 =? 0); [done|].
    erewrite bind_run by reflexivity. destruct (miners s !! m2_minerid m2) as [m|]; [|done]. cbn in H.
    by destruct ((status m =? 0) && (0 <? m_max_space m)). }
  destruct (takes_part s j) as [[id m]|] eqn:Hp.
  2: { exists g, s. split; [by apply Hnone|]. split; [apply only_scores_refl|]. split; [|done].
       assert (Hc : capacity_entry s j = None) by (unfold capacity_entry; by rewrite Hp).
       assert (Hs : storage_entry s j = None) by (unfold storage_entry; by rewrite Hp).
       destruct Hg. split; cbn; rewrite ?entries_before_step, ?Hc, ?Hs, ?app_nil_r by lia; done || lia. }
  clear Hnone.
  destruct (build_capacity_run s scope g j max Hg eq_refl Hm Hb id m Hp c o) as (t1 & R1 & T1 & K1).
  set (l1 := entries_before (capacity_entry s) (j + 1)) in *.
  set (g1 := g <| prev_build_range1 := total_weight l1 |> <| build_count1 := Z.of_nat (length l1) |>) in *.
  destruct (build_storage_run s scope g j max Hg eq_refl Hm Hb id m Hp t1 g1 c o eq_refl eq_refl) as (t2 & R2 & T2 & K2).
  set (l2 := entries_before (storage_entry s) (j + 1)) in *.
  exists (g1 <| prev_build_range2 := total_weight l2 |> <| build_count2 := Z.of_nat (length l2) |>),
    (s <| mscores1 := t1 |> <| mscores2 := t2 |>). split.
  - unfold build_slot. erewrite bind_run by reflexivity. fold j. unfold takes_part in Hp.
    destruct (miner2s s !! j) as [m2|]; [|done]. cbn in Hp. destruct (m2_minerid m2 =? 0); [done|].
    erewrite bind_run by reflexivity. destruct (miners s !! m2_minerid m2) as [m'|]; [|done]. cbn in Hp.
    destruct ((status m' =? 0) && (0 <? m_max_space m')); [|done]. injection Hp as <- <-.
    erewrite bind_run by exact R1. exact R2.
  - split; [split; [done|]; intros k Hk; split; [by apply K1|by apply K2]|].
    split; [|done]. split; cbn; try done. pose proof (wi_proc _ _ _ Hg). lia.
Qed.

(** The walk over [n] slots: it stops at the end of the table with the copies
    switched, or [n] slots further. *)
Lemma build_slots_run n s scope g max c o :
  walk_inv s scope g -> build_proc_id g <= max -> walk_bounded s max ->
  exists g1 s', only_scores scope s s' /\ walk_inv s' scope g1 /\ current_s g1 = current_s g /\
    mscore1_s0_count g1 = mscore1_s0_count g /\ mscore1_s1_count g1 = mscore1_s1_count g /\
    mscore2_s0_count g1 = mscore2_s0_count g /\ mscore2_s1_count g1 = mscore2_s1_count g /\
    build_proc_id g1 = Z.min (build_proc_id g + Z.of_nat n) (max + 1) /\
    build_slots n scope max g c s o = Ok (if max <? build_proc_id g1 then build_done g1 else g1, s', o).
Proof.
  revert s g. induction n as [|n IH]; intros s g Hg Hm Hb; cbn [build_slots].
  { exists g, s. split; [apply only_scores_refl|]. do 6 (split; [done|]). split; [lia|].
    destruct (Z.ltb_spec max (build_proc_id g)); [lia|done]. }
  destruct (build_slot_run s scope g max c o Hg Hm Hb) as (g' & s1 & R & S1 & W & E0 & E1 & E2 & E3 & E4 & E5).
  erewrite bind_run by exact R. cbn beta zeta. rewrite E0.
  pose proof (wi_proc _ _ _ Hg). destruct Hb as (Hb1 & Hb2).
  rewrite u64_id by (unfold is_u64; lia). set (g1 := g' <| build_proc_id := build_proc_id g + 1 |>) in *.
  change (build_proc_id g1) with (build_proc_id g + 1). destruct (Z.ltb_spec max (build_proc_id g + 1)).
  - exists g1, s1. split; [done|]. split; [done|]. do 5 (split; [done|]).
    change (build_proc_id g1) with (build_proc_id g + 1). split; [lia|]. destruct (Z.ltb_spec max (build_proc_id g + 1)); [done|lia].
  - destruct (only_scores_entries _ _ _ S1) as [F1 F2].
    destruct (IH s1 g1 W ltac:(cbn; lia)) as (g2 & s2 & S2 & W2 & G1 & G2 & G3 & G4 & G5 & G6 & G7).
    { unfold walk_bounded. rewrite F1, F2. done. }
    exists g2, s2. split; [by eapply only_scores_trans|]. split; [done|].
    rewrite G1, G2, G3, G4, G5. do 5 (split; [done|]). split; [rewrite G6; cbn; lia|exact G7].
Qed.

(** ** The published copy *)

Definition read_count2 (g : mscore2ex) : Z := if current_s g =? 0 then mscore2_s0_count g else mscore2_s1_count g.

(** The copy that is read holds the entries of all [max] slots. *)
Definition published (s : hddpool) (g : mscore2ex) (max : Z) : Prop :=
  let l1 := entries_before (capacity_entry s) (max + 1) in
  let l2 := entries_before (storage_entry s) (max + 1) in
  holds_entries (mscores1 s) (read_scope g) l1 /\ read_count1 g = Z.of_nat (length l1) /\
  holds_entries (mscores2 s) (read_scope g) l2 /\ read_count2 g = Z.of_nat (length l2).

Lemma build_done_reads g :
  read_scope (build_done g) = build_scope g /\ read_count1 (build_done g) = build_count1 g /\
  read_count2 (build_done g) = build_count2 g.
Proof. unfold build_done, read_scope, build_scope, read_count1, read_count2. by destruct (current_s g =? 0). Qed.

Lemma read_build_scope g : read_scope g <> build_scope g.
Proof. unfold read_scope, build_scope. destruct (current_s g =? 0); vm_compute; discriminate. Qed.

Lemma walk_fresh s scope g : build_proc_id g = 1 -> build_count1 g = 0 -> prev_build_range1 g = 0 ->
  build_count2 g = 0 -> prev_build_range2 g = 0 -> walk_inv s scope g.
Proof. intros E1 E2 E3 E4 E5. split; rewrite E1; rewrite ?E2, ?E3, ?E4, ?E5; try done; intros i id w; by rewrite lookup_nil. Qed.

Lemma build_done_fresh s scope g : walk_inv s scope (build_done g).
Proof. apply walk_fresh; unfold build_done; by destruct (current_s g =? 0). Qed.

(** C23: [onbuild] builds the probability tables.  Take a call in the middle of a walk whose
    entries so far are in the copy under construction ([walk_inv], which holds at the
    start of a walk), with the parameters and the miner tables set up, the contract's own
    authority, fewer than 2^32 slots, and the weights of all miners of each of the two
    tables adding up to less than 2^64 ([walk_bounded]).  It succeeds, leaves the miners as they are
    and processes the next three slots.  Either the walk goes on from there, with the
    entries of all slots before it written to the copy under construction, and the copy
    that is read untouched, in both the capacity and the storage table, with its number of
    entries; or, at the end of the table, the copies are switched, the copy that is now
    read holds the entries of every participating miner in slot order with the sums of
    their weights, in both tables, and a new walk begins.  So a walk over n slots ends after n/3 calls, rounded
    up, if no miner changes meanwhile. *)
Theorem onbuild_walks slot c s o np ex :
  let g := default mscore2ex0 (mscore2ex1 s) in
  let max := max_table_count ex in
  newmparama s = Some np -> miner2ex1 s = Some ex -> has_auth c (self c) = true ->
  walk_inv s (build_scope g) g -> build_proc_id g <= max -> walk_bounded s max ->
  exists s' g', onbuild slot c s o = Ok (tt, s', o) /\ mscore2ex1 s' = Some g' /\
    capacity_entry s' = capacity_entry s /\ storage_entry s' = storage_entry s /\
    walk_inv s' (build_scope g') g' /\
    if build_proc_id g + 3 <=? max then
      build_proc_id g' = build_proc_id g + 3 /\ read_scope g' = read_scope g /\ read_count1 g' = read_count1 g /\
      read_count2 g' = read_count2 g /\
      (forall i, mscores1 s' !! (read_scope g, i) = mscores1 s !! (read_scope g, i) /\ mscores2 s' !! (read_scope g, i) = mscores2 s !! (read_scope g, i))
    else build_proc_id g' = 1 /\ published s' g' max.
Proof.
  intros g max Hnp Hex Ha Hw Hm Hb. unfold onbuild.
  erewrite bind_run by reflexivity. erewrite bind_run by (by apply require_auth_run).
  erewrite bind_run by (unfold sget, gets; rewrite Hnp; reflexivity). cbn beta iota.
  erewrite bind_run by reflexivity. set (np' := np <| last_build_slot := slot |> <| span_build_slot := 2 |>).
  set (s0 := s <| newmparama := Some np' |>). change (setf newmparama (Some np') s) with s0.
  erewrite bind_run by (unfold sget, gets; cbn; rewrite Hex; reflexivity). cbn beta iota.
  erewrite bind_run by reflexivity. change (mscore2ex1 s0) with (mscore2ex1 s). fold g. fold max.
  destruct (Z.ltb_spec max (build_proc_id g)); [lia|].
  destruct (build_slots_run 3 s0 (build_scope g) g max c o) as
    (g1 & s1 & [S1 K1] & W & C0 & C1 & C2 & C3 & C4 & P & R); [destruct Hw; by split|done|exact Hb|].
  erewrite bind_run by exact R.
  assert (Ec : capacity_entry s1 = capacity_entry s /\ storage_entry s1 = storage_entry s) by (rewrite S1; done).
  assert (Es : build_scope g1 = build_scope g) by (unfold build_scope; by rewrite C0).
  eexists _, _. split; [reflexivity|]. split; [reflexivity|]. cbn [capacity_entry storage_entry].
  destruct Ec as [Ec1 Ec2]. split; [exact Ec1|]. split; [exact Ec2|].
  pose proof (wi_proc _ _ _ Hw). change (Z.of_nat 3) with 3 in P.
  destruct (Z.ltb_spec max (build_proc_id g1)), (Z.leb_spec (build_proc_id g + 3) max); try lia.
  - split; [apply build_done_fresh|]. split; [unfold build_done; by destruct (current_s g1 =? 0)|].
    destruct (build_done_reads g1) as (E1 & E2 & E3). unfold published. rewrite E1, E2, E3, Es.
    change (capacity_entry (setf mscore2ex1 _ s1)) with (capacity_entry s1).
    change (storage_entry (setf mscore2ex1 _ s1)) with (storage_entry s1).
    assert (Hp : build_proc_id g1 = max + 1) by lia. rewrite <- Hp. destruct W; done.
  - split; [rewrite Es; destruct W; by split|]. split; [lia|].
    unfold read_scope, read_count1, read_count2. rewrite C0, C1, C2, C3, C4. split; [done|]. split; [done|]. split; [done|].
    intros i. fold (read_scope g). apply (K1 (read_scope g, i)). apply read_build_scope.
Qed.

(** Three miners in four slots: slot 2 is free, and slot 4 holds a miner that is
    switched off. *)
Definition build_demo : hddpool :=
  let mk id max space lvl st := mkMiner id (N "alice") (N "alice") (N "pool") max space 0 0 0 0 0 lvl st in
  hddpool_init
    <| miner2s := {[ 1 := mkMiner2 1 7 0; 2 := mkMiner2 2 0 5; 3 := mkMiner2 3 8 0; 4 := mkMiner2 4 9 0 ]} |>
    <| miner2ex1 := Some (mkMiner2ex 2 4 3) |>
    <| miners := {[ 7 := mk 7 (200 * 65536) (3 * 65536) 66438 0; 8 := mk 8 (100 * 65536) 0 89657 0;
                    9 := mk 9 (100 * 65536) 0 66438 1 ]} |>
    <| newmparama := Some newmparam0 |>.

Lemma build_demo_bounded : walk_bounded build_demo 4.
Proof. split; [done|]. split; vm_compute; reflexivity. Qed.

Lemma onbuild_walks_witness :
  exists s' g', onbuild 100 (ctx_of (N "hddpool12345") [N "hddpool12345"] 0) build_demo no_out = Ok (tt, s', no_out) /\
    mscore2ex1 s' = Some g' /\ walk_inv s' (build_scope g') g' /\ build_proc_id g' = 4.
Proof.
  destruct (onbuild_walks 100 (ctx_of (N "hddpool12345") [N "hddpool12345"] 0) build_demo no_out newmparam0 (mkMiner2ex 2 4 3))
    as (s' & g' & H1 & H2 & _ & _ & H3 & H4 & _);
    [reflexivity|reflexivity|vm_compute; reflexivity|by apply walk_fresh|by vm_compute|exact build_demo_bounded|].
  exists s', g'. split; [exact H1|]. split; [exact H2|]. split; [exact H3|exact H4].
Defined.

(** ** A published table is drawn from fairly *)

Lemma take_weight_S (l : list (Z * Z)) i id w : l !! i = Some (id, w) ->
  total_weight (take (S i) l) = total_weight (take i l) + w.
Proof. intros Hi. erewrite take_S_r by exact Hi. rewrite total_weight_app. cbn. lia. Qed.

Lemma holds_table_ok t scope l : holds_entries t scope l -> Forall (fun iw => fst iw <> 0 /\ 0 < snd iw) l ->
  table_ok (fun i => t !! (scope, i)) (Z.of_nat (length l)) (fun i => total_weight (take (Z.to_nat i) l)).
Proof.
  intros Hh Hl. split.
  - intros i Hi. destruct (lookup_lt_is_Some_2 l (Z.to_nat i - 1)) as [[id w] Hi']; [lia|].
    destruct (Hh _ _ _ Hi') as (r & Hr & Hid & Hw). exists r.
    replace (Z.of_nat (Z.to_nat i - 1) + 1) with i in Hr by lia.
    replace (S (Z.to_nat i - 1)) with (Z.to_nat i) in Hw by lia.
    rewrite Forall_lookup in Hl. apply Hl in Hi' as [Hne _]. cbn in Hne. rewrite Hid. done.
  - intros i j H1 Hij Hj. assert (Hle : forall k, (Z.to_nat i + k < length l)%nat ->
      total_weight (take (Z.to_nat i) l) < total_weight (take (Z.to_nat i + S k) l)).
    { induction k as [|k IH]; intros Hk.
      - destruct (lookup_lt_is_Some_2 l (Z.to_nat i)) as [[id w] Hw]; [lia|].
        replace (Z.to_nat i + 1)%nat with (S (Z.to_nat i)) by lia. rewrite (take_weight_S _ _ _ _ Hw).
        rewrite Forall_lookup in Hl. apply Hl in Hw. cbn in Hw. lia.
      - destruct (lookup_lt_is_Some_2 l (Z.to_nat i + S k)) as [[id w] Hw]; [lia|].
        replace (Z.to_nat i + S (S k))%nat with (S (Z.to_nat i + S k)) by lia. rewrite (take_weight_S _ _ _ _ Hw).
        rewrite Forall_lookup in Hl. apply Hl in Hw. cbn in Hw. specialize (IH ltac:(lia)). lia. }
    specialize (Hle (Z.to_nat (j - i - 1)) ltac:(lia)).
    by replace (Z.to_nat i + S (Z.to_nat (j - i - 1)))%nat with (Z.to_nat j) in Hle by lia.
Qed.

Lemma capacity_entries_ok s j : Forall (fun iw => fst iw <> 0 /\ 0 < snd iw) (entries_before (capacity_entry s) j).
Proof.
  apply Forall_forall. intros [id w] Hin. apply list_elem_of_omap in Hin as (i & _ & Hi).
  split; [|by eapply capacity_entry_pos]. unfold capacity_entry, takes_part in Hi. cbn.
  destruct (miner2s s !! i) as [m2|]; [|done]. cbn in Hi. destruct (Z.eqb_spec (m2_minerid m2) 0); [done|].
  destruct (miners s !! m2_minerid m2) as [m|]; [|done]. cbn in Hi.
  destruct ((status m =? 0) && (0 <? m_max_space m)); [|done]. cbn in Hi.
  destruct (0 <? real_space_gb m); [|done]. destruct (capacity_range m) as [z|]; [|done].
  destruct (0 <? z); [|done]. congruence.
Qed.

(** C26: Capacity rewards are drawn in proportion to capacity.  Let the copy of the table that is
    read be the one that a complete walk published, with 1 to 2^19 - 1 capacity entries
    whose weights add up to less than 2^64, and let the miners be as they were during the
    walk.  If the contract itself signs, the reward is an amount a token can have, no
    deferred transaction of this slot is pending and the node accepts the deferred payment,
    [rewardproc1] pays: it queues one deferred payment of the reward, to the
    miner of the entry in whose interval random mod (sum of all weights) falls, the
    intervals being consecutive and each as long as the weight of its miner. *)
Theorem capacity_draw_fair g max random slot reward d c s o :
  let l := entries_before (capacity_entry s) (max + 1) in
  mscore2ex1 s = Some g -> published s g max -> 1 <= Z.of_nat (length l) < 2^19 -> total_weight l < 2^64 ->
  is_u64 random -> - max_amount <= reward <= max_amount ->
  has_auth c (self c) = true -> none_pending (self c) slot o -> (forall id, may_defer c (reward_payment (self c) slot reward id d) = true) ->
  exists i id w, l !! i = Some (id, w) /\
    total_weight (take i l) <= random mod total_weight l < total_weight (take i l) + w /\
    rewardproc1 random slot reward d c s o =
      Ok (tt, s, o <| deferreds := deferreds o ++ [reward_payment (self c) slot reward id d] |>).
Proof.
  intros l Hg (Hh & Hc & _) Hlen Htot Hr Hrew Ha Hd Hmay. fold l in Hh, Hc.
  pose proof (holds_table_ok _ _ _ Hh (capacity_entries_ok s (max + 1))) as Ht. rewrite <- Hc in *.
  assert (Hall : total_weight (take (Z.to_nat (read_count1 g)) l) = total_weight l) by (rewrite take_ge; [done|lia]).
  assert (Hpos : 0 < total_weight l).
  { destruct l as [|[id w] l'] eqn:El; [cbn in *; lia|]. pose proof (capacity_entries_ok s (max + 1)) as Hf.
    fold l in Hf. rewrite El in Hf. apply Forall_cons in Hf as [[_ Hw] Hf]. cbn in *.
    enough (0 <= total_weight l') by (unfold total_weight in *; lia). apply total_weight_nonneg.
    unfold weights_nonneg. eapply Forall_impl; [exact Hf|]. cbn. lia. }
  destruct (rewardproc1_draws g _ random slot reward d c s o Hg Ht) as (i & row & (Hi & Hx & Hlt) & Hrow & Hrun);
    [lia|cbn beta; lia|done..|].
  rewrite Hall in *. destruct (lookup_lt_is_Some_2 l (Z.to_nat i - 1)) as [[id w] Hiw]; [lia|].
  destruct (Hh _ _ _ Hiw) as (row' & Hrow' & Hid & _).
  replace (Z.of_nat (Z.to_nat i - 1) + 1) with i in Hrow' by lia. rewrite Hrow in Hrow'. injection Hrow' as <-.
  exists (Z.to_nat i - 1)%nat, id, w. split; [done|]. split; [|by rewrite Hrun, Hid].
  pose proof (take_weight_S _ _ _ _ Hiw) as Hs. replace (S (Z.to_nat i - 1)) with (Z.to_nat i) in Hs by lia.
  pose proof (Z.mod_pos_bound random (total_weight l) Hpos). split; [|lia].
  destruct (decide (i = 1)) as [->|]; [change (total_weight (take (Z.to_nat 1 - 1) l)) with 0; lia|]. specialize (Hlt (i - 1) ltac:(lia)).
  replace (Z.to_nat (i - 1)) with (Z.to_nat i - 1)%nat in Hlt by lia. lia.
Qed.

(** The state after two builds of [build_demo]. *)
Definition draw_demo : hddpool :=
  let build s := match onbuild 100 (ctx_of (N "hddpool12345") [N "hddpool12345"] 0) s no_out with
                 | Ok (_, s', _) => s' | Err _ => s end in
  build (build build_demo).

Definition draw_demo_ex : mscore2ex := mkMscore2ex 0 2 0 2 1 0 0 0 0 1.

Lemma draw_demo_published : published draw_demo draw_demo_ex 4.
Proof.
  unfold published. cbv zeta.
  assert (E1 : entries_before (capacity_entry draw_demo) (4 + 1) = [(7, 132876); (8, 89657)]) by (vm_compute; reflexivity).
  assert (E2 : entries_before (storage_entry draw_demo) (4 + 1) = [(7, 9); (8, 3)]) by (vm_compute; reflexivity).
  rewrite E1, E2. clear E1 E2. split; [|split; [done|split; [|done]]].
  all: intros [|[|i]] id w H; [| |done]; injection H as <- <-; eexists; (split; [vm_compute; reflexivity|done]).
Qed.

Lemma capacity_draw_fair_witness :
  rewardproc1 1000132876 55 300 true (ctx_of (N "hddpool12345") [N "hddpool12345"] 0) draw_demo no_out =
    Ok (tt, draw_demo, no_out <| deferreds := [reward_payment (N "hddpool12345") 55 300 7 true] |>).
Proof.
  assert (Hp : none_pending (N "hddpool12345") 55 no_out) by (unfold none_pending; intros d' Hd'; inversion Hd').
  assert (Hd : forall id, may_defer (ctx_of (N "hddpool12345") [N "hddpool12345"] 0) (reward_payment (N "hddpool12345") 55 300 id true) = true) by (intros id; reflexivity).
  assert (E1 : entries_before (capacity_entry draw_demo) (4 + 1) = [(7, 132876); (8, 89657)]) by (vm_compute; reflexivity).
  destruct (capacity_draw_fair draw_demo_ex 4 1000132876 55 300 true (ctx_of (N "hddpool12345") [N "hddpool12345"] 0) draw_demo no_out)
    as (i & id & w & Hi & Hr & Hrun); [vm_compute; reflexivity|exact draw_demo_published|rewrite E1; cbn; lia|rewrite E1; clear E1; done|
      clear E1; by vm_compute|clear E1; by vm_compute|clear E1; by vm_compute|exact Hp|exact Hd|].
  rewrite E1 in Hi, Hr. clear E1. assert (Hid : id = 7).
  { clear Hrun. destruct i as [|[|i]]; [by injection Hi| |done]. injection Hi as <- <-. exfalso. destruct Hr as [Hr _]. apply Hr. by vm_compute. }
  rewrite Hid in Hrun. exact Hrun.
Defined.
