(* ===== verification/HddPool.v ===== *)
(** * hddpool: the actions of the contract

    The dispatcher of contracts/hddpool/hddpool.cpp (EOSIO_ABI) over the handlers
    of PoolBalance, PoolMiner, PoolParams and PoolReward, each run between the
    constructor and the destructor of the contract object.  An action carries the
    views of the other contracts its handler reads. *)

From S2P Require Import Prelude Float64 Names Asset Chain Views PoolTables PoolBalance PoolMiner PoolParams PoolReward.
#[local] Open Scope Z_scope.

Inductive pool_action :=
| POnbuild (slot : Z)
| POnreward (TV : TokenView) (slot : Z)
| PPayrewardnew (DV : DepositView) (CV : ChannelView) (type : Z) (quant : asset) (minerid : Z) (is_destory : bool)
| PChannellog (type : Z) (quant : asset) (minerid : Z) (gas : asset) (owner : name)
| PChannelfail (type : Z) (quant : asset) (minerid : Z) (gas : asset) (owner : name)
| PGetbalance (SV : SystemView) (user : name) (acc_type : Z) (caller : name)
| PBuyhdd (from receiver : name) (amount : Z) (memo : string)
| PTranshdds (from to : name) (amount : Z) (memo : string)
| PSellhdd (user : name) (amount : Z) (memo : string)
| PSethfee (SV : SystemView) (user : name) (fee : Z) (caller : name)
| PSubbalance (SV : SystemView) (user : name) (balance acc_type : Z) (caller : name)
| PAddhspace (SV : SystemView) (user : name) (space : Z) (caller : name)
| PSubhspace (SV : SystemView) (user : name) (space : Z) (caller : name)
| PAddmprofit (SV : SystemView) (owner : name) (minerid space : Z) (caller : name)
| PDelminer (SV : SystemView) (minerid acc_type : Z) (caller : name)
| PCalcmbalance (owner : name) (minerid : Z)
| PDelstrpool (poolid : name)
| PRegstrpool (pool_id pool_owner : name)
| PChgpoolspace (pool_id : name) (is_increase : bool) (delta_space : Z)
| PNewminer (minerid : Z) (adminacc dep_acc : name) (dep_amount : asset)
| PAddm2pool (DV : DepositView) (minerid : Z) (pool_id minerowner : name) (max_space : Z)
| PSubmprofit (SV : SystemView) (owner : name) (minerid space : Z) (caller : name)
| PRegminer (DV : DepositView) (minerid : Z) (adminacc dep_acc pool_id minerowner : name) (max_space : Z)
    (dep_amount : asset) (is_calc : bool)
| PMlevel (SV : SystemView) (minerid lvl : Z) (caller : name)
| PMrspace (SV : SystemView) (minerid rspace : Z) (caller : name)
| PStartnewm
| PMchgspace (DV : DepositView) (minerid max_space : Z)
| PMincdeposit (DV : DepositView) (minerid space : Z) (dep_amount : asset) (is_calc : bool)
| PMchgstrpool (minerid : Z) (new_poolid : name)
| PMchgadminacc (minerid : Z) (new_adminacc : name)
| PMchgowneracc (minerid : Z) (new_owneracc : name)
| PCalcprofit (user : name)
| PFixownspace (owner : name) (space : Z)
| POldsync (minerid : Z)
| PMdeactive (SV : SystemView) (owner : name) (minerid : Z) (caller : name)
| PMactive (SV : SystemView) (owner : name) (minerid : Z) (caller : name)
| PSethddprice (price : Z)
| PSetusdprice (price acc_type : Z)
| PSetytaprice (price acc_type : Z)
| PSetdrratio (ratio acc_type : Z)
| PSetdrdratio (ratio : Z)
| PAddhddcnt (count acc_type : Z).

Definition pool_handler (pow : f64 -> f64 -> f64) (a : pool_action) : M hddpool unit :=
  match a with
  | POnbuild slot => onbuild slot
  | POnreward _ slot => onreward pow slot
  | PPayrewardnew _ _ type quant minerid d => payrewardnew type quant minerid d
  | PChannellog type quant minerid gas owner => channellog type quant minerid gas owner
  | PChannelfail type quant minerid gas owner => channelfail type quant minerid gas owner
  | PGetbalance _ user acc_type caller => getbalance user acc_type caller
  | PBuyhdd from receiver amount memo => buyhdd from receiver amount memo
  | PTranshdds from to amount memo => transhdds from to amount memo
  | PSellhdd user amount memo => sellhdd user amount memo
  | PSethfee _ user fee caller => sethfee user fee caller
  | PSubbalance _ user balance acc_type caller => subbalance user balance acc_type caller
  | PAddhspace _ user space caller => addhspace user space caller
  | PSubhspace _ user space caller => subhspace user space caller
  | PAddmprofit _ owner minerid space caller => addmprofit owner minerid space caller
  | PDelminer _ minerid acc_type caller => delminer minerid acc_type caller
  | PCalcmbalance owner minerid => calcmbalance owner minerid
  | PDelstrpool poolid => delstrpool poolid
  | PRegstrpool pool_id pool_owner => regstrpool pool_id pool_owner
  | PChgpoolspace pool_id inc delta => chgpoolspace pool_id inc delta
  | PNewminer minerid adminacc dep_acc dep_amount => newminer minerid adminacc dep_acc dep_amount
  | PAddm2pool _ minerid pool_id minerowner max_space => addm2pool minerid pool_id minerowner max_space
  | PSubmprofit _ owner minerid space caller => submprofit owner minerid space caller
  | PRegminer _ minerid adminacc dep_acc pool_id minerowner max_space dep_amount is_calc =>
      regminer minerid adminacc dep_acc pool_id minerowner max_space dep_amount is_calc
  | PMlevel _ minerid lvl caller => mlevel minerid lvl caller
  | PMrspace _ minerid rspace caller => mrspace minerid rspace caller
  | PStartnewm => startnewm pow
  | PMchgspace _ minerid max_space => mchgspace minerid max_space
  | PMincdeposit _ minerid space dep_amount is_calc => mincdeposit minerid space dep_amount is_calc
  | PMchgstrpool minerid new_poolid => mchgstrpool minerid new_poolid
  | PMchgadminacc minerid new_adminacc => mchgadminacc minerid new_adminacc
  | PMchgowneracc minerid new_owneracc => mchgowneracc minerid new_owneracc
  | PCalcprofit user => calcprofit user
  | PFixownspace owner space => fixownspace owner space
  | POldsync minerid => oldsync minerid
  | PMdeactive _ owner minerid caller => mdeactive owner minerid caller
  | PMactive _ owner minerid caller => mactive owner minerid caller
  | PSethddprice price => sethddprice price
  | PSetusdprice price acc_type => setusdprice price acc_type
  | PSetytaprice price acc_type => setytaprice price acc_type
  | PSetdrratio ratio acc_type => setdrratio ratio acc_type
  | PSetdrdratio ratio => setdrdratio ratio
  | PAddhddcnt count acc_type => addhddcnt count acc_type
  end.

Definition pool_apply (pow : f64 -> f64 -> f64) (a : pool_action) : M hddpool unit := in_object (pool_handler pow a).
