(* ===== verification/Fleet.v ===== *)
(** * hddpool: the fleet of miners and its books

    The actions on miners keep four tables, a counter and the owners' totals in
    step.  The specification forgets all that is derived: a fleet is the list of
    storage pools with their quotas and the list of miners with owner,
    administrator, pool, capacity, used space and whether it earns.
    [fleet_apply] says what each action does to a fleet, and [fleet_rel] how the
    tables of hddpool represent one: the free space of a pool is its quota minus
    the capacities of its miners, the production space of an owner is the used
    space of its earning miners, the counter is the capacity of all miners, and
    so on.  The refinement theorem says that every successful action does to the
    tables what the specification does to the fleet. *)

From S2P Require Import Prelude Float64 Names Asset Chain Views PoolTables PoolSlots PoolBalance PoolMiner PoolParams PoolReward HddPool.
#[local] Open Scope Z_scope.

(** ** Fleets *)

Record machine := mkMachine {
  a_owner : name;
  a_admin : name;
  a_pool : name;
  a_max : Z;          (* capacity, in slices of 16 KiB *)
  a_used : Z;         (* purchased space *)
  a_on : bool         (* has a profit per cycle *)
}.
#[export] Instance eta_machine : Eta machine := fun a =>
  mkMachine (a_owner a) (a_admin a) (a_pool a) (a_max a) (a_used a) (a_on a).

Record fleet := mkFleet {
  quotas : gmap name (name * Z);     (* owner and quota of a storage pool *)
  machines : gmap Z machine;
  regs : Z                           (* registrations so far *)
}.
#[export] Instance eta_fleet : Eta fleet := fun f => mkFleet (quotas f) (machines f) (regs f).

Definition in_pool (p : name) (a : machine) : Z := if a_pool a =? p then a_max a else 0.
Definition earns_for (o : name) (a : machine) : Z := if (a_owner a =? o) && a_on a then a_used a else 0.

(** The space of a pool that is taken, the space an owner earns for, the
    capacity of the fleet in GB. *)
Definition pool_used (f : fleet) (p : name) : Z := map_sum (fun _ a => in_pool p a) (machines f).
Definition owner_used (f : fleet) (o : name) : Z := map_sum (fun _ a => earns_for o a) (machines f).
Definition fleet_gb (f : fleet) : Z := map_sum (fun _ a => a_max a / 65536) (machines f).

Definition set_machine (id : Z) (a : machine) (f : fleet) : fleet := f <| machines := <[id := a]> (machines f) |>.
Definition add_machine (id : Z) (a : machine) (f : fleet) : fleet := set_machine id a f <| regs := regs f + 1 |>.

(** An owner other than ecologyfound earns for at most [max_profit_space]. *)
Definition owner_fits (f : fleet) (o : name) : bool := (o =? ecologyfound_acc) || (owner_used f o <=? max_profit_space).

Definition keep_if (b : bool) (f : fleet) : option fleet := if b then Some f else None.

Definition fleet_register (id : Z) (adm p o : name) (mx : Z) (f : fleet) : option fleet :=
  match quotas f !! p, machines f !! id with
  | Some (_, q), None =>
      let f' := add_machine id (mkMachine o adm p mx 0 false) f in
      keep_if ((0 <? id) && slice_aligned mx && (min_miner_space <=? mx) && (mx <=? max_miner_space) &&
               (pool_used f' p <=? q)) f'
  | _, _ => None
  end.

(** Changing a machine, with a condition on the old one and the new fleet. *)
Definition fleet_change (id : Z) (g : machine -> machine) (ok : machine -> fleet -> bool) (f : fleet) : option fleet :=
  match machines f !! id with
  | Some a => let f' := set_machine id (g a) f in keep_if (ok a f') f'
  | None => None
  end.

Definition fleet_apply (act : pool_action) (f : fleet) : option fleet :=
  match act with
  | PRegstrpool p o =>
      keep_if (match quotas f !! p with None => true | Some _ => false end)
        (f <| quotas := <[p := (o, max_pool_space)]> (quotas f) |>)
  | PDelstrpool p =>
      match quotas f !! p with
      | None => Some f
      | Some _ => keep_if (pool_used f p =? 0) (f <| quotas := delete p (quotas f) |>)
      end
  | PChgpoolspace p inc d =>
      match quotas f !! p with
      | None => None
      | Some (o, q) =>
          let q' := if inc then u64 (q + d) else if d <? q then q - d else 0 in
          keep_if ((q' <=? max_pool_space) && (pool_used f p <=? q')) (f <| quotas := <[p := (o, q')]> (quotas f) |>)
      end
  | PRegminer _ id adm _ p o mx _ _ => fleet_register id adm p o mx f
  | PDelminer _ id t _ =>
      match machines f !! id with
      | Some _ => keep_if (negb (t =? 1) && negb (t =? 2)) (f <| machines := delete id (machines f) |>)
      | None => None
      end
  | PAddmprofit _ _ id d _ =>
      fleet_change id (fun a => a <| a_used := a_used a + d |> <| a_on := 0 <? a_used a + d |>)
        (fun a f' => slice_aligned d && ((a_used a =? 0) || a_on a) && (a_used a + d <=? a_max a) && owner_fits f' (a_owner a)) f
  | PSubmprofit _ _ id d _ =>
      fleet_change id (fun a => a <| a_used := a_used a - d |> <| a_on := a_on a && (0 <? a_used a - d) |>)
        (fun a f' => slice_aligned d && (d <=? a_used a)) f
  | PMdeactive _ _ id _ =>
      fleet_change id (fun a => a <| a_on := false |>) (fun a f' => (a_used a =? 0) || a_on a) f
  | PMactive _ _ id _ =>
      fleet_change id (fun a => a <| a_on := 0 <? a_used a |>) (fun a f' => negb (a_on a) && owner_fits f' (a_owner a)) f
  | PMincdeposit _ id d _ _ =>
      fleet_change id (fun a => a <| a_max := a_max a + d |>)
        (fun a f' => slice_aligned d && (a_max a + d <=? max_miner_space) &&
                     match quotas f' !! a_pool a with Some (_, q) => pool_used f' (a_pool a) <=? q | None => false end) f
  | PMchgstrpool id p =>
      fleet_change id (fun a => a <| a_pool := p |>)
        (fun a f' => match quotas f' !! p with Some (_, q) => pool_used f' p <=? q | None => false end) f
  | PMchgadminacc id adm => fleet_change id (fun a => a <| a_admin := adm |>) (fun a f' => true) f
  | PMchgowneracc id o =>
      fleet_change id (fun a => a <| a_owner := o |>) (fun a f' => negb (a_owner a =? o) && owner_fits f' o) f
  | PNewminer _ _ _ _ | PAddm2pool _ _ _ _ _ | PMchgspace _ _ _ | PFixownspace _ _ | PCalcmbalance _ _ => None
  | POldsync _ => None
  | _ => Some f
  end.

(** ** Representation *)

Definition machine_ok (id : Z) (a : machine) : Prop :=
  0 < id /\ a_owner a <> 0 /\ (65536 | a_max a) /\ (65536 | a_used a) /\
  min_miner_space <= a_max a <= max_miner_space /\ 0 <= a_used a <= a_max a /\ (a_on a = true -> 0 < a_used a).

Record fleet_ok (f : fleet) : Prop := {
  fo_machine id a : machines f !! id = Some a -> machine_ok id a;
  fo_pool id a : machines f !! id = Some a -> is_Some (quotas f !! a_pool a);
  fo_named : quotas f !! 0 = None;
  fo_quota p o q : quotas f !! p = Some (o, q) -> pool_used f p <= q <= max_pool_space;
  fo_owner o : o <> ecologyfound_acc -> owner_used f o <= max_profit_space
}.

Definition pool_row (f : fleet) (p : name) (oq : name * Z) : storepool :=
  mkStorepool p (fst oq) (snd oq) (snd oq - pool_used f p).

Definition info_row (id : Z) (a : machine) : minerinfo :=
  mkMinerinfo id (a_owner a) (a_admin a) (a_pool a) (a_max a) (a_max a - a_used a).

Definition earning (a : machine) (profit : Z) : Prop :=
  if a_on a then 0 < profit /\ cycle_profit (a_used a) = Ok profit else profit = 0.

Definition row_matches (id : Z) (a : machine) (m : miner) : Prop :=
  m_owner m = a_owner a /\ m_admin m = a_admin a /\ m_pool_id m = a_pool a /\
  m_max_space m = a_max a /\ m_space m = a_used a.

(** The tables, one by one. *)
Definition pools_rel (f : fleet) (t : gmap name storepool) : Prop :=
  forall p, t !! p = pool_row f p <$> quotas f !! p.

Definition infos_rel (f : fleet) (t : gmap Z minerinfo) : Prop :=
  forall id, t !! id = info_row id <$> machines f !! id.

Definition accounts_rel (f : fleet) (t : gmap (name * Z) maccount) : Prop :=
  forall o id, match t !! (o, id) with
    | Some ma => exists a, machines f !! id = Some a /\ a_owner a = o /\ ma_space ma = a_used a /\ earning a (ma_per_cycle_profit ma)
    | None => forall a, machines f !! id = Some a -> a_owner a <> o
    end.

Definition rows_rel (f : fleet) (slots : gmap Z Z) (t : gmap Z miner) : Prop :=
  (forall id, match t !! id with
    | Some m => exists a, machines f !! id = Some a /\ row_matches id a m /\ internal_id m <> 0 /\ slots !! internal_id m = Some id
    | None => machines f !! id = None
    end) /\
  (forall i id, slots !! i = Some id -> exists m, t !! id = Some m /\ internal_id m = i).

(** What a user's row says of production: space and profit per cycle. *)
Definition space_of (t : gmap name userhdd) (o : name) : option (Z * Z) :=
  (fun u => (hdd_space_profit u, u_per_cycle_profit u)) <$> t !! o.

Definition users_rel (f : fleet) (t : gmap name userhdd) : Prop :=
  (forall id a, machines f !! id = Some a -> is_Some (space_of t (a_owner a))) /\
  (forall o sp pr, space_of t o = Some (sp, pr) ->
    sp = (if o =? ecologyfound_acc then 0 else owner_used f o) /\ cycle_profit sp = Ok pr).

Record fleet_rel (s : hddpool) (f : fleet) : Prop := {
  fr_ok : fleet_ok f;
  fr_pools : pools_rel f (storepools s);
  fr_infos : infos_rel f (minerinfos s);
  fr_accounts : accounts_rel f (maccounts s);
  fr_rows : rows_rel f (slots_of s) (miners s);
  fr_slots : slots_ok s;
  fr_users : users_rel f (userhdds s);
  fr_total : default 0 (counterstat1 s) = fleet_gb f;
  fr_regs : max_table_count (slot_meta s) <= regs f
}.

Definition fleet_init : fleet := mkFleet ∅ ∅ 0.

(** ** Arithmetic *)

Lemma slice_aligned_iff d : slice_aligned d = true <-> (65536 | d).
Proof.
  unfold slice_aligned. change 65535 with (Z.ones 16). rewrite Z.land_ones by lia. change (2^16) with 65536.
  rewrite Z.eqb_eq. apply Z.mod_divide. lia.
Qed.

(** The profit per day of a space is space / 65536 / 365 * 10^8, rounded down
    after an error of at most 8 parts in 2^52; it is positive for a GB or more. *)
Lemma cycle_profit_spec sp : 0 <= sp <= max_pool_space ->
  exists z, cycle_profit sp = Ok z /\ floor_upto 8 (sp * 100000000) (65536 * 365) z.
Proof.
  intros Hsp. unfold max_pool_space, one_gb in Hsp. unfold cycle_profit.
  change (fl one_gb) with (fl 65536). change (fl fee_cycle) with (fl 86400000).
  change (fl milliseconds_in_one_year) with (fl 31536000000).
  pose proof (frac_div _ _ _ _ _ _ _ _ (frac_exact 86400000 ltac:(lia)) (frac_exact 31536000000 ltac:(lia))
    ltac:(lia) ltac:(lia) ltac:(lia)) as H2.
  apply (frac_norm 1 365) in H2; [|lia].
  destruct (decide (sp = 0)) as [->|].
  { exists 0. split; [|unfold floor_upto; lia]. rewrite fl_0.
    rewrite (frac_div_zero _ _ _ _ (frac_exact 65536 ltac:(lia))), (frac_mul_zero_l _ _ _ _ H2),
      (frac_mul_zero_l _ _ _ _ (frac_exact 100000000 ltac:(lia))). apply f64_trunc_zero. }
  pose proof (frac_div _ _ _ _ _ _ _ _ (frac_exact sp ltac:(lia)) (frac_exact 65536 ltac:(lia)) ltac:(lia) ltac:(lia) ltac:(lia)) as H1.
  pose proof (frac_mul _ _ _ _ _ _ _ _ H1 H2 ltac:(lia) ltac:(lia) ltac:(lia)) as H3.
  pose proof (frac_mul _ _ _ _ _ _ _ _ H3 (frac_exact 100000000 ltac:(lia)) ltac:(lia) ltac:(lia) ltac:(lia)) as H4.
  apply (frac_norm (sp * 100000000) (65536 * 365)) in H4; [|lia].
  destruct (frac_floor _ _ _ _ H4 ltac:(lia)) as (z & Hz & _ & G1 & G2 & G3).
  exists z. split; [done|]. unfold floor_upto. lia.
Qed.

Lemma cycle_profit_sign sp z : 0 <= sp <= max_pool_space -> (65536 | sp) -> cycle_profit sp = Ok z ->
  0 <= z /\ (0 <? z) = (0 <? sp).
Proof.
  intros Hsp [k ->] H. destruct (cycle_profit_spec _ Hsp) as (z' & Hz & H0 & H1 & H2).
  rewrite H in Hz. injection Hz as <-. split; [done|]. unfold max_pool_space, one_gb in Hsp.
  destruct (Z.ltb_spec 0 z), (Z.ltb_spec 0 (k * 65536)); try done; nia.
Qed.

(** ** Sums *)

Lemma pool_used_set f id a a' p : machines f !! id = Some a ->
  pool_used (set_machine id a' f) p = pool_used f p - in_pool p a + in_pool p a'.
Proof. apply (map_sum_insert (fun _ a => in_pool p a)). Qed.

Lemma owner_used_set f id a a' o : machines f !! id = Some a ->
  owner_used (set_machine id a' f) o = owner_used f o - earns_for o a + earns_for o a'.
Proof. apply (map_sum_insert (fun _ a => earns_for o a)). Qed.

Lemma fleet_gb_set f id a a' : machines f !! id = Some a ->
  fleet_gb (set_machine id a' f) = fleet_gb f - a_max a / 65536 + a_max a' / 65536.
Proof. apply (map_sum_insert (fun _ a => a_max a / 65536)). Qed.

Section ok_sums.
Context (f : fleet) (Hf : fleet_ok f).

Lemma in_pool_bounds p id a : machines f !! id = Some a -> 0 <= in_pool p a <= max_miner_space.
Proof.
  intros Ha. apply Hf in Ha as (_ & _ & _ & _ & Hm & _). unfold in_pool, min_miner_space, max_miner_space, one_gb in *.
  case_match; lia.
Qed.

Lemma earns_for_bounds o id a : machines f !! id = Some a -> 0 <= earns_for o a <= a_used a.
Proof. intros Ha. apply Hf in Ha as (_ & _ & _ & _ & _ & Hm & _). unfold earns_for. case_match; lia. Qed.

Lemma pool_used_nonneg p : 0 <= pool_used f p.
Proof. apply map_sum_nonneg. intros id a Ha. by eapply in_pool_bounds. Qed.

Lemma owner_used_nonneg o : 0 <= owner_used f o.
Proof. apply map_sum_nonneg. intros id a Ha. by eapply earns_for_bounds. Qed.

Lemma in_pool_le p id a : machines f !! id = Some a -> in_pool p a <= pool_used f p.
Proof. intros Ha. apply (map_sum_elem_le (fun _ a => in_pool p a)) with (2 := Ha). intros ? ? H. by eapply in_pool_bounds. Qed.

Lemma earns_for_le o id a : machines f !! id = Some a -> earns_for o a <= owner_used f o.
Proof. intros Ha. apply (map_sum_elem_le (fun _ a => earns_for o a)) with (2 := Ha). intros ? ? H. by eapply earns_for_bounds. Qed.

Lemma pool_used_max p : pool_used f p <= max_pool_space.
Proof.
  destruct (quotas f !! p) as [[o q]|] eqn:E; [by apply (fo_quota _ Hf) in E; lia|].
  replace (pool_used f p) with 0; [done|]. symmetry. apply map_sum_zero. intros id a Ha.
  unfold in_pool. destruct (Z.eqb_spec (a_pool a) p) as [<-|]; [|done]. apply (fo_pool _ Hf) in Ha as [x Hx]. congruence.
Qed.
End ok_sums.

(** ** Steps that do not touch the fleet *)

Definition core_of (m : miner) : name * name * name * Z * Z * Z :=
  (m_owner m, m_admin m, m_pool_id m, m_max_space m, m_space m, internal_id m).

(** The tables of the fleet are the same, up to the columns it does not use and
    new users without production space. *)
Record fleet_frame (s s' : hddpool) : Prop := {
  ff_pools : storepools s' = storepools s;
  ff_infos : minerinfos s' = minerinfos s;
  ff_accounts : maccounts s' = maccounts s;
  ff_miners id : core_of <$> miners s' !! id = core_of <$> miners s !! id;
  ff_miner2s : miner2s s' = miner2s s;
  ff_miner2ex : miner2ex1 s' = miner2ex1 s;
  ff_users o : space_of (userhdds s') o = space_of (userhdds s) o \/
    (space_of (userhdds s) o = None /\ space_of (userhdds s') o = Some (0, 0));
  ff_total : counterstat1 s' = counterstat1 s
}.

Lemma frame_refl s : fleet_frame s s.
Proof. split; auto. Qed.

Lemma frame_trans s1 s2 s3 : fleet_frame s1 s2 -> fleet_frame s2 s3 -> fleet_frame s1 s3.
Proof.
  intros [P1 I1 A1 M1 T1 X1 U1 C1] [P2 I2 A2 M2 T2 X2 U2 C2]. split; [congruence..| |congruence|congruence| |congruence].
  - intros id. by rewrite M2.
  - intros o. specialize (U1 o). specialize (U2 o). destruct U2 as [->|[E ->]]; [done|]. right.
    destruct U1 as [U1|[? ?]]; [|congruence]. split; congruence.
Qed.

Lemma slots_of_eq s s' : miner2s s' = miner2s s -> slots_of s' = slots_of s.
Proof. unfold slots_of. by intros ->. Qed.

Lemma slot_meta_eq s s' : miner2ex1 s' = miner2ex1 s -> slot_meta s' = slot_meta s.
Proof. unfold slot_meta. by intros ->. Qed.

Lemma slots_ok_eq s s' : miner2s s' = miner2s s -> miner2ex1 s' = miner2ex1 s -> slots_ok s -> slots_ok s'.
Proof.
  intros E1 E2 [free [H1 H2 H3 H4 H5 H6]]. exists free.
  assert (E3 : slot_meta s' = slot_meta s) by (unfold slot_meta; by rewrite E2).
  split; rewrite ?E3, ?(slots_of_eq _ _ E1), ?E1; auto.
Qed.

Lemma cycle_profit_0 : cycle_profit 0 = Ok 0.
Proof. by vm_compute. Qed.

Lemma owner_used_none f o : (forall id a, machines f !! id = Some a -> a_owner a <> o) -> owner_used f o = 0.
Proof.
  intros H. apply map_sum_zero. intros id a Ha. unfold earns_for. apply H in Ha. by destruct (Z.eqb_spec (a_owner a) o).
Qed.

Definition users_grow (t t' : gmap name userhdd) : Prop :=
  forall o, space_of t' o = space_of t o \/ (space_of t o = None /\ space_of t' o = Some (0, 0)).

Lemma users_frame f t t' : users_rel f t -> users_grow t t' -> users_rel f t'.
Proof.
  intros [R7 R7'] U. split.
  - intros id a Ha. destruct (U (a_owner a)) as [->|[_ ->]]; [by eapply R7|done].
  - intros o sp pr H. destruct (U o) as [E|[E1 E2]]; [rewrite E in H; by apply R7'|].
    rewrite E2 in H. injection H as <- <-. split; [|apply cycle_profit_0].
    rewrite owner_used_none; [by case_match|]. intros id a Ha <-. apply R7 in Ha as [x Hx]. congruence.
Qed.

Lemma frame_rel s s' f : fleet_frame s s' -> fleet_rel s f -> fleet_rel s' f.
Proof.
  intros [P I A M T X U C] [R1 R2 R3 R4 R5 R6 R7 R8 R9]. split; rewrite ?P, ?I, ?A, ?C, ?(slot_meta_eq _ _ X); try done.
  - rewrite (slots_of_eq _ _ T). destruct R5 as [R5 R5']. split.
    + intros id. specialize (R5 id). specialize (M id).
      destruct (miners s' !! id) as [m'|], (miners s !! id) as [m|]; try done.
      destruct R5 as (a & Ha & (E1 & E2 & E3 & E4 & E5) & E6 & E7). cbn in M. unfold core_of in M. injection M as F1 F2 F3 F4 F5 F6.
      exists a. unfold row_matches. rewrite F1, F2, F3, F4, F5, F6. done.
    + intros i id Hi. destruct (R5' i id Hi) as (m & Hm & Hi'). specialize (M id). rewrite Hm in M.
      destruct (miners s' !! id) as [m'|]; [|done]. cbn in M. injection M as F1 F2 F3 F4 F5 F6. exists m'. by rewrite F6.
  - by eapply slots_ok_eq.
  - by eapply users_frame.
Qed.

Definition framed {A} (m : M hddpool A) : Prop :=
  forall c s o a s' o', m c s o = Ok (a, s', o') -> fleet_frame s s'.

Create HintDb framed.
#[export] Hint Constants Opaque : framed.

Lemma framed_state {A} (m : M hddpool A) :
  (forall c s o a s' o', m c s o = Ok (a, s', o') -> s' = s) -> framed m.
Proof. intros H c s o a s' o' E. rewrite (H _ _ _ _ _ _ E). apply frame_refl. Qed.

Lemma framed_bind {A B} (m : M hddpool A) (k : A -> M hddpool B) :
  framed m -> (forall a, framed (k a)) -> framed (m ≫= k).
Proof. intros Hm Hk c s o b s' o' (a & s1 & o1 & H1 & H2)%bind_Ok. eapply frame_trans; [by eapply Hm|by eapply Hk]. Qed.

Lemma framed_ret {A} (a : A) : framed (mret a).
Proof. apply framed_state. intros. by minv. Qed.
Lemma framed_lift {A} (r : res A) : framed (lift r).
Proof. apply framed_state. intros. by minv. Qed.
Lemma framed_ask {A} (g : ctx -> A) : framed (ask g).
Proof. apply framed_state. intros. by minv. Qed.
Lemma framed_gets {A} (g : hddpool -> A) : framed (gets g).
Proof. apply framed_state. intros. by minv. Qed.
Lemma framed_assert b msg : framed (eosio_assert b msg).
Proof. apply framed_state. intros. by minv. Qed.
Lemma framed_auth a : framed (require_auth a).
Proof. apply framed_state. intros. by minv. Qed.
Lemma framed_recipient a : framed (require_recipient a).
Proof. apply framed_state. intros. by minv. Qed.
Lemma framed_send a : framed (send a).
Proof. apply framed_state. intros. by minv. Qed.
Lemma framed_send_deferred d : framed (send_deferred d).
Proof. apply framed_state. intros. by minv. Qed.
Lemma framed_print v : framed (print v).
Proof. apply framed_state. intros. by minv. Qed.
Lemma framed_find {K V} `{Countable K} (t : hddpool -> gmap K V) k : framed (find t k).
Proof. apply framed_state. intros. by minv. Qed.
Lemma framed_get {K V} `{Countable K} (t : hddpool -> gmap K V) k msg : framed (get t k msg).
Proof. apply framed_state. intros. by minv. Qed.
Lemma framed_sget {V} (g : hddpool -> option V) : framed (sget g).
Proof. apply framed_state. intros. by minv. Qed.
Lemma framed_when b m : framed m -> framed (when b m).
Proof. intros H. unfold when. destruct b; [done|apply framed_ret]. Qed.
#[export] Hint Resolve framed_ret framed_lift framed_ask framed_gets framed_assert framed_auth framed_recipient
  framed_send framed_send_deferred framed_print framed_find framed_get framed_sget framed_when : framed.

(** Fields the fleet does not use. *)
Definition free_field {V} (g : hddpool -> V) `{!Setter g} : Prop := forall v s, fleet_frame s (setf g v s).

Lemma framed_assign {V} (g : hddpool -> V) `{!Setter g} v : free_field g -> framed (assign g v).
Proof. intros H c s o a s' o' (-> & _)%assign_Ok. apply H. Qed.
Lemma framed_sset {V} (g : hddpool -> option V) `{!Setter g} v : free_field g -> framed (sset g v).
Proof. intros H c s o a s' o' (-> & _)%sset_Ok. apply H. Qed.
Lemma framed_emplace {K V} `{Countable K} (g : hddpool -> gmap K V) `{!Setter g} k v : free_field g -> framed (emplace g k v).
Proof. intros H0 c s o a s' o' (_ & -> & _)%emplace_Ok. apply H0. Qed.
Lemma framed_modify {K V} `{Countable K} (g : hddpool -> gmap K V) `{!Setter g} k h : free_field g -> framed (modify g k h).
Proof. intros H0 c s o a s' o' (v & w & _ & _ & -> & _)%modify_Ok. apply H0. Qed.
#[export] Hint Resolve framed_assign framed_sset framed_emplace framed_modify : framed.
#[export] Hint Extern 1 (free_field _) => (intros ? ?; split; by auto) : framed.

(** Rows of users and miners whose fleet columns stay. *)
Lemma space_of_insert t k u x : space_of (<[k := u]> t) x =
  if decide (k = x) then Some (hdd_space_profit u, u_per_cycle_profit u) else space_of t x.
Proof. unfold space_of. rewrite lookup_insert. by case_decide. Qed.

Lemma frame_user_row s k u u' : userhdds s !! k = Some u ->
  hdd_space_profit u' = hdd_space_profit u -> u_per_cycle_profit u' = u_per_cycle_profit u ->
  fleet_frame s (s <| userhdds := <[k := u']> (userhdds s) |>).
Proof.
  intros Hk E1 E2. split; try done. intros o. left. cbn. rewrite space_of_insert. case_decide; subst; [|done].
  unfold space_of. rewrite Hk. cbn. congruence.
Qed.

Lemma framed_modify_ret_user {B} k (h : userhdd -> res (B * userhdd)) :
  (forall u b u', h u = Ok (b, u') -> hdd_space_profit u' = hdd_space_profit u /\ u_per_cycle_profit u' = u_per_cycle_profit u) ->
  framed (modify_ret userhdds k h).
Proof. intros Hh c s o a s' o' (v & w & Hv & Hw & -> & _)%modify_ret_Ok. apply Hh in Hw as [? ?]. by eapply frame_user_row. Qed.

Lemma framed_modify_user k (h : userhdd -> res userhdd) :
  (forall u u', h u = Ok u' -> hdd_space_profit u' = hdd_space_profit u /\ u_per_cycle_profit u' = u_per_cycle_profit u) ->
  framed (modify userhdds k h).
Proof. intros Hh c s o a s' o' (v & w & Hv & Hw & -> & _)%modify_Ok. apply Hh in Hw as [? ?]. by eapply frame_user_row. Qed.

Lemma framed_modify_miner k (h : miner -> res miner) :
  (forall m m', h m = Ok m' -> core_of m' = core_of m) -> framed (modify miners k h).
Proof.
  intros Hh c s o a s' o' (v & w & Hv & Hw & -> & _)%modify_Ok. split; try (by auto). intros id. cbn.
  rewrite lookup_insert. case_decide; [subst|done]. rewrite Hv. cbn. f_equal. by apply Hh.
Qed.

Lemma framed_new_user user balance : framed (new_user_hdd user balance).
Proof.
  unfold new_user_hdd. do 3 (apply framed_bind; [auto with framed|intros]).
  intros c s o x s' o' (Hn & -> & _)%emplace_Ok. split; try (by auto). intros u. cbn. rewrite space_of_insert.
  case_decide; [subst|by left]. right. split; [|done]. unfold space_of. by rewrite Hn.
Qed.
#[export] Hint Resolve framed_new_user : framed.

Lemma settle_profit_spaces now dl r e r' : settle_profit now dl r = Ok (e, r') ->
  hdd_space_profit r' = hdd_space_profit r /\ u_per_cycle_profit r' = u_per_cycle_profit r.
Proof.
  unfold settle_profit. intros H. apply res_bind_ok in H as ([nb d] & _ & H). repeat minv_step. by subst.
Qed.

Lemma settle_fee_spaces now r r' : settle_fee now r = Ok r' ->
  hdd_space_profit r' = hdd_space_profit r /\ u_per_cycle_profit r' = u_per_cycle_profit r.
Proof. unfold settle_fee. intros H. repeat minv_step. by subst. Qed.

Lemma store_add_spaces q r r' : store_add q r = Ok r' ->
  hdd_space_profit r' = hdd_space_profit r /\ u_per_cycle_profit r' = u_per_cycle_profit r.
Proof. unfold store_add. intros H. repeat minv_step. by subst. Qed.

(** [framed_tac] walks through a handler; it leaves the changes of rows. *)
Ltac row_kept := solve [intros; repeat minv_step; subst;
  repeat match goal with
  | H : settle_fee _ _ = Ok _ |- _ => apply settle_fee_spaces in H as [? ?]
  | H : settle_profit _ _ _ = Ok _ |- _ => apply settle_profit_spaces in H as [? ?]
  | H : store_add _ _ = Ok _ |- _ => apply store_add_spaces in H as [? ?]
  end; auto].
Ltac framed_tac := repeat first
  [ progress intros
  | solve [auto with framed nocore]
  | lazymatch goal with
    | |- framed (modify userhdds _ _) => apply framed_modify_user; row_kept
    | |- framed (modify_ret userhdds _ _) => apply framed_modify_ret_user; row_kept
    | |- framed (modify miners _ _) => apply framed_modify_miner; row_kept
    | |- framed (when _ _) => apply framed_when
    | |- framed (_ ≫= _) => apply framed_bind
    end
  | case_match ].

Lemma framed_credit_eco e : framed (credit_eco e).
Proof. unfold credit_eco. framed_tac. Qed.

#[export] Hint Resolve framed_credit_eco : framed.

(** ** The handlers that leave the fleet alone *)

Lemma framed_store_credit r q : framed (store_credit r q).
Proof. unfold store_credit. framed_tac. Qed.
#[export] Hint Resolve framed_store_credit : framed.

Lemma framed_get_gparams : framed get_gparams.
Proof. unfold get_gparams. framed_tac. Qed.
Lemma framed_get_paramguard : framed get_paramguard.
Proof. unfold get_paramguard. framed_tac. Qed.
Lemma framed_check_bp {SV : SystemView} b : framed (check_bp_account b).
Proof. unfold check_bp_account. framed_tac. Qed.
#[export] Hint Resolve framed_get_gparams framed_get_paramguard framed_check_bp : framed.

Lemma framed_print_balance b : framed (print_balance b).
Proof. apply framed_print. Qed.
#[export] Hint Resolve framed_print_balance : framed.

Lemma framed_calc_deposit_rate : framed calc_deposit_rate.
Proof. unfold calc_deposit_rate. framed_tac. Qed.
Lemma framed_price_auth t : framed (price_auth t).
Proof. unfold price_auth. framed_tac. Qed.
#[export] Hint Resolve framed_calc_deposit_rate framed_price_auth : framed.

Lemma framed_put_score (tbl : hddpool -> gmap (name * Z) mscore) `{!Setter tbl} scope mid id range :
  free_field tbl -> framed (put_score tbl scope mid id range).
Proof. intros H. unfold put_score. framed_tac; auto using framed_modify, framed_emplace. Qed.
#[export] Hint Resolve framed_put_score : framed.

Lemma framed_build_slot scope g : framed (build_slot scope g).
Proof. unfold build_slot, build_capacity, build_storage. framed_tac. Qed.
#[export] Hint Resolve framed_build_slot : framed.

Lemma framed_build_slots n scope max g : framed (build_slots n scope max g).
Proof. revert g. induction n as [|n IH]; intros g; cbn [build_slots]; framed_tac. Qed.
#[export] Hint Resolve framed_build_slots : framed.

Lemma framed_update_newmodel_params pow {TV : TokenView} slot : framed (update_newmodel_params pow slot).
Proof. unfold update_newmodel_params, next_day, destroy_fund. framed_tac. Qed.
#[export] Hint Resolve framed_update_newmodel_params : framed.

Lemma framed_rewardproc t c0 c1 ty random slot reward d : framed (rewardproc t c0 c1 ty random slot reward d).
Proof. unfold rewardproc, rewardlog. framed_tac. Qed.
#[export] Hint Resolve framed_rewardproc : framed.

(** The actions the specification does not mention. *)
Definition quiet (act : pool_action) : bool :=
  match act with
  | PAddmprofit _ _ _ _ _ | PDelminer _ _ _ _ | PCalcmbalance _ _ | PDelstrpool _ | PRegstrpool _ _ | PChgpoolspace _ _ _
  | PNewminer _ _ _ _ | PAddm2pool _ _ _ _ _ | PSubmprofit _ _ _ _ _ | PRegminer _ _ _ _ _ _ _ _ _ | PMchgspace _ _ _
  | PMincdeposit _ _ _ _ _ | PMchgstrpool _ _ | PMchgadminacc _ _ | PMchgowneracc _ _ | PFixownspace _ _ | POldsync _
  | PMdeactive _ _ _ _ | PMactive _ _ _ _ => false
  | _ => true
  end.

Lemma quiet_framed pow act : quiet act = true -> framed (pool_handler pow act).
Proof.
  destruct act; intros Hq; try discriminate Hq; cbn [pool_handler].
  all: unfold onbuild, onreward, rewardproc1, rewardproc2, payrewardnew, channellog, channelfail, getbalance, buyhdd, transhdds, sellhdd, sethfee, subbalance,
    addhspace, subhspace, mlevel, mrspace, startnewm, calcprofit, sethddprice, setusdprice, setytaprice, setdrratio, setdrdratio, addhddcnt.
  all: framed_tac.
Qed.

Lemma quiet_apply act f : quiet act = true -> fleet_apply act f = Some f.
Proof. by destruct act. Qed.

(** ** The owners' production space *)

(** [chg_owner_space] changes the space of one owner, unless it is ecologyfound,
    and touches the balances of others only. *)
Definition moved (o : name) (d : Z) (inc : bool) (t t' : gmap name userhdd) : Prop :=
  if o =? ecologyfound_acc then t' = t else
  exists sp pr pr', space_of t o = Some (sp, pr) /\ new_space sp d inc <= max_profit_space /\
    cycle_profit (new_space sp d inc) = Ok pr' /\
    forall x, space_of t' x = if decide (o = x) then Some (new_space sp d inc, pr') else space_of t x.

Lemma credit_eco_frame e u c s o s' o' : credit_eco e c s o = Ok (u, s', o') ->
  exists t, s' = s <| userhdds := t |> /\ o' = o /\ forall x, space_of t x = space_of (userhdds s) x.
Proof.
  unfold credit_eco. intros H. minv; [|exists (userhdds s); by destruct s].
  eexists. split; [reflexivity|]. split; [done|]. intros y. rewrite space_of_insert. case_decide; [subst|done].
  unfold space_of. by simplify_map_eq.
Qed.

Lemma chg_owner_space_Ok w d inc calc ct dl u c s o s' o' :
  chg_owner_space w d inc calc ct dl c s o = Ok (u, s', o') ->
  exists t, s' = s <| userhdds := t |> /\ o' = o /\ moved w d inc (userhdds s) t.
Proof.
  unfold chg_owner_space, moved. destruct (w =? ecologyfound_acc).
  { intros H. minv. exists (userhdds s). by destruct s. }
  intros H. apply bind_Ok in H as (v & s1 & o1 & (Hv & -> & ->)%get_Ok & H).
  apply bind_Ok in H as (e & s2 & o2 & (v0 & v' & Hv0 & Hf & -> & ->)%modify_ret_Ok & H).
  rewrite Hv in Hv0. injection Hv0 as <-.
  apply credit_eco_frame in H as (t & -> & -> & Ht). cbn in *.
  exists t. split; [done|]. split; [done|].
  apply res_bind_ok in Hf as ([e1 r1] & Hr & Hf). cbn in Hf. repeat minv_step. subst.
  assert (Hs : hdd_space_profit r1 = hdd_space_profit v).
  { destruct calc; [by apply settle_profit_spaces in Hr as [? ?]|by injection Hr as <- <-]. }
  rewrite Hs in *. exists (hdd_space_profit v), (u_per_cycle_profit v), r0. unfold space_of at 1. rewrite Hv. cbn.
  split; [done|]. split; [lia|]. split; [done|]. intros x. by rewrite Ht, space_of_insert.
Qed.

(** The books of the owners after such a change. *)
Lemma users_moved f f' w d inc t t' :
  users_rel f t -> moved w d inc t t' ->
  (forall id a, machines f' !! id = Some a -> is_Some (space_of t (a_owner a))) ->
  (forall x, x <> ecologyfound_acc -> owner_used f' x = if decide (w = x) then new_space (owner_used f x) d inc else owner_used f x) ->
  users_rel f' t'.
Proof.
  intros [U1 U2] Hm Hin Hu. unfold moved in Hm. destruct (Z.eqb_spec w ecologyfound_acc) as [->|Hw].
  { subst t'. split; [done|]. intros o sp pr Ho. destruct (U2 _ _ _ Ho) as [-> ?]. split; [|done].
    destruct (Z.eqb_spec o ecologyfound_acc); [done|]. rewrite Hu by done. by rewrite decide_False. }
  destruct Hm as (sp & pr & pr' & Hsp & Hle & Hpr & Ht). split.
  - intros id a Ha. rewrite Ht. case_decide; [done|]. by eapply Hin.
  - intros o sp0 pr0 Ho. rewrite Ht in Ho. case_decide; [subst o; injection Ho as <- <-|].
    + split; [|done]. destruct (Z.eqb_spec w ecologyfound_acc); [done|]. rewrite Hu, decide_True by done.
      apply U2 in Hsp as [-> _]. by destruct (Z.eqb_spec w ecologyfound_acc).
    + destruct (U2 _ _ _ Ho) as [-> ?]. split; [|done].
      destruct (Z.eqb_spec o ecologyfound_acc); [done|]. rewrite Hu, decide_False by done. done.
Qed.

(** An owner's space that stays. *)
Lemma users_same f f' t :
  users_rel f t -> (forall id a, machines f' !! id = Some a -> is_Some (space_of t (a_owner a))) ->
  (forall x, owner_used f' x = owner_used f x) -> users_rel f' t.
Proof.
  intros [U1 U2] Hin Hu. split; [done|]. intros o sp pr Ho. destruct (U2 _ _ _ Ho) as [-> ?].
  split; [|done]. by rewrite Hu.
Qed.

(** What [moved] says of the specification: the new total fits. *)
Lemma moved_fits f f' w d inc t t' :
  users_rel f t -> moved w d inc t t' ->
  (w <> ecologyfound_acc -> owner_used f' w = new_space (owner_used f w) d inc) -> owner_fits f' w = true.
Proof.
  intros [_ U2] Hm Hu. unfold owner_fits, moved in *. destruct (Z.eqb_spec w ecologyfound_acc) as [|Hw]; [done|].
  destruct Hm as (sp & pr & pr' & Hsp & Hle & _). apply U2 in Hsp as [-> _].
  destruct (Z.eqb_spec w ecologyfound_acc); [done|]. cbn. rewrite Hu by done. lia.
Qed.

(** ** Tables after a change of one machine *)

Section change.
Context (s : hddpool) (f : fleet) (R : fleet_rel s f) (id : Z).

Lemma rel_info mi : minerinfos s !! id = Some mi -> exists a, machines f !! id = Some a /\ mi = info_row id a.
Proof. rewrite (fr_infos _ _ R). destruct (machines f !! id) as [a|]; [|done]. intros [= <-]. eauto. Qed.

Lemma rel_account o ma : maccounts s !! (o, id) = Some ma ->
  exists a, machines f !! id = Some a /\ a_owner a = o /\ ma_space ma = a_used a /\ earning a (ma_per_cycle_profit ma).
Proof. intros H. pose proof (fr_accounts _ _ R o id) as Hr. by rewrite H in Hr. Qed.

Lemma rel_row a : machines f !! id = Some a ->
  exists m, miners s !! id = Some m /\ row_matches id a m /\ internal_id m <> 0 /\ slots_of s !! internal_id m = Some id.
Proof.
  intros Ha. destruct (fr_rows _ _ R) as [Hr _]. specialize (Hr id). destruct (miners s !! id) as [m|]; [|congruence].
  destruct Hr as (a' & Ha' & Hm). exists m. rewrite Ha in Ha'. by injection Ha' as <-.
Qed.

Lemma rel_owner a : machines f !! id = Some a -> is_Some (space_of (userhdds s) (a_owner a)).
Proof. apply (fr_users _ _ R). Qed.

(** The synchronisation with the table [miner]. *)
Lemma sync_miner_Ok a g u c o s' o' s1 : machines f !! id = Some a -> miners s1 = miners s ->
  sync_miner id g c s1 o = Ok (u, s', o') ->
  exists m, miners s !! id = Some m /\ row_matches id a m /\ internal_id m <> 0 /\ slots_of s !! internal_id m = Some id /\
    o' = o /\ s' = s1 <| miners := <[id := g m]> (miners s) |>.
Proof.
  intros Ha E H. destruct (rel_row a Ha) as (m & Hm & H1 & H2 & H3). unfold sync_miner in H. minv; simplify_map_eq.
  - rewrite E in *. simplify_map_eq. eauto 10.
  - congruence.
Qed.

Section machine.
Context (a' : machine).
#[local] Abbreviation f' := (set_machine id a' f).

Lemma fleet_ok_set : machine_ok id a' -> is_Some (quotas f !! a_pool a') ->
  (forall p o q, quotas f !! p = Some (o, q) -> pool_used f' p <= q) ->
  (forall o, o <> ecologyfound_acc -> owner_used f' o <= max_profit_space) -> fleet_ok f'.
Proof.
  destruct (fr_ok _ _ R) as [F1 F2 F3 F4 F5]. intros H1 H2 H3 H4. split; cbn.
  - intros i b. rewrite lookup_insert. case_decide; [intros [= <-]; by subst|apply F1].
  - intros i b. rewrite lookup_insert. case_decide; [intros [= <-]; by subst|apply F2].
  - done.
  - intros p o q Hq. split; [by eapply H3|apply F4 in Hq; lia].
  - done.
Qed.

Lemma infos_set : infos_rel f' (<[id := info_row id a']> (minerinfos s)).
Proof. intros i. cbn. rewrite !lookup_insert. case_decide; [by subst|]. apply (fr_infos _ _ R). Qed.

Context (a : machine) (Ha : machines f !! id = Some a).

Lemma accounts_set ma : a_owner a' = a_owner a -> ma_space ma = a_used a' -> earning a' (ma_per_cycle_profit ma) ->
  accounts_rel f' (<[(a_owner a, id) := ma]> (maccounts s)).
Proof.
  intros E1 E2 E3 o i. pose proof (fr_accounts _ _ R o i) as Hr. cbn. rewrite !lookup_insert.
  case_decide as D1.
  - injection D1 as <- <-. exists a'. rewrite decide_True by done. done.
  - case_decide as D2; [subst i|done]. destruct (maccounts s !! (o, id)).
    + destruct Hr as (b & Hb & <- & _). congruence.
    + intros b [= <-]. congruence.
Qed.

Lemma rows_set m m' : miners s !! id = Some m -> row_matches id a' m' -> internal_id m' = internal_id m ->
  rows_rel f' (slots_of s) (<[id := m']> (miners s)).
Proof.
  intros Hm H1 H2. destruct (fr_rows _ _ R) as [R1 R2]. split.
  - intros i. specialize (R1 i). cbn. rewrite !lookup_insert. case_decide; [subst i|done].
    rewrite Hm in R1. destruct R1 as (b & _ & _ & H3 & H4). exists a'. by rewrite H2.
  - intros i j Hi. destruct (R2 i j Hi) as (m0 & Hm0 & <-). rewrite lookup_insert. case_decide; [subst j|eauto].
    exists m'. split; [done|]. congruence.
Qed.

(** The pool and the capacity stay. *)
Lemma pools_keep : a_pool a' = a_pool a -> a_max a' = a_max a -> pools_rel f' (storepools s).
Proof.
  intros E1 E2 p. rewrite (fr_pools _ _ R). cbn. destruct (quotas f !! p); [|done]. cbn. f_equal. unfold pool_row. f_equal.
  rewrite (pool_used_set _ _ _ _ _ Ha). unfold in_pool. rewrite E1, E2. lia.
Qed.

Lemma quota_keep p o q : a_pool a' = a_pool a -> a_max a' = a_max a -> quotas f !! p = Some (o, q) -> pool_used f' p <= q.
Proof.
  intros E1 E2 Hq. rewrite (pool_used_set _ _ _ _ _ Ha). unfold in_pool. rewrite E1, E2.
  apply (fo_quota _ (fr_ok _ _ R)) in Hq. lia.
Qed.

Lemma owners_set : a_owner a' = a_owner a -> forall i b, machines f' !! i = Some b -> is_Some (space_of (userhdds s) (a_owner b)).
Proof.
  intros E i b. cbn. rewrite lookup_insert. case_decide; [intros [= <-]; rewrite E; by apply rel_owner|].
  apply (fr_users _ _ R).
Qed.

Lemma total_keep : a_max a' = a_max a -> fleet_gb f' = fleet_gb f.
Proof. intros E. rewrite (fleet_gb_set _ _ _ _ Ha), E. lia. Qed.
End machine.
End change.

Lemma new_space_add sp d : 0 <= sp -> 0 <= d -> sp + d < 2^64 -> new_space sp d true = sp + d.
Proof. intros. unfold new_space. apply u64_id. unfold is_u64. lia. Qed.

Lemma new_space_sub sp d : 0 <= d <= sp -> new_space sp d false = sp - d.
Proof. intros. unfold new_space. case_match; lia. Qed.

Lemma owner_other f id a a' x : machines f !! id = Some a -> a_owner a' = a_owner a -> x <> a_owner a ->
  owner_used (set_machine id a' f) x = owner_used f x.
Proof.
  intros Ha E Hx. rewrite (owner_used_set _ _ _ _ _ Ha). unfold earns_for. rewrite E.
  destruct (Z.eqb_spec (a_owner a) x); [congruence|]. cbn. lia.
Qed.

(** A change of a machine that stays with its owner, its pool and its capacity. *)
Lemma rel_space s f id a a' s' ma m m' :
  fleet_rel s f -> machines f !! id = Some a ->
  a_owner a' = a_owner a -> a_pool a' = a_pool a -> a_max a' = a_max a -> machine_ok id a' ->
  minerinfos s' = <[id := info_row id a']> (minerinfos s) ->
  maccounts s' = <[(a_owner a, id) := ma]> (maccounts s) -> ma_space ma = a_used a' -> earning a' (ma_per_cycle_profit ma) ->
  miners s !! id = Some m -> miners s' = <[id := m']> (miners s) -> row_matches id a' m' -> internal_id m' = internal_id m ->
  storepools s' = storepools s -> miner2s s' = miner2s s -> miner2ex1 s' = miner2ex1 s -> counterstat1 s' = counterstat1 s ->
  users_rel (set_machine id a' f) (userhdds s') -> owner_fits (set_machine id a' f) (a_owner a) = true ->
  fleet_rel s' (set_machine id a' f).
Proof.
  intros R Ha E1 E2 E3 Hok I A Ea Er Hm M Em Ei P S1 S2 C U Hfit. split; rewrite ?I, ?A, ?M, ?P, ?C, ?(slots_of_eq _ _ S1), ?(slot_meta_eq _ _ S2).
  - apply (fleet_ok_set s f R); [done|rewrite E2; by eapply (fo_pool _ (fr_ok _ _ R))|by intros; eapply quota_keep|].
    intros o Ho. destruct (decide (o = a_owner a)) as [->|].
    + unfold owner_fits in Hfit. destruct (Z.eqb_spec (a_owner a) ecologyfound_acc); [done|cbn in Hfit; lia].
    + rewrite (owner_other _ _ a) by done. by apply (fr_ok _ _ R).
  - by apply (pools_keep s f R id a' a).
  - by eapply infos_set.
  - by eapply accounts_set.
  - by eapply rows_set.
  - apply (slots_ok_eq _ _ S1 S2), R.
  - done.
  - rewrite (total_keep f id a' a Ha) by done. apply R.
  - apply R.
Qed.

Lemma earning_on a profit : earning a profit -> a_on a = (0 <? profit).
Proof. unfold earning. destruct (a_on a); [intros [? _]|intros ->]; [|done]. symmetry. lia. Qed.

(** The profit [cycle_profit] computes for a machine's space. *)
Lemma earning_profit id a profit : machine_ok id a -> a_on a = (0 <? a_used a) ->
  cycle_profit (a_used a) = Ok profit -> earning a profit.
Proof.
  intros (_ & _ & _ & Hd & Hm & Hu & _) Hon Hp. unfold earning.
  destruct (cycle_profit_sign (a_used a) profit) as [H0 H1]; [unfold max_miner_space, max_pool_space, one_gb in *; lia|done..|].
  rewrite Hon, <- H1. destruct (Z.ltb_spec 0 profit); [by rewrite Hp|lia].
Qed.

(** How the total of the owner follows. *)
Lemma owner_used_moved f id a a' d inc x :
  fleet_ok f -> machines f !! id = Some a -> a_owner a' = a_owner a -> 0 <= d < 2^63 -> x <> ecologyfound_acc ->
  earns_for (a_owner a) a' = (if (inc : bool) then earns_for (a_owner a) a + d else earns_for (a_owner a) a - d) ->
  0 <= earns_for (a_owner a) a' ->
  owner_used (set_machine id a' f) x = if decide (a_owner a = x) then new_space (owner_used f x) d inc else owner_used f x.
Proof.
  intros Hf Ha E Hd Hx He H0. case_decide; [subst x|by apply (owner_other _ _ a)].
  rewrite (owner_used_set _ _ _ _ _ Ha), He. pose proof (earns_for_le f Hf (a_owner a) id a Ha).
  pose proof (fo_owner f Hf (a_owner a) Hx) as Hle. unfold max_profit_space, one_gb in Hle.
  pose proof (earns_for_bounds f Hf (a_owner a) id a Ha).
  destruct inc; [rewrite new_space_add|rewrite new_space_sub]; lia.
Qed.

Lemma rel_space_moved s f id a a' s' ma m m' d inc :
  fleet_rel s f -> machines f !! id = Some a ->
  a_owner a' = a_owner a -> a_pool a' = a_pool a -> a_max a' = a_max a -> machine_ok id a' ->
  minerinfos s' = <[id := info_row id a']> (minerinfos s) ->
  maccounts s' = <[(a_owner a, id) := ma]> (maccounts s) -> ma_space ma = a_used a' -> earning a' (ma_per_cycle_profit ma) ->
  miners s !! id = Some m -> miners s' = <[id := m']> (miners s) -> row_matches id a' m' -> internal_id m' = internal_id m ->
  storepools s' = storepools s -> miner2s s' = miner2s s -> miner2ex1 s' = miner2ex1 s -> counterstat1 s' = counterstat1 s ->
  moved (a_owner a) d inc (userhdds s) (userhdds s') -> 0 <= d < 2^63 ->
  earns_for (a_owner a) a' = (if (inc : bool) then earns_for (a_owner a) a + d else earns_for (a_owner a) a - d) ->
  fleet_rel s' (set_machine id a' f) /\ owner_fits (set_machine id a' f) (a_owner a) = true.
Proof.
  intros R Ha E1 E2 E3 Hok I A Ea Er Hm M Em Ei P S1 S2 C Hmv Hd He.
  assert (H0 : 0 <= earns_for (a_owner a) a') by (destruct Hok as (_ & _ & _ & _ & _ & ? & _); unfold earns_for; destruct (_ && _); lia).
  pose proof (fun x Hx => owner_used_moved f id a a' d inc x (fr_ok _ _ R) Ha E1 Hd Hx He H0) as Hu.
  assert (Hfit : owner_fits (set_machine id a' f) (a_owner a) = true).
  { apply (moved_fits f _ (a_owner a) d inc _ _ (fr_users _ _ R) Hmv). intros Hx. rewrite Hu by done. by rewrite decide_True. }
  split; [|done]. eapply (rel_space s f id a); try done.
  eapply users_moved; [apply R|done|by eapply owners_set|done].
Qed.

Lemma rel_space_same s f id a a' s' ma m m' :
  fleet_rel s f -> machines f !! id = Some a ->
  a_owner a' = a_owner a -> a_pool a' = a_pool a -> a_max a' = a_max a -> machine_ok id a' ->
  minerinfos s' = <[id := info_row id a']> (minerinfos s) ->
  maccounts s' = <[(a_owner a, id) := ma]> (maccounts s) -> ma_space ma = a_used a' -> earning a' (ma_per_cycle_profit ma) ->
  miners s !! id = Some m -> miners s' = <[id := m']> (miners s) -> row_matches id a' m' -> internal_id m' = internal_id m ->
  storepools s' = storepools s -> miner2s s' = miner2s s -> miner2ex1 s' = miner2ex1 s -> counterstat1 s' = counterstat1 s ->
  userhdds s' = userhdds s -> (forall x, earns_for x a' = earns_for x a) ->
  fleet_rel s' (set_machine id a' f).
Proof.
  intros R Ha E1 E2 E3 Hok I A Ea Er Hm M Em Ei P S1 S2 C Hmv He.
  assert (Hu : forall x, owner_used (set_machine id a' f) x = owner_used f x).
  { intros x. rewrite (owner_used_set _ _ _ _ _ Ha), He. lia. }
  eapply (rel_space s f id a); try done.
  - rewrite Hmv. eapply users_same; [apply R|by eapply owners_set|done].
  - unfold owner_fits. rewrite Hu. destruct (Z.eqb_spec (a_owner a) ecologyfound_acc); [done|].
    cbn. pose proof (fo_owner _ (fr_ok _ _ R) (a_owner a)). lia.
Qed.
