(* ===== verification/FleetRefine.v ===== *)
(** * hddpool: the actions refine the fleet specification

    For each action of contracts/hddpool/hddpool.cpp that touches miners or
    storage pools: from tables that represent a fleet, a successful run leads to
    tables that represent the fleet after [fleet_apply].  The refinement theorem
    puts them together with the actions that leave the fleet alone. *)

From S2P Require Import Prelude Float64 Names Asset Chain Views PoolTables PoolSlots PoolBalance PoolMiner PoolParams PoolReward HddPool Fleet.
#[local] Open Scope Z_scope.

(** ** The actions on machines *)

Lemma when_assert_Ok b b2 msg u c (s s' : hddpool) o o' : when b (eosio_assert b2 msg) c s o = Ok (u, s', o') ->
  (b = true -> b2 = true) /\ s' = s /\ o' = o.
Proof. unfold when. destruct b; intros; minv; done. Qed.

(** The choice of the deposit to pay does not change the state. *)
Lemma quant_Ok (calc : bool) (r : res asset) (e : res bool) msg q v c (s s' : hddpool) o o' :
  (if calc then lift r else enough ← lift e; _ ← eosio_assert enough msg; mret q) c s o = Ok (v, s', o') -> s' = s /\ o' = o.
Proof. intros. by minv. Qed.

(** Inversion of a handler down to the calls of [chg_owner_space],
    [settle_macc] and [sync_miner]. *)
Ltac finv := repeat (first
  [ match goal with H : when _ (eosio_assert _ _) _ _ _ = Ok _ |- _ => apply when_assert_Ok in H as (? & -> & ->) end
  | match goal with H : (if _ then lift _ else _) _ _ _ = Ok _ |- _ => apply quant_Ok in H as (-> & ->) end
  | match goal with H : settle_macc _ _ = Ok ?r |- _ => is_var r; destruct r end
  | minv_step]; cbn beta zeta iota in * ); subst; cbn [setf] in *; cbn in *; simplify_eq;
  repeat match goal with x : unit |- _ => clear x end.

Lemma settle_macc_Ok now r dl r' : settle_macc now r = Ok (dl, r') ->
  ma_space r' = ma_space r /\ ma_per_cycle_profit r' = ma_per_cycle_profit r.
Proof. unfold settle_macc. intros H. apply res_bind_ok in H as ([nb d] & _ & H). repeat minv_step. by subst. Qed.

Lemma fleet_change_Some id g ok f a a' : machines f !! id = Some a -> g a = a' -> ok a (set_machine id a' f) = true ->
  fleet_change id g ok f = Some (set_machine id a' f).
Proof. intros Ha <- Hok. unfold fleet_change. rewrite Ha. cbn. by rewrite Hok. Qed.

(** Bringing in the machine behind the rows a handler read, and what the other
    steps did. *)
Ltac fleet_open R a Ha :=
  match type of R with fleet_rel ?s ?f =>
    match goal with Hi : minerinfos s !! ?id = Some _ |- _ =>
      destruct (rel_info s f R id _ Hi) as (a & Ha & ->); cbn in *;
      pose proof (fo_machine _ (fr_ok _ _ R) _ _ Ha) as Hok;
      pose proof Hok as (Hid & Hown & D1 & D2 & Hmax & Hused & Hon);
      unfold max_miner_space, one_gb in Hmax;
      repeat match goal with
      | Hm : maccounts s !! (a_owner a, id) = Some _ |- _ =>
          let b := fresh in let Hb := fresh in
          destruct (rel_account s f R id _ _ Hm) as (b & Hb & _ & Esp & Een); rewrite Ha in Hb; injection Hb as <-; clear Hm
      | Hs : settle_macc _ _ = Ok _ |- _ => apply settle_macc_Ok in Hs as [Es Ep]
      | Hc : chg_owner_space _ _ _ _ _ _ _ _ _ = Ok _ |- _ => apply chg_owner_space_Ok in Hc as (t & -> & -> & Hmv)
      | Hy : sync_miner id _ _ _ _ = Ok _ |- _ =>
          eapply (sync_miner_Ok s f R id) in Hy as (m0 & Hm0 & (M1 & M2 & M3 & M4 & M5) & Hi0 & Hi1 & -> & ->); [|done|done]
      end; cbn in *
    end
  end.

Ltac w64 := rewrite u64_id by (unfold is_u64; lia).

(** Prove [fleet_rel] of the new state with the machine [na] in place of [a]. *)
Ltac space_step s f id a na m0 Hmv :=
  match goal with |- exists f', _ /\ fleet_rel ?s' f' =>
    assert (HR : fleet_rel s' (set_machine id na f) /\ owner_fits (set_machine id na f) (a_owner a) = true);
    [eapply (rel_space_moved s f id a na _ _ m0); cbn; try exact Hmv; try reflexivity; try done; try lia
    |destruct HR as [HR Hfit]; exists (set_machine id na f); split; [|done]]
  end.

Section spaces.
Context {SV : SystemView} (owner : name) (id d : Z) (caller : name) (s : hddpool) (f : fleet) (R : fleet_rel s f).
Context (u : unit) (c : ctx) (o : out) (s' : hddpool) (o' : out).

Lemma addmprofit_refines : is_u64 d -> addmprofit owner id d caller c s o = Ok (u, s', o') ->
  exists f', fleet_apply (PAddmprofit SV owner id d caller) f = Some f' /\ fleet_rel s' f'.
Proof using All.
  intros Hd H. unfold addmprofit, assert_account, check_bp_account in H. finv. unfold is_u64 in Hd. fleet_open R a Ha.
  match goal with H : slice_aligned d = true |- _ => rename H into Hal end.
  match goal with H : cycle_profit _ = Ok _ |- _ => rewrite Es, Esp, u64_id in H by (unfold is_u64; lia); rename H into Hp end.
  set (na := mkMachine (a_owner a) (a_admin a) (a_pool a) (a_max a) (a_used a + d) (0 <? a_used a + d)).
  assert (Hok1 : machine_ok id na).
  { unfold machine_ok, max_miner_space, one_gb; cbn. repeat split; try done; try lia.
    apply Z.divide_add_r; [done|]. by apply slice_aligned_iff. }
  assert (Hact : (a_used a =? 0) || a_on a = true) by (rewrite (earning_on _ _ Een); lia).
  space_step s f id a na m0 Hmv.
  - unfold info_row; cbn. w64. do 2 f_equal. lia.
  - cbn. w64. lia.
  - by eapply earning_profit.
  - unfold row_matches; cbn. rewrite M5. w64. done.
  - unfold earns_for; cbn. rewrite Z.eqb_refl; cbn. destruct (a_on a); destruct (Z.ltb_spec 0 (a_used a + d)); lia.
  - eapply fleet_change_Some; [exact Ha|reflexivity|]. rewrite Hal, Hact, Hfit. lia.
Qed.

Lemma mdeactive_refines : mdeactive owner id caller c s o = Ok (u, s', o') ->
  exists f', fleet_apply (PMdeactive SV owner id caller) f = Some f' /\ fleet_rel s' f'.
Proof using All.
  intros H. unfold mdeactive, assert_account, check_bp_account in H. finv. fleet_open R a Ha.
  set (na := mkMachine (a_owner a) (a_admin a) (a_pool a) (a_max a) (a_used a) false).
  assert (Hok1 : machine_ok id na) by done.
  assert (Hact : (a_used a =? 0) || a_on a = true) by (rewrite (earning_on _ _ Een); lia).
  space_step s f id a na m0 Hmv.
  - by rewrite insert_id.
  - cbn. congruence.
  - unfold earns_for; cbn. rewrite Z.eqb_refl, Esp, andb_false_r; cbn. destruct (a_on a); lia.
  - by eapply fleet_change_Some.
Qed.

Lemma mactive_refines : mactive owner id caller c s o = Ok (u, s', o') ->
  exists f', fleet_apply (PMactive SV owner id caller) f = Some f' /\ fleet_rel s' f'.
Proof using All.
  intros H. unfold mactive, assert_account, check_bp_account in H. finv. fleet_open R a Ha.
  match goal with H : cycle_profit _ = Ok _ |- _ => rewrite Esp in H; rename H into Hp end.
  set (na := mkMachine (a_owner a) (a_admin a) (a_pool a) (a_max a) (a_used a) (0 <? a_used a)).
  assert (Hok1 : machine_ok id na).
  { unfold machine_ok, max_miner_space, one_gb; cbn. repeat split; try done; lia. }
  assert (Hoff : a_on a = false) by (rewrite (earning_on _ _ Een); lia).
  space_step s f id a na m0 Hmv.
  - by rewrite insert_id.
  - by eapply earning_profit.
  - unfold earns_for; cbn. rewrite Z.eqb_refl, Esp, Hoff; cbn. destruct (Z.ltb_spec 0 (a_used a)); lia.
  - eapply fleet_change_Some; [exact Ha|reflexivity|]. by rewrite Hoff, Hfit.
Qed.

Lemma submprofit_refines : is_u64 d -> submprofit owner id d caller c s o = Ok (u, s', o') ->
  exists f', fleet_apply (PSubmprofit SV owner id d caller) f = Some f' /\ fleet_rel s' f'.
Proof using All.
  intros Hd H. unfold submprofit, assert_account, check_bp_account in H. finv; unfold is_u64 in Hd; fleet_open R a Ha.
  all: match goal with H : slice_aligned d = true |- _ => pose proof (proj1 (slice_aligned_iff d) H) as Hal; rename H into Hal1 end.
  all: match goal with H : (d <=? ma_space _) = true |- _ => rewrite Es, Esp in H; rename H into Hle end.
  all: set (na := mkMachine (a_owner a) (a_admin a) (a_pool a) (a_max a) (a_used a - d) (a_on a && (0 <? a_used a - d))).
  all: assert (Hok1 : machine_ok id na) by
    (unfold machine_ok, max_miner_space, one_gb; cbn; repeat split; try done; try lia; by apply Z.divide_sub_r).
  all: rewrite (u64_id (a_max a - a_used a + d)) by (unfold is_u64; lia).
  all: assert (Hinfo : mkMinerinfo id (a_owner a) (a_admin a) (a_pool a) (a_max a) (a_max a - a_used a + d) = info_row id na)
    by (unfold info_row; cbn; f_equal; lia).
  - match goal with H : cycle_profit _ = Ok _ |- _ => rewrite Es, Esp, u64_id in H by (unfold is_u64; lia); rename H into Hp end.
    assert (Hon1 : a_on a = (0 <? a_used a)) by (unfold earning in Een; destruct (a_on a); [specialize (Hon eq_refl)|]; lia).
    space_step s f id a na m0 Hmv.
    + by rewrite Hinfo.
    + cbn. w64. lia.
    + eapply earning_profit; [done| |exact Hp]. cbn. rewrite Hon1. lia.
    + unfold row_matches; cbn. rewrite M5. w64. done.
    + unfold earns_for; cbn. rewrite Z.eqb_refl, Hon1; cbn. destruct (Z.ltb_spec 0 (a_used a)), (Z.ltb_spec 0 (a_used a - d)); cbn; lia.
    + eapply fleet_change_Some; [exact Ha|reflexivity|]. rewrite Hal1. done.
  - assert (Hoff : a_on a = false) by (rewrite (earning_on _ _ Een); lia).
    exists (set_machine id na f). split; [eapply fleet_change_Some; [exact Ha|reflexivity|]; by rewrite Hal1|].
    eapply (rel_space_same s f id a na _ _ m0); cbn; try reflexivity; try done; try lia.
    + by rewrite Hinfo.
    + cbn. w64. lia.
    + unfold earning in *; cbn. rewrite Hoff in *. cbn. congruence.
    + unfold row_matches; cbn. rewrite M5. w64. done.
    + intros x. unfold earns_for; cbn. rewrite Hoff. cbn. by rewrite !andb_false_r.
Qed.
End spaces.

Lemma mchgadminacc_refines id adm u c s o s' o' f : fleet_rel s f -> mchgadminacc id adm c s o = Ok (u, s', o') ->
  exists f', fleet_apply (PMchgadminacc id adm) f = Some f' /\ fleet_rel s' f'.
Proof.
  intros R H. unfold mchgadminacc, assert_account in H. finv. fleet_open R mc Ha.
  set (na := mkMachine (a_owner mc) adm (a_pool mc) (a_max mc) (a_used mc) (a_on mc)).
  pose proof (fr_accounts _ _ R (a_owner mc) id) as Hacc. destruct (maccounts s !! (a_owner mc, id)) as [ma|] eqn:Ema; [|by specialize (Hacc mc Ha)].
  destruct Hacc as (b & Hb & _ & Esp & Een). rewrite Ha in Hb. injection Hb as <-.
  exists (set_machine id na f). split; [by eapply fleet_change_Some|].
  eapply (rel_space_same s f id mc na _ ma m0); cbn; try reflexivity; try done. by rewrite insert_id.
Qed.

(** ** The actions on storage pools *)

(** A change of the quotas that keeps the machines. *)
Lemma rel_quotas s f s' f' :
  fleet_rel s f -> machines f' = machines f -> regs f' = regs f -> fleet_ok f' -> pools_rel f' (storepools s') ->
  minerinfos s' = minerinfos s -> maccounts s' = maccounts s -> miners s' = miners s ->
  miner2s s' = miner2s s -> miner2ex1 s' = miner2ex1 s -> userhdds s' = userhdds s -> counterstat1 s' = counterstat1 s ->
  fleet_rel s' f'.
Proof.
  intros [R1 R2 R3 R4 R5 R6 R7 R8 R9] M G Hok P I A Mi S1 S2 U C.
  split; rewrite ?I, ?A, ?Mi, ?U, ?C, ?(slots_of_eq _ _ S1), ?(slot_meta_eq _ _ S2).
  - done.
  - done.
  - intros id. by rewrite M.
  - intros o id. rewrite M. apply R4.
  - destruct R5 as [R5 R5']. split; [intros id; rewrite M; apply R5|done].
  - by eapply slots_ok_eq.
  - destruct R7 as [U1 U2]. split; [intros id a; rewrite M; apply U1|].
    intros o sp pr Ho. unfold owner_used. rewrite M. by apply U2.
  - unfold fleet_gb. by rewrite M.
  - by rewrite G.
Qed.

(** The same, for one pool [p] of [f]. *)
Lemma fleet_ok_quota f p o q : fleet_ok f -> p <> 0 -> pool_used f p <= q <= max_pool_space ->
  fleet_ok (f <| quotas := <[p := (o, q)]> (quotas f) |>).
Proof.
  intros [F1 F2 F3 F4 F5] Hp Hq. split; cbn.
  - done.
  - intros id a Ha. rewrite lookup_insert. case_decide; [done|by eapply F2].
  - by rewrite lookup_insert_ne.
  - intros x y z. rewrite lookup_insert. case_decide; [intros [= <- <-]; by subst|apply F4].
  - done.
Qed.

Lemma pools_quota s f p o q : fleet_rel s f ->
  pools_rel (f <| quotas := <[p := (o, q)]> (quotas f) |>) (<[p := mkStorepool p o q (q - pool_used f p)]> (storepools s)).
Proof.
  intros R x. cbn. rewrite !lookup_insert. case_decide; [by subst|]. rewrite (fr_pools _ _ R). done.
Qed.

Lemma rel_pool s f p row : fleet_rel s f -> storepools s !! p = Some row ->
  exists o q, quotas f !! p = Some (o, q) /\ row = mkStorepool p o q (q - pool_used f p) /\ p <> 0 /\
    0 <= pool_used f p <= q /\ q <= max_pool_space.
Proof.
  intros R. rewrite (fr_pools _ _ R). destruct (quotas f !! p) as [[o q]|] eqn:E; [|done]. intros [= <-].
  exists o, q. split; [done|]. split; [done|].
  pose proof (fo_quota _ (fr_ok _ _ R) _ _ _ E). pose proof (pool_used_nonneg f (fr_ok _ _ R) p).
  split; [intros ->; rewrite (fo_named _ (fr_ok _ _ R)) in E; done|lia].
Qed.

Section pools.
Context (s : hddpool) (f : fleet) (R : fleet_rel s f).
Context (u : unit) (c : ctx) (o : out) (s' : hddpool) (o' : out).

Lemma pool_absent p : storepools s !! p = None -> quotas f !! p = None.
Proof using R. rewrite (fr_pools _ _ R). by destruct (quotas f !! p). Qed.

Lemma pool_used_absent p : quotas f !! p = None -> pool_used f p = 0.
Proof using R.
  intros E. apply map_sum_zero. intros id a Ha. unfold in_pool. destruct (Z.eqb_spec (a_pool a) p) as [<-|]; [|done].
  apply (fo_pool _ (fr_ok _ _ R)) in Ha as [x Hx]. congruence.
Qed.

Lemma regstrpool_refines p w : p <> 0 -> regstrpool p w c s o = Ok (u, s', o') ->
  exists f', fleet_apply (PRegstrpool p w) f = Some f' /\ fleet_rel s' f'.
Proof using R.
  intros Hp H. unfold regstrpool in H. finv. match goal with H : storepools s !! p = None |- _ => apply pool_absent in H as Hn end.
  rewrite Hn. eexists. split; [reflexivity|]. pose proof (pool_used_absent p Hn) as Hu0.
  eapply (rel_quotas s f); try done; cbn.
  - apply (fleet_ok_quota f); [apply R|done|]. unfold max_pool_space, one_gb. lia.
  - replace max_pool_space with (max_pool_space - pool_used f p) at 3 by lia. by apply pools_quota.
Qed.

Lemma delstrpool_refines p : delstrpool p c s o = Ok (u, s', o') ->
  exists f', fleet_apply (PDelstrpool p) f = Some f' /\ fleet_rel s' f'.
Proof using R.
  intros H. unfold delstrpool in H. finv.
  - match goal with H : storepools s !! p = Some _ |- _ => destruct (rel_pool s f p _ R H) as (w & q & Hq & -> & Hp & Hu & Hm) end.
    cbn in *. rewrite Hq. unfold max_pool_space, one_gb in Hm.
    match goal with H : (u64 _ =? 0) = true |- _ => rewrite u64_id in H by (unfold is_u64; lia); rename H into E0 end.
    replace (pool_used f p =? 0) with true by lia. eexists. split; [reflexivity|]. eapply (rel_quotas s f); try done; cbn.
    + destruct (fr_ok _ _ R) as [F1 F2 F3 F4 F5]. split; cbn; try done.
      * intros id a Ha. rewrite lookup_delete_ne; [by eapply F2|]. intros Ep.
        pose proof (in_pool_le f (fr_ok _ _ R) p id a Ha) as Hi. unfold in_pool in Hi. rewrite <- Ep, Z.eqb_refl in Hi.
        apply F1 in Ha as (_ & _ & _ & _ & Ha & _). unfold min_miner_space, one_gb in Ha. lia.
      * by rewrite lookup_delete_ne.
      * intros x y z [_ ?]%lookup_delete_Some. by eapply F4.
    + intros x. cbn. rewrite !lookup_delete. case_decide; [done|]. apply (fr_pools _ _ R).
  - match goal with H : storepools s !! p = None |- _ => apply pool_absent in H as Hn end. rewrite Hn. by exists f.
Qed.

Lemma chgpoolspace_refines p inc d : is_u64 d -> chgpoolspace p inc d c s o = Ok (u, s', o') ->
  exists f', fleet_apply (PChgpoolspace p inc d) f = Some f' /\ fleet_rel s' f'.
Proof using R.
  intros Hd H. unfold chgpoolspace in H. finv.
  match goal with H : storepools s !! p = Some _ |- _ => destruct (rel_pool s f p _ R H) as (w & q & Hq & -> & Hp & Hu & Hm) end.
  cbn in *. rewrite Hq. unfold is_u64 in Hd. rewrite (u64_id (q - _)) in * by (unfold is_u64, max_pool_space, one_gb in *; lia).
  match goal with H : (_ <=? max_pool_space) = true |- _ => rename H into H1 end.
  match goal with H : (_ <=? (if inc then _ else _)) = true |- _ => rename H into H2 end.
  replace (q - (q - pool_used f p)) with (pool_used f p) in * by lia. rewrite H1, H2. cbn.
  set (q' := if inc then u64 (q + d) else if d <? q then q - d else 0) in *.
  assert (pool_used f p <= q' <= max_pool_space) by lia.
  eexists. split; [reflexivity|]. eapply (rel_quotas s f); try done; cbn.
  - by apply (fleet_ok_quota f); [apply R|..].
  - rewrite (u64_id (q' - _)) by (unfold is_u64, max_pool_space, one_gb in *; lia). by apply pools_quota.
Qed.
End pools.

(** ** Registering and deleting a miner *)

Lemma rel_size s f : fleet_rel s f -> (size (machines f) <= size (slots_of s))%nat.
Proof.
  intros R. rewrite <- !length_map_to_list, <- (length_fmap fst (map_to_list (machines f))), <- (length_fmap snd (map_to_list (slots_of s))).
  apply submseteq_length, NoDup_submseteq; [apply NoDup_fst_map_to_list|].
  intros id Hin. apply list_elem_of_fmap in Hin as ([id' a] & -> & Ha%elem_of_map_to_list).
  destruct (rel_row s f R id' a Ha) as (m & _ & _ & _ & Hs). apply list_elem_of_fmap. exists (internal_id m, id').
  split; [done|]. by apply elem_of_map_to_list.
Qed.

(** The counter of GB stays far from its 64 bits. *)
Lemma rel_gb_bound s f : fleet_rel s f -> max_table_count (slot_meta s) < 2^32 -> 0 <= fleet_gb f < 2^50.
Proof.
  intros R Hm. destruct (fr_slots _ _ R) as [free Hs]. pose proof (slot_bounds _ _ Hs) as Hb.
  pose proof (si_live _ _ Hs) as Hl. pose proof (rel_size s f R).
  assert (Hall : forall id a, machines f !! id = Some a -> 0 <= a_max a / 65536 <= 102400).
  { intros id a Ha. apply (fo_machine _ (fr_ok _ _ R)) in Ha as (_ & _ & _ & _ & Ha & _).
    unfold min_miner_space, max_miner_space, one_gb in Ha. split; [apply Z.div_pos; lia|]. apply Z.div_le_upper_bound; lia. }
  split; [apply map_sum_nonneg; intros id a Ha; apply Hall in Ha; lia|].
  pose proof (map_sum_le_size (fun _ a => a_max a / 65536) 102400 (machines f)) as Hsum.
  unfold fleet_gb. specialize (Hsum ltac:(intros id a Ha; apply Hall in Ha; lia)). lia.
Qed.

Lemma users_grow_new t w r : t !! w = None -> hdd_space_profit r = 0 -> u_per_cycle_profit r = 0 ->
  users_grow t (<[w := r]> t) /\ is_Some (space_of (<[w := r]> t) w).
Proof.
  intros Hw E1 E2. split; [|rewrite space_of_insert; by rewrite decide_True].
  intros x. rewrite space_of_insert. case_decide; [subst|by left]. right. unfold space_of. by rewrite Hw, E1, E2.
Qed.

Lemma bind_owner_Ok id w u c s o s' o' : bind_owner id w c s o = Ok (u, s', o') ->
  exists ma, ma_space ma = 0 /\ ma_per_cycle_profit ma = 0 /\
    maccounts s' = <[(w, id) := ma]> (maccounts s) /\ maccounts s !! (w, id) = None /\
    storepools s' = storepools s /\ minerinfos s' = minerinfos s /\ miners s' = miners s /\ miner2s s' = miner2s s /\
    miner2ex1 s' = miner2ex1 s /\ counterstat1 s' = counterstat1 s /\
    users_grow (userhdds s) (userhdds s') /\ is_Some (space_of (userhdds s') w).
Proof.
  unfold bind_owner, new_user_hdd. intros H. minv; cbn in *.
  all: exists (mkMaccount id w 0 0 0 (current_time c)).
  all: repeat (split; [done|]).
  all: first [split; [intros x; by left|unfold space_of; by rewrite E0]|by apply users_grow_new].
Qed.

Lemma fleet_ok_add f id a : fleet_ok (set_machine id a f) -> fleet_ok (add_machine id a f).
Proof. intros [F1 F2 F3 F4 F5]. by split. Qed.

(** A new machine that does not earn yet. *)
Lemma rel_add s f id a s' q w ma m i :
  fleet_rel s f -> machines f !! id = None -> machine_ok id a -> a_on a = false -> quotas f !! a_pool a = Some (w, q) ->
  pool_used f (a_pool a) + a_max a <= q ->
  storepools s' = <[a_pool a := mkStorepool (a_pool a) w q (q - pool_used f (a_pool a) - a_max a)]> (storepools s) ->
  minerinfos s' = <[id := info_row id a]> (minerinfos s) ->
  maccounts s' = <[(a_owner a, id) := ma]> (maccounts s) -> ma_space ma = a_used a -> ma_per_cycle_profit ma = 0 ->
  users_grow (userhdds s) (userhdds s') -> is_Some (space_of (userhdds s') (a_owner a)) ->
  slots_ok s' -> slots_of s !! i = None -> slots_of s' = <[i := id]> (slots_of s) ->
  miners s' = <[id := m]> (miners s) -> row_matches id a m -> internal_id m = i -> i <> 0 ->
  default 0 (counterstat1 s') = fleet_gb f + a_max a / 65536 ->
  max_table_count (slot_meta s') <= max_table_count (slot_meta s) + 1 -> fleet_rel s' (add_machine id a f).
Proof.
  intros R Hn Hok Hoff Hq Hfit P I A Ea Er G Gs S1 S2 S3 M Em Ei Hi0 C N.
  assert (Hp : forall p, pool_used (add_machine id a f) p = in_pool p a + pool_used f p)
    by (intros p; by apply (map_sum_insert_new (fun _ a => in_pool p a))).
  assert (Ho : forall x, owner_used (add_machine id a f) x = owner_used f x).
  { intros x. transitivity (earns_for x a + owner_used f x); [by apply (map_sum_insert_new (fun _ a => earns_for x a))|].
    unfold earns_for. rewrite Hoff, andb_false_r. lia. }
  split; rewrite ?I, ?A, ?M, ?P, ?C, ?S3.
  - apply fleet_ok_add, (fleet_ok_set s f R); [done|by eexists| |].
    + intros p w' q' Hq'. change (pool_used (add_machine id a f) p <= q'). rewrite Hp. unfold in_pool. destruct (Z.eqb_spec (a_pool a) p) as [<-|].
      * rewrite Hq in Hq'. injection Hq' as <- <-. lia.
      * apply (fo_quota _ (fr_ok _ _ R)) in Hq'. lia.
    + intros x Hx. change (owner_used (add_machine id a f) x <= max_profit_space). rewrite Ho. by apply (fr_ok _ _ R).
  - intros p. cbn. rewrite lookup_insert. case_decide; [subst p|].
    + rewrite Hq. cbn. unfold pool_row; cbn. rewrite Hp. unfold in_pool. rewrite Z.eqb_refl. do 2 f_equal. lia.
    + rewrite (fr_pools _ _ R). destruct (quotas f !! p); [|done]. cbn. unfold pool_row. rewrite Hp. unfold in_pool.
      destruct (Z.eqb_spec (a_pool a) p); [done|]. done.
  - by apply (infos_set s f R id a).
  - intros x j. pose proof (fr_accounts _ _ R x j) as Hr. cbn. rewrite !lookup_insert. case_decide as D1.
    + injection D1 as <- <-. exists a. rewrite decide_True by done. unfold earning. by rewrite Hoff.
    + case_decide as D2; [subst j|done]. destruct (maccounts s !! (x, id)); [destruct Hr as (b & ? & _); congruence|].
      intros b [= <-]. congruence.
  - destruct (fr_rows _ _ R) as [R1 R2]. split.
    + intros j. specialize (R1 j). cbn. rewrite !lookup_insert. case_decide as D; [subst j|].
      * exists a. rewrite Ei. rewrite lookup_insert_eq. done.
      * destruct (miners s !! j) as [m'|]; [|done]. destruct R1 as (b & Hb & Hm & Hi & Hs). exists b.
        rewrite lookup_insert_ne; [done|]. congruence.
    + intros j k. rewrite !lookup_insert. case_decide as D; [intros [= <-]; exists m; rewrite decide_True by done; by subst|].
      intros Hj. destruct (R2 _ _ Hj) as (m' & Hm' & Hj'). exists m'. rewrite decide_False; [done|]. intros <-.
      specialize (R1 id). rewrite Hm' in R1. destruct R1 as (b & ? & _). congruence.
  - done.
  - eapply users_same; [eapply users_frame; [apply R|done]| |done]. intros j b. cbn. rewrite lookup_insert.
    case_decide; [intros [= <-]; done|]. apply (users_frame _ _ _ (fr_users _ _ R) G).
  - unfold fleet_gb. cbn. rewrite (map_sum_insert_new (fun _ a => a_max a / 65536)) by done. fold (fleet_gb f). lia.
  - pose proof (fr_regs _ _ R). cbn. lia.
Qed.

Lemma insert_miner2_Ok id i c s0 s1 o s' o' : slots_ok s0 -> miner2s s1 = miner2s s0 -> miner2ex1 s1 = miner2ex1 s0 ->
  id <> 0 -> max_table_count (slot_meta s0) < 2^32 - 1 -> insert_miner2 id c s1 o = Ok (i, s', o') ->
  exists t g, s' = with_slots t g s1 /\ o' = o /\ i <> 0 /\ slots_of s0 !! i = None /\
    slots_ok (with_slots t g s1) /\ slots_of (with_slots t g s1) = <[i := id]> (slots_of s0) /\
    max_table_count g <= max_table_count (slot_meta s0) + 1.
Proof.
  intros Hs E1 E2 Hid Hm H. pose proof (slots_ok_eq _ _ E1 E2 Hs) as Hs1.
  assert (E3 : slot_meta s1 = slot_meta s0) by (unfold slot_meta; by rewrite E2).
  destruct (insert_miner2_runs id c s1 o Hs1 Hid) as (i' & s2 & Hr & Hi & Hf & Ho & Hsl & Hc & Hw); [by rewrite E3|].
  rewrite Hr in H. injection H as <- <- <-. rewrite (slots_of_eq _ _ E1) in *.
  exists (miner2s s2), (slot_meta s2). rewrite <- Hw. split; [done|]. split; [done|]. split; [lia|].
  do 3 (split; [done|]). destruct Hs as [free Hs]. pose proof (si_live _ _ Hs). pose proof (slot_bounds _ _ Hs). rewrite E3 in Hc. lia.
Qed.

Lemma machine_ok_new id w adm p mx : 0 < id -> w <> 0 -> (65536 | mx) -> min_miner_space <= mx <= max_miner_space ->
  machine_ok id (mkMachine w adm p mx 0 false).
Proof.
  intros. unfold machine_ok, min_miner_space, max_miner_space, one_gb in *; cbn. repeat split; try done; try lia. apply Z.divide_0_r.
Qed.

Lemma fleet_register_Some id adm p w mx f po q : quotas f !! p = Some (po, q) -> machines f !! id = None ->
  0 < id -> slice_aligned mx = true -> min_miner_space <= mx <= max_miner_space -> pool_used f p + mx <= q ->
  fleet_register id adm p w mx f = Some (add_machine id (mkMachine w adm p mx 0 false) f).
Proof.
  intros Hq Hno Hid Hal Hmx Hu. unfold fleet_register. rewrite Hq, Hno, Hal. cbn -[pool_used]. set (f' := add_machine _ _ _).
  assert (Hpu : pool_used f' p = mx + pool_used f p).
  { etransitivity; [by apply (map_sum_insert_new (fun _ a => in_pool p a))|]. unfold in_pool; cbn. by rewrite Z.eqb_refl. }
  unfold keep_if. by replace (_ && _) with true by lia.
Qed.

Lemma regminer_refines {DV : DepositView} id adm dep p w mx q calc u c s o s' o' f :
  fleet_rel s f -> is_account c 0 = false -> is_u64 mx -> max_table_count (slot_meta s) < 2^32 - 1 ->
  regminer id adm dep p w mx q calc c s o = Ok (u, s', o') ->
  exists f', fleet_apply (PRegminer DV id adm dep p w mx q calc) f = Some f' /\ fleet_rel s' f'.
Proof.
  intros R H0 Hmx Hmax H. unfold regminer, assert_account, chg_total_space in H. finv.
  match goal with K : bind_owner _ _ _ _ _ = Ok _ |- _ => apply bind_owner_Ok in K as
    (ma & Em1 & Em2 & Em3 & _ & Es1 & Es2 & Es3 & Es4 & Es5 & Es6 & Hg & Hg') end; cbn in *.
  match goal with K : storepools s !! _ = Some _ |- _ => destruct (rel_pool s f _ _ R K) as (po & qt & Hq & -> & Hp & Hu & Hqm) end; cbn in *.
  assert (Hno : machines f !! id = None).
  { destruct (machines f !! id) as [b|] eqn:Eb; [|done]. pose proof (fr_infos _ _ R id) as Hx. rewrite Eb in Hx; cbn in Hx. by rewrite Hx in *. }
  assert (Hw : w <> 0) by congruence.
  repeat match goal with
  | K : (0 <? id) = true |- _ => apply Z.ltb_lt in K; rename K into Hid
  | K : (min_miner_space <=? mx) = true |- _ => apply Z.leb_le in K; rename K into Hmin
  | K : (mx <=? max_miner_space) = true |- _ => apply Z.leb_le in K; rename K into Hmm
  | K : (_ && _) = true |- _ => apply andb_prop in K as [_ Hfit%Z.leb_le]
  | K : slice_aligned mx = true |- _ => pose proof (proj1 (slice_aligned_iff mx) K) as Hal; rename K into Hal1
  end.
  assert (Hfit' : pool_used f p + mx <= qt) by (clear -Hfit; lia).
  pose proof (rel_gb_bound s f R ltac:(clear -Hmax; lia)) as Hgb.
  match goal with K : insert_miner2 _ _ _ _ = Ok _ |- _ => eapply (insert_miner2_Ok id _ _ s) in K as
    (t & g & -> & -> & Hi & Hn & Hs & Hsl & Hc); [|apply R|exact Es4|exact Es5|clear -Hid; lia|exact Hmax] end; cbn in *.
  eexists. split; [by eapply fleet_register_Some|].
  eapply (rel_add s f id (mkMachine w adm p mx 0 false) _ qt po ma); cbn; try eassumption; try done.
  - by apply machine_ok_new.
  - rewrite Es1. unfold max_pool_space, one_gb, is_u64 in *. rewrite u64_id; [done|]. clear -Hu Hqm Hfit Hmx. unfold is_u64. lia.
  - rewrite Es2. unfold info_row; cbn. do 3 f_equal. clear. lia.
  - by eapply slots_ok_eq; [..|exact Hs].
  - by rewrite Es3.
  - done.
  - done.
  - rewrite Es6, (fr_total _ _ R), Z.shiftr_div_pow2 by done. change (2^16) with 65536. apply u64_id.
    pose proof (Z.div_le_upper_bound mx 65536 (2^48)) as Hdiv. pose proof (Z.div_pos mx 65536) as Hdiv0.
    clear -Hgb Hmx Hdiv Hdiv0. unfold is_u64 in *. lia.
Qed.

Lemma del_miner2_Ok id i u c s0 s1 o s' o' : slots_ok s0 -> miner2s s1 = miner2s s0 -> miner2ex1 s1 = miner2ex1 s0 ->
  slots_of s0 !! i = Some id -> max_table_count (slot_meta s0) < 2^63 -> del_miner2 i c s1 o = Ok (u, s', o') ->
  exists t g, s' = with_slots t g s1 /\ o' = o /\
    slots_ok (with_slots t g s1) /\ slots_of (with_slots t g s1) = delete i (slots_of s0) /\
    max_table_count g = max_table_count (slot_meta s0).
Proof.
  intros Hs E1 E2 Hi Hm H. pose proof (slots_ok_eq _ _ E1 E2 Hs) as Hs1.
  assert (E3 : slot_meta s1 = slot_meta s0) by (unfold slot_meta; by rewrite E2).
  destruct (del_miner2_runs i id c s1 o Hs1) as (s2 & Hr & Ho & Hsl & _ & Hc & Hw); [by rewrite (slots_of_eq _ _ E1)|by rewrite E3|].
  rewrite Hr in H. injection H as <- <- <-. rewrite (slots_of_eq _ _ E1) in *.
  exists (miner2s s2), (slot_meta s2). rewrite <- Hw, <- E3. done.
Qed.

Definition without (id : Z) (f : fleet) : fleet := f <| machines := delete id (machines f) |>.

Section removal.
Context (s : hddpool) (f : fleet) (R : fleet_rel s f) (id : Z) (a : machine) (Ha : machines f !! id = Some a).

Lemma pool_used_without p : pool_used (without id f) p = pool_used f p - in_pool p a.
Proof using Ha. by apply (map_sum_delete (fun _ a => in_pool p a)). Qed.
Lemma owner_used_without x : owner_used (without id f) x = owner_used f x - earns_for x a.
Proof using Ha. by apply (map_sum_delete (fun _ a => earns_for x a)). Qed.
Lemma fleet_gb_without : fleet_gb (without id f) = fleet_gb f - a_max a / 65536.
Proof using Ha. by apply (map_sum_delete (fun _ a => a_max a / 65536)). Qed.

Lemma fleet_ok_without : fleet_ok (without id f).
Proof using R Ha.
  destruct (fr_ok _ _ R) as [F1 F2 F3 F4 F5]. split; cbn.
  - intros i b [_ ?]%lookup_delete_Some. by apply F1.
  - intros i b [_ ?]%lookup_delete_Some. by eapply F2.
  - done.
  - intros p o q Hq. rewrite pool_used_without. pose proof (in_pool_bounds f (fr_ok _ _ R) p id a Ha). apply F4 in Hq. lia.
  - intros o Ho. rewrite owner_used_without. pose proof (earns_for_bounds f (fr_ok _ _ R) o id a Ha). apply F5 in Ho. lia.
Qed.

Lemma rel_del s' q w i :
  quotas f !! a_pool a = Some (w, q) ->
  storepools s' = <[a_pool a := mkStorepool (a_pool a) w q (q - pool_used f (a_pool a) + a_max a)]> (storepools s) ->
  minerinfos s' = delete id (minerinfos s) -> maccounts s' = delete (a_owner a, id) (maccounts s) ->
  users_rel (without id f) (userhdds s') ->
  slots_ok s' -> slots_of s !! i = Some id -> slots_of s' = delete i (slots_of s) -> miners s' = delete id (miners s) ->
  default 0 (counterstat1 s') = fleet_gb f - a_max a / 65536 ->
  max_table_count (slot_meta s') = max_table_count (slot_meta s) -> fleet_rel s' (without id f).
Proof using R Ha.
  intros Hq P I A U S1 Hi S3 M C N. split; rewrite ?I, ?A, ?M, ?P, ?C, ?S3.
  - apply fleet_ok_without.
  - intros p. cbn. rewrite lookup_insert. case_decide; [subst p|].
    + rewrite Hq. cbn. unfold pool_row; cbn. rewrite pool_used_without. unfold in_pool. rewrite Z.eqb_refl. do 2 f_equal. lia.
    + rewrite (fr_pools _ _ R). destruct (quotas f !! p); [|done]. cbn. unfold pool_row. rewrite pool_used_without. unfold in_pool.
      destruct (Z.eqb_spec (a_pool a) p); [done|]. do 2 f_equal. lia.
  - intros j. cbn. rewrite !lookup_delete. case_decide; [done|]. apply (fr_infos _ _ R).
  - intros x j. pose proof (fr_accounts _ _ R x j) as Hr. cbn. rewrite !lookup_delete. case_decide as D1.
    + injection D1 as <- <-. by rewrite decide_True.
    + case_decide as D2; [subst j|done]. destruct (maccounts s !! (x, id)); [destruct Hr as (b & ? & ? & _); congruence|done].
  - destruct (fr_rows _ _ R) as [R1 R2]. destruct (rel_row s f R id a Ha) as (m & Hm & _ & _ & Hmi). split.
    + intros j. specialize (R1 j). cbn. rewrite !lookup_delete. case_decide as D; [done|].
      destruct (miners s !! j) as [m'|]; [|done]. destruct R1 as (b & Hb & Hmm & Hz & Hs). exists b.
      rewrite lookup_delete_ne; [done|]. congruence.
    + intros j k [D Hj]%lookup_delete_Some. destruct (R2 _ _ Hj) as (m' & Hm' & Hj'). exists m'.
      rewrite lookup_delete_ne; [done|]. intros <-. destruct (R2 _ _ Hi) as (m'' & Hm'' & Hi'). congruence.
  - done.
  - done.
  - by rewrite fleet_gb_without.
  - rewrite N. apply R.
Qed.
End removal.

(** The part of [delminer] on the owner's books. *)
Lemma delminer_owner s f id a u c o s' o' : fleet_rel s f -> machines f !! id = Some a ->
  when (negb (a_owner a =? 0))
    (itm ← find maccounts (a_owner a, id);
     match itm with
     | None => mret tt
     | Some ma =>
         now ← ask current_time;
         _ ← when (0 <? ma_per_cycle_profit ma) (chg_owner_space (a_owner a) (ma_space ma) false false now 0);
         erase maccounts (a_owner a, id)
     end) c s o = Ok (u, s', o') ->
  exists t, s' = s <| userhdds := t |> <| maccounts := delete (a_owner a, id) (maccounts s) |> /\ users_rel (without id f) t.
Proof.
  intros R Ha H. pose proof (fo_machine _ (fr_ok _ _ R) _ _ Ha) as (_ & Hw & _ & _ & Hmax & Hu & Hon).
  unfold max_miner_space, one_gb in Hmax. pose proof (fr_users _ _ R) as HU.
  assert (Hin : forall i b, machines (without id f) !! i = Some b -> is_Some (space_of (userhdds s) (a_owner b))).
  { intros i b. cbn. intros [_ Hb]%lookup_delete_Some. by apply HU in Hb. }
  unfold when in H at 1. destruct (Z.eqb_spec (a_owner a) 0) as [|_]; [done|]. cbn [negb] in H.
  apply bind_Ok in H as (it & s1 & o1 & (-> & -> & ->)%find_Ok & H).
  pose proof (fr_accounts _ _ R (a_owner a) id) as Hacc. destruct (maccounts s !! (a_owner a, id)) as [ma|] eqn:Ema; [|by specialize (Hacc a Ha)].
  destruct Hacc as (b & Hb & _ & Esp & Een). rewrite Ha in Hb. injection Hb as <-. rewrite <- (earning_on _ _ Een) in H.
  destruct (a_on a) eqn:Eon; unfold when in H; finv.
  - match goal with K : chg_owner_space _ _ _ _ _ _ _ _ _ = Ok _ |- _ => apply chg_owner_space_Ok in K as (t & -> & -> & Hmv) end.
    exists t. split; [done|]. eapply users_moved; [done..|]. intros y Hy. rewrite (owner_used_without _ _ _ Ha).
    unfold earns_for. rewrite Eon, andb_true_r, Esp. case_decide; [subst y; rewrite Z.eqb_refl|by destruct (Z.eqb_spec (a_owner a) y); [|lia]].
    pose proof (earns_for_le f (fr_ok _ _ R) (a_owner a) id a Ha) as Hle. unfold earns_for in Hle. rewrite Eon, Z.eqb_refl in Hle. cbn in Hle.
    rewrite new_space_sub by lia. lia.
  - exists (userhdds s). split; [by destruct s|]. eapply users_same; [done..|]. intros y. rewrite (owner_used_without _ _ _ Ha).
    unfold earns_for. rewrite Eon, andb_false_r. lia.
Qed.

Lemma delminer_refines {SV : SystemView} id t caller u c s o s' o' f :
  fleet_rel s f -> max_table_count (slot_meta s) < 2^32 - 1 ->
  delminer id t caller c s o = Ok (u, s', o') ->
  exists f', fleet_apply (PDelminer SV id t caller) f = Some f' /\ fleet_rel s' f'.
Proof.
  intros R Hmt H. unfold delminer in H. apply bind_Ok in H as (mi & s1 & o1 & (Hmi & -> & ->)%get_Ok & H).
  destruct (rel_info s f R id _ Hmi) as (a & Ha & ->). cbn [info_row mi_owner mi_admin mi_pool_id mi_max_space] in H.
  apply bind_Ok in H as (x & s1 & o1 & Hauth & H).
  assert (Ht : negb (t =? 1) && negb (t =? 2) = true /\ s1 = s /\ o1 = o).
  { unfold assert_account, check_bp_account in Hauth. destruct (t =? 1), (t =? 2); cbn; clear H; minv; done. }
  destruct Ht as (Ht & -> & ->). clear Hauth.
  apply bind_Ok in H as (x1 & s1 & o1 & (_ & -> & ->)%send_Ok & H).
  apply bind_Ok in H as (x2 & s1 & o1 & Hown & H). apply (delminer_owner s f id a) in Hown as (tu & -> & HU); [|done..].
  pose proof (fo_machine _ (fr_ok _ _ R) _ _ Ha) as (_ & _ & _ & _ & Hmax & _).
  destruct (fo_pool _ (fr_ok _ _ R) _ _ Ha) as [[w q] Hq].
  assert (Hp0 : a_pool a <> 0) by (intros E; rewrite E, (fo_named _ (fr_ok _ _ R)) in Hq; done).
  apply bind_Ok in H as (x3 & s2 & o2 & Hpool & H).
  unfold when in Hpool. destruct (Z.eqb_spec (a_pool a) 0) as [|_]; [done|]. cbn [negb] in Hpool.
  apply bind_Ok in Hpool as (it & s3 & o3 & (-> & -> & ->)%find_Ok & Hpool). cbn in Hpool.
  rewrite (fr_pools _ _ R), Hq in Hpool. cbn in Hpool. apply modify_Ok in Hpool as (r & r' & Hr & [= <-] & -> & ->).
  cbn in Hr. rewrite (fr_pools _ _ R), Hq in Hr. injection Hr as <-.
  apply bind_Ok in H as (x4 & s2 & o2 & (v & _ & -> & ->)%erase_Ok & H).
  apply bind_Ok in H as (x5 & s2 & o2 & Htot & H). unfold chg_total_space in Htot.
  apply bind_Ok in Htot as (g0 & s3 & o3 & (-> & -> & ->)%sget_Ok & (-> & ->)%sset_Ok).
  apply bind_Ok in H as (it & s2 & o2 & (-> & -> & ->)%find_Ok & H). cbn in H.
  destruct (rel_row s f R id a Ha) as (m & Hm & Hrow & Hi0 & Hsl). rewrite Hm in H.
  apply bind_Ok in H as (x6 & s2 & o2 & Hdel & (m' & _ & -> & ->)%erase_Ok).
  unfold when in Hdel. destruct (Z.eqb_spec (internal_id m) 0) as [|_]; [done|]. cbn [negb] in Hdel.
  eapply (del_miner2_Ok id _ _ _ s) in Hdel as (tm & g & -> & -> & Hs & Hs1 & Hc); [|apply R|done|done|done|clear -Hmt; lia].
  exists (without id f). split; [cbn; rewrite Ha, Ht; done|].
  pose proof (fo_quota _ (fr_ok _ _ R) _ _ _ Hq) as Hqm. pose proof (pool_used_nonneg f (fr_ok _ _ R) (a_pool a)) as Hpn.
  unfold max_pool_space, max_miner_space, min_miner_space, one_gb in *.
  eapply (rel_del s f R id a Ha _ q w (internal_id m)); cbn; try eassumption; try done.
  - rewrite u64_id; [done|]. clear -Hqm Hpn Hmax. unfold is_u64. lia.
  - by eapply slots_ok_eq; [..|exact Hs].
  - rewrite (fr_total _ _ R), Z.shiftr_div_pow2 by done. change (2^16) with 65536.
    pose proof (map_sum_elem_le (fun _ a => a_max a / 65536) (machines f) id a) as Hle. fold (fleet_gb f) in Hle. cbn beta in Hle.
    assert (a_max a / 65536 <= fleet_gb f).
    { apply Hle; [|done]. intros i b Hb. apply (fo_machine _ (fr_ok _ _ R)) in Hb as (_ & _ & _ & _ & Hb & _).
      unfold min_miner_space, one_gb in Hb. apply Z.div_pos; lia. }
    destruct (Z.ltb_spec (a_max a / 65536) (fleet_gb f)); lia.
Qed.

(** ** Moving a miner to another pool, growing it, giving it to another owner *)

(** A change of pool, capacity or administrator. *)
Lemma rel_place s f id a a' s' m m' :
  fleet_rel s f -> machines f !! id = Some a -> a_owner a' = a_owner a -> a_used a' = a_used a -> a_on a' = a_on a ->
  machine_ok id a' -> is_Some (quotas f !! a_pool a') ->
  (forall p o q, quotas f !! p = Some (o, q) -> pool_used (set_machine id a' f) p <= q) ->
  pools_rel (set_machine id a' f) (storepools s') -> minerinfos s' = <[id := info_row id a']> (minerinfos s) ->
  maccounts s' = maccounts s -> userhdds s' = userhdds s -> miner2s s' = miner2s s -> miner2ex1 s' = miner2ex1 s ->
  miners s !! id = Some m -> miners s' = <[id := m']> (miners s) -> row_matches id a' m' -> internal_id m' = internal_id m ->
  default 0 (counterstat1 s') = fleet_gb (set_machine id a' f) -> fleet_rel s' (set_machine id a' f).
Proof.
  intros R Ha E1 E2 E3 Hok Hq Hfit P I A U S1 S2 Hm M Em Ei C.
  assert (Ho : forall x, owner_used (set_machine id a' f) x = owner_used f x).
  { intros x. rewrite (owner_used_set _ _ _ _ _ Ha). unfold earns_for. rewrite E1, E2, E3. lia. }
  pose proof (fr_accounts _ _ R (a_owner a) id) as Hacc. destruct (maccounts s !! (a_owner a, id)) as [ma|] eqn:Ema; [|by specialize (Hacc a Ha)].
  destruct Hacc as (b & Hb & _ & Esp & Een). rewrite Ha in Hb. injection Hb as <-.
  split; rewrite ?I, ?A, ?M, ?U, ?(slots_of_eq _ _ S1), ?(slot_meta_eq _ _ S2).
  - apply (fleet_ok_set s f R); [done..|]. intros o Hx. rewrite Ho. by apply (fr_ok _ _ R).
  - done.
  - by apply infos_set.
  - rewrite <- (insert_id _ _ _ Ema). eapply accounts_set; [done..|congruence|]. unfold earning in *. by rewrite E2, E3.
  - by eapply rows_set.
  - apply (slots_ok_eq _ _ S1 S2), R.
  - eapply users_same; [apply R|by eapply owners_set|done].
  - done.
  - apply R.
Qed.

Lemma pool_used_moved f id a p x : machines f !! id = Some a ->
  pool_used (set_machine id (mkMachine (a_owner a) (a_admin a) p (a_max a) (a_used a) (a_on a)) f) x =
    pool_used f x - in_pool x a + (if p =? x then a_max a else 0).
Proof. intros Ha. by rewrite (pool_used_set f id a _ x Ha). Qed.

Lemma pools_moved s f id a p w q w0 q0 : fleet_rel s f -> machines f !! id = Some a ->
  quotas f !! p = Some (w, q) -> quotas f !! a_pool a = Some (w0, q0) ->
  pools_rel (set_machine id (mkMachine (a_owner a) (a_admin a) p (a_max a) (a_used a) (a_on a)) f)
    (<[p := mkStorepool p w q (q - pool_used f p + in_pool p a - a_max a)]>
      (<[a_pool a := mkStorepool (a_pool a) w0 q0 (q0 - pool_used f (a_pool a) + a_max a)]> (storepools s))).
Proof.
  intros R Ha Hq Hq0 x. pose proof (pool_used_moved f id a p x Ha) as Hpu. set (f' := set_machine _ _ _) in *. 
  change (quotas f') with (quotas f). clearbody f'. rewrite !lookup_insert. unfold in_pool in *.
  case_decide as D1; [subst x|case_decide as D2; [subst x|]].
  - rewrite Hq. cbn. unfold pool_row; cbn. rewrite Hpu, Z.eqb_refl. do 2 f_equal. lia.
  - rewrite Hq0. cbn. unfold pool_row; cbn. rewrite Hpu, Z.eqb_refl. destruct (Z.eqb_spec p (a_pool a)); [done|]. do 2 f_equal. lia.
  - rewrite (fr_pools _ _ R). destruct (quotas f !! x); [|done]. cbn. unfold pool_row. rewrite Hpu.
    destruct (Z.eqb_spec p x), (Z.eqb_spec (a_pool a) x); try done. do 2 f_equal. lia.
Qed.

Lemma mchgstrpool_refines id p u c s o s' o' f : fleet_rel s f -> mchgstrpool id p c s o = Ok (u, s', o') ->
  exists f', fleet_apply (PMchgstrpool id p) f = Some f' /\ fleet_rel s' f'.
Proof.
  intros R H. unfold mchgstrpool in H.
  apply bind_Ok in H as (mi & s1 & o1 & (Hmi & -> & ->)%get_Ok & H). destruct (rel_info s f R id _ Hmi) as (a & Ha & ->).
  apply bind_Ok in H as (sp & s1 & o1 & (Hsp & -> & ->)%get_Ok & H).
  destruct (rel_pool s f p _ R Hsp) as (w & q & Hq & -> & Hp & Hu & Hqm).
  do 2 apply bind_Ok in H as (? & ? & ? & (_ & -> & ->)%require_auth_Ok & H).
  apply bind_Ok in H as (? & ? & ? & (_ & -> & ->)%get_Ok & H). cbn [info_row mi_pool_id mi_max_space] in H.
  apply bind_Ok in H as (? & ? & ? & (r & r' & Hr & [= <-] & -> & ->)%modify_Ok & H).
  destruct (rel_pool s f _ _ R Hr) as (w0 & q0 & Hq0 & -> & Hp0 & Hu0 & Hqm0). cbn in H.
  pose proof (fo_machine _ (fr_ok _ _ R) _ _ Ha) as Hok. pose proof Hok as (_ & _ & _ & _ & Hmax & _).
  pose proof (in_pool_le f (fr_ok _ _ R) (a_pool a) id a Ha) as Hin. unfold in_pool in Hin. rewrite Z.eqb_refl in Hin.
  unfold max_pool_space, max_miner_space, min_miner_space, one_gb in *.
  rewrite u64_id in H by (clear -Hu0 Hqm0 Hin Hmax; unfold is_u64; lia).
  replace (q0 <? q0 - pool_used f (a_pool a) + a_max a) with false in H by (clear -Hin; lia).
  apply bind_Ok in H as (sp' & ? & ? & (Hsp' & -> & ->)%get_Ok & H). cbn in Hsp'.
  apply bind_Ok in H as (? & ? & ? & (Hfit & -> & ->)%eosio_assert_Ok & H).
  apply bind_Ok in H as (? & ? & ? & (r & r' & Hr2 & [= <-] & -> & ->)%modify_Ok & H). cbn in Hr2.
  rewrite Hsp' in Hr2. injection Hr2 as <-.
  apply bind_Ok in H as (? & ? & ? & (r & r' & Hr2 & [= <-] & -> & ->)%modify_Ok & H). cbn in Hr2.
  rewrite Hmi in Hr2. injection Hr2 as <-.
  eapply (sync_miner_Ok s f R id) in H as (m0 & Hm0 & (M1 & M2 & M3 & M4 & M5) & Hi0 & Hi1 & -> & ->); [|done|done].
  set (na := mkMachine (a_owner a) (a_admin a) p (a_max a) (a_used a) (a_on a)).
  assert (Esp : sp' = mkStorepool p w q (q - pool_used f p + in_pool p a)).
  { rewrite lookup_insert in Hsp'. unfold in_pool. destruct (Z.eqb_spec (a_pool a) p) as [E|]; case_decide; try done.
    - injection Hsp' as <-. rewrite E in *. by simplify_eq.
    - rewrite Hsp in Hsp'. injection Hsp' as <-. f_equal. lia. }
  subst sp'. cbn in Hfit. apply Z.leb_le in Hfit.
  pose proof (fun y => pool_used_moved f id a p y Ha) as Hpu. fold na in Hpu.
  pose proof (in_pool_le f (fr_ok _ _ R) p id a Ha) as Hin'. pose proof (in_pool_bounds f (fr_ok _ _ R) p id a Ha) as Hin0.
  assert (Hpp : pool_used (set_machine id na f) p <= q) by (rewrite Hpu, Z.eqb_refl; clear -Hfit; lia).
  exists (set_machine id na f). split.
  { cbn. eapply fleet_change_Some; [exact Ha|reflexivity|]. cbn -[pool_used]. rewrite Hq. fold na. clear -Hpp. lia. }
  eapply (rel_place s f id a na _ m0); try done; cbn -[pool_used]; try done; try by eexists.
  - intros y z v Hx. destruct (Z.eqb_spec p y) as [<-|Hxp]; [rewrite Hq in Hx; by injection Hx as <- <-|].
    rewrite Hpu. destruct (Z.eqb_spec p y); [done|]. pose proof (in_pool_bounds f (fr_ok _ _ R) y id a Ha).
    apply (fo_quota _ (fr_ok _ _ R)) in Hx. lia.
  - rewrite u64_id by (clear -Hu Hqm Hfit Hin0 Hmax Hin'; unfold is_u64; lia). by apply pools_moved.
  - rewrite (fr_total _ _ R). symmetry. by apply (total_keep f id na a Ha).
Qed.

Lemma need_Ok (calc b : bool) msg (q1 q2 : asset) v c (s s' : hddpool) o o' :
  (if calc then _ ← eosio_assert b msg; mret q1 else mret q2) c s o = Ok (v, s', o') -> s' = s /\ o' = o.
Proof. intros. by minv. Qed.

Definition grown (d : Z) (a : machine) : machine := a <| a_max := a_max a + d |>.

Lemma pool_used_grown f id a d y : machines f !! id = Some a ->
  pool_used (set_machine id (grown d a) f) y = pool_used f y + (if a_pool a =? y then d else 0).
Proof. intros Ha. rewrite (pool_used_set f id a _ y Ha). unfold in_pool; cbn. destruct (a_pool a =? y); lia. Qed.

(** A machine that grows by [d] slices. *)
Lemma rel_grow s f id a d w q m m' s' :
  fleet_rel s f -> machines f !! id = Some a -> max_table_count (slot_meta s) < 2^32 - 1 ->
  0 <= d -> slice_aligned d = true -> a_max a + d <= max_miner_space ->
  quotas f !! a_pool a = Some (w, q) -> pool_used f (a_pool a) + d <= q ->
  storepools s' = <[a_pool a := mkStorepool (a_pool a) w q (u64 (q - pool_used f (a_pool a) - d))]> (storepools s) ->
  minerinfos s' = <[id := mkMinerinfo id (a_owner a) (a_admin a) (a_pool a) (u64 (a_max a + d)) (u64 (a_max a - a_used a + d))]> (minerinfos s) ->
  maccounts s' = maccounts s -> userhdds s' = userhdds s -> miner2s s' = miner2s s -> miner2ex1 s' = miner2ex1 s ->
  miners s !! id = Some m -> miners s' = <[id := m']> (miners s) -> row_matches id a (m' <| m_max_space := a_max a |>) ->
  m_max_space m' = u64 (a_max a + d) -> internal_id m' = internal_id m ->
  default 0 (counterstat1 s') = u64 (default 0 (counterstat1 s) + Z.shiftr d 16) -> fleet_rel s' (set_machine id (grown d a) f).
Proof.
  intros R Ha Hmt Hd Hal Hmx Hq Hfit P I A U S1 S2 Hm M Em Emx Ei C.
  pose proof (fo_machine _ (fr_ok _ _ R) _ _ Ha) as (Hid & Hown & D1 & D2 & Hmm & Hused & Hon).
  pose proof (rel_gb_bound s f R ltac:(clear -Hmt; lia)) as Hgb.
  pose proof (fo_quota _ (fr_ok _ _ R) _ _ _ Hq) as Hqm. pose proof (pool_used_nonneg f (fr_ok _ _ R) (a_pool a)) as Hp0.
  pose proof (fun y => pool_used_grown f id a d y Ha) as Hpu. apply slice_aligned_iff in Hal as Hdv.
  unfold max_pool_space, max_miner_space, min_miner_space, one_gb in *.
  eapply (rel_place s f id a (grown d a) _ m); try done; cbn -[pool_used]; try by eexists.
  - unfold machine_ok, max_miner_space, min_miner_space, one_gb; cbn. repeat split; try done; try lia. by apply Z.divide_add_r.
  - intros y z v Hy. rewrite Hpu. destruct (Z.eqb_spec (a_pool a) y) as [<-|].
    + rewrite Hq in Hy. injection Hy as <- <-. lia.
    + apply (fo_quota _ (fr_ok _ _ R)) in Hy. lia.
  - rewrite P. intros x. change (quotas (set_machine id (grown d a) f)) with (quotas f). rewrite lookup_insert. case_decide; [subst x|].
    + rewrite Hq. cbn -[pool_used]. unfold pool_row; cbn -[pool_used]. rewrite Hpu, Z.eqb_refl. do 2 f_equal.
      rewrite u64_id by (unfold is_u64; lia). lia.
    + rewrite (fr_pools _ _ R). destruct (quotas f !! x); [|done]. cbn -[pool_used]. unfold pool_row. rewrite Hpu.
      destruct (Z.eqb_spec (a_pool a) x); [done|]. do 2 f_equal. lia.
  - rewrite I. unfold info_row; cbn. rewrite !u64_id by (unfold is_u64; lia). do 2 f_equal. lia.
  - destruct Em as (E1 & E2 & E3 & E4 & E5). cbn in *. unfold row_matches; cbn. rewrite Emx, u64_id by (unfold is_u64; lia). done.
  - rewrite C, (fleet_gb_set _ _ _ _ Ha), (fr_total _ _ R), Z.shiftr_div_pow2 by done. change (2^16) with 65536.
    destruct Hdv as [k ->]. cbn. rewrite Z.div_add, Z.div_mul by done. rewrite u64_id; [lia|]. unfold is_u64. lia.
Qed.

Lemma mincdeposit_refines {DV : DepositView} id d q calc u c s o s' o' f :
  fleet_rel s f -> is_u64 d -> max_table_count (slot_meta s) < 2^32 - 1 -> mincdeposit id d q calc c s o = Ok (u, s', o') ->
  exists f', fleet_apply (PMincdeposit DV id d q calc) f = Some f' /\ fleet_rel s' f'.
Proof.
  intros R Hd Hmt H. unfold mincdeposit, chg_total_space in H.
  apply bind_Ok in H as (m & s1 & o1 & (Hm & -> & ->)%get_Ok & H).
  destruct (fr_rows _ _ R) as [Hrow _]. specialize (Hrow id). rewrite Hm in Hrow.
  destruct Hrow as (a & Ha & (M1 & M2 & M3 & M4 & M5) & Hi0 & Hi1). rewrite M3, M4 in H.
  apply bind_Ok in H as (? & ? & ? & (Hal & -> & ->)%eosio_assert_Ok & H).
  apply bind_Ok in H as (? & ? & ? & (Hmax%Z.leb_le & -> & ->)%eosio_assert_Ok & H).
  apply bind_Ok in H as (? & ? & ? & (_ & -> & ->)%eosio_assert_Ok & H).
  apply bind_Ok in H as (? & ? & ? & (_ & -> & ->)%require_auth_Ok & H).
  apply bind_Ok in H as (? & ? & ? & (-> & -> & ->)%gets_Ok & H).
  apply bind_Ok in H as (? & ? & ? & (_ & -> & ->)%require_auth_Ok & H).
  apply bind_Ok in H as (? & ? & ? & (_ & -> & ->)%get_Ok & H).
  apply bind_Ok in H as (? & ? & ? & (r & r' & Hr & Hg & -> & ->)%modify_Ok & H).
  destruct (rel_pool s f _ _ R Hr) as (w & qt & Hq & -> & Hp & Hu & Hqm).
  apply res_bind_ok in Hg as (? & Hfit%guard_Ok%Z.leb_le & [= <-]). cbn in Hfit.
  apply bind_Ok in H as (? & ? & ? & (r & r' & Hr1 & [= <-] & -> & ->)%modify_Ok & H). cbn in Hr1.
  rewrite Hm in Hr1. injection Hr1 as <-.
  apply bind_Ok in H as (? & ? & ? & Htot & H). 
  apply bind_Ok in Htot as (g0 & ? & ? & (-> & -> & ->)%sget_Ok & (-> & ->)%sset_Ok). cbn [setf] in H. cbn in H.
  apply bind_Ok in H as (fo & ? & ? & (_ & -> & ->)%lift_Ok & H).
  apply bind_Ok in H as (mo & ? & ? & (_ & -> & ->)%lift_Ok & H).
  apply bind_Ok in H as (ne & ? & ? & (_ & -> & ->)%lift_Ok & H).
  apply bind_Ok in H as (na0 & sx & ox & (-> & ->)%need_Ok & H).
  apply bind_Ok in H as (? & ? & ? & (_ & -> & ->)%send_Ok & H).
  apply bind_Ok in H as (it & ? & ? & (-> & -> & ->)%find_Ok & H). cbn in H.
  rewrite (fr_infos _ _ R), Ha in H. cbn in H. apply modify_Ok in H as (r & r' & Hr2 & [= <-] & -> & ->). cbn in Hr2.
  rewrite (fr_infos _ _ R), Ha in Hr2. injection Hr2 as <-.
  pose proof (fo_machine _ (fr_ok _ _ R) _ _ Ha) as (_ & _ & _ & _ & Hmm & _).
  rewrite u64_id in Hmax by (clear -Hd Hfit Hu Hqm Hmm; unfold is_u64, max_pool_space, max_miner_space, min_miner_space, one_gb in *; lia).
  exists (set_machine id (grown d a) f). split.
  - cbn. eapply fleet_change_Some; [exact Ha|reflexivity|]. cbn -[pool_used]. fold (grown d a). rewrite Hal, Hq.
    rewrite (pool_used_grown f id a d _ Ha), Z.eqb_refl. clear -Hmax Hfit. lia.
  - eapply (rel_grow s f id a d w qt m); cbn; try eassumption; try done; [by destruct Hd|lia|lia|by rewrite M4].
Qed.

Definition given (w : name) (a : machine) : machine := a <| a_owner := w |>.

Section give.
Context (s : hddpool) (f : fleet) (R : fleet_rel s f) (id : Z) (a : machine) (Ha : machines f !! id = Some a).
Context (w : name) (Hw : w <> a_owner a).
#[local] Abbreviation f' := (set_machine id (given w a) f).

Lemma owner_used_given x : owner_used f' x = owner_used f x - earns_for x a + (if (w =? x) && a_on a then a_used a else 0).
Proof using Ha. by rewrite (owner_used_set f id a _ x Ha). Qed.

(** The books of the two owners. *)
Lemma users_give t1 t2 t3 :
  (if a_on a then moved (a_owner a) (a_used a) false (userhdds s) t1 else t1 = userhdds s) ->
  users_grow t1 t2 -> is_Some (space_of t2 w) ->
  (if a_on a then moved w (a_used a) true t2 t3 else t3 = t2) -> users_rel f' t3 /\ owner_fits f' w = true.
Proof using R Ha Hw.
  pose proof (fr_ok _ _ R) as Hf. pose proof (fo_machine _ Hf _ _ Ha) as (_ & _ & _ & _ & Hmax & Hused & _).
  intros H1 G Hs H3. unfold max_miner_space, one_gb in Hmax.
  destruct (a_on a) eqn:Eon.
  - set (g := set_machine id (a <| a_on := false |>) f).
    assert (Hg : forall x, owner_used g x = owner_used f x - earns_for x a).
    { intros x. unfold g. rewrite (owner_used_set f id a _ x Ha). unfold earns_for at 2. cbn. rewrite andb_false_r. lia. }
    assert (Hle : forall x, earns_for x a <= owner_used f x) by (intros x; by eapply earns_for_le).
    assert (U1 : users_rel g t1).
    { eapply users_moved; [apply R|exact H1|by eapply owners_set|]. intros x Hx. rewrite Hg. specialize (Hle x).
      unfold earns_for in *. rewrite Eon, andb_true_r in *. case_decide as D; [subst x; rewrite Z.eqb_refl in *|].
      - by rewrite new_space_sub by lia.
      - destruct (Z.eqb_spec (a_owner a) x); [done|lia]. }
    pose proof (users_frame _ _ _ U1 G) as U2.
    assert (Hu : forall x, x <> ecologyfound_acc -> owner_used f' x = if decide (w = x) then new_space (owner_used g x) (a_used a) true else owner_used g x).
    { intros x Hx. rewrite owner_used_given, Eon, andb_true_r, Hg. case_decide as D.
      - subst x. rewrite Z.eqb_refl. pose proof (fo_owner _ Hf w Hx) as Hm. unfold max_profit_space, one_gb in Hm.
        unfold earns_for. destruct (Z.eqb_spec (a_owner a) w); [congruence|]. cbn [andb].
        pose proof (owner_used_nonneg f Hf w). rewrite new_space_add; lia.
      - destruct (Z.eqb_spec w x); [done|lia]. }
    split.
    + eapply users_moved; [exact U2|exact H3| |done]. intros i b. cbn. rewrite lookup_insert. case_decide as D; [by intros [= <-]|].
      intros Hb. apply (proj1 U2 i). unfold g; cbn. by rewrite lookup_insert_ne.
    + apply (moved_fits g f' w (a_used a) true _ _ U2 H3). intros Hx. rewrite Hu by done. by rewrite decide_True.
  - subst t1 t3. pose proof (users_frame _ _ _ (fr_users _ _ R) G) as U2.
    assert (Hu : forall x, owner_used f' x = owner_used f x).
    { intros x. rewrite owner_used_given. unfold earns_for. rewrite Eon, !andb_false_r. lia. }
    split.
    + eapply users_same; [exact U2| |done]. intros i b. cbn. rewrite lookup_insert. case_decide as D; [by intros [= <-]|]. apply (proj1 U2 i).
    + unfold owner_fits. rewrite Hu. destruct (Z.eqb_spec w ecologyfound_acc); [done|]. cbn. pose proof (fo_owner _ Hf w). lia.
Qed.

Lemma rel_give s' ma m m' :
  w <> 0 -> storepools s' = storepools s -> minerinfos s' = <[id := info_row id (given w a)]> (minerinfos s) ->
  maccounts s' = delete (a_owner a, id) (<[(w, id) := ma]> (maccounts s)) ->
  ma_space ma = a_used a -> earning a (ma_per_cycle_profit ma) ->
  miners s !! id = Some m -> miners s' = <[id := m']> (miners s) -> row_matches id (given w a) m' -> internal_id m' = internal_id m ->
  miner2s s' = miner2s s -> miner2ex1 s' = miner2ex1 s -> counterstat1 s' = counterstat1 s ->
  users_rel f' (userhdds s') -> owner_fits f' w = true -> fleet_rel s' f'.
Proof using R Ha Hw.
  intros Hw0 P I A Ea Er Hm M Em Ei S1 S2 C U Hfit.
  split; rewrite ?I, ?A, ?M, ?P, ?C, ?(slots_of_eq _ _ S1), ?(slot_meta_eq _ _ S2).
  - pose proof (fo_machine _ (fr_ok _ _ R) _ _ Ha) as Hok. apply (fleet_ok_set s f R).
    + destruct Hok as (H1 & H2 & H3). by split.
    + exact (fo_pool _ (fr_ok _ _ R) id a Ha).
    + intros. by eapply quota_keep.
    + intros x Hx. rewrite owner_used_given. pose proof (fo_owner _ (fr_ok _ _ R) x Hx).
      pose proof (earns_for_bounds f (fr_ok _ _ R) x id a Ha). destruct (Z.eqb_spec w x) as [<-|]; [|cbn; lia].
      unfold owner_fits in Hfit. rewrite owner_used_given, Z.eqb_refl in Hfit. destruct (Z.eqb_spec w ecologyfound_acc); [done|lia].
  - by apply (pools_keep s f R id (given w a) a).
  - by apply infos_set.
  - intros x j. pose proof (fr_accounts _ _ R x j) as Hr. cbn. rewrite lookup_delete, !lookup_insert. case_decide as D1.
    + injection D1 as <- <-. rewrite decide_True by done. by intros b [= <-].
    + case_decide as D2; [injection D2 as <- <-; exists (given w a); by rewrite decide_True|].
      case_decide as D3; [subst j|done]. destruct (maccounts s !! (x, id)).
      * destruct Hr as (b & Hb & <- & _). congruence.
      * intros b [= <-]. cbn. congruence.
  - by eapply rows_set.
  - apply (slots_ok_eq _ _ S1 S2), R.
  - done.
  - rewrite (total_keep f id (given w a) a Ha) by done. apply R.
  - apply R.
Qed.
End give.

Lemma when_chg_Ok (b : bool) w d inc ct dl u c s o s' o' :
  when b (chg_owner_space w d inc true ct dl) c s o = Ok (u, s', o') ->
  exists t, s' = s <| userhdds := t |> /\ o' = o /\ if b then moved w d inc (userhdds s) t else t = userhdds s.
Proof.
  unfold when. destruct b; intros H; [by apply chg_owner_space_Ok in H|]. minv. exists (userhdds s). by destruct s.
Qed.

Lemma open_user_Ok w u c s o s' o' :
  match userhdds s !! w with None => new_user_hdd w 0 | Some _ => mret tt end c s o = Ok (u, s', o') ->
  exists t gu, s' = s <| userhdds := t |> <| gstateu := gu |> /\ o' = o /\ users_grow (userhdds s) t /\ is_Some (space_of t w).
Proof.
  intros H. unfold new_user_hdd in H. minv.
  - exists (userhdds s), (gstateu s). split; [by destruct s|]. split; [done|]. split; [intros x; by left|].
    unfold space_of. by simplify_map_eq.
  - eexists _, _. split; [reflexivity|]. split; [done|]. cbn. by apply users_grow_new.
Qed.

Lemma mchgowneracc_refines id w u c s o s' o' f : fleet_rel s f -> is_account c 0 = false ->
  mchgowneracc id w c s o = Ok (u, s', o') ->
  exists f', fleet_apply (PMchgowneracc id w) f = Some f' /\ fleet_rel s' f'.
Proof.
  intros R H0 H. unfold mchgowneracc, assert_account in H.
  apply bind_Ok in H as (mi & s1 & o1 & (Hmi & -> & ->)%get_Ok & H). destruct (rel_info s f R id _ Hmi) as (a & Ha & ->).
  apply bind_Ok in H as (? & ? & ? & Hacc & H).
  apply bind_Ok in Hacc as (ok & ? & ? & (-> & -> & ->)%ask_Ok & (Hw & -> & ->)%eosio_assert_Ok).
  apply bind_Ok in H as (? & ? & ? & (_ & -> & ->)%eosio_assert_Ok & H).
  apply bind_Ok in H as (? & ? & ? & (-> & -> & ->)%gets_Ok & H).
  do 2 apply bind_Ok in H as (? & ? & ? & (_ & -> & ->)%require_auth_Ok & H).
  apply bind_Ok in H as (old & ? & ? & (Hold & -> & ->)%get_Ok & H). cbn [info_row mi_owner] in *.
  destruct (rel_account s f R id _ _ Hold) as (b & Hb & _ & Esp & Een). rewrite Ha in Hb. injection Hb as <-.
  apply bind_Ok in H as (now & ? & ? & (-> & -> & ->)%ask_Ok & H). rewrite <- (earning_on _ _ Een), Esp in H.
  apply bind_Ok in H as (? & ? & ? & (t1 & -> & -> & Hm1)%when_chg_Ok & H).
  apply bind_Ok in H as (? & ? & ? & (-> & -> & ->)%find_Ok & H).
  apply bind_Ok in H as (? & ? & ? & (t2 & gu & -> & -> & Hg & Hs)%open_user_Ok & H).
  apply bind_Ok in H as (? & ? & ? & (t3 & -> & -> & Hm3)%when_chg_Ok & H).
  apply bind_Ok in H as (? & ? & ? & (-> & -> & ->)%find_Ok & H).
  apply bind_Ok in H as (? & ? & ? & (Hno & -> & ->)%eosio_assert_Ok & H).
  apply bind_Ok in H as (? & ? & ? & (_ & -> & ->)%emplace_Ok & H).
  apply bind_Ok in H as (? & ? & ? & (? & _ & -> & ->)%erase_Ok & H).
  apply bind_Ok in H as (? & ? & ? & (r & r' & Hr & [= <-] & -> & ->)%modify_Ok & H). cbn in Hr, Hno, Hm1, Hm3, Hg.
  rewrite Hmi in Hr. injection Hr as <-.
  eapply (sync_miner_Ok s f R id) in H as (m0 & Hm0 & (M1 & M2 & M3 & M4 & M5) & Hi0 & Hi1 & -> & ->); [|done|done].
  assert (Hne : w <> a_owner a) by (intros ->; by rewrite Hold in Hno).
  destruct (users_give s f R id a Ha w Hne t1 t2 t3 Hm1 Hg Hs Hm3) as [HU Hfit].
  exists (set_machine id (given w a) f). split.
  - cbn. eapply fleet_change_Some; [exact Ha|reflexivity|]. cbn -[owner_fits]. fold (given w a). rewrite Hfit.
    destruct (Z.eqb_spec (a_owner a) w); [congruence|done].
  - eapply (rel_give s f R id a Ha w Hne _ (mkMaccount id w (a_used a) (ma_per_cycle_profit old) (hdd_balance old) (last_hdd_time old)));
      cbn; try eassumption; try done. intros ->. congruence.
Qed.

(** [oldsync] has nothing to do: every miner is in the new table already. *)
Lemma oldsync_fails id u c s o s' o' f : fleet_rel s f -> oldsync id c s o = Ok (u, s', o') -> False.
Proof.
  intros R H. unfold oldsync in H.
  apply bind_Ok in H as (? & ? & ? & (_ & -> & ->)%require_auth_Ok & H).
  apply bind_Ok in H as (it & ? & ? & (-> & -> & ->)%find_Ok & H).
  apply bind_Ok in H as (? & ? & ? & (Hno & -> & ->)%eosio_assert_Ok & H).
  apply bind_Ok in H as (mi & ? & ? & (Hmi & -> & ->)%get_Ok & _). destruct (rel_info s f R id _ Hmi) as (a & Ha & ->).
  destruct (rel_row s f R id a Ha) as (m & Hm & _). by rewrite Hm in Hno.
Qed.

(** ** The refinement *)

(** Arguments in the range of their types, storage pools with a name, and no
    account with the empty name. *)
Definition pool_args_ok (c : ctx) (act : pool_action) : Prop :=
  is_account c 0 = false /\
  match act with
  | PRegstrpool p _ => p <> 0
  | PChgpoolspace _ _ d | PAddmprofit _ _ _ d _ | PSubmprofit _ _ _ d _ | PMincdeposit _ _ d _ _ => is_u64 d
  | PRegminer _ _ _ _ _ _ mx _ _ => is_u64 mx
  | _ => True
  end.

Lemma pool_handler_refines pow act u c s o s' o' f :
  fleet_rel s f -> pool_args_ok c act -> max_table_count (slot_meta s) < 2^32 - 1 ->
  pool_handler pow act c s o = Ok (u, s', o') -> exists f', fleet_apply act f = Some f' /\ fleet_rel s' f'.
Proof.
  intros R [H0 Ha] Hm H. destruct (quiet act) eqn:Eq.
  { exists f. split; [by apply quiet_apply|]. eapply frame_rel; [by eapply (quiet_framed pow act Eq)|done]. }
  destruct act; try discriminate Eq; cbn [pool_handler] in H; cbn in Ha.
  - by eapply addmprofit_refines.
  - by eapply delminer_refines.
  - unfold calcmbalance in H. minv. done.
  - by eapply delstrpool_refines.
  - by eapply regstrpool_refines.
  - by eapply chgpoolspace_refines.
  - unfold newminer in H. apply bind_Ok in H as (? & ? & ? & [? _]%eosio_assert_Ok & _). done.
  - unfold addm2pool in H. apply bind_Ok in H as (? & ? & ? & [? _]%eosio_assert_Ok & _). done.
  - by eapply submprofit_refines.
  - by eapply regminer_refines.
  - unfold mchgspace in H. apply bind_Ok in H as (? & ? & ? & [? _]%eosio_assert_Ok & _). done.
  - by eapply mincdeposit_refines.
  - by eapply mchgstrpool_refines.
  - by eapply mchgadminacc_refines.
  - by eapply mchgowneracc_refines.
  - unfold fixownspace in H. apply bind_Ok in H as (? & ? & ? & [? _]%eosio_assert_Ok & _). done.
  - by apply (oldsync_fails _ _ _ _ _ _ _ f R) in H.
  - by eapply mdeactive_refines.
  - by eapply mactive_refines.
Qed.

Lemma framed_ctor : framed ctor.
Proof. unfold ctor. framed_tac. Qed.
Lemma framed_dtor : framed dtor.
Proof. unfold dtor. framed_tac. Qed.

Lemma pool_apply_refines pow act u c s o s' o' f :
  fleet_rel s f -> pool_args_ok c act -> regs f < 2^32 - 1 ->
  pool_apply pow act c s o = Ok (u, s', o') -> exists f', fleet_apply act f = Some f' /\ fleet_rel s' f'.
Proof.
  intros R Ha Hm H. unfold pool_apply, in_object in H.
  apply bind_Ok in H as (u1 & s1 & o1 & H1 & H). apply framed_ctor in H1. pose proof (frame_rel _ _ _ H1 R) as R1.
  apply bind_Ok in H as (u2 & s2 & o2 & H2 & H3).
  destruct (pool_handler_refines pow act u2 c s1 o1 s2 o2 f) as (f' & E & R2); [done..| |done|].
  { pose proof (fr_regs _ _ R1). lia. }
  exists f'. split; [done|]. eapply frame_rel; [by eapply framed_dtor|done].
Qed.

(** Only a registration raises the number of registrations. *)
Lemma fleet_apply_regs act f f' : fleet_apply act f = Some f' -> regs f' <= regs f + 1.
Proof.
  assert (K : forall b g, keep_if b g = Some f' -> g = f') by (intros [] g; by intros [= ->]).
  destruct act; cbn [fleet_apply]; unfold fleet_register, fleet_change; intros H;
    repeat (match type of H with context [match ?t !! ?k with _ => _ end] => destruct (t !! k) as [[]|] eqn:? end);
    first [discriminate H | injection H as <- | apply K in H; subst f']; cbn; lia.
Qed.

Fixpoint fleet_exec (l : list pool_action) (f : fleet) : option fleet :=
  match l with
  | [] => Some f
  | a :: l' => f' ← fleet_apply a f; fleet_exec l' f'
  end.

Lemma pool_exec_refines pow l s s' f :
  fleet_rel s f -> regs f + Z.of_nat (length l) < 2^32 -> Forall (fun ac => pool_args_ok (snd ac) (fst ac)) l ->
  exec_all (pool_apply pow) l s = Ok s' -> exists f', fleet_exec (map fst l) f = Some f' /\ fleet_rel s' f'.
Proof.
  revert s f. induction l as [|[a c] l IH]; intros s f R Hn Hl H.
  { cbn in H. injection H as <-. by exists f. }
  cbn [exec_all] in H. destruct (pool_apply pow a c s no_out) as [[[u s1] o1]|] eqn:E; [|discriminate H].
  inversion Hl as [|? ? Ha Hl']; subst. cbn [length] in Hn.
  destruct (pool_apply_refines pow a u c s no_out s1 o1 f) as (f1 & Ef & R1); [done..|lia|done|].
  apply fleet_apply_regs in Ef as Hr. destruct (IH s1 f1) as (f' & E' & R'); [done|lia|done..|].
  exists f'. split; [|done]. cbn. by rewrite Ef.
Qed.

Lemma fleet_rel_init : fleet_rel hddpool_init fleet_init.
Proof.
  split; first [apply slots_ok_init|by split|done|intros o id; cbn; by rewrite lookup_empty].
Qed.

(** ** What the tables agree on *)


(** Space of a pool taken by the registered miners, space an owner's earning
    miners use, capacity of all miners in GB, read off the tables. *)
Definition taken_of (s : hddpool) (p : name) : Z :=
  map_sum (fun _ mi => if mi_pool_id mi =? p then mi_max_space mi else 0) (minerinfos s).


Section books.
Context (s : hddpool) (f : fleet) (R : fleet_rel s f).






End books.

(** ** The theorems *)

(** C1: hddpool refines the fleet of machines, if its storage pools have names.  Take any
    sequence of fewer than 2^32 actions, of all the contract's actions, each with arguments
    in the range of their types, in which no pool is registered under the empty name and
    which runs where the empty name is no account; suppose the contract accepts it
    from its empty tables.  Then the specification [fleet_apply] accepts the sequence of the
    same actions, and the final tables represent the final fleet: the pools with the space
    they have left, the three tables of miners, the compact table that the reward lottery
    draws from, the owners' earning space and profit, and the total capacity.  The
    contract does not refuse the empty name, and with it the refinement fails
    ([nameless_pool_leaks]). *)
Theorem pool_refines_fleet pow l s' :
  Z.of_nat (length l) < 2^32 -> Forall (fun ac => pool_args_ok (snd ac) (fst ac)) l ->
  exec_all (pool_apply pow) l hddpool_init = Ok s' ->
  exists f, fleet_exec (map fst l) fleet_init = Some f /\ fleet_rel s' f.
Proof. intros Hn Hl H. eapply pool_exec_refines; [apply fleet_rel_init|cbn; lia|done..]. Qed.


(** An action the specification refuses fails in the contract: no storage
    pool is overdrawn, no owner exceeds the cap, no machine is registered twice
    or changed when it is not there, whatever the authorizations. *)
Theorem refused_actions_fail pow act c s o f :
  fleet_rel s f -> pool_args_ok c act -> regs f < 2^32 - 1 -> fleet_apply act f = None ->
  exists e, pool_apply pow act c s o = Err e.
Proof.
  intros R Ha Hm Hf. destruct (pool_apply pow act c s o) as [[[u s'] o']|e] eqn:E; [|by exists e].
  destruct (pool_apply_refines pow act u c s o s' o' f) as (f' & E' & _); [done..|]. congruence.
Qed.

(** A pool with one miner: 100 GB are used of 200, then the miner moves to
    another pool, is deactivated and activated again. *)
Definition fleet_ctx (actors : list name) : ctx :=
  let c := ctx_of (N "hddpool12345") actors 1600000000000000 in
  mkCtx (self c) (auths c) (fun a => negb (a =? 0)) (current_time c) 0 0 (may_send c) (may_defer c).

Definition demo_bps : SystemView := {| isActiveVoter := fun _ => true; getProducerSeq := fun a => (1, a) |}.

Definition fleet_demo_actions : list (pool_action * ctx) :=
  let dv := fixed_deposit 1000 in
  [(PRegstrpool (N "pool1") (N "bob"), fleet_ctx [N "bob"]);
   (PRegstrpool (N "pool2") (N "carol"), fleet_ctx [N "carol"]);
   (PRegminer dv 7 (N "adm") (N "dan") (N "pool1") (N "alice") (200 * 65536) (core 500) true,
     fleet_ctx [N "dan"; N "bob"]);
   (PAddmprofit demo_bps (N "alice") 7 (100 * 65536) (N "bp1"), fleet_ctx [N "bp1"]);
   (PMchgstrpool 7 (N "pool2"), fleet_ctx [N "adm"; N "carol"]);
   (PMdeactive demo_bps (N "alice") 7 (N "bp1"), fleet_ctx [N "bp1"]);
   (PMactive demo_bps (N "alice") 7 (N "bp1"), fleet_ctx [N "bp1"])].
Definition pow_demo (a b : f64) : f64 := a.
Definition fleet_demo : hddpool := ok_or hddpool_init (exec_all (pool_apply pow_demo) fleet_demo_actions hddpool_init).
Definition fleet_demo_f : fleet := default fleet_init (fleet_exec (map fst fleet_demo_actions) fleet_init).

Lemma fleet_demo_args : Forall (fun ac => pool_args_ok (snd ac) (fst ac)) fleet_demo_actions.
Proof. repeat constructor; vm_compute; congruence. Qed.

Lemma fleet_demo_runs : exec_all (pool_apply pow_demo) fleet_demo_actions hddpool_init = Ok fleet_demo.
Proof. vm_compute. reflexivity. Qed.

Lemma fleet_demo_rel : fleet_rel fleet_demo fleet_demo_f.
Proof.
  destruct (pool_exec_refines pow_demo fleet_demo_actions hddpool_init fleet_demo fleet_init) as (f & E & R);
    [apply fleet_rel_init|done|apply fleet_demo_args|apply fleet_demo_runs|].
  unfold fleet_demo_f. by rewrite E.
Qed.

Lemma pool_refines_fleet_witness :
  exec_all (pool_apply pow_demo) fleet_demo_actions hddpool_init = Ok fleet_demo /\
  (exists f, fleet_exec (map fst fleet_demo_actions) fleet_init = Some f /\ fleet_rel fleet_demo f) /\
  machines fleet_demo_f !! 7 = Some (mkMachine (N "alice") (N "adm") (N "pool2") (200 * 65536) (100 * 65536) true).
Proof.
  split; [exact fleet_demo_runs|]. split; [|vm_compute; reflexivity].
  apply (pool_refines_fleet pow_demo); [reflexivity|exact fleet_demo_args|exact fleet_demo_runs].
Defined.


(** 101 GB more do not fit the 200 GB of the miner. *)
Lemma refused_actions_fail_witness :
  let act := PAddmprofit demo_bps (N "alice") 7 (101 * 65536) (N "bp1") in
  fleet_apply act fleet_demo_f = None /\
  exists e, pool_apply pow_demo act (fleet_ctx [N "bp1"]) fleet_demo no_out = Err e.
Proof.
  intros act. assert (E : fleet_apply act fleet_demo_f = None) by (vm_compute; reflexivity). split; [exact E|].
  apply (refused_actions_fail pow_demo act (fleet_ctx [N "bp1"]) fleet_demo no_out fleet_demo_f); [exact fleet_demo_rel| |reflexivity|exact E].
  split; vm_compute; [reflexivity|split; congruence].
Defined.

(** The name of a storage pool must not be empty for the books to balance.
    [regstrpool] accepts the empty name and [regminer] registers a miner there,
    but [delminer] takes pool 0 to mean that the miner is in no pool, so the
    space of the removed miner never returns: the pool has no miner left and
    still counts 200 GB as taken. *)
Theorem nameless_pool_leaks : exists s,
  exec_all (pool_apply pow_demo)
    [(PRegstrpool 0 (N "bob"), fleet_ctx [N "bob"]);
     (PRegminer (fixed_deposit 1000) 7 (N "adm") (N "dan") 0 (N "alice") (200 * 65536) (core 500) true,
       fleet_ctx [N "dan"; N "bob"]);
     (PDelminer demo_bps 7 0 (N "bp1"), fleet_ctx [N "hddpooladml2"])] hddpool_init = Ok s /\
  minerinfos s = ∅ /\ taken_of s 0 = 0 /\
  storepools s !! 0 = Some (mkStorepool 0 (N "bob") max_pool_space (max_pool_space - 200 * 65536)).
Proof. eexists. split; [vm_compute; reflexivity|]. repeat split; vm_compute; reflexivity. Qed.
