(* ===== verification/Raw.v ===== *)
(** * The bytes of a value

    libraries/fc/include/fc/io/raw.hpp, with datastream.hpp, container/flat.hpp and
    io/enum_type.hpp: [fc::raw::pack] and [fc::raw::unpack].  A codec has the two
    directions of a type; [roundtrips] says that what was packed is unpacked, whatever
    bytes follow.  A record is packed as its FC_REFLECT list says, field after field. *)

From stdpp Require Import sorting.
From S2P Require Import Prelude.
#[local] Open Scope Z_scope.

(** [pack] is [None] when an assertion on a size fails, [unpack] when one fails or the
    stream ends too early.  [fits]: the values the type of the code can hold, with
    no more elements than can be packed. *)
Record codec (A : Type) := mkCodec {
  pack : A -> option (list Z);
  unpack : list Z -> option (A * list Z);
  fits : A -> bool
}.
Arguments mkCodec {A}.
Arguments pack {A}.
Arguments unpack {A}.
Arguments fits {A}.

Class Roundtrips {A} (c : codec A) : Prop :=
  roundtrips a : fits c a = true -> exists bs, pack c a = Some bs /\ forall rest, unpack c (bs ++ rest) = Some (a, rest).

(** ** Numbers *)

(** [s.write( (char* )&v, n )], with the lowest byte first. *)
Fixpoint to_le (n : nat) (v : Z) : list Z :=
  match n with O => [] | S n' => v mod 256 :: to_le n' (v / 256) end.
Fixpoint of_le (l : list Z) : Z :=
  match l with [] => 0 | b :: l' => b + 256 * of_le l' end.

(** [s.read( d, n )]. *)
Fixpoint read (n : nat) (l : list Z) : option (list Z * list Z) :=
  match n, l with
  | O, _ => Some ([], l)
  | S n', b :: l' => match read n' l' with Some (bs, rest) => Some (b :: bs, rest) | None => None end
  | S _, [] => None
  end.

Definition uint (n : nat) : codec Z :=
  mkCodec (fun v => Some (to_le n v))
          (fun l => match read n l with Some (bs, rest) => Some (of_le bs, rest) | None => None end)
          (fun v => (0 <=? v) && (v <? 256 ^ Z.of_nat n)).
Definition uint8 : codec Z := uint 1.
Definition uint16 : codec Z := uint 2.
Definition uint32 : codec Z := uint 4.
Definition uint64 : codec Z := uint 8.

(** [unsigned_int]: seven bits in a byte, at most five bytes for 32 bits. *)
Fixpoint varint_bytes (fuel : nat) (val : Z) : list Z :=
  let b := Z.land val 0x7f in
  let val := Z.shiftr val 7 in
  Z.lor b (if 0 <? val then 0x80 else 0) ::
  match fuel with O => [] | S fuel' => if val =? 0 then [] else varint_bytes fuel' val end.

Fixpoint read_varint (fuel : nat) (by_ v : Z) (l : list Z) : option (Z * list Z) :=
  match l with
  | [] => None
  | b :: l' =>
      let v := Z.lor v (u32 (Z.shiftl (Z.land b 0x7f) by_)) in
      let by_ := by_ + 7 in
      match fuel with
      | S fuel' => if negb (Z.land b 0x80 =? 0) && (by_ <? 32) then read_varint fuel' by_ v l' else Some (u32 v, l')
      | O => None
      end
  end.

Definition unsigned_int : codec Z :=
  mkCodec (fun v => Some (varint_bytes 4 v)) (read_varint 5 0 0) (fun v => (0 <=? v) && (v <? 2^32)).

Definition bool_codec : codec bool :=
  mkCodec (fun v : bool => pack uint8 (if v then 1 else 0))
          (fun l => match unpack uint8 l with
                    | Some (b, rest) => if Z.land b (Z.lnot 1) =? 0 then Some (negb (b =? 0), rest) else None
                    | None => None
                    end)
          (fun _ => true).

(** ** Containers *)

Definition MAX_NUM_ARRAY_ELEMENTS : Z := 1024 * 1024.
Definition MAX_SIZE_OF_BYTE_ARRAYS : Z := 20 * 1024 * 1024.

Section containers.
Context {A B : Type} (c : codec A) (e : codec B).

(** [std::pair], and two fields of a record. *)
Definition pair_codec : codec (A * B) :=
  mkCodec (fun x : A * B => match pack c x.1, pack e x.2 with Some b1, Some b2 => Some (b1 ++ b2) | _, _ => None end)
          (fun l => match unpack c l with
                    | Some (a, l1) => match unpack e l1 with Some (b, l2) => Some ((a, b), l2) | None => None end
                    | None => None
                    end)
          (fun x => fits c x.1 && fits e x.2).

(** [fc::optional] and [std::shared_ptr]. *)
Definition option_codec : codec (option A) :=
  mkCodec (fun x => match x with
                    | Some a => match pack bool_codec true, pack c a with Some b1, Some b2 => Some (b1 ++ b2) | _, _ => None end
                    | None => pack bool_codec false
                    end)
          (fun l => match unpack bool_codec l with
                    | Some (true, l1) => match unpack c l1 with Some (a, l2) => Some (Some a, l2) | None => None end
                    | Some (false, l1) => Some (None, l1)
                    | None => None
                    end)
          (fun x => match x with Some a => fits c a | None => true end).

(** [static_variant] of two types. *)
Definition variant_codec : codec (A + B) :=
  mkCodec (fun x => match x with
                    | inl a => match pack unsigned_int 0, pack c a with Some b1, Some b2 => Some (b1 ++ b2) | _, _ => None end
                    | inr b => match pack unsigned_int 1, pack e b with Some b1, Some b2 => Some (b1 ++ b2) | _, _ => None end
                    end)
          (fun l => match unpack unsigned_int l with
                    | Some (0, l1) => match unpack c l1 with Some (a, l2) => Some (inl a, l2) | None => None end
                    | Some (1, l1) => match unpack e l1 with Some (b, l2) => Some (inr b, l2) | None => None end
                    | _ => None
                    end)
          (fun x => match x with inl a => fits c a | inr b => fits e b end).

Fixpoint pack_all (l : list A) : option (list Z) :=
  match l with
  | [] => Some []
  | a :: l' => match pack c a, pack_all l' with Some b1, Some b2 => Some (b1 ++ b2) | _, _ => None end
  end.

Fixpoint unpack_n (n : nat) (l : list Z) : option (list A * list Z) :=
  match n with
  | O => Some ([], l)
  | S n' => match unpack c l with
            | Some (a, l1) => match unpack_n n' l1 with Some (r, l2) => Some (a :: r, l2) | None => None end
            | None => None
            end
  end.

(** [std::vector]. *)
Definition list_codec : codec (list A) :=
  mkCodec (fun x => if Z.of_nat (length x) <=? MAX_NUM_ARRAY_ELEMENTS then
                      match pack unsigned_int (Z.of_nat (length x)), pack_all x with Some b1, Some b2 => Some (b1 ++ b2) | _, _ => None end
                    else None)
          (fun l => match unpack unsigned_int l with
                    | Some (n, l1) => if n <=? MAX_NUM_ARRAY_ELEMENTS then unpack_n (Z.to_nat n) l1 else None
                    | None => None
                    end)
          (fun x => (Z.of_nat (length x) <=? MAX_NUM_ARRAY_ELEMENTS) && forallb (fits c) x).

(** A record through the tuple of its reflected fields. *)
Definition via (to : B -> A) (from : A -> B) : codec B :=
  mkCodec (fun x => pack c (to x))
          (fun l => match unpack c l with Some (a, rest) => Some (from a, rest) | None => None end)
          (fun x => fits c (to x)).
End containers.

(** [std::vector<char>]. *)
Definition bytes_codec : codec (list Z) :=
  mkCodec (fun x => if Z.of_nat (length x) <=? MAX_SIZE_OF_BYTE_ARRAYS then
                      match pack unsigned_int (Z.of_nat (length x)) with Some b => Some (b ++ x) | None => None end
                    else None)
          (fun l => match unpack unsigned_int l with
                    | Some (n, l1) => if n <=? MAX_SIZE_OF_BYTE_ARRAYS then read (Z.to_nat n) l1 else None
                    | None => None
                    end)
          (fun x => (Z.of_nat (length x) <=? MAX_SIZE_OF_BYTE_ARRAYS) && forallb (fits uint8) x).

(** [flat_map] with numbers as keys: the pairs in the order of the keys; [insert] keeps the
    first value of a key. *)
Definition key_le {V} (x y : Z * V) : Prop := x.1 <= y.1.
#[export] Instance key_le_dec {V} (x y : Z * V) : Decision (key_le x y) := decide (x.1 <= y.1).

Definition insert_all {V} (l : list (Z * V)) : gmap Z V :=
  foldl (fun m kv => match m !! kv.1 with Some _ => m | None => <[kv.1 := kv.2]> m end) ∅ l.

Definition flat_map_codec {V} (c : codec (Z * V)) : codec (gmap Z V) :=
  via (list_codec c) (fun m => merge_sort key_le (map_to_list m)) insert_all.

(** Keys and signatures: a [static_variant] of two arrays of [n] bytes.  The number of a key or
    signature is that of its bytes plus the kind times 256^n. *)
Definition shim_codec (n : nat) : codec Z :=
  via (pair_codec unsigned_int (uint n))
    (fun k => (k / 256 ^ Z.of_nat n, k mod 256 ^ Z.of_nat n))
    (fun x => x.1 * 256 ^ Z.of_nat n + x.2).
Definition checked {A} (ok : A -> bool) (c : codec A) : codec A :=
  mkCodec (pack c) (fun l => match unpack c l with Some (a, rest) => if ok a then Some (a, rest) else None | None => None end)
          (fun a => fits c a && ok a).
Definition public_key_codec : codec Z := checked (fun k => k <? 2 * 256 ^ 33) (shim_codec 33).
Definition signature_codec : codec Z := checked (fun k => k <? 2 * 256 ^ 65) (shim_codec 65).

(** ** What was packed is unpacked *)

Lemma read_app l : forall rest, read (length l) (l ++ rest) = Some (l, rest).
Proof. induction l as [|b l IH]; intros rest; cbn; [done|]. by rewrite IH. Qed.

Lemma to_le_length n : forall v, length (to_le n v) = n.
Proof. induction n as [|n IH]; intros v; cbn; [done|]. by rewrite IH. Qed.

Lemma of_to_le n : forall v, 0 <= v < 256 ^ Z.of_nat n -> of_le (to_le n v) = v.
Proof.
  induction n as [|n IH]; intros v H; cbn; [rewrite Z.pow_0_r in H; lia|].
  rewrite Nat2Z.inj_succ, Z.pow_succ_r in H by lia. rewrite IH; [pose proof (Z.div_mod v 256); lia|].
  split; [apply Z.div_pos; lia|apply Z.div_lt_upper_bound; lia].
Qed.

#[export] Instance uint_roundtrips n : Roundtrips (uint n).
Proof.
  intros v Hv. cbn in *. exists (to_le n v). split; [done|]. intros rest.
  rewrite <- (to_le_length n v) at 1. rewrite read_app, of_to_le by lia. done.
Qed.
#[export] Instance uint8_roundtrips : Roundtrips uint8 := uint_roundtrips 1.
#[export] Instance uint16_roundtrips : Roundtrips uint16 := uint_roundtrips 2.
#[export] Instance uint32_roundtrips : Roundtrips uint32 := uint_roundtrips 4.
#[export] Instance uint64_roundtrips : Roundtrips uint64 := uint_roundtrips 8.

(** The byte of a group of seven bits. *)
Lemma varint_group val : 0 <= val ->
  let b := Z.lor (Z.land val 0x7f) (if 0 <? Z.shiftr val 7 then 0x80 else 0) in
  Z.land b 0x7f = val mod 128 /\ negb (Z.land b 0x80 =? 0) = (0 <? Z.shiftr val 7).
Proof.
  intros Hv. cbv zeta. change 0x7f with (Z.ones 7). rewrite !Z.land_lor_distr_l, <- Z.land_assoc, Z.land_diag.
  rewrite Z.land_ones by lia. change (2 ^ 7) with 128.
  assert (E : Z.land (val mod 128) 128 = 0).
  { change 128 with (2 ^ 7). rewrite <- Z.land_ones by lia. rewrite <- Z.land_assoc. change (Z.land (Z.ones 7) (2 ^ 7)) with 0. apply Z.land_0_r. }
  destruct (0 <? Z.shiftr val 7); cbn [Z.land Z.ones]; rewrite E.
  - split; [|done]. change (Z.land 128 (Z.ones 7)) with 0. apply Z.lor_0_r.
  - split; [|done]. apply Z.lor_0_r.
Qed.

Lemma read_varint_bytes fuel : forall by_ v val rest, 0 <= by_ -> by_ + 7 * Z.of_nat fuel = 28 -> 0 <= v < 2 ^ by_ ->
  0 <= val -> v + val * 2 ^ by_ < 2 ^ 32 ->
  read_varint (S fuel) by_ v (varint_bytes fuel val ++ rest) = Some (v + val * 2 ^ by_, rest).
Proof.
  induction fuel as [|fuel IH]; intros by_ v val rest Hb Hf Hv Hval Hlt; destruct (varint_group val Hval) as [E1 E2].
  all: assert (Hp : 0 < 2 ^ by_) by (apply Z.pow_pos_nonneg; lia).
  all: assert (Hm := Z.mod_pos_bound val 128); assert (Hdm := Z.div_mod val 128).
  all: assert (Es : Z.shiftr val 7 = val / 128) by (rewrite Z.shiftr_div_pow2; [done|lia]).
  all: assert (Hd : 0 <= val / 128) by (apply Z.div_pos; lia).
  all: assert (Hg : 0 <= (val mod 128) * 2 ^ by_ < 2 ^ 32) by nia.
  all: assert (Hs : Z.lor v (u32 (Z.shiftl (val mod 128) by_)) = v + (val mod 128) * 2 ^ by_)
    by (unfold u32; rewrite Z.mod_small by (rewrite Z.shiftl_mul_pow2; lia); apply lor_high; lia).
  all: cbn [varint_bytes read_varint app]; cbv zeta; rewrite E1, E2, Hs, Es.
  - assert (by_ >= 28 /\ 2 ^ 28 <= 2 ^ by_) as [? H28] by (split; [lia|apply Z.pow_le_mono_r; lia]).
    assert (Hz : val / 128 = 0) by (apply Z.div_small; pose proof (Z.mul_le_mono_nonneg_l _ _ val Hval H28); lia).
    rewrite Hz. cbn [andb Z.ltb Z.compare]. unfold u32. rewrite Z.mod_small by nia. do 2 f_equal. nia.
  - destruct (Z.eqb_spec (val / 128) 0) as [Hz|Hz].
    + rewrite Hz. cbn [andb Z.ltb Z.compare app]. unfold u32. rewrite Z.mod_small by nia. do 2 f_equal. nia.
    + rewrite (proj2 (Z.ltb_lt 0 (val / 128))) by lia. rewrite (proj2 (Z.ltb_lt (by_ + 7) 32)) by lia. cbn [andb].
      assert (Hp7 : 2 ^ (by_ + 7) = 128 * 2 ^ by_) by (rewrite Z.pow_add_r by lia; change (2 ^ 7) with 128; lia).
      trans (read_varint (S fuel) (by_ + 7) (v + val mod 128 * 2 ^ by_) (varint_bytes fuel (val / 128) ++ rest)); [reflexivity|].
      rewrite IH; [|lia|lia|rewrite Hp7; nia|lia|rewrite Hp7; nia]. rewrite Hp7. do 2 f_equal. nia.
Qed.

#[export] Instance unsigned_int_roundtrips : Roundtrips unsigned_int.
Proof.
  intros v Hv. cbn [fits unsigned_int] in Hv. eexists. split; [done|]. intros rest. cbn [unpack unsigned_int].
  rewrite read_varint_bytes by (cbn; lia). do 2 f_equal. cbn. lia.
Qed.

#[export] Instance bool_roundtrips : Roundtrips bool_codec.
Proof. intros [] _; eexists; (split; [done|]); intros rest; done. Qed.

Section laws.
Context {A B : Type} (c : codec A) (e : codec B).

#[export] Instance pair_roundtrips : Roundtrips c -> Roundtrips e -> Roundtrips (pair_codec c e).
Proof.
  intros Hc He [a b] [H1 H2]%andb_prop. destruct (Hc a H1) as (b1 & E1 & U1), (He b H2) as (b2 & E2 & U2).
  exists (b1 ++ b2). cbn. rewrite E1, E2. split; [done|]. intros rest. by rewrite <- app_assoc, U1, U2.
Qed.

#[export] Instance option_roundtrips : Roundtrips c -> Roundtrips (option_codec c).
Proof.
  intros Hc [a|] H; [|eexists; split; [reflexivity|]; intros rest; reflexivity]. destruct (Hc a H) as (bs & E & U).
  destruct (roundtrips (c := bool_codec) true eq_refl) as (b0 & E0 & U0). exists (b0 ++ bs). cbn [pack unpack option_codec].
  rewrite E0, E. split; [done|]. intros rest. by rewrite <- app_assoc, U0, U.
Qed.

#[export] Instance variant_roundtrips : Roundtrips c -> Roundtrips e -> Roundtrips (variant_codec c e).
Proof.
  intros Hc He [a|b] H; [destruct (Hc a H) as (bs & E & U), (roundtrips (c := unsigned_int) 0 eq_refl) as (b0 & E0 & U0)
                        |destruct (He b H) as (bs & E & U), (roundtrips (c := unsigned_int) 1 eq_refl) as (b0 & E0 & U0)].
  all: exists (b0 ++ bs); cbn [pack unpack variant_codec]; rewrite E0, E; split; [done|]; intros rest.
  all: by rewrite <- app_assoc, U0, U.
Qed.

Lemma unpack_n_all : Roundtrips c -> forall l, forallb (fits c) l = true ->
  exists bs, pack_all c l = Some bs /\ forall rest, unpack_n c (length l) (bs ++ rest) = Some (l, rest).
Proof.
  intros Hc. induction l as [|a l IH]; intros H; [by exists []|]. apply andb_prop in H as [H1 H2].
  destruct (Hc a H1) as (b1 & E1 & U1), (IH H2) as (b2 & E2 & U2). exists (b1 ++ b2). cbn. rewrite E1, E2.
  split; [done|]. intros rest. by rewrite <- app_assoc, U1, U2.
Qed.

(** The size before the elements. *)
Lemma size_roundtrips (n : nat) max : Z.of_nat n <= max -> max < 2 ^ 32 ->
  exists bs, pack unsigned_int (Z.of_nat n) = Some bs /\ forall rest, unpack unsigned_int (bs ++ rest) = Some (Z.of_nat n, rest).
Proof. intros H1 H2. apply (roundtrips (c := unsigned_int)). cbn. lia. Qed.

#[export] Instance list_roundtrips : Roundtrips c -> Roundtrips (list_codec c).
Proof.
  intros Hc l [H1 H2]%andb_prop. destruct (size_roundtrips (length l) MAX_NUM_ARRAY_ELEMENTS) as (b1 & E1 & U1); [lia|done|].
  destruct (unpack_n_all Hc l H2) as (b2 & E2 & U2). exists (b1 ++ b2). cbn [pack unpack list_codec]. rewrite H1, E1, E2.
  split; [done|]. intros rest. by rewrite <- app_assoc, U1, H1, Nat2Z.id, U2.
Qed.

(** A record that is made of its reflected fields alone. *)
Lemma via_roundtrips to from : (forall x : B, from (to x) = x) -> Roundtrips c -> Roundtrips (via c to from).
Proof.
  intros Hx Hc x H. destruct (Hc (to x) H) as (bs & E & U). exists bs. split; [exact E|]. intros rest. cbn. by rewrite U, Hx.
Qed.

#[export] Instance checked_roundtrips ok : Roundtrips c -> Roundtrips (checked ok c).
Proof.
  intros Hc a [H1 H2]%andb_prop. destruct (Hc a H1) as (bs & E & U). exists bs. split; [exact E|]. intros rest. cbn. by rewrite U, H2.
Qed.
End laws.

#[export] Instance bytes_roundtrips : Roundtrips bytes_codec.
Proof.
  intros l [H1 _]%andb_prop. destruct (size_roundtrips (length l) MAX_SIZE_OF_BYTE_ARRAYS) as (b1 & E1 & U1); [lia|done|].
  exists (b1 ++ l). cbn [pack unpack bytes_codec]. rewrite H1, E1. split; [done|]. intros rest.
  by rewrite <- app_assoc, U1, H1, Nat2Z.id, read_app.
Qed.

Lemma insert_all_map {V} (l : list (Z * V)) : NoDup l.*1 -> insert_all l = list_to_map l.
Proof.
  unfold insert_all. rewrite <- (right_id_L ∅ (∪) (list_to_map l)).
  assert (Hd : forall k, k ∈ l.*1 -> (∅ : gmap Z V) !! k = None) by done. revert Hd. generalize (∅ : gmap Z V).
  induction l as [|[k v] l IH]; intros m Hd Hn; cbn; [by rewrite (left_id_L ∅ (∪))|].
  apply NoDup_cons in Hn as [Hk Hn]. cbn in Hk. rewrite (Hd k) by left.
  rewrite IH; [|by intros k' Hk'; rewrite lookup_insert_ne; [apply Hd; right|intros ->]|done].
  rewrite <- insert_union_r; [by rewrite insert_union_l|]. by apply not_elem_of_list_to_map_1.
Qed.

#[export] Instance flat_map_roundtrips {V} (c : codec (Z * V)) : Roundtrips c -> Roundtrips (flat_map_codec c).
Proof.
  intros Hc. apply via_roundtrips; [|apply _]. intros m. assert (P := merge_sort_Permutation key_le (map_to_list m)).
  assert (Hn : NoDup (merge_sort key_le (map_to_list m)).*1) by (rewrite P; apply NoDup_fst_map_to_list).
  rewrite insert_all_map by done. rewrite <- (list_to_map_to_list m) at 2. by apply list_to_map_proper.
Qed.

#[export] Instance shim_roundtrips n : Roundtrips (shim_codec n).
Proof.
  apply via_roundtrips; [|apply _]. intros k. cbn [fst snd]. rewrite Z.mul_comm. symmetry. apply Z.div_mod.
  pose proof (Z.pow_pos_nonneg 256 (Z.of_nat n)). lia.
Qed.
#[export] Instance public_key_roundtrips : Roundtrips public_key_codec.
Proof. apply _. Qed.
#[export] Instance signature_roundtrips : Roundtrips signature_codec.
Proof. apply _. Qed.
