(* ===== verification/Merkle.v ===== *)
(** * Merkle roots of the block chain

    libraries/chain/merkle.cpp and include/eosio/chain/incremental_merkle.hpp: the
    root of a list of digests, and the tree that takes its leaves one by one and
    keeps only the nodes a later append needs.  The hash of a pair of digests is
    SHA-256, which fc takes from OpenSSL; it is the parameter [hash]. *)

From S2P Require Import Prelude.
#[local] Open Scope Z_scope.

(** ** Digests *)

(** fc::sha256: four words of 64 bits. *)
Record digest := mkDigest { word0 : Z; word1 : Z; word2 : Z; word3 : Z }.
#[export] Instance eta_digest : Eta digest := fun d => mkDigest (word0 d) (word1 d) (word2 d) (word3 d).
#[export] Instance digest_eq_dec : EqDecision digest.
Proof. solve_decision. Defined.

Definition digest0 : digest := mkDigest 0 0 0 0.
#[export] Instance digest_inhabited : Inhabited digest := populate digest0.

(** The first bit of a digest says on which side of its parent it is. *)
Definition make_canonical_left (val : digest) : digest := val <| word0 := Z.land (word0 val) 0xFFFFFFFFFFFFFF7F |>.
Definition make_canonical_right (val : digest) : digest := val <| word0 := Z.lor (word0 val) 0x80 |>.
Definition is_canonical_left (val : digest) : bool := Z.land (word0 val) 0x80 =? 0.
Definition is_canonical_right (val : digest) : bool := negb (Z.land (word0 val) 0x80 =? 0).
Definition make_canonical_pair (l r : digest) : digest * digest := (make_canonical_left l, make_canonical_right r).

(** ** Depth of a tree *)

Definition next_power_of_2 (value : Z) : Z :=
  let value := u64 (value - 1) in
  let value := Z.lor value (Z.shiftr value 1) in
  let value := Z.lor value (Z.shiftr value 2) in
  let value := Z.lor value (Z.shiftr value 4) in
  let value := Z.lor value (Z.shiftr value 8) in
  let value := Z.lor value (Z.shiftr value 16) in
  let value := Z.lor value (Z.shiftr value 32) in
  u64 (value + 1).

Definition clz_power_2 (value : Z) : Z :=
  let lz := 64 in
  let lz := if negb (value =? 0) then lz - 1 else lz in
  let lz := if negb (Z.land value 0x00000000FFFFFFFF =? 0) then lz - 32 else lz in
  let lz := if negb (Z.land value 0x0000FFFF0000FFFF =? 0) then lz - 16 else lz in
  let lz := if negb (Z.land value 0x00FF00FF00FF00FF =? 0) then lz - 8 else lz in
  let lz := if negb (Z.land value 0x0F0F0F0F0F0F0F0F =? 0) then lz - 4 else lz in
  let lz := if negb (Z.land value 0x3333333333333333 =? 0) then lz - 2 else lz in
  if negb (Z.land value 0x5555555555555555 =? 0) then lz - 1 else lz.

Definition calcluate_max_depth (node_count : Z) : Z :=
  if node_count =? 0 then 0 else clz_power_2 (next_power_of_2 node_count) + 1.

Section trees.
Context (hash : digest * digest -> digest).

(** ** The root of a list *)

(** [int] has 32 bits. *)
Definition int_max : Z := 2^31 - 1.

(** One assignment of the loop, in place.  The index is an [int]: when [2 * i + 1] overflows, the
    behaviour is undefined, which is [None]. *)
Definition pair_at (i : nat) (ids : list digest) : option (list digest) :=
  if Z.of_nat (2 * i + 1) <=? int_max
  then Some (<[i := hash (make_canonical_pair (ids !!! (2 * i)%nat) (ids !!! (2 * i + 1)%nat))]> ids)
  else None.

(** [for (int i = 0; i < n; i++)], from [i] on. *)
Fixpoint for_pairs (i n : nat) (ids : list digest) : option (list digest) :=
  match n with
  | O => Some ids
  | S n' => match pair_at i ids with Some ids' => for_pairs (S i) n' ids' | None => None end
  end.

(** The body of the while loop. *)
Definition merkle_round (ids : list digest) : option (list digest) :=
  let ids := if Nat.odd (length ids) then ids ++ [default digest0 (last ids)] else ids in
  match for_pairs 0 (length ids / 2) ids with
  | Some ids' => Some (take (length ids / 2) ids')
  | None => None
  end.

(** The while loop; [None] also when the fuel runs out. *)
Fixpoint merkle_loop (fuel : nat) (ids : list digest) : option digest :=
  if (length ids <=? 1)%nat then head ids
  else match fuel with
       | O => None
       | S fuel' => match merkle_round ids with Some ids' => merkle_loop fuel' ids' | None => None end
       end.

Definition merkle (ids : list digest) : option digest :=
  match ids with [] => Some digest0 | _ => merkle_loop (length ids) ids end.

(** ** The incremental tree *)

Record incremental_merkle := mkIncremental { _node_count : Z; _active_nodes : list digest }.

Definition incremental_merkle0 : incremental_merkle := mkIncremental 0 [].

(** The loop of [append], [depth] levels up: the old nodes not read yet, the new
    nodes, the top.  Reading past the end of the old nodes is [None]. *)
Fixpoint append_loop (depth : nat) (index : Z) (partial : bool) (top : digest) (active updated : list digest) :
    option (list digest * digest) :=
  match depth with
  | O => Some (updated, top)
  | S depth' =>
      if Z.land index 1 =? 0 then
        append_loop depth' (Z.shiftr index 1) true (hash (make_canonical_pair top top)) active
          (if partial then updated else updated ++ [top])
      else
        match active with
        | [] => None
        | left_value :: active' =>
            append_loop depth' (Z.shiftr index 1) partial (hash (make_canonical_pair left_value top)) active'
              (if partial then updated ++ [left_value] else updated)
        end
  end.

Definition append (d : digest) (t : incremental_merkle) : option (digest * incremental_merkle) :=
  let max_depth := calcluate_max_depth (u64 (_node_count t + 1)) in
  match append_loop (Z.to_nat (max_depth - 1)) (_node_count t) false d (_active_nodes t) [] with
  | Some (updated, top) => Some (top, mkIncremental (u64 (_node_count t + 1)) (updated ++ [top]))
  | None => None
  end.

Definition get_root (t : incremental_merkle) : digest :=
  if 0 <? _node_count t then default digest0 (last (_active_nodes t)) else digest0.

Fixpoint append_all (ids : list digest) (t : incremental_merkle) : option incremental_merkle :=
  match ids with
  | [] => Some t
  | d :: ids' => '(_, t') ← append d t; append_all ids' t'
  end.
End trees.

(** ** Powers of two *)

(** [spread w s r]: bit i of r is set iff one of the bits i .. i+s-1 of w is. *)
Definition spread (w s r : Z) : Prop :=
  forall i, 0 <= i -> Z.testbit r i = true <-> exists j, i <= j < i + s /\ Z.testbit w j = true.

Lemma spread_step w s s' r : 0 < s -> s' = s + s -> 0 <= r /\ spread w s r ->
  0 <= Z.lor r (Z.shiftr r s) /\ spread w s' (Z.lor r (Z.shiftr r s)).
Proof.
  intros Hs -> [H0 Hr]. split; [apply Z.lor_nonneg; rewrite Z.shiftr_nonneg; lia|].
  intros i Hi. rewrite Z.lor_spec, Z.shiftr_spec by lia. rewrite orb_true_iff, (Hr i), (Hr (i + s)) by lia. split.
  - intros [(j & ? & ?)|(j & ? & ?)]; exists j; (split; [lia|done]).
  - intros (j & ? & ?). destruct (Z_lt_le_dec j (i + s)); [left|right]; exists j; (split; [lia|done]).
Qed.

Ltac spread_next r H := match type of H with 0 <= ?v /\ spread ?w ?s ?v =>
  set (r := Z.lor v (Z.shiftr v s)); let t := eval vm_compute in (s + s) in
  apply (spread_step w s t v) in H; [|lia|reflexivity]; fold r in H; clearbody r end.

Lemma spread_all w r : 0 < w < 2^64 -> 0 <= r -> spread w 64 r -> r = Z.ones (Z.log2 w + 1).
Proof.
  intros Hw Hr H. pose proof (Z.log2_nonneg w). assert (Z.log2 w < 64) by (apply Z.log2_lt_pow2; lia).
  apply Z.bits_inj'. intros i Hi. rewrite Z.testbit_ones by lia.
  destruct (Z.leb_spec 0 i); [|lia]. destruct (Z.ltb_spec i (Z.log2 w + 1)); cbn.
  - apply (H i Hi). exists (Z.log2 w). split; [lia|]. apply Z.bit_log2. lia.
  - apply not_true_iff_false. intros (j & Hj & Hb)%(H i Hi). rewrite Z.bits_above_log2 in Hb; [done|lia|lia].
Qed.

Lemma next_power_of_2_spec v : 1 <= v <= 2^63 -> next_power_of_2 v = 2^(Z.log2_up v).
Proof.
  intros Hv. unfold next_power_of_2. rewrite (u64_id (v - 1)) by (unfold is_u64; lia).
  destruct (Z.eq_dec v 1) as [->|]; [reflexivity|]. rewrite Z.log2_up_eqn by lia. rewrite <- Z.sub_1_r.
  set (w := v - 1) in *. assert (Hw : 0 < w < 2^63) by (subst w; lia). clearbody w. assert (S1 : 0 <= w /\ spread w 1 w).
  { split; [lia|]. intros i _. split; [intros; exists i; split; [lia|done]|]. intros (j & ? & Hj). by replace i with j by lia. }
  cbv zeta. spread_next r1 S1. spread_next r2 S1. spread_next r3 S1. spread_next r4 S1. spread_next r5 S1. spread_next r6 S1.
  destruct S1 as [H6 S1]. apply spread_all in S1; [|lia|done]. subst r6.
  rewrite Z.ones_equiv, !Z.add_1_r, Z.succ_pred. assert (Z.log2 w < 63) by (apply Z.log2_lt_pow2; lia). pose proof (Z.log2_nonneg w).
  apply u64_id. unfold is_u64. split; [lia|]. apply Z.pow_lt_mono_r; lia.
Qed.

Lemma clz_power_2_spec k : 0 <= k < 64 -> clz_power_2 (2^k) = k.
Proof.
  intros Hk. assert (Hall : forallb (fun n => clz_power_2 (2^Z.of_nat n) =? Z.of_nat n) (seq 0 64) = true) by (vm_compute; reflexivity).
  rewrite forallb_forall in Hall. specialize (Hall (Z.to_nat k)). rewrite Z2Nat.id in Hall by lia.
  apply Z.eqb_eq, Hall, in_seq. lia.
Qed.

Lemma max_depth_spec n : 1 <= n <= 2^63 -> calcluate_max_depth n = Z.log2_up n + 1.
Proof.
  intros Hn. unfold calcluate_max_depth. destruct (Z.eqb_spec n 0); [lia|].
  rewrite next_power_of_2_spec by done. rewrite clz_power_2_spec; [done|].
  split; [apply Z.log2_up_nonneg|]. apply (Z.le_lt_trans _ (Z.log2_up (2^63))); [apply Z.log2_up_le_mono; lia|].
  rewrite Z.log2_up_pow2; lia.
Qed.

(** ** The root, level by level *)

Section roots.
Context (hash : digest * digest -> digest).
#[local] Abbreviation node l r := (hash (make_canonical_pair l r)).

(** The parents of a level; the last node of an odd level is its own sibling. *)
Fixpoint level (l : list digest) : list digest :=
  match l with
  | a :: b :: l' => node a b :: level l'
  | [a] => [node a a]
  | [] => []
  end.

Fixpoint root_of (fuel : nat) (l : list digest) : digest :=
  match l, fuel with
  | [d], _ => d
  | _, O => digest0
  | _, S fuel' => root_of fuel' (level l)
  end.

Lemma list_pair_ind (P : list digest -> Prop) :
  P [] -> (forall a, P [a]) -> (forall a b l, P l -> P (a :: b :: l)) -> forall l, P l.
Proof.
  intros H0 H1 H2 l. enough (P l /\ forall a, P (a :: l)) by tauto.
  induction l as [|b l [IH1 IH2]]; [auto|]. split; [apply IH2|]. intros a. by apply H2.
Qed.

Lemma level_length l : length (level l) = ((length l + 1) / 2)%nat.
Proof.
  induction l as [|a|a b l IH] using list_pair_ind; [done..|]. cbn [level length]. rewrite IH.
  replace (S (S (length l)) + 1)%nat with (length l + 1 + 1 * 2)%nat by lia. rewrite Nat.div_add by lia. lia.
Qed.

(** A level of even length. *)
Lemma level_lookup l k : Nat.even (length l) = true -> (2 * k + 1 < length l)%nat ->
  level l !! k = Some (node (l !!! (2 * k)%nat) (l !!! (2 * k + 1)%nat)).
Proof.
  revert k. induction l as [|a|a b l IH] using list_pair_ind; intros k Hl Hk; cbn [length] in *; [lia|done|].
  destruct k as [|k]; [done|]. cbn [level lookup list_lookup]. rewrite IH by (done || lia).
  replace (2 * S k)%nat with (S (S (2 * k))) by lia. done.
Qed.

Lemma level_dup l d : Nat.even (length l) = true -> level (l ++ [d; d]) = level (l ++ [d]).
Proof. induction l as [|a|a b l IH] using list_pair_ind; cbn; intros H; [done..|]. by rewrite IH. Qed.

(** The loop without the bound of its index. *)
Fixpoint paired (i n : nat) (ids : list digest) : list digest :=
  match n with
  | O => ids
  | S n' => paired (S i) n' (<[i := node (ids !!! (2 * i)%nat) (ids !!! (2 * i + 1)%nat)]> ids)
  end.

Lemma for_pairs_paired n : forall i ids,
  (forall ids', for_pairs hash i n ids = Some ids' -> ids' = paired i n ids) /\
  (Z.of_nat (i + n) <= 2^30 -> for_pairs hash i n ids = Some (paired i n ids)).
Proof.
  induction n as [|n IH]; intros i ids; [split; [intros ids' [= <-]|]; done|]. cbn [for_pairs paired]. unfold pair_at, int_max.
  destruct (Z.leb_spec (Z.of_nat (2 * i + 1)) (2^31 - 1)) as [Hi|Hi]; [|split; [done|lia]].
  destruct (IH (S i) (<[i := node (ids !!! (2 * i)%nat) (ids !!! (2 * i + 1)%nat)]> ids)) as [H1 H2]. split; [exact H1|]. intros H. apply H2. lia.
Qed.

Lemma paired_lookup n i ids k : (i <= k < i + n)%nat -> (2 * k + 1 < length ids)%nat ->
  paired i n ids !! k = Some (node (ids !!! (2 * k)%nat) (ids !!! (2 * k + 1)%nat)).
Proof.
  revert i ids. induction n as [|n IH]; intros i ids Hk Hl; [lia|]. cbn [paired].
  destruct (decide (k = i)) as [->|].
  - assert (Hlast : forall m j t, (i < j)%nat -> paired j m t !! i = t !! i).
    { intros m. induction m as [|m IHm]; intros j t Hj; [done|]. cbn [paired]. rewrite IHm by lia. by rewrite list_lookup_insert_ne by lia. }
    rewrite Hlast by lia. rewrite list_lookup_insert_eq; [done|lia].
  - rewrite IH; [|lia|rewrite length_insert; lia]. rewrite !list_lookup_total_insert_ne by lia. done.
Qed.

Lemma paired_level l : Nat.even (length l) = true -> take (length l / 2) (paired 0 (length l / 2) l) = level l.
Proof.
  intros Hl. apply Nat.even_spec in Hl as [m Hm].
  assert (length l / 2 = m)%nat as -> by (rewrite Hm, Nat.mul_comm; apply Nat.div_mul; lia).
  apply list_eq. intros k. destruct (decide (k < m)%nat) as [Hk|Hk].
  - rewrite lookup_take_lt, paired_lookup, level_lookup; try lia; [done|]. apply Nat.even_spec. by exists m.
  - rewrite lookup_take_ge by lia. symmetry. apply lookup_ge_None_2. rewrite level_length, Hm, Nat.mul_comm, Nat.div_add_l by lia. cbn. lia.
Qed.

(** The loop in place computes the level when it is defined, and it is for 2^31 digests. *)
Lemma merkle_round_level ids : (forall ids', merkle_round hash ids = Some ids' -> ids' = level ids) /\
  (Z.of_nat (length ids) <= 2^31 -> merkle_round hash ids = Some (level ids)).
Proof.
  assert (Hev : forall l, Nat.even (length l) = true ->
    let x := match for_pairs hash 0 (length l / 2) l with Some y => Some (take (length l / 2) y) | None => None end in
    (forall y, x = Some y -> y = level l) /\ (Z.of_nat (length l) <= 2^31 -> x = Some (level l))).
  { intros l Hl x. destruct (for_pairs_paired (length l / 2) 0 l) as [H1 H2]. split.
    - intros y. unfold x. destruct (for_pairs hash _ _ l) as [z|]; [|done]. intros [= <-]. rewrite (H1 z eq_refl). by apply paired_level.
    - intros Hn. unfold x. rewrite H2, paired_level; [done|done|]. rewrite Nat.add_0_l, Nat2Z.inj_div. apply Z.div_le_upper_bound; lia. }
  unfold merkle_round. destruct (Nat.odd (length ids)) eqn:Ho; [|apply Hev; by rewrite <- Nat.negb_odd, Ho].
  destruct ids as [|x l _] using rev_ind; [done|]. rewrite last_snoc. cbn [default]. rewrite length_app in Ho. cbn in Ho.
  rewrite Nat.add_1_r, Nat.odd_succ in Ho. rewrite <- app_assoc. cbn [app from_option]. unfold id.
  destruct (Hev (l ++ [x; x])) as [H1 H2]; [by rewrite length_app, Nat.even_add, Ho|]. rewrite level_dup in H1, H2 by done.
  split; [exact H1|]. intros Hn. apply H2. apply Nat.even_spec in Ho as [m Hm]. rewrite length_app in *. cbn [length] in *. lia.
Qed.

(** A loop with fuel for every level gives the root. *)
Lemma merkle_loop_root fuel ids : ids <> [] -> (length ids <= S fuel)%nat ->
  (forall d, merkle_loop hash fuel ids = Some d -> d = root_of fuel ids) /\
  (Z.of_nat (length ids) <= 2^31 -> merkle_loop hash fuel ids = Some (root_of fuel ids)).
Proof.
  revert ids. induction fuel as [|fuel IH]; intros [|a [|b l]] Hn Hl; try done; [split; [intros d [= <-]|]; done|cbn in Hl; lia|split; [intros d [= <-]|]; done|].
  cbn [merkle_loop root_of]. change (length (a :: b :: l) <=? 1)%nat with false. cbn iota.
  assert (Hlen : (length (level (a :: b :: l)) <= length (a :: b :: l) - 1)%nat).
  { rewrite level_length. cbn [length]. apply Nat.lt_succ_r, Nat.Div0.div_lt_upper_bound. lia. }
  destruct (IH (level (a :: b :: l))) as [I1 I2]; [done|cbn [length] in *; lia|]. destruct (merkle_round_level (a :: b :: l)) as [R1 R2]. split.
  - intros d. destruct (merkle_round hash _) as [ids|]; [|done]. rewrite (R1 ids eq_refl). apply I1.
  - intros H. rewrite R2 by done. apply I2. lia.
Qed.

(** Fuel for the depth of the tree is enough. *)
Lemma root_of_fuel f1 f2 l : l <> [] -> (length l <= 2^f1)%nat -> (length l <= 2^f2)%nat -> root_of f1 l = root_of f2 l.
Proof.
  revert f2 l. induction f1 as [|f1 IH]; intros f2 l Hn H1 H2.
  - destruct l as [|a [|b l]]; [done|by destruct f2|cbn in H1; lia].
  - destruct l as [|a [|b l]]; [done|by destruct f2|]. destruct f2 as [|f2]; [cbn in H2; lia|]. cbn [root_of].
    rewrite Nat.pow_succ_r' in *.
    apply IH; [done|..]; rewrite level_length; cbn [length] in *; apply Nat.lt_succ_r, Nat.Div0.div_lt_upper_bound; lia.
Qed.

(** The root of a nonempty list. *)
Definition root (l : list digest) : digest := root_of (length l) l.

Lemma merkle_root l : l <> [] -> (forall d, merkle hash l = Some d -> d = root l) /\ (Z.of_nat (length l) <= 2^31 -> merkle hash l = Some (root l)).
Proof. intros Hn. destruct l; [done|]. unfold merkle. apply merkle_loop_root; [done|lia]. Qed.

Lemma root_fuel f l : l <> [] -> (length l <= 2^f)%nat -> root l = root_of f l.
Proof. intros Hn Hl. apply root_of_fuel; [done| |done]. pose proof (Nat.pow_gt_lin_r 2 (length l)). lia. Qed.

(** ** The incremental tree *)

(** The complete parents of a level: the last node of an odd level waits. *)
Fixpoint up (l : list digest) : list digest :=
  match l with
  | a :: b :: l' => node a b :: up l'
  | _ => []
  end.

(** The complete nodes that wait for a sibling, from the leaves up. *)
Fixpoint peaks (k : nat) (l : list digest) : list digest :=
  match k with
  | O => []
  | S k' => (if Nat.odd (length l) then [default digest0 (last l)] else []) ++ peaks k' (up l)
  end.

Lemma up_length l : length (up l) = (length l / 2)%nat.
Proof.
  induction l as [|a|a b l IH] using list_pair_ind; [done..|]. cbn [up length]. rewrite IH.
  replace (S (S (length l))) with (length l + 1 * 2)%nat by lia. rewrite Nat.div_add by lia. lia.
Qed.

Lemma up_snoc l d : up (l ++ [d]) = if Nat.odd (length l) then up l ++ [node (default digest0 (last l)) d] else up l.
Proof.
  induction l as [|a|a b l IH] using list_pair_ind; [done..|]. cbn [app up length]. rewrite IH, !Nat.odd_succ, Nat.even_succ.
  destruct (Nat.odd (length l)) eqn:E; [|done]. destruct l; [done|]. by rewrite !last_cons_cons.
Qed.

Lemma level_snoc l d :
  level (l ++ [d]) = up l ++ [if Nat.odd (length l) then node (default digest0 (last l)) d else node d d].
Proof.
  induction l as [|a|a b l IH] using list_pair_ind; [done..|]. cbn [app up level length]. rewrite IH, !Nat.odd_succ, Nat.even_succ.
  cbn. do 3 f_equal. destruct (Nat.odd (length l)) eqn:E; [|done]. destruct l; [done|]. by rewrite !last_cons_cons.
Qed.

Lemma half_bounds n k : (n < 2 ^ S k)%nat -> (n / 2 < 2 ^ k)%nat.
Proof. rewrite Nat.pow_succ_r'. intros. apply Nat.Div0.div_lt_upper_bound. lia. Qed.

Lemma peaks_more k j l : (length l < 2^k)%nat -> (length l < 2^j)%nat -> peaks k l = peaks j l.
Proof.
  assert (H0 : forall j, peaks j [] = []) by (clear; intros j; induction j as [|j IH]; [done|]; cbn; apply IH).
  revert j l. induction k as [|k IH]; intros j l Hk Hj.
  { destruct l; [by rewrite H0|cbn in Hk; lia]. }
  destruct j as [|j]; [destruct l; [by rewrite H0|cbn in Hj; lia]|]. cbn [peaks]. f_equal.
  apply IH; rewrite up_length; by apply half_bounds.
Qed.

Lemma index_even n : (Z.land (Z.of_nat n) 1 =? 0) = Nat.even n.
Proof.
  change 1 with (Z.ones 1). rewrite Z.land_ones by lia. change (2^1) with 2.
  destruct (Nat.even n) eqn:E.
  - apply Nat.even_spec in E as [m ->]. apply Z.eqb_eq. rewrite Nat2Z.inj_mul, Z.mul_comm. apply Z_mod_mult.
  - rewrite <- Nat.negb_odd in E. apply negb_false_iff, Nat.odd_spec in E as [m ->]. apply Z.eqb_neq.
    replace (Z.of_nat (2 * m + 1)) with (1 + Z.of_nat m * 2) by lia. by rewrite Z_mod_plus_full.
Qed.

Lemma index_up l : Z.shiftr (Z.of_nat (length l)) 1 = Z.of_nat (length (up l)).
Proof. rewrite up_length, Z.shiftr_div_pow2, Nat2Z.inj_div by lia. done. Qed.

(** The tree over a level and one more node is exactly [k] levels deep. *)
Definition depth_ok (k : nat) (l : list digest) : Prop :=
  (length l < 2^k)%nat /\ match k with O => True | S k' => (2^k' <= length l)%nat end.

Lemma depth_up k l : depth_ok (S k) l -> depth_ok k (up l).
Proof.
  intros [H1 H2]. split; [rewrite up_length; by apply half_bounds|]. destruct k as [|k]; [done|].
  rewrite up_length. apply Nat.div_le_lower_bound; [lia|]. by rewrite Nat.pow_succ_r' in H2.
Qed.

Lemma root_step k l d : depth_ok (S k) l -> root_of (S k) (l ++ [d]) = root_of k (level (l ++ [d])).
Proof.
  intros [_ H]. pose proof (Nat.pow_nonzero 2 k). destruct l as [|a [|b l]]; [cbn in H; lia|done..].
Qed.

Lemma append_partial k : forall l top tl upd, depth_ok k l ->
  append_loop hash k (Z.of_nat (length l)) true top (peaks k l ++ tl) upd = Some (upd ++ peaks k l, root_of k (l ++ [top])).
Proof.
  induction k as [|k IH]; intros l top tl upd Hd.
  { destruct Hd as [Hl _]. destruct l; [|cbn in Hl; lia]. cbn. by rewrite app_nil_r. }
  rewrite root_step, level_snoc by done. cbn [append_loop peaks]. rewrite index_even, <- Nat.negb_odd, index_up.
  apply depth_up in Hd. destruct (Nat.odd (length l)); cbn; rewrite IH by done; [|done]. by rewrite <- app_assoc.
Qed.

Lemma append_complete k : forall l top tl, depth_ok k l ->
  exists upd tl', append_loop hash k (Z.of_nat (length l)) false top (peaks k l ++ tl) [] = Some (upd, root_of k (l ++ [top])) /\
    upd ++ [root_of k (l ++ [top])] = peaks (S k) (l ++ [top]) ++ tl'.
Proof.
  induction k as [|k IH]; intros l top tl Hd.
  { destruct Hd as [Hl _]. destruct l; [|cbn in Hl; lia]. by exists [], []. }
  rewrite root_step, level_snoc by done. cbn [append_loop]. rewrite index_even, <- Nat.negb_odd, index_up.
  pose proof (depth_up k l Hd) as Hu. change (peaks (S (S k)) (l ++ [top])) with
    ((if Nat.odd (length (l ++ [top])) then [default digest0 (last (l ++ [top]))] else []) ++ peaks (S k) (up (l ++ [top]))).
  rewrite length_app, Nat.add_1_r, Nat.odd_succ, <- Nat.negb_odd, up_snoc, last_snoc.
  change (peaks (S k) l) with ((if Nat.odd (length l) then [default digest0 (last l)] else []) ++ peaks k (up l)).
  destruct (Nat.odd (length l)); cbn [negb app].
  - destruct (IH (up l) (node (default digest0 (last l)) top) tl Hu) as (upd & tl' & E1 & E2). by exists upd, tl'.
  - rewrite append_partial by done. do 2 eexists. split; [done|]. cbn [app default]. f_equal.
    rewrite (peaks_more (S k) k) by (destruct Hu; cbn; lia). done.
Qed.

Lemma append_loop_length k : forall i p top active upd upd' top',
  append_loop hash k i p top active upd = Some (upd', top') -> (length upd' <= length upd + k)%nat.
Proof.
  induction k as [|k IH]; intros i p top active upd upd' top' H; cbn in H; [injection H as <- <-; lia|].
  destruct (_ =? 0).
  - apply IH in H. destruct p; rewrite ?length_app in H; cbn in H; lia.
  - destruct active; [done|]. apply IH in H. destruct p; rewrite ?length_app in H; cbn in H; lia.
Qed.

(** A tree holds the leaves [l]: it keeps the waiting nodes, and the root last. *)
Record holds_leaves (t : incremental_merkle) (l : list digest) : Prop := {
  hl_count : _node_count t = Z.of_nat (length l);
  hl_peaks : exists tl, _active_nodes t = peaks (S (length l)) l ++ tl;
  hl_root : l <> [] -> last (_active_nodes t) = Some (root l);
  hl_size : Z.of_nat (length (_active_nodes t)) <= calcluate_max_depth (Z.of_nat (length l))
}.

Lemma depth_of_count (l : list digest) : Z.of_nat (length l) + 1 <= 2^63 ->
  depth_ok (Z.to_nat (Z.log2_up (Z.of_nat (length l) + 1))) l.
Proof.
  intros Hn. set (m := Z.of_nat (length l)) in *. pose proof (Z.log2_up_nonneg (m + 1)).
  destruct (decide (l = [])) as [->|Hne]; [split; [vm_compute; lia|done]|].
  assert (0 < m) by (subst m; destruct l; [done|cbn; lia]). pose proof (Z.log2_up_spec (m + 1) ltac:(lia)) as [H1 H2].
  destruct (Z.to_nat (Z.log2_up (m + 1))) as [|k] eqn:E; [split; [|done]|split].
  - exfalso. replace (Z.log2_up (m + 1)) with 0 in H2 by lia. change (2^0) with 1 in H2. lia.
  - apply Nat2Z.inj_lt. rewrite <- E, Nat2Z.inj_pow, Z2Nat.id by lia. fold m. cbn. lia.
  - replace (Z.log2_up (m + 1)) with (Z.of_nat k + 1) in * by lia. replace (Z.pred (Z.of_nat k + 1)) with (Z.of_nat k) in H1 by lia.
    apply Nat2Z.inj_le. rewrite Nat2Z.inj_pow. fold m. cbn. lia.
Qed.

Lemma append_holds t l d : holds_leaves t l -> Z.of_nat (length l) + 1 <= 2^63 ->
  exists t', append hash d t = Some (root (l ++ [d]), t') /\ holds_leaves t' (l ++ [d]).
Proof.
  intros [Hc [tl Ht] _ _] Hn. pose proof (depth_of_count l Hn) as Hd. set (k := Z.to_nat _) in Hd.
  unfold append. rewrite Hc. rewrite (u64_id (Z.of_nat (length l) + 1)) by (unfold is_u64; lia).
  pose proof (max_depth_spec (Z.of_nat (length l) + 1) ltac:(lia)) as Em. rewrite Em, Z.add_simpl_r. fold k.
  rewrite Ht, (peaks_more _ k) by (first [apply Hd|pose proof (Nat.pow_gt_lin_r 2 (S (length l))); lia]).
  destruct (append_complete k l d tl Hd) as (upd & tl' & E1 & E2). rewrite E1.
  assert (Hlen : (length (l ++ [d]) <= 2^k)%nat) by (rewrite length_app; destruct Hd; cbn; lia).
  rewrite <- (root_fuel k (l ++ [d])) in * by (first [by destruct l|done]).
  eexists. split; [done|]. split; cbn [_node_count _active_nodes].
  - rewrite length_app. cbn. lia.
  - exists tl'. rewrite E2. f_equal. apply peaks_more; [rewrite Nat.pow_succ_r'; pose proof (Nat.pow_nonzero 2 k); lia|]. pose proof (Nat.pow_gt_lin_r 2 (S (length (l ++ [d])))). lia.
  - intros _. by rewrite last_snoc.
  - apply append_loop_length in E1. rewrite !length_app. cbn [length] in *.
    rewrite (Nat2Z.inj_add (length l)). change (Z.of_nat 1) with 1. rewrite Em. subst k. pose proof (Z.log2_up_nonneg (Z.of_nat (length l) + 1)). lia.
Qed.

Lemma append_all_holds ids : forall t l, holds_leaves t l -> Z.of_nat (length l + length ids) <= 2^63 ->
  exists t', append_all hash ids t = Some t' /\ holds_leaves t' (l ++ ids).
Proof.
  induction ids as [|d ids IH]; intros t l Ht Hn; [exists t; by rewrite app_nil_r|]. cbn [length append_all] in *.
  destruct (append_holds t l d Ht ltac:(lia)) as (t1 & -> & H1). cbn.
  destruct (IH t1 (l ++ [d]) H1) as (t' & E & H'); [rewrite length_app; cbn; lia|]. exists t'. by rewrite <- app_assoc in H'.
Qed.

Lemma holds_none : holds_leaves incremental_merkle0 [].
Proof. split; try done. by exists []. Qed.

Lemma get_root_holds t l : holds_leaves t l -> Z.of_nat (length l) <= 2^31 -> Some (get_root t) = merkle hash l.
Proof.
  intros [Hc _ Hr _] Hl. unfold get_root. rewrite Hc. destruct l as [|a l]; [done|].
  rewrite Hr by done. rewrite (proj2 (merkle_root (a :: l) ltac:(done))) by done. done.
Qed.

(** ** What a root commits to *)

(** Equal up to the bit that says the side. *)
Definition agree (d d' : digest) : Prop :=
  make_canonical_left d = make_canonical_left d' \/ make_canonical_right d = make_canonical_right d'.

(** The pairs hashed for the parents of a level, and for a root. *)
Fixpoint level_pairs (l : list digest) : list (digest * digest) :=
  match l with
  | a :: b :: l' => make_canonical_pair a b :: level_pairs l'
  | [a] => [make_canonical_pair a a]
  | [] => []
  end.

Fixpoint hashed (fuel : nat) (l : list digest) : list (digest * digest) :=
  match l, fuel with
  | [_], _ | _, O => []
  | _, S fuel' => level_pairs l ++ hashed fuel' (level l)
  end.

(** Two different pairs whose hashes agree. *)
Definition collision (ps ps' : list (digest * digest)) : Prop :=
  exists p p', p ∈ ps /\ p' ∈ ps' /\ p <> p' /\ agree (hash p) (hash p').

Lemma collision_sub ps ps' qs qs' : collision ps ps' -> ps ⊆ qs -> ps' ⊆ qs' -> collision qs qs'.
Proof. intros (p & p' & H1 & H2 & H3) S1 S2. exists p, p'. split; [by apply S1|]. split; [by apply S2|done]. Qed.

Lemma node_binding a b a' b' : agree (node a b) (node a' b') ->
  agree a a' /\ agree b b' \/ collision [make_canonical_pair a b] [make_canonical_pair a' b'].
Proof.
  intros H. destruct (decide (make_canonical_pair a b = make_canonical_pair a' b')) as [E|Hne].
  - left. unfold make_canonical_pair in E. apply pair_eq in E as [E1 E2]. split; [by left|by right].
  - right. do 2 eexists. repeat split; [by apply list_elem_of_singleton..|done|done].
Qed.

Lemma level_binding l : forall l', length l = length l' -> Forall2 agree (level l) (level l') ->
  Forall2 agree l l' \/ collision (level_pairs l) (level_pairs l').
Proof.
  induction l as [|a|a b l IH] using list_pair_ind; intros [|a' [|b' l']] Hl H; try done; [by left| |].
  - apply Forall2_cons in H as [H _]. apply node_binding in H as [[? ?]|?]; [left; auto using Forall2_cons_2, Forall2_nil_2|by right].
  - cbn [level] in H. apply Forall2_cons in H as [H Hr]. injection Hl as Hl. apply node_binding in H as [[? ?]|Hc].
    + destruct (IH l' Hl Hr) as [?|Hc]; [left; auto using Forall2_cons_2, Forall2_nil_2|]. right. eapply collision_sub; [exact Hc|set_solver..].
    + right. eapply collision_sub; [exact Hc|cbn; set_solver..].
Qed.

Lemma root_binding f : forall l l', l <> [] -> length l = length l' -> (length l <= 2^f)%nat ->
  agree (root_of f l) (root_of f l') -> Forall2 agree l l' \/ collision (hashed f l) (hashed f l').
Proof.
  induction f as [|f IH]; intros [|a [|b l]] [|a' [|b' l']] Hn Hl Hf H; try done;
    try solve [left; auto using Forall2_cons_2, Forall2_nil_2|cbn in Hf; lia].
  cbn [root_of hashed] in *. destruct (IH (level (a :: b :: l)) (level (a' :: b' :: l'))) as [H1|Hc]; [done| | |done|..].
  - by rewrite !level_length, Hl.
  - rewrite level_length. rewrite Nat.pow_succ_r' in Hf. apply Nat.lt_succ_r, Nat.Div0.div_lt_upper_bound. lia.
  - apply level_binding in H1 as [Ha|Hc]; [by left| |done]. right. eapply collision_sub; [exact Hc|set_solver..].
  - right. eapply collision_sub; [exact Hc|set_solver..].
Qed.
End roots.

(** ** The theorems *)

(** C19: Appending digests one by one to the incremental tree gives the root of the whole
    list.  For up to 2^31 digests, as many as the [int] index of [merkle] can count, no
    append reads past the nodes the tree kept, [merkle] is defined (its loop ends and its
    index does not overflow), the root of the resulting tree is [merkle] of all the
    digests, and the tree keeps no more nodes than its depth. *)
Theorem incremental_is_merkle hash ids : Z.of_nat (length ids) <= 2^31 ->
  exists t, append_all hash ids incremental_merkle0 = Some t /\ merkle hash ids = Some (get_root t) /\
    Z.of_nat (length (_active_nodes t)) <= calcluate_max_depth (Z.of_nat (length ids)).
Proof.
  intros Hn. destruct (append_all_holds hash ids incremental_merkle0 [] (holds_none hash)) as (t & E & H); [cbn [length]; lia|].
  exists t. split; [done|]. split; [symmetry; by apply get_root_holds|apply H].
Qed.

(** C33: A Merkle root commits to the list of digests, up to the bit of each digest
    that records its side.  If two lists of the same length have the same root then
    they agree digest by digest, or the pairs hashed for the two roots contain two
    different pairs whose hashes agree up to that bit. *)
Theorem merkle_binding hash l l' d : length l = length l' -> merkle hash l = Some d -> merkle hash l' = Some d ->
  Forall2 agree l l' \/ collision hash (hashed hash (length l) l) (hashed hash (length l') l').
Proof.
  intros Hl H H'. destruct (decide (l = [])) as [->|Hn]; [destruct l'; [left; constructor|done]|].
  assert (Hn' : l' <> []) by (by destruct l, l'). apply merkle_root in H, H'; [|done..]. unfold root in H, H'.
  rewrite <- Hl in *. pose proof (Nat.pow_gt_lin_r 2 (length l)).
  apply root_binding; [done|done|lia|]. rewrite <- H, <- H'. by left.
Qed.

(** A toy hash that keeps the digests apart. *)
Definition hash_demo (p : digest * digest) : digest :=
  mkDigest (u64 (word0 p.1 * 31 + word0 p.2)) (word1 p.1 + word1 p.2) 0 0.
Definition leaves_demo : list digest := map (fun n => mkDigest (Z.of_nat n * 1000) 1 0 0) (seq 1 11).

Lemma incremental_is_merkle_witness :
  exists t, append_all hash_demo leaves_demo incremental_merkle0 = Some t /\ length (_active_nodes t) = 4%nat /\
    merkle hash_demo leaves_demo = Some (get_root t) /\ word1 (get_root t) = 16.
Proof.
  destruct (incremental_is_merkle hash_demo leaves_demo ltac:(vm_compute; discriminate)) as (t & E & H & _).
  exists t. split; [exact E|]. vm_compute in E. injection E as <-. split; [reflexivity|]. split; [exact H|reflexivity].
Defined.

Lemma merkle_binding_witness :
  let l := leaves_demo in let l' := map (fun d => d <| word0 := Z.lxor (word0 d) 0x80 |>) leaves_demo in
  l <> l' /\ merkle hash_demo l = merkle hash_demo l' /\ is_Some (merkle hash_demo l) /\
  (Forall2 agree l l' \/ collision hash_demo (hashed hash_demo (length l) l) (hashed hash_demo (length l') l')).
Proof.
  intros l l'. split; [vm_compute; discriminate|].
  assert (E : merkle hash_demo l = merkle hash_demo l') by (vm_compute; reflexivity). split; [exact E|].
  destruct (merkle hash_demo l) as [d|] eqn:Ed; [|exfalso; revert Ed; vm_compute; discriminate]. split; [eexists; reflexivity|].
  apply (merkle_binding hash_demo l l' d); [reflexivity|exact Ed|symmetry; exact E].
Defined.
