(* ===== verification/Authority.v ===== *)
(** * Authorities and the authority checker

    libraries/chain/include/eosio/chain/authority.hpp and authority_checker.hpp: an
    authority is a threshold over weighted keys, waits and other permissions; the
    checker decides whether keys, permissions and a delay satisfy a permission.

    The container boost::flat_multiset, which orders the factors of an authority, is
    the parameter [ordered]; of it the theorems use that it holds the elements that
    were inserted.  Keys are numbers with an arbitrary order [key_lt]. *)

From stdpp Require Import sorting.
From S2P Require Import Prelude Names Chain.
#[local] Open Scope Z_scope.

(** ** Authorities *)

Record permission_level_weight := mkPermWeight { pw_permission : permission_level; pw_weight : Z }.
Record key_weight := mkKeyWeight { kw_key : Z; kw_weight : Z }.
Record wait_weight := mkWaitWeight { wait_sec : Z; ww_weight : Z }.

Record authority := mkAuthority {
  threshold : Z;
  auth_keys : list key_weight;
  auth_accounts : list permission_level_weight;
  auth_waits : list wait_weight
}.
#[export] Instance permission_level_weight_eq_dec : EqDecision permission_level_weight.
Proof. solve_decision. Defined.
#[export] Instance key_weight_eq_dec : EqDecision key_weight.
Proof. solve_decision. Defined.
#[export] Instance wait_weight_eq_dec : EqDecision wait_weight.
Proof. solve_decision. Defined.
#[export] Instance authority_eq_dec : EqDecision authority.
Proof. solve_decision. Defined.

(** Permissions are ordered by actor, then by name. *)
Definition level_lt (p q : permission_level) : bool :=
  (p.1 <? q.1) || ((p.1 =? q.1) && (p.2 <? q.2)).

(** A loop of [validate]: each element must follow the one before it; the
    weights are added up in 32 bits. *)
Fixpoint check_sorted {A} (lt : A -> A -> bool) (weight : A -> Z) (prev : option A) (l : list A) (total : Z) : option Z :=
  match l with
  | [] => Some total
  | x :: l' =>
      if match prev with Some p => lt p x | None => true end
      then check_sorted lt weight (Some x) l' (u32 (total + weight x))
      else None
  end.

Definition validate (key_lt : Z -> Z -> bool) (auth : authority) : bool :=
  if 65536 <? Z.of_nat (length (auth_keys auth) + length (auth_accounts auth) + length (auth_waits auth)) then false
  else if threshold auth =? 0 then false
  else match check_sorted (fun a b => key_lt (kw_key a) (kw_key b)) kw_weight None (auth_keys auth) 0 with
  | None => false
  | Some t1 =>
      match check_sorted (fun a b => level_lt (pw_permission a) (pw_permission b)) pw_weight None (auth_accounts auth) t1 with
      | None => false
      | Some t2 =>
          if match auth_waits auth with w :: _ => wait_sec w =? 0 | [] => false end then false
          else match check_sorted (fun a b => wait_sec a <? wait_sec b) ww_weight None (auth_waits auth) t2 with
          | None => false
          | Some t3 => threshold auth <=? t3
          end
      end
  end.

(** ** The checker *)

(** The static variant; the order of its alternatives matters for sorting. *)
Inductive meta_permission :=
| MAccount (p : permission_level_weight)
| MKey (k : key_weight)
| MWait (w : wait_weight).

Definition which (m : meta_permission) : Z := match m with MAccount _ => 0 | MKey _ => 1 | MWait _ => 2 end.
Definition get_weight (m : meta_permission) : Z :=
  match m with MAccount p => pw_weight p | MKey k => kw_weight k | MWait w => ww_weight w end.

(** Descending by weight, then by kind. *)
Definition meta_permission_comparator (lhs rhs : meta_permission) : bool :=
  (get_weight rhs <? get_weight lhs) || ((get_weight lhs =? get_weight rhs) && (which rhs <? which lhs)).

Inductive permission_cache_status := being_evaluated | permission_unsatisfied | permission_satisfied.
#[export] Instance status_eq_dec : EqDecision permission_cache_status.
Proof. solve_decision. Defined.

(** What changes during a check: the keys used so far and the cache. *)
Record check_state := mkCheck {
  _used_keys : list bool;
  cached_permissions : gmap permission_level permission_cache_status
}.
#[export] Instance eta_check : Eta check_state := fun s => mkCheck (_used_keys s) (cached_permissions s).

Definition permission_status_in_cache (c : gmap permission_level permission_cache_status) (level : permission_level) :
    option permission_cache_status :=
  match c !! level with
  | Some st => Some st
  | None => c !! (level.1, 0)
  end.

Section checker.
Context (ordered : list meta_permission -> list meta_permission).
Context (permission_to_authority : permission_level -> option authority).   (* None: no such permission *)
Context (provided_keys : list Z) (provided_permissions : gset permission_level) (provided_delay : Z).

Definition initialize_permission_cache : gmap permission_level permission_cache_status :=
  gset_to_gmap permission_satisfied provided_permissions.

(** The position of the first occurrence. *)
Fixpoint find_key (key : Z) (l : list Z) : option nat :=
  match l with
  | [] => None
  | k :: l' => if k =? key then Some O else S <$> find_key key l'
  end.

(** ** The weight visitor: one factor of an authority *)

Definition visit_wait (w : wait_weight) (total : Z) : Z :=
  if wait_sec w * 1000000 <=? provided_delay then u32 (total + ww_weight w) else total.

Definition visit_key (k : key_weight) (total : Z) (st : check_state) : Z * check_state :=
  match find_key (kw_key k) provided_keys with
  | Some i => (u32 (total + kw_weight k), st <| _used_keys := <[i := true]> (_used_keys st) |>)
  | None => (total, st)
  end.

(** [recurse] checks an authority one level deeper; [None] at the depth limit. *)
Definition visit_account (recurse : option (authority -> check_state -> bool * check_state))
    (p : permission_level_weight) (total : Z) (st : check_state) : Z * check_state :=
  match permission_status_in_cache (cached_permissions st) (pw_permission p) with
  | None =>
      match recurse with
      | None => (total, st)
      | Some satisfied =>
          match permission_to_authority (pw_permission p) with
          | None => (total, st)
          | Some auth =>
              let '(r, st) := satisfied auth (st <| cached_permissions := <[pw_permission p := being_evaluated]> (cached_permissions st) |>) in
              if r then (u32 (total + pw_weight p), st <| cached_permissions := <[pw_permission p := permission_satisfied]> (cached_permissions st) |>)
              else (total, st <| cached_permissions := <[pw_permission p := permission_unsatisfied]> (cached_permissions st) |>)
          end
      end
  | Some permission_satisfied => (u32 (total + pw_weight p), st)
  | Some _ => (total, st)
  end.

Definition visit (recurse : option (authority -> check_state -> bool * check_state)) (m : meta_permission) (total : Z) (st : check_state) :
    Z * check_state :=
  match m with
  | MWait w => (visit_wait w total, st)
  | MKey k => visit_key k total st
  | MAccount p => visit_account recurse p total st
  end.

(** The loop over the factors, until there is enough weight. *)
Fixpoint tally (recurse : option (authority -> check_state -> bool * check_state)) (need : Z) (l : list meta_permission)
    (total : Z) (st : check_state) : bool * check_state :=
  match l with
  | [] => (false, st)
  | m :: l' =>
      let '(total, st) := visit recurse m total st in
      if need <=? total then (true, st) else tally recurse need l' total st
  end.

Definition factors (auth : authority) : list meta_permission :=
  ordered (map MWait (auth_waits auth) ++ map MKey (auth_keys auth) ++ map MAccount (auth_accounts auth)).

(** [levels] levels may still be entered: recursion_depth_limit - depth. *)
Fixpoint satisfied (levels : nat) (auth : authority) (st : check_state) : bool * check_state :=
  let recurse := match levels with O => None | S levels' => Some (satisfied levels') end in
  let '(r, st') := tally recurse (threshold auth) (factors auth) 0 st in
  if r then (true, st') else (false, st' <| _used_keys := _used_keys st |>).

Definition satisfied_level (limit : nat) (permission : permission_level) (used : list bool) : bool * list bool :=
  let recurse := match limit with O => None | S levels => Some (satisfied levels) end in
  let '(w, st) := visit_account recurse (mkPermWeight permission 1) 0 (mkCheck used initialize_permission_cache) in
  (0 <? w, _used_keys st).

Definition satisfied_authority (limit : nat) (auth : authority) (used : list bool) : bool * list bool :=
  let '(r, st) := satisfied limit auth (mkCheck used initialize_permission_cache) in (r, _used_keys st).

Definition no_keys_used : list bool := replicate (length provided_keys) false.
Definition all_keys_used (used : list bool) : bool := forallb id used.
Definition keys_marked (used : list bool) (b : bool) : list Z :=
  map fst (filter (fun kb => kb.2 = b) (zip provided_keys used)).
Definition used_keys (used : list bool) : list Z := keys_marked used true.
Definition unused_keys (used : list bool) : list Z := keys_marked used false.
End checker.

(** ** What it means to satisfy a permission *)

Definition wsum (l : list meta_permission) : Z := foldr (fun m s => get_weight m + s) 0 l.

Definition all_factors (auth : authority) : list meta_permission :=
  map MWait (auth_waits auth) ++ map MKey (auth_keys auth) ++ map MAccount (auth_accounts auth).

(** Weights are 16-bit numbers and thresholds 32-bit ones. *)
Definition authority_typed (auth : authority) : Prop :=
  0 <= threshold auth < 2^32 /\ forall m, m ∈ all_factors auth -> 0 <= get_weight m < 2^16.

Section semantics.
Context (permission_to_authority : permission_level -> option authority).
Context (provided_keys : list Z) (provided_permissions : gset permission_level) (provided_delay : Z).

(** The permissions that can be derived: the provided ones, and those whose
    authority has enough weight in provided keys, waits that have passed and
    permissions derived before. *)
Inductive sat : permission_level -> Prop :=
| sat_provided p : p ∈ provided_permissions \/ (p.1, 0) ∈ provided_permissions -> sat p
| sat_authority p auth C :
    permission_to_authority p = Some auth -> C ⊆+ all_factors auth ->
    (forall w, MWait w ∈ C -> wait_sec w * 1000000 <= provided_delay) ->
    (forall k, MKey k ∈ C -> kw_key k ∈ provided_keys) ->
    (forall q, MAccount q ∈ C -> sat (pw_permission q)) ->
    threshold auth <= wsum C -> sat p.

Definition factor_ok (m : meta_permission) : Prop :=
  match m with
  | MWait w => wait_sec w * 1000000 <= provided_delay
  | MKey k => kw_key k ∈ provided_keys
  | MAccount q => sat (pw_permission q)
  end.

(** Some satisfied factors of the authority reach its threshold. *)
Definition auth_sat (auth : authority) : Prop :=
  exists C, C ⊆+ all_factors auth /\ (forall m, m ∈ C -> factor_ok m) /\ threshold auth <= wsum C.

Lemma sat_intro p auth : permission_to_authority p = Some auth -> auth_sat auth -> sat p.
Proof.
  intros Hp (C & HC & Hok & Ht). apply (sat_authority p auth C); try done.
  - intros w Hw. apply (Hok _ Hw).
  - intros k Hk. apply (Hok _ Hk).
  - intros q Hq. apply (Hok _ Hq).
Qed.

Lemma sat_inv p : sat p -> (p ∈ provided_permissions \/ (p.1, 0) ∈ provided_permissions) \/
  exists auth, permission_to_authority p = Some auth /\ auth_sat auth.
Proof.
  intros H. destruct H as [p H|p auth C Hp HC Hw Hk Hq Ht]; [by left|right].
  exists auth. split; [done|]. exists C. split; [done|]. split; [|done]. intros [q|k|w] Hm; cbn; auto.
Qed.

(** The weight of the satisfied factors in a list. *)
Inductive ok_sum (miss : meta_permission -> Prop) : list meta_permission -> Z -> Prop :=
| ok_nil : ok_sum miss [] 0
| ok_yes m l s : factor_ok m -> ok_sum miss l s -> ok_sum miss (m :: l) (get_weight m + s)
| ok_no m l s : miss m -> ok_sum miss l s -> ok_sum miss (m :: l) s.

Lemma wsum_perm l l' : l ≡ₚ l' -> wsum l = wsum l'.
Proof. unfold wsum. induction 1; cbn in *; lia. Qed.

Lemma wsum_app l l' : wsum (l ++ l') = wsum l + wsum l'.
Proof. unfold wsum in *. induction l as [|m l IH]; cbn in *; lia. Qed.

(** No choice of satisfied factors weighs more than all of them. *)
Lemma ok_sum_max l s : ok_sum (fun m => ~ factor_ok m) l s -> (forall m, m ∈ l -> 0 <= get_weight m) ->
  forall C, C ⊆+ l -> (forall m, m ∈ C -> factor_ok m) -> wsum C <= s.
Proof.
  induction 1 as [|m l s Hm H IH|m l s Hm H IH]; intros Hw C HC Hok.
  - apply submseteq_nil_r in HC as ->. done.
  - assert (0 <= get_weight m) by (apply Hw; left).
    assert (Hl : forall x, x ∈ l -> 0 <= get_weight x) by (intros x Hx; apply Hw; by right). apply submseteq_cons_r in HC as [HC|(C' & E & HC)].
    + pose proof (IH Hl C HC Hok). lia.
    + rewrite (wsum_perm _ _ E). change (wsum (m :: C')) with (get_weight m + wsum C'). enough (wsum C' <= s) by lia. apply IH; [done..|]. intros x Hx. apply Hok. rewrite E. by right.
  - apply submseteq_cons_r in HC as [HC|(C' & E & HC)].
    + apply IH; [|done..]. intros x Hx. apply Hw. by right.
    + exfalso. apply Hm, Hok. rewrite E. by left.
Qed.
End semantics.

Section proofs.
Context (ordered : list meta_permission -> list meta_permission) (ordered_perm : forall l, ordered l ≡ₚ l).
Context (p2a : permission_level -> option authority).
Context (keys : list Z) (perms : gset permission_level) (delay : Z).

#[local] Abbreviation sat := (sat p2a keys perms delay).
#[local] Abbreviation factor_ok := (factor_ok p2a keys perms delay).
#[local] Abbreviation auth_sat := (auth_sat p2a keys perms delay).
#[local] Abbreviation run_visit := (visit p2a keys delay).
#[local] Abbreviation run_tally := (tally p2a keys delay).
#[local] Abbreviation run_check := (satisfied ordered p2a keys delay).

Lemma find_key_Some k i : find_key k keys = Some i -> k ∈ keys.
Proof.
  revert i. induction keys as [|x l IH]; intros i; cbn; [done|].
  destruct (Z.eqb_spec x k) as [->|]; [intros; by left|]. intros (j & E & _)%fmap_Some. right. by eapply IH.
Qed.

Lemma find_key_None k : find_key k keys = None -> k ∉ keys.
Proof.
  induction keys as [|x l IH]; cbn; [intros _; apply not_elem_of_nil|]. destruct (Z.eqb_spec x k); [done|].
  intros E%fmap_None. apply not_elem_of_cons. split; [congruence|by apply IH].
Qed.

Lemma u32_le z : 0 <= z -> 0 <= u32 z <= z.
Proof. intros. unfold u32. split; [apply Z.mod_pos_bound; lia|apply Z.mod_le; lia]. Qed.

(** The loop, for an invariant that every visit keeps. *)
Section loop.
Context (Inv : check_state -> Prop) (miss : meta_permission -> Prop) (recurse : option (authority -> check_state -> bool * check_state)).

Definition visit_ok (m : meta_permission) : Prop := forall total st t' st', Inv st -> run_visit recurse m total st = (t', st') ->
  Inv st' /\ (factor_ok m /\ t' = u32 (total + get_weight m) \/ miss m /\ t' = total).

Lemma tally_ok need l : (forall m, m ∈ l -> visit_ok m /\ 0 <= get_weight m) ->
  forall total st b st', Inv st -> 0 <= total -> run_tally recurse need l total st = (b, st') ->
  Inv st' /\
  (b = true -> exists C, C ⊆+ l /\ (forall m, m ∈ C -> factor_ok m) /\ need <= total + wsum C) /\
  (b = false -> total < need -> total + wsum l < 2^32 -> exists s, ok_sum p2a keys perms delay miss l s /\ total + s < need).
Proof.
  induction l as [|m l IH]; intros Hl total st b st' HI H0 H; cbn [tally] in H.
  - injection H as <- <-. split; [done|]. split; [done|]. intros _ ? _. exists 0. split; [constructor|lia].
  - destruct (run_visit recurse m total st) as [t1 st1] eqn:E. destruct (Hl m ltac:(left)) as [Hv Hw].
    destruct (Hv _ _ _ _ HI E) as [HI1 Hm].
    assert (Ht1 : 0 <= t1) by (destruct Hm as [[_ ->]|[_ ->]]; [apply u32_le; lia|done]).
    assert (IHl : forall x, x ∈ l -> visit_ok x /\ 0 <= get_weight x) by (intros x Hx; apply Hl; by right).
    assert (0 <= wsum l) by (clear -IHl; unfold wsum; induction l as [|x l IH]; cbn; [done|];
      destruct (IHl x ltac:(left)); pose proof (IH (fun y Hy => IHl y ltac:(by right))); lia).
    change (wsum (m :: l)) with (get_weight m + wsum l).
    destruct (need <=? t1) eqn:En.
    + injection H as <- <-. apply Z.leb_le in En. split; [done|]. split; [|done]. intros _.
      destruct Hm as [[Hok ->]|[_ ->]].
      * exists [m]. split; [by apply singleton_submseteq_l; left|]. split; [by intros x ->%list_elem_of_singleton|].
        cbn. pose proof (u32_le (total + get_weight m)). lia.
      * exists []. split; [apply submseteq_nil_l|]. split; [by intros x ?%elem_of_nil|cbn; lia].
    + apply Z.leb_gt in En. destruct (IH IHl t1 st1 b st' HI1 Ht1 H) as (HI' & Htrue & Hfalse). split; [done|]. split.
      * intros (C & HC & Hok & Hn)%Htrue. destruct Hm as [[Hm ->]|[_ ->]].
        -- exists (m :: C). split; [by apply submseteq_skip|]. split; [by intros x [->|?]%elem_of_cons; auto|].
           cbn. fold (wsum C). pose proof (u32_le (total + get_weight m)). lia.
        -- exists C. split; [by apply submseteq_cons|done].
      * intros Hb Ht Hs. destruct Hm as [[Hm ->]|[Hm ->]].
        -- rewrite u32_id in * by lia. destruct Hfalse as (s & Hs' & ?); [done|lia|lia|].
           exists (get_weight m + s). split; [by constructor|lia].
        -- destruct Hfalse as (s & Hs' & ?); [done|lia|lia|]. exists s. split; [by apply ok_no|lia].
Qed.
End loop.

Context (no_wildcard : forall a, p2a (a, 0) = None) (typed : forall p a, p2a p = Some a -> authority_typed a).

Lemma sat_wildcard a : sat (a, 0) -> (a, 0) ∈ perms.
Proof using no_wildcard. intros [[?|?]|(auth & E & _)]%sat_inv; [done..|]. by rewrite no_wildcard in E. Qed.

Lemma factors_weight auth m : authority_typed auth -> m ∈ factors ordered auth -> 0 <= get_weight m.
Proof using ordered_perm. intros [_ Hw] Hm. unfold factors in Hm. rewrite ordered_perm in Hm. apply Hw in Hm. lia. Qed.

Lemma auth_sat_of auth C : C ⊆+ factors ordered auth -> (forall m, m ∈ C -> factor_ok m) -> threshold auth <= 0 + wsum C ->
  auth_sat auth.
Proof using ordered_perm. intros HC Hok Ht. exists C. unfold factors in HC. rewrite ordered_perm in HC. done. Qed.

(** ** Soundness *)

Definition cache_sound (st : check_state) : Prop :=
  forall p, cached_permissions st !! p = Some permission_satisfied -> sat p.

Definition check_sound (go : authority -> check_state -> bool * check_state) : Prop :=
  forall auth st b st', authority_typed auth -> cache_sound st -> go auth st = (b, st') ->
  cache_sound st' /\ (b = true -> auth_sat auth).

Lemma status_sound st p : cache_sound st ->
  permission_status_in_cache (cached_permissions st) p = Some permission_satisfied -> sat p.
Proof using no_wildcard.
  intros Hc. unfold permission_status_in_cache. destruct (cached_permissions st !! p) eqn:E; [intros [= ->]; by apply Hc|].
  intros H%Hc%sat_wildcard. apply sat_provided. by right.
Qed.

Lemma visit_key_spec k total st t' st' : visit_key keys k total st = (t', st') ->
  cached_permissions st' = cached_permissions st /\
  (kw_key k ∈ keys /\ t' = u32 (total + kw_weight k) \/ (kw_key k ∉ keys) /\ t' = total).
Proof.
  unfold visit_key. destruct (find_key (kw_key k) keys) as [i|] eqn:E; intros [= <- <-]; (split; [done|]).
  - apply find_key_Some in E. auto.
  - apply find_key_None in E. auto.
Qed.

Lemma visit_sound recurse m : match recurse with Some go => check_sound go | None => True end ->
  visit_ok cache_sound (fun _ => True) recurse m.
Proof using no_wildcard typed.
  intros Hr total st t' st' HI H. destruct m as [p|k|w]; cbn [visit] in H.
  - unfold visit_account in H. destruct (permission_status_in_cache (cached_permissions st) (pw_permission p)) as [[]|] eqn:E.
    + injection H as <- <-. auto.
    + injection H as <- <-. auto.
    + injection H as <- <-. split; [done|]. left. split; [by eapply status_sound|done].
    + destruct recurse as [go|]; [|injection H as <- <-; auto].
      destruct (p2a (pw_permission p)) as [auth|] eqn:Ea; [|injection H as <- <-; auto].
      destruct (go _ _) as [r st1] eqn:Eg. apply Hr in Eg as [HI1 Hs]; [|by eapply typed|].
      * assert (Hins : forall x, (x = permission_satisfied -> sat (pw_permission p)) ->
          cache_sound (st1 <| cached_permissions := <[pw_permission p := x]> (cached_permissions st1) |>)).
        { intros x Hx q. cbn. rewrite lookup_insert. case_decide; [subst q; intros [= ->]; by apply Hx|apply HI1]. }
        destruct r; injection H as <- <-; (split; [apply Hins|]); [|left| |right]; try done.
        -- intros _. by eapply sat_intro, Hs.
        -- split; [by eapply sat_intro, Hs|done].
      * intros q. cbn. rewrite lookup_insert. case_decide; [done|apply HI].
  - apply visit_key_spec in H as [Ec Hk]. split; [intros q; rewrite Ec; apply HI|]. tauto.
  - injection H as <- <-. split; [done|]. unfold visit_wait. destruct (Z.leb_spec (wait_sec w * 1000000) delay); auto.
Qed.

Lemma satisfied_sound n : check_sound (run_check n).
Proof using no_wildcard typed ordered_perm.
  induction n as [|n IH]; intros auth st b st' Ht HI H; cbn [satisfied] in H;
    (destruct (run_tally _ _ _ _ _) as [r st1] eqn:E in H; eapply (tally_ok cache_sound (fun _ => True)) in E as (HI1 & Hr & _);
     [|intros m Hm; split; [by apply visit_sound|by eapply factors_weight]|done|done]);
    (destruct r; injection H as <- <-; split; [done| |done|done]; intros _; destruct (Hr eq_refl) as (C & HC & Hok & Hn); by eapply auth_sat_of).
Qed.

(** ** Exactness when permissions do not refer to each other in a cycle *)

Context (rank : permission_level -> nat).
Context (acyclic : forall p auth q, p2a p = Some auth -> q ∈ auth_accounts auth ->
  is_Some (p2a (pw_permission q)) -> (rank (pw_permission q) < rank p)%nat).
Context (enough : forall p auth, p2a p = Some auth -> 0 < threshold auth /\ wsum (all_factors auth) < 2^32).

(** The cache is right, and what is being evaluated has a rank of at least [r]. *)
Record cache_exact (r : nat) (st : check_state) : Prop := {
  ce_provided p : p ∈ perms -> cached_permissions st !! p = Some permission_satisfied;
  ce_sat p : cached_permissions st !! p = Some permission_satisfied -> sat p;
  ce_unsat p : cached_permissions st !! p = Some permission_unsatisfied -> ~ sat p /\ is_Some (p2a p);
  ce_open p : cached_permissions st !! p = Some being_evaluated -> (r <= rank p)%nat /\ is_Some (p2a p)
}.

(** A check decides the authority and leaves a right cache with nothing new open. *)
Definition check_exact (n : nat) (go : authority -> check_state -> bool * check_state) : Prop :=
  forall p auth st b st', p2a p = Some auth -> (rank p <= n)%nat -> cache_exact (rank p) st -> go auth st = (b, st') ->
  cache_exact (rank p) st' /\ (b = true <-> auth_sat auth) /\
  (forall q, cached_permissions st' !! q = Some being_evaluated -> cached_permissions st !! q = Some being_evaluated).

Lemma status_exact r st p : cache_exact r st -> (is_Some (p2a p) -> rank p < r)%nat ->
  match permission_status_in_cache (cached_permissions st) p with
  | Some permission_satisfied => sat p
  | Some permission_unsatisfied => ~ sat p
  | Some being_evaluated => False
  | None => ~ (p ∈ perms \/ (p.1, 0) ∈ perms)
  end.
Proof using no_wildcard.
  intros [H1 H2 H3 H4] Hr. unfold permission_status_in_cache. destruct (cached_permissions st !! p) as [[]|] eqn:E.
  - apply H4 in E as [? ?]. apply Hr in H0. lia.
  - by apply H3.
  - by apply H2.
  - destruct (cached_permissions st !! (p.1, 0)) as [[]|] eqn:E0.
    + apply H4 in E0 as [_ [? Hx]]. by rewrite no_wildcard in Hx.
    + apply H3 in E0 as [_ [? Hx]]. by rewrite no_wildcard in Hx.
    + apply H2, sat_wildcard in E0. apply sat_provided. by right.
    + intros [?%H1|?%H1]; congruence.
Qed.

(** What the loop over an authority keeps, from the state [st0]. *)
Definition loop_inv (r : nat) (st0 st : check_state) : Prop :=
  cache_exact r st /\
  forall q, cached_permissions st !! q = Some being_evaluated -> cached_permissions st0 !! q = Some being_evaluated.

Definition recurse_exact (n : nat) (recurse : option (authority -> check_state -> bool * check_state)) : Prop :=
  match recurse, n with
  | Some go, S n' => check_exact n' go
  | None, O => True
  | _, _ => False
  end.

(** Entering a permission that is not in the cache. *)
Lemma cache_enter r st p : cache_exact r st -> is_Some (p2a p) -> (rank p < r)%nat -> ~ (p ∈ perms \/ (p.1, 0) ∈ perms) ->
  cache_exact (rank p) (st <| cached_permissions := <[p := being_evaluated]> (cached_permissions st) |>).
Proof.
  intros [H1 H2 H3 H4] Hp Hr Hn. split; intros q; cbn; rewrite lookup_insert; case_decide as D; try subst q; try done; auto.
  - intros Hq. exfalso. apply Hn. by left.
  - intros [? ?]%H4. split; [lia|done].
Qed.

(** Leaving it with its result. *)
Lemma cache_leave r st st1 p b : cache_exact (rank p) st1 -> loop_inv r st st -> is_Some (p2a p) ->
  ~ (p ∈ perms \/ (p.1, 0) ∈ perms) -> (b = true <-> sat p) ->
  (forall q, cached_permissions st1 !! q = Some being_evaluated -> q = p \/ cached_permissions st !! q = Some being_evaluated) ->
  loop_inv r st (st1 <| cached_permissions := <[p := if b then permission_satisfied else permission_unsatisfied]> (cached_permissions st1) |>).
Proof.
  intros [H1 H2 H3 H4] [He _] Hp Hn Hb Ho. split; [split|]; intros q; cbn; rewrite lookup_insert; case_decide as D; try subst q; auto.
  - intros Hq. exfalso. apply Hn. by left.
  - destruct b; [|done]. intros _. by apply Hb.
  - destruct b; [done|]. intros _. split; [|done]. intros H%Hb. done.
  - destruct b; done.
  - intros Hq. destruct (Ho q Hq) as [->|Hq']; [done|]. by apply (ce_open _ _ He).
  - destruct b; done.
  - intros Hq. destruct (Ho q Hq) as [->|]; done.
Qed.

Lemma visit_exact r n st0 recurse m : recurse_exact n recurse ->
  (forall q, m = MAccount q -> is_Some (p2a (pw_permission q)) -> (rank (pw_permission q) < r /\ rank (pw_permission q) < n)%nat) ->
  visit_ok (loop_inv r st0) (fun m => ~ factor_ok m) recurse m.
Proof using no_wildcard.
  intros Hr Hm total st t' st' [HI Ho] H. destruct m as [p|k|w]; cbn [visit] in H.
  - specialize (Hm p eq_refl). pose proof (status_exact r st (pw_permission p) HI (fun Hp => proj1 (Hm Hp))) as Hst.
    unfold visit_account in H. destruct (permission_status_in_cache _ _) as [[]|]; [done|..].
    + injection H as <- <-. split; [done|]. by right.
    + injection H as <- <-. split; [done|]. by left.
    + destruct (p2a (pw_permission p)) as [auth|] eqn:Ea.
      * destruct (Hm ltac:(by eexists)) as [Hr1 Hr2]. destruct n as [|n]; [lia|]. destruct recurse as [go|]; [|done].
        destruct (go _ _) as [b st1] eqn:Eg. apply (Hr (pw_permission p)) in Eg as (HI1 & Hb & Hop);
          [|done|lia|apply (cache_enter r); eauto].
        assert (Hsat : b = true <-> sat (pw_permission p)).
        { rewrite Hb. split; [by apply sat_intro|]. intros [?|(auth' & Ea' & ?)]%sat_inv; [done|]. congruence. }
        assert (HL : loop_inv r st (st1 <| cached_permissions := <[pw_permission p :=
          if b then permission_satisfied else permission_unsatisfied]> (cached_permissions st1) |>)).
        { apply cache_leave; eauto; [done|]. intros q Hq%Hop. cbn in Hq. rewrite lookup_insert in Hq. case_decide; auto. }
        destruct HL as [HL1 HL2]. destruct b; injection H as <- <-; (split; [split; [done|]; intros q Hq; apply Ho, HL2, Hq|]).
        -- left. split; [by apply Hsat|done].
        -- right. split; [|done]. intros Hs%Hsat. done.
      * assert (t' = total /\ st' = st) as [-> ->] by (destruct recurse; by injection H as <- <-).
        split; [done|]. right. split; [|done]. intros [?|(auth' & Ea' & ?)]%sat_inv; [done|]. congruence.
  - apply visit_key_spec in H as [Ec Hk]. split; [|tauto]. split; [|by rewrite Ec]. destruct HI. split; by rewrite Ec.
  - injection H as <- <-. split; [done|]. unfold visit_wait. cbn. destruct (Z.leb_spec (wait_sec w * 1000000) delay); [by left|].
    right. split; [lia|done].
Qed.

Lemma factors_account auth q : MAccount q ∈ factors ordered auth -> q ∈ auth_accounts auth.
Proof using ordered_perm.
  unfold factors. rewrite ordered_perm, !elem_of_app, !list_elem_of_fmap.
  intros [(? & [=] & _)|[(? & [=] & _)|(x & [= ->] & Hx)]]. done.
Qed.

Lemma wsum_factors auth : wsum (factors ordered auth) = wsum (all_factors auth).
Proof using ordered_perm. apply wsum_perm, ordered_perm. Qed.

Lemma check_body n recurse : recurse_exact n recurse ->
  check_exact n (fun auth st => let '(r, st') := run_tally recurse (threshold auth) (factors ordered auth) 0 st in
    if r then (true, st') else (false, st' <| _used_keys := _used_keys st |>)).
Proof using no_wildcard typed ordered_perm acyclic enough.
  intros Hr p auth st b st' Hp Hn HI H. pose proof (typed _ _ Hp) as Ht. destruct (enough _ _ Hp) as [Hpos Hsum].
  destruct (run_tally _ _ _ _ _) as [r st1] eqn:E in H.
  eapply (tally_ok (loop_inv (rank p) st) (fun m => ~ factor_ok m)) in E as ([HI1 Ho] & Htrue & Hfalse); [| |done|lia].
  2: { intros m Hm. split; [|by eapply factors_weight]. eapply visit_exact; [done|]. intros q -> Hq.
       pose proof (acyclic p auth q Hp (factors_account _ _ Hm) Hq). lia. }
  destruct r; injection H as <- <-.
  - split; [done|]. split; [|done]. split; [|done]. intros _. destruct (Htrue eq_refl) as (C & HC & Hok & Hc). by eapply auth_sat_of.
  - split; [destruct HI1; by split|]. split; [|done]. split; [done|]. intros (C & HC & Hok & Hc). exfalso.
    destruct Hfalse as (s & Hs & Hlt); [done|lia|rewrite wsum_factors; lia|].
    assert (wsum C <= s); [|lia]. eapply ok_sum_max; [exact Hs| | |done].
    + intros m Hm. by eapply factors_weight.
    + unfold factors. by rewrite ordered_perm.
Qed.

Lemma satisfied_exact n : check_exact n (run_check n).
Proof using no_wildcard typed ordered_perm acyclic enough.
  induction n as [|n IH]; [by apply (check_body 0 None)|by apply (check_body (S n) (Some (run_check n)))].
Qed.

Lemma initial_lookup p st : initialize_permission_cache perms !! p = Some st <-> p ∈ perms /\ st = permission_satisfied.
Proof.
  unfold initialize_permission_cache. rewrite lookup_gset_to_gmap_Some. split; intros [? H]; (split; [done|]); by subst.
Qed.

Lemma initial_exact used r : cache_exact r (mkCheck used (initialize_permission_cache perms)).
Proof.
  split; intros p; cbn; rewrite initial_lookup; [done|..]; intros [Hp [=]]. apply sat_provided. by left.
Qed.
End proofs.

(** ** Valid authorities *)

Definition lsum {A} (w : A -> Z) (l : list A) : Z := foldr (fun x s => w x + s) 0 l.

Definition total_weight (auth : authority) : Z :=
  lsum kw_weight (auth_keys auth) + lsum pw_weight (auth_accounts auth) + lsum ww_weight (auth_waits auth).

Lemma wsum_map {A} (c : A -> meta_permission) (w : A -> Z) l : (forall x, get_weight (c x) = w x) -> wsum (map c l) = lsum w l.
Proof. intros H. unfold wsum, lsum. induction l as [|x l IH]; cbn; [done|]. rewrite H. lia. Qed.

Lemma wsum_all auth : wsum (all_factors auth) = total_weight auth.
Proof.
  unfold all_factors, total_weight. rewrite !wsum_app, (wsum_map MWait ww_weight), (wsum_map MKey kw_weight), (wsum_map MAccount pw_weight) by done. lia.
Qed.

Lemma lsum_bound {A} (w : A -> Z) l : (forall x, x ∈ l -> 0 <= w x < 2^16) -> 0 <= lsum w l <= Z.of_nat (length l) * 65535.
Proof.
  unfold lsum. induction l as [|x l IH]; intros Hw; cbn; [lia|].
  pose proof (Hw x ltac:(left)). pose proof (IH (fun y Hy => Hw y ltac:(by right))). lia.
Qed.

(** Every element follows the one before it. *)
Definition follows {A} (lt : A -> A -> bool) (prev : option A) (l : list A) : Prop :=
  Sorted (fun a b => lt a b = true) (match prev with Some p => p :: l | None => l end).

Lemma check_sorted_spec {A} (lt : A -> A -> bool) (w : A -> Z) l : (forall x, x ∈ l -> 0 <= w x < 2^16) ->
  forall prev total t, 0 <= total -> total + lsum w l < 2^32 ->
  check_sorted lt w prev l total = Some t <-> follows lt prev l /\ t = total + lsum w l.
Proof.
  induction l as [|x l IH]; intros Hw prev total t H0 Ht; cbn [check_sorted].
  - cbn. rewrite Z.add_0_r. split; [intros [= <-]; split; [destruct prev; repeat constructor|done]|intros [_ ->]; done].
  - pose proof (Hw x ltac:(left)). assert (Hl : forall y, y ∈ l -> 0 <= w y < 2^16) by (intros; apply Hw; by right).
    pose proof (lsum_bound w l Hl). change (lsum w (x :: l)) with (w x + lsum w l) in *.
    rewrite u32_id by lia. destruct (match prev with Some p => lt p x | None => true end) eqn:E.
    + rewrite IH by (done || lia). unfold follows. destruct prev as [p|]; [|by rewrite Z.add_assoc].
      rewrite Z.add_assoc. split; intros [Hs ->]; (split; [|done]); [constructor; [done|by constructor]|by inversion Hs].
    + split; [done|]. intros [Hs _]. destruct prev as [p|]; [|done]. inversion Hs as [|? ? _ Hh]; subst. inversion Hh. congruence.
Qed.

Lemma check_sorted_None {A} (lt : A -> A -> bool) (w : A -> Z) l total : (forall x, x ∈ l -> 0 <= w x < 2^16) ->
  0 <= total -> total + lsum w l < 2^32 -> check_sorted lt w None l total = None -> ~ Sorted (fun a b => lt a b = true) l.
Proof.
  intros Hw H0 Ht H Hs. assert (E : check_sorted lt w None l total = Some (total + lsum w l)) by (by apply check_sorted_spec).
  congruence.
Qed.

Lemma typed_weights auth : authority_typed auth ->
  (forall x, x ∈ auth_keys auth -> 0 <= kw_weight x < 2^16) /\ (forall x, x ∈ auth_accounts auth -> 0 <= pw_weight x < 2^16) /\
  (forall x, x ∈ auth_waits auth -> 0 <= ww_weight x < 2^16).
Proof.
  intros [_ Hw]. unfold all_factors in Hw. split; [|split]; intros x Hx.
  - apply (Hw (MKey x)). rewrite !elem_of_app. right; left. by apply list_elem_of_fmap_2.
  - apply (Hw (MAccount x)). rewrite !elem_of_app. right; right. by apply list_elem_of_fmap_2.
  - apply (Hw (MWait x)). rewrite !elem_of_app. left. by apply list_elem_of_fmap_2.
Qed.

Lemma total_weight_bound auth : authority_typed auth ->
  Z.of_nat (length (auth_keys auth) + length (auth_accounts auth) + length (auth_waits auth)) <= 65536 -> total_weight auth < 2^32.
Proof.
  intros (H1 & H2 & H3)%typed_weights Hn. unfold total_weight.
  pose proof (lsum_bound kw_weight _ H1). pose proof (lsum_bound pw_weight _ H2). pose proof (lsum_bound ww_weight _ H3). lia.
Qed.

Lemma validate_iff key_lt auth : authority_typed auth -> validate key_lt auth = true <->
  Z.of_nat (length (auth_keys auth) + length (auth_accounts auth) + length (auth_waits auth)) <= 65536 /\
  0 < threshold auth <= total_weight auth /\
  Sorted (fun a b => key_lt (kw_key a) (kw_key b) = true) (auth_keys auth) /\
  Sorted (fun a b => level_lt (pw_permission a) (pw_permission b) = true) (auth_accounts auth) /\
  Sorted (fun a b => (wait_sec a <? wait_sec b) = true) (auth_waits auth) /\
  (forall w l, auth_waits auth = w :: l -> wait_sec w <> 0).
Proof.
  intros Ht. pose proof (total_weight_bound auth Ht) as Hb. pose proof (typed_weights auth Ht) as (H1 & H2 & H3).
  assert (Hth : 0 <= threshold auth) by apply Ht. clear Ht. unfold validate. set (n := Z.of_nat _) in *.
  destruct (Z.ltb_spec 65536 n); [split; [done|lia]|]. specialize (Hb ltac:(lia)). unfold total_weight in *.
  pose proof (lsum_bound kw_weight _ H1). pose proof (lsum_bound pw_weight _ H2). pose proof (lsum_bound ww_weight _ H3).
  destruct (Z.eqb_spec (threshold auth) 0); [split; [done|lia]|].
  destruct (check_sorted _ kw_weight None _ 0) as [t1|] eqn:E1; [|apply check_sorted_None in E1; [|done|lia|lia]; cbv beta in E1; split; [done|tauto]].
  apply check_sorted_spec in E1 as [S1 ->]; [|done|lia|lia].
  destruct (check_sorted _ pw_weight None _ _) as [t2|] eqn:E2; [|apply check_sorted_None in E2; [|done|lia|lia]; cbv beta in E2; split; [done|tauto]].
  apply check_sorted_spec in E2 as [S2 ->]; [|done|lia|lia].
  destruct (match auth_waits auth with w :: _ => wait_sec w =? 0 | [] => false end) eqn:E0.
  { destruct (auth_waits auth) as [|w l]; [done|]. apply Z.eqb_eq in E0. split; [done|]. intros (_ & _ & _ & _ & _ & Hf). by destruct (Hf w l). }
  destruct (check_sorted _ ww_weight None _ _) as [t3|] eqn:E3; [|apply check_sorted_None in E3; [|done|lia|lia]; cbv beta in E3; split; [done|tauto]].
  apply check_sorted_spec in E3 as [S3 ->]; [|done|lia|lia]. rewrite Z.leb_le. split; [|lia]. intros Hle.
  do 2 (split; [lia|]). do 3 (split; [done|]). intros w l Hw. rewrite Hw in E0. by apply Z.eqb_neq in E0.
Qed.

(** ** The checker on a permission *)

Lemma satisfied_level_sound ordered p2a keys perms delay limit p used used' :
  (forall l, ordered l ≡ₚ l) -> (forall a, p2a (a, 0) = None) -> (forall q a, p2a q = Some a -> authority_typed a) ->
  satisfied_level ordered p2a keys perms delay limit p used = (true, used') -> sat p2a keys perms delay p.
Proof.
  intros Ho Hn Ht H. unfold satisfied_level in H. destruct (visit_account _ _ _ _ _) as [w st] eqn:E. injection H as Hw <-.
  apply Z.ltb_lt in Hw. pose proof (visit_sound p2a keys perms delay Hn Ht
    (match limit with O => None | S levels => Some (satisfied ordered p2a keys delay levels) end) (MAccount (mkPermWeight p 1))) as Hv.
  unfold visit_ok in Hv. edestruct Hv as [_ [[Hok _]|[_ Hw0]]]; [| |exact E|exact Hok|lia].
  - destruct limit; [done|by apply satisfied_sound].
  - intros q. cbn. rewrite initial_lookup. intros [? _]. apply sat_provided. by left.
Qed.

(** C20: The authority checker decides satisfaction exactly when no permission
    refers to itself through others.  Take permissions with valid authorities, a
    rank that falls along their references, and a permission whose rank is below
    the recursion limit.  The checker accepts it if and only if it can be derived
    from the provided keys, the provided permissions and the delay; the cache and
    the order in which factors are tried do not matter. *)
Theorem checker_exact ordered key_lt p2a keys perms delay limit rank p used :
  (forall l, ordered l ≡ₚ l) -> (forall a, p2a (a, 0) = None) ->
  (forall q a, p2a q = Some a -> authority_typed a /\ validate key_lt a = true) ->
  (forall q a r, p2a q = Some a -> r ∈ auth_accounts a -> is_Some (p2a (pw_permission r)) -> (rank (pw_permission r) < rank q)%nat) ->
  (rank p < limit)%nat ->
  (satisfied_level ordered p2a keys perms delay limit p used).1 = true <-> sat p2a keys perms delay p.
Proof.
  intros Ho Hn Hv Hr Hl.
  assert (Ht : forall q a, p2a q = Some a -> authority_typed a) by (intros q a Hq; apply (Hv q a Hq)).
  assert (He : forall q a, p2a q = Some a -> 0 < threshold a /\ wsum (all_factors a) < 2^32).
  { intros q a Hq. destruct (Hv q a Hq) as [Hta Hva]. apply validate_iff in Hva as (Hc & Hth & _); [|done].
    rewrite wsum_all. split; [lia|]. by apply total_weight_bound. }
  unfold satisfied_level. destruct limit as [|n]; [lia|]. destruct (visit_account _ _ _ _ _) as [w st] eqn:E. cbn.
  assert (Hx : visit_ok p2a keys perms delay (loop_inv p2a keys perms delay rank (S (rank p)) (mkCheck used (initialize_permission_cache perms)))
    (fun m => ~ factor_ok p2a keys perms delay m) (Some (satisfied ordered p2a keys delay n)) (MAccount (mkPermWeight p 1))).
  { apply (visit_exact p2a keys perms delay Hn rank _ (S n)); [by apply satisfied_exact|]. intros q [= <-] _. cbn. lia. }
  destruct (Hx 0 (mkCheck used (initialize_permission_cache perms)) w st) as [_ [[Hok ->]|[Hok ->]]];
    [split; [apply initial_exact|done]|exact E|..].
  - cbn in Hok. split; [done|]. intros _. reflexivity.
  - cbn in Hok. split; [done|]. intros Hs. by destruct Hok.
Qed.

Lemma tally_all ordered p2a keys perms delay recurse auth st :
  (forall l, ordered l ≡ₚ l) -> authority_typed auth -> 0 < threshold auth <= wsum (all_factors auth) -> wsum (all_factors auth) < 2^32 ->
  (forall m, m ∈ all_factors auth -> factor_ok p2a keys perms delay m) ->
  (forall q, q ∈ auth_accounts auth -> pw_permission q ∈ perms) -> cached_permissions st = initialize_permission_cache perms ->
  (tally p2a keys delay recurse (threshold auth) (factors ordered auth) 0 st).1 = true.
Proof.
  intros Ho Ht Hth Hb Hok Hp Hst. destruct (tally _ _ _ _ _ _ _ _) as [[] st'] eqn:E; [done|exfalso].
  eapply (tally_ok p2a keys perms delay (fun st => cached_permissions st = initialize_permission_cache perms)
    (fun m => ~ factor_ok p2a keys perms delay m)) in E as (_ & _ & Hf); [|intros m Hm; split; [|by eapply factors_weight]|done|done].
  - destruct Hf as (s & Hs & Hlt); [done|lia|rewrite wsum_factors by done; lia|].
    eapply ok_sum_max with (C := factors ordered auth) in Hs; [|intros m Hm; by eapply factors_weight|done|].
    + rewrite wsum_factors in Hs by done. lia.
    + intros m Hm. apply Hok. unfold factors in Hm. by rewrite Ho in Hm.
  - intros total st1 t' st2 HI Hv. destruct m as [q|k|w]; cbn [visit] in Hv.
    + unfold visit_account, permission_status_in_cache in Hv. rewrite HI in Hv.
      assert (Ep : initialize_permission_cache perms !! pw_permission q = Some permission_satisfied).
      { apply initial_lookup. split; [|done]. apply Hp. by eapply factors_account. }
      rewrite Ep in Hv. injection Hv as <- <-. split; [done|]. left. split; [|done]. apply sat_provided. left.
      by apply initial_lookup in Ep as [? _].
    + apply visit_key_spec in Hv as [Ec Hk]. split; [by rewrite Ec|]. cbn. tauto.
    + injection Hv as <- <-. split; [done|]. unfold visit_wait. cbn.
      destruct (Z.leb_spec (wait_sec w * 1000000) delay); [by left|right; split; [lia|done]].
Qed.

(** A valid authority can be satisfied.  When [validate] accepts an authority
    then the checker accepts it for anyone who provides all its keys, all its
    permissions and its longest wait: the sum of the weights does not overflow. *)
Theorem validate_satisfiable ordered key_lt p2a keys perms delay limit auth used :
  (forall l, ordered l ≡ₚ l) -> authority_typed auth -> validate key_lt auth = true ->
  (forall k, k ∈ auth_keys auth -> kw_key k ∈ keys) -> (forall q, q ∈ auth_accounts auth -> pw_permission q ∈ perms) ->
  (forall w, w ∈ auth_waits auth -> wait_sec w * 1000000 <= delay) ->
  (satisfied_authority ordered p2a keys perms delay limit auth used).1 = true.
Proof.
  intros Ho Ht Hv Hk Hp Hw. apply validate_iff in Hv as (Hn & Hth & _); [|done]. pose proof (total_weight_bound auth Ht Hn) as Hb.
  rewrite <- wsum_all in Hth, Hb. assert (Hok : forall m, m ∈ all_factors auth -> factor_ok p2a keys perms delay m).
  { intros m. unfold all_factors. rewrite !elem_of_app, !list_elem_of_fmap.
    intros [(x & -> & Hx)|[(x & -> & Hx)|(x & -> & Hx)]]; cbn; [auto..|]. apply sat_provided. left. auto. }
  assert (Ha : forall recurse, (tally p2a keys delay recurse (threshold auth) (factors ordered auth) 0
    (mkCheck used (initialize_permission_cache perms))).1 = true) by (intros recurse; by apply (tally_all ordered p2a keys perms)).
  unfold satisfied_authority. destruct limit as [|n]; cbn [satisfied];
    [specialize (Ha None)|specialize (Ha (Some (satisfied ordered p2a keys delay n)))];
    destruct (tally _ _ _ _ _ _ _ _) as [r st]; cbn in Ha; by subst r.
Qed.

(** ** Examples *)

(** flat_multiset: equal elements keep the order of insertion. *)
Fixpoint insert_factor (m : meta_permission) (l : list meta_permission) : list meta_permission :=
  match l with
  | [] => [m]
  | x :: l' => if meta_permission_comparator m x then m :: l else x :: insert_factor m l'
  end.
Definition multiset_order (l : list meta_permission) : list meta_permission := foldl (fun acc m => insert_factor m acc) [] l.

Lemma multiset_order_perm l : multiset_order l ≡ₚ l.
Proof.
  assert (Hi : forall m l, insert_factor m l ≡ₚ m :: l).
  { intros m l'. induction l' as [|x l' IH]; cbn; [done|]. destruct (meta_permission_comparator m x); [done|].
    rewrite IH. apply Permutation_swap. }
  unfold multiset_order. assert (Hf : forall acc, foldl (fun acc m => insert_factor m acc) acc l ≡ₚ l ++ acc).
  { induction l as [|m l IH]; intros acc; [done|]. cbn. rewrite IH, Hi. symmetry. apply Permutation_middle. }
  rewrite Hf. by rewrite app_nil_r.
Qed.

Definition active (a : name) : permission_level := (a, N "active").
Definition by_key (k : Z) : authority := mkAuthority 1 [mkKeyWeight k 1] [] [].
Definition by_accounts (t : Z) (l : list (name * Z)) : authority :=
  mkAuthority t [] (map (fun aw => mkPermWeight (active aw.1) aw.2) l) [].

(** The checker can forget that it used a key.  An authority that is not
    satisfied gives back the keys it used, but a permission it satisfied on the way
    stays satisfied in the cache.  Here root needs x or z; x needs y and a key that
    is missing; z needs y; y needs key 1.  The checker accepts root and reports key 1
    as unused, although root cannot be satisfied without it. *)
Theorem checker_loses_key :
  let p2a := fun p => if decide (p = active (N "root")) then Some (by_accounts 1 [(N "x", 2); (N "z", 1)])
    else if decide (p = active (N "x")) then Some (mkAuthority 2 [mkKeyWeight 2 1] [mkPermWeight (active (N "y")) 1] [])
    else if decide (p = active (N "z")) then Some (by_accounts 1 [(N "y", 1)])
    else if decide (p = active (N "y")) then Some (by_key 1) else None in
  let run keys := satisfied_level multiset_order p2a keys ∅ 0 6 (active (N "root")) (no_keys_used keys) in
  (run [1]).1 = true /\ unused_keys [1] (run [1]).2 = [1] /\ all_keys_used (run [1]).2 = false /\ (run []).1 = false.
Proof. vm_compute. repeat split. Qed.

(** root = 2 of (ann, bob, a wait of an hour), ann needs key 1, bob needs eve or
    key 3, eve needs key 2. *)
Definition auth_demo (p : permission_level) : option authority :=
  if decide (p = active (N "root")) then
    Some (mkAuthority 2 [] [mkPermWeight (active (N "ann")) 1; mkPermWeight (active (N "bob")) 1] [mkWaitWeight 3600 1])
  else if decide (p = active (N "ann")) then Some (by_key 1)
  else if decide (p = active (N "bob")) then Some (mkAuthority 1 [mkKeyWeight 3 1] [mkPermWeight (active (N "eve")) 1] [])
  else if decide (p = active (N "eve")) then Some (by_key 2)
  else None.

Definition rank_demo (p : permission_level) : nat :=
  if decide (p = active (N "root")) then 2 else if decide (p = active (N "bob")) then 1 else 0.

Lemma auth_demo_cases q a (P : permission_level -> authority -> Prop) : auth_demo q = Some a ->
  (forall n, n ∈ [N "root"; N "ann"; N "bob"; N "eve"] -> match auth_demo (active n) with Some a => P (active n) a | None => True end) -> P q a.
Proof.
  intros H Hall.
  assert (exists n, n ∈ [N "root"; N "ann"; N "bob"; N "eve"] /\ q = active n) as (n & Hn & ->).
  { unfold auth_demo in H. repeat (case_decide; [subst q; eexists; split; [|done]; set_solver|]). done. }
  specialize (Hall n Hn). by rewrite H in Hall.
Qed.

Lemma auth_demo_ok q a : auth_demo q = Some a -> authority_typed a /\ validate Z.ltb a = true.
Proof.
  intros H. apply (auth_demo_cases q a (fun _ a => authority_typed a /\ validate Z.ltb a = true) H). intros n Hn.
  repeat (apply elem_of_cons in Hn as [->|Hn]; [vm_compute auth_demo; split; [split; [vm_compute; split; congruence|]|reflexivity];
    intros m Hm; repeat (apply elem_of_cons in Hm as [->|Hm]; [vm_compute; split; congruence|]); by apply elem_of_nil in Hm|]).
  by apply elem_of_nil in Hn.
Qed.

Lemma auth_demo_rank q a r : auth_demo q = Some a -> r ∈ auth_accounts a -> is_Some (auth_demo (pw_permission r)) ->
  (rank_demo (pw_permission r) < rank_demo q)%nat.
Proof.
  intros H Hr _. revert r Hr. apply (auth_demo_cases q a (fun q a => forall r, r ∈ auth_accounts a -> (rank_demo (pw_permission r) < rank_demo q)%nat) H).
  intros n Hn. repeat (apply elem_of_cons in Hn as [->|Hn]; [vm_compute auth_demo;
    intros r Hr; repeat (apply elem_of_cons in Hr as [->|Hr]; [vm_compute; lia|]); by apply elem_of_nil in Hr|]).
  by apply elem_of_nil in Hn.
Qed.

Lemma checker_exact_witness :
  let run keys := satisfied_level multiset_order auth_demo keys ∅ 0 6 (active (N "root")) (no_keys_used keys) in
  (run [1; 2]).1 = true /\ sat auth_demo [1; 2] ∅ 0 (active (N "root")) /\
  (run [1; 4]).1 = false /\ ~ sat auth_demo [1; 4] ∅ 0 (active (N "root")).
Proof.
  intros run. assert (Hx : forall keys, (run keys).1 = true <-> sat auth_demo keys ∅ 0 (active (N "root"))).
  { intros keys. apply (checker_exact multiset_order Z.ltb auth_demo keys ∅ 0 6 rank_demo (active (N "root")) (no_keys_used keys) multiset_order_perm).
    - intros a. unfold auth_demo. rewrite !decide_False; [reflexivity|intros D; apply (f_equal snd) in D; vm_compute in D; discriminate D..].
    - exact auth_demo_ok.
    - exact auth_demo_rank.
    - vm_compute. lia. }
  assert (E1 : (run [1; 2]).1 = true) by (vm_compute; reflexivity). assert (E2 : (run [1; 4]).1 = false) by (vm_compute; reflexivity).
  split; [exact E1|]. split; [by apply Hx|]. split; [exact E2|]. intros Hs. apply Hx in Hs. congruence.
Defined.

Lemma validate_satisfiable_witness :
  let auth := mkAuthority 3 [mkKeyWeight 5 1] [mkPermWeight (active (N "ann")) 1] [mkWaitWeight 60 1] in
  validate Z.ltb auth = true /\
  (satisfied_authority multiset_order auth_demo [5] {[active (N "ann")]} 60000000 6 auth (no_keys_used [5])).1 = true.
Proof.
  intros auth. assert (Hv : validate Z.ltb auth = true) by (vm_compute; reflexivity). split; [exact Hv|].
  apply (validate_satisfiable multiset_order Z.ltb); [exact multiset_order_perm| |exact Hv| | |].
  - split; [vm_compute; split; congruence|]. intros m Hm. repeat (apply elem_of_cons in Hm as [->|Hm]; [vm_compute; split; congruence|]). by apply elem_of_nil in Hm.
  - intros k Hk. apply list_elem_of_singleton in Hk as ->. left.
  - intros q Hq. apply list_elem_of_singleton in Hq as ->. set_solver.
  - intros w Hw. apply list_elem_of_singleton in Hw as ->. vm_compute. congruence.
Defined.
