(* ===== verification/ResourceLimits.v ===== *)
(** * Resource limits of accounts and blocks

    libraries/chain/resource_limits.cpp with include/eosio/chain/resource_limits.hpp
    and resource_limits_private.hpp: RAM usage, the exponential moving averages of
    the bandwidth used by accounts and blocks, the elastic limits of blocks, and the
    limits of accounts with their pending changes. *)

From S2P Require Import Prelude Names Chain.
#[local] Open Scope Z_scope.

Definition uint64_max : Z := 2^64 - 1.
Definition rl_fail {A} (msg : string) : res A := Err (ChainError msg).
Definition rl_assert (b : bool) (msg : string) : res unit := if b then Ok tt else rl_fail msg.

(** config.hpp *)
Definition rate_limiting_precision : Z := 1000 * 1000.
Definition block_interval_ms : Z := 500.
Definition account_cpu_usage_average_window_ms : Z := 24 * 60 * 60 * 1000.
Definition account_net_usage_average_window_ms : Z := 24 * 60 * 60 * 1000.
Definition block_cpu_usage_average_window_ms : Z := 60 * 1000.
Definition block_size_average_window_ms : Z := 60 * 1000.
Definition default_max_block_net_usage : Z := 1024 * 1024.
Definition default_max_block_cpu_usage : Z := 200000.

(** ** Averages *)

Record ratio := mkRatio { numerator : Z; denominator : Z }.

(** [value * r], with the overflow check. *)
Definition ratio_mul (value : Z) (r : ratio) : res Z :=
  _ ← (if numerator r =? 0 then Ok tt
       else rl_assert (value <=? uint64_max / numerator r) "Usage exceeds maximum value representable after extending for precision");
  u64_div (u64 (value * numerator r)) (denominator r).

Definition integer_divide_ceil (num den : Z) : Z := num / den + (if 0 <? num mod den then 1 else 0).

(** From 128 bits to an unsigned or signed number of 64 bits. *)
Definition downgrade_cast (max val : Z) : res Z :=
  _ ← rl_assert ((0 <=? val) && (val <=? max)) "Casting a higher bit integer value to a lower bit integer value which cannot contain the value";
  Ok val.

Record usage_accumulator := mkUsageAcc { last_ordinal : Z; value_ex : Z; consumed : Z }.
#[export] Instance eta_usage_accumulator : Eta usage_accumulator := fun a => mkUsageAcc (last_ordinal a) (value_ex a) (consumed a).

Definition max_raw_value : Z := uint64_max / rate_limiting_precision.

Definition average (a : usage_accumulator) : Z := integer_divide_ceil (value_ex a) rate_limiting_precision.

(** A new period: the average decays. *)
Definition next_period (ordinal window_size : Z) (a : usage_accumulator) : res usage_accumulator :=
  if last_ordinal a =? ordinal then Ok a else
  _ ← rl_assert (last_ordinal a <? ordinal) "new ordinal cannot be less than the previous ordinal";
  v ← (if ordinal <? last_ordinal a + window_size
       then ratio_mul (value_ex a) (mkRatio (window_size - (ordinal - last_ordinal a)) window_size)
       else Ok 0);
  let a := a <| value_ex := v |> <| last_ordinal := ordinal |> in
  Ok (a <| consumed := average a |>).

Definition usage_add (units ordinal window_size : Z) (a : usage_accumulator) : res usage_accumulator :=
  _ ← rl_assert (units <=? max_raw_value) "Usage exceeds maximum value representable after extending for precision";
  _ ← rl_assert (units <=? uint64_max - consumed a) "Overflow in tracked usage when adding usage!";
  contrib ← downgrade_cast uint64_max (integer_divide_ceil (units * rate_limiting_precision) window_size);
  _ ← rl_assert (contrib <=? uint64_max - value_ex a) "Overflow in accumulated value when adding usage!";
  a ← next_period ordinal window_size a;
  Ok (a <| consumed := u64 (consumed a + units) |> <| value_ex := u64 (value_ex a + contrib) |>).

(** ** State *)

Record elastic_limit_parameters := mkElastic {
  target : Z; el_max : Z; periods : Z; max_multiplier : Z; contract_rate : ratio; expand_rate : ratio
}.

Record resource_limits_object := mkLimits { net_weight : Z; cpu_weight : Z; ram_bytes : Z }.
Definition limits0 : resource_limits_object := mkLimits (-1) (-1) (-1).

Record resource_usage_object := mkUsage { net_usage : usage_accumulator; cpu_usage : usage_accumulator; ram_usage : Z }.
#[export] Instance eta_resource_usage : Eta resource_usage_object := fun u => mkUsage (net_usage u) (cpu_usage u) (ram_usage u).
Definition accumulator0 : usage_accumulator := mkUsageAcc 0 0 0.
Definition usage0 : resource_usage_object := mkUsage accumulator0 accumulator0 0.

Record resource_limits_config_object := mkRlConfig {
  cpu_limit_parameters : elastic_limit_parameters;
  net_limit_parameters : elastic_limit_parameters;
  account_cpu_usage_average_window : Z;
  account_net_usage_average_window : Z
}.
#[export] Instance eta_rl_config : Eta resource_limits_config_object := fun c =>
  mkRlConfig (cpu_limit_parameters c) (net_limit_parameters c) (account_cpu_usage_average_window c) (account_net_usage_average_window c).

(** The default of [EOS_PERCENT(max, 10%)] as the target. *)
Definition config_default : resource_limits_config_object :=
  mkRlConfig
    (mkElastic (default_max_block_cpu_usage * 1000 / 10000) default_max_block_cpu_usage
       (block_cpu_usage_average_window_ms / block_interval_ms) 1000 (mkRatio 99 100) (mkRatio 1000 999))
    (mkElastic (default_max_block_net_usage * 1000 / 10000) default_max_block_net_usage
       (block_size_average_window_ms / block_interval_ms) 1000 (mkRatio 99 100) (mkRatio 1000 999))
    (account_cpu_usage_average_window_ms / block_interval_ms)
    (account_net_usage_average_window_ms / block_interval_ms).

Record resource_limits_state_object := mkRlState {
  average_block_net_usage : usage_accumulator;
  average_block_cpu_usage : usage_accumulator;
  pending_net_usage : Z;
  pending_cpu_usage : Z;
  total_net_weight : Z;
  total_cpu_weight : Z;
  total_ram_bytes : Z;
  virtual_net_limit : Z;
  virtual_cpu_limit : Z
}.
#[export] Instance eta_rl_state : Eta resource_limits_state_object := fun s =>
  mkRlState (average_block_net_usage s) (average_block_cpu_usage s) (pending_net_usage s) (pending_cpu_usage s)
    (total_net_weight s) (total_cpu_weight s) (total_ram_bytes s) (virtual_net_limit s) (virtual_cpu_limit s).

(** The tables of the manager; limits are kept by pending flag and owner. *)
Record resource_limits_manager := mkResources {
  rl_limits : gmap (bool * name) resource_limits_object;
  rl_usage : gmap name resource_usage_object;
  rl_config : resource_limits_config_object;
  rl_state : resource_limits_state_object
}.
#[export] Instance eta_resources : Eta resource_limits_manager := fun r =>
  mkResources (rl_limits r) (rl_usage r) (rl_config r) (rl_state r).

Definition resources_init : resource_limits_manager :=
  mkResources ∅ ∅ config_default
    (mkRlState accumulator0 accumulator0 0 0 0 0 0 (el_max (net_limit_parameters config_default)) (el_max (cpu_limit_parameters config_default))).

Definition rl_get {A} (o : option A) : res A := match o with Some a => Ok a | None => rl_fail "unknown key" end.

(** ** Blocks *)

Definition update_elastic_limit (current_limit average_usage : Z) (params : elastic_limit_parameters) : res Z :=
  result ← ratio_mul current_limit (if target params <? average_usage then contract_rate params else expand_rate params);
  Ok (Z.min (Z.max result (el_max params)) (u64 (el_max params * max_multiplier params))).

Definition elastic_validate (p : elastic_limit_parameters) : res unit :=
  _ ← rl_assert (0 <? periods p) "elastic limit parameter 'periods' cannot be zero";
  _ ← rl_assert (0 <? denominator (contract_rate p)) "elastic limit parameter 'contract_rate' is not a well-defined ratio";
  rl_assert (0 <? denominator (expand_rate p)) "elastic limit parameter 'expand_rate' is not a well-defined ratio".

Definition set_block_parameters (cpu net : elastic_limit_parameters) (r : resource_limits_manager) : res resource_limits_manager :=
  _ ← elastic_validate cpu;
  _ ← elastic_validate net;
  Ok (r <| rl_config := (rl_config r) <| cpu_limit_parameters := cpu |> <| net_limit_parameters := net |> |>).

Definition update_virtual_cpu_limit (cfg : resource_limits_config_object) (s : resource_limits_state_object) : res resource_limits_state_object :=
  v ← update_elastic_limit (virtual_cpu_limit s) (average (average_block_cpu_usage s)) (cpu_limit_parameters cfg);
  Ok (s <| virtual_cpu_limit := v |>).

Definition update_virtual_net_limit (cfg : resource_limits_config_object) (s : resource_limits_state_object) : res resource_limits_state_object :=
  v ← update_elastic_limit (virtual_net_limit s) (average (average_block_net_usage s)) (net_limit_parameters cfg);
  Ok (s <| virtual_net_limit := v |>).

Definition process_block_usage (block_num : Z) (r : resource_limits_manager) : res resource_limits_manager :=
  let cfg := rl_config r in
  let s := rl_state r in
  cpu ← usage_add (pending_cpu_usage s) block_num (periods (cpu_limit_parameters cfg)) (average_block_cpu_usage s);
  s ← update_virtual_cpu_limit cfg (s <| average_block_cpu_usage := cpu |>);
  let s := s <| pending_cpu_usage := 0 |> in
  net ← usage_add (pending_net_usage s) block_num (periods (net_limit_parameters cfg)) (average_block_net_usage s);
  s ← update_virtual_net_limit cfg (s <| average_block_net_usage := net |>);
  Ok (r <| rl_state := s <| pending_net_usage := 0 |> |>).

Definition get_block_cpu_limit (r : resource_limits_manager) : Z :=
  u64 (el_max (cpu_limit_parameters (rl_config r)) - pending_cpu_usage (rl_state r)).
Definition get_block_net_limit (r : resource_limits_manager) : Z :=
  u64 (el_max (net_limit_parameters (rl_config r)) - pending_net_usage (rl_state r)).

(** ** Accounts *)

Definition initialize_account (account : name) (r : resource_limits_manager) : res resource_limits_manager :=
  match rl_limits r !! (false, account), rl_usage r !! account with
  | None, None => Ok (r <| rl_limits := <[(false, account) := limits0]> (rl_limits r) |> <| rl_usage := <[account := usage0]> (rl_usage r) |>)
  | _, _ => rl_fail "could not insert object, most likely a uniqueness constraint was violated"
  end.

Definition get_account_limits (account : name) (r : resource_limits_manager) : res resource_limits_object :=
  match rl_limits r !! (true, account) with
  | Some l => Ok l
  | None => rl_get (rl_limits r !! (false, account))
  end.

Definition add_pending_ram_usage (account : name) (ram_delta : Z) (r : resource_limits_manager) : res resource_limits_manager :=
  if ram_delta =? 0 then Ok r else
  usage ← rl_get (rl_usage r !! account);
  _ ← rl_assert ((ram_delta <=? 0) || (ram_delta <=? uint64_max - ram_usage usage)) "Ram usage delta would overflow UINT64_MAX";
  _ ← rl_assert ((0 <=? ram_delta) || (- ram_delta <=? ram_usage usage)) "Ram usage delta would underflow UINT64_MAX";
  Ok (r <| rl_usage := <[account := usage <| ram_usage := u64 (ram_usage usage + ram_delta) |>]> (rl_usage r) |>).

Definition verify_account_ram_usage (account : name) (r : resource_limits_manager) : res unit :=
  l ← get_account_limits account r;
  usage ← rl_get (rl_usage r !! account);
  if 0 <=? ram_bytes l then rl_assert (ram_usage usage <=? ram_bytes l) "account has insufficient ram" else Ok tt.

(** Returns whether the RAM limit became more restrictive. *)
Definition set_account_limits (account : name) (ram net cpu : Z) (r : resource_limits_manager) : res (bool * resource_limits_manager) :=
  limits ← get_account_limits account r;
  let decreased_limit := (0 <=? ram) && ((ram_bytes limits <? 0) || (ram <? ram_bytes limits)) in
  Ok (decreased_limit, r <| rl_limits := <[(true, account) := mkLimits net cpu ram]> (rl_limits r) |>).

(** The lambda [update_state_and_value] on a total. *)
Definition update_total (total value pending_value : Z) : res Z :=
  total ← (if 0 <? value then
             _ ← rl_assert (value <=? total) "underflow when reverting old value";
             Ok (total - value)
           else Ok total);
  if 0 <? pending_value then
    _ ← rl_assert (pending_value <=? uint64_max - total) "overflow when applying new value";
    Ok (total + pending_value)
  else Ok total.

(** The first owner with a pending change. *)
Definition pending_owners (r : resource_limits_manager) : list name :=
  map snd (filter (fun k => k.1 = true) (map fst (map_to_list (rl_limits r)))).
Definition first_pending (r : resource_limits_manager) : option name :=
  match pending_owners r with [] => None | o :: l => Some (foldr Z.min o l) end.

(** One turn of the loop, for the owner of the first pending entry. *)
Definition apply_pending (owner : name) (r : resource_limits_manager) : res resource_limits_manager :=
  pending ← rl_get (rl_limits r !! (true, owner));
  actual ← rl_get (rl_limits r !! (false, owner));
  let s := rl_state r in
  ram ← update_total (total_ram_bytes s) (ram_bytes actual) (ram_bytes pending);
  cpu ← update_total (total_cpu_weight s) (cpu_weight actual) (cpu_weight pending);
  net ← update_total (total_net_weight s) (net_weight actual) (net_weight pending);
  Ok (r <| rl_state := s <| total_ram_bytes := ram |> <| total_cpu_weight := cpu |> <| total_net_weight := net |> |>
        <| rl_limits := delete (true, owner) (<[(false, owner) := pending]> (rl_limits r)) |>).

(** The loop; every turn removes a pending entry. *)
Fixpoint apply_all_pending (fuel : nat) (r : resource_limits_manager) : res resource_limits_manager :=
  match first_pending r, fuel with
  | None, _ => Ok r
  | Some _, O => rl_fail "out of fuel"
  | Some owner, S fuel' => r ← apply_pending owner r; apply_all_pending fuel' r
  end.

Definition process_account_limit_updates (r : resource_limits_manager) : res resource_limits_manager :=
  apply_all_pending (size (rl_limits r)) r.

(** ** Bandwidth *)

Definition update_usage (account : name) (cpu net time_slot : Z) (r : resource_limits_manager) : res resource_limits_manager :=
  usage ← rl_get (rl_usage r !! account);
  n ← usage_add net time_slot (account_net_usage_average_window (rl_config r)) (net_usage usage);
  c ← usage_add cpu time_slot (account_cpu_usage_average_window (rl_config r)) (cpu_usage usage);
  Ok (r <| rl_usage := <[account := usage <| net_usage := n |> <| cpu_usage := c |>]> (rl_usage r) |>).

Fixpoint update_account_usage (accounts : list name) (time_slot : Z) (r : resource_limits_manager) : res resource_limits_manager :=
  match accounts with
  | [] => Ok r
  | a :: l => r ← update_usage a 0 0 time_slot r; update_account_usage l time_slot r
  end.

Definition u128 (z : Z) : Z := z mod 2^128.

(** The share of an account in the virtual capacity of its window. *)
Definition max_use_in_window (virtual_limit window weight total_weight : Z) : Z :=
  u128 (u128 (virtual_limit * window) * weight) / total_weight.

Definition check_bandwidth (weight total_weight virtual_limit window used : Z) (msg : string) : res unit :=
  if (0 <=? weight) && (0 <? total_weight) then
    rl_assert (u128 (used * window) / rate_limiting_precision <=? max_use_in_window virtual_limit window weight total_weight) msg
  else Ok tt.

Definition charge_account (account : name) (cpu net time_slot : Z) (r : resource_limits_manager) : res resource_limits_manager :=
  l ← get_account_limits account r;
  r ← update_usage account cpu net time_slot r;
  usage ← rl_get (rl_usage r !! account);
  let s := rl_state r in
  _ ← check_bandwidth (cpu_weight l) (total_cpu_weight s) (virtual_cpu_limit s) (account_cpu_usage_average_window (rl_config r))
        (value_ex (cpu_usage usage)) "authorizing account has insufficient cpu resources for this transaction";
  _ ← check_bandwidth (net_weight l) (total_net_weight s) (virtual_net_limit s) (account_net_usage_average_window (rl_config r))
        (value_ex (net_usage usage)) "authorizing account has insufficient net resources for this transaction";
  Ok r.

Fixpoint charge_accounts (accounts : list name) (cpu net time_slot : Z) (r : resource_limits_manager) : res resource_limits_manager :=
  match accounts with
  | [] => Ok r
  | a :: l => r ← charge_account a cpu net time_slot r; charge_accounts l cpu net time_slot r
  end.

Definition add_transaction_usage (accounts : list name) (cpu net time_slot : Z) (r : resource_limits_manager) : res resource_limits_manager :=
  r ← charge_accounts accounts cpu net time_slot r;
  let s := (rl_state r) <| pending_cpu_usage := u64 (pending_cpu_usage (rl_state r) + cpu) |>
                        <| pending_net_usage := u64 (pending_net_usage (rl_state r) + net) |> in
  _ ← rl_assert (pending_cpu_usage s <=? el_max (cpu_limit_parameters (rl_config r))) "Block has insufficient cpu resources";
  _ ← rl_assert (pending_net_usage s <=? el_max (net_limit_parameters (rl_config r))) "Block has insufficient net resources";
  Ok (r <| rl_state := s |>).

Record account_resource_limit := mkAccountLimit { arl_used : Z; arl_available : Z; arl_max : Z }.

(** The common part of [get_account_cpu_limit_ex] and [get_account_net_limit_ex]. *)
Definition account_limit (weight total_weight limit window used : Z) : res account_resource_limit :=
  if (weight <? 0) || (total_weight =? 0) then Ok (mkAccountLimit (-1) (-1) (-1)) else
  let max_user_use_in_window := max_use_in_window limit window weight total_weight in
  let used_in_window := integer_divide_ceil (u128 (used * window)) rate_limiting_precision in
  available ← (if max_user_use_in_window <=? used_in_window then Ok 0
               else downgrade_cast (2^63 - 1) (max_user_use_in_window - used_in_window));
  u ← downgrade_cast (2^63 - 1) used_in_window;
  m ← downgrade_cast (2^63 - 1) max_user_use_in_window;
  Ok (mkAccountLimit u available m).

Definition get_account_cpu_limit_ex (account : name) (elastic : bool) (r : resource_limits_manager) : res account_resource_limit :=
  usage ← rl_get (rl_usage r !! account);
  l ← get_account_limits account r;
  account_limit (cpu_weight l) (total_cpu_weight (rl_state r))
    (if elastic then virtual_cpu_limit (rl_state r) else el_max (cpu_limit_parameters (rl_config r)))
    (account_cpu_usage_average_window (rl_config r)) (value_ex (cpu_usage usage)).

Definition get_account_net_limit_ex (account : name) (elastic : bool) (r : resource_limits_manager) : res account_resource_limit :=
  usage ← rl_get (rl_usage r !! account);
  l ← get_account_limits account r;
  account_limit (net_weight l) (total_net_weight (rl_state r))
    (if elastic then virtual_net_limit (rl_state r) else el_max (net_limit_parameters (rl_config r)))
    (account_net_usage_average_window (rl_config r)) (value_ex (net_usage usage)).

(** ** Averages stay bounded *)

Lemma rl_assert_true b msg : b = true -> rl_assert b msg = Ok tt.
Proof. by intros ->. Qed.

Lemma rl_assert_Ok b msg u : rl_assert b msg = Ok u -> b = true.
Proof. unfold rl_assert. by destruct b. Qed.

Lemma divide_ceil_bounds num den : 0 < den -> 0 <= num ->
  num <= integer_divide_ceil num den * den < num + den.
Proof.
  intros Hd Hn. unfold integer_divide_ceil. pose proof (Z.div_mod num den ltac:(lia)). pose proof (Z.mod_pos_bound num den Hd).
  destruct (Z.ltb_spec 0 (num mod den)); nia.
Qed.

Lemma divide_ceil_le num den : 0 < den -> 0 <= num -> 0 <= integer_divide_ceil num den <= num + 1.
Proof. intros Hd Hn. pose proof (divide_ceil_bounds num den Hd Hn). nia. Qed.

Lemma ratio_mul_ok v r : 0 <= v -> 0 <= numerator r -> v * numerator r < 2^64 -> 0 < denominator r ->
  ratio_mul v r = Ok (v * numerator r / denominator r).
Proof.
  intros Hv Hn Hb Hd. unfold ratio_mul, u64_div. rewrite (u64_id (v * numerator r)) by (unfold is_u64; nia).
  rewrite (proj2 (Z.eqb_neq (denominator r) 0)) by lia. destruct (Z.eqb_spec (numerator r) 0); [done|].
  rewrite rl_assert_true; [done|]. apply Z.leb_le, Z.div_le_lower_bound; [lia|]. unfold uint64_max. lia.
Qed.

Lemma max_raw_value_ge : 2^40 <= max_raw_value.
Proof. vm_compute. discriminate. Qed.

(** An average over a window [w] of at most [u] units in each period. *)
Definition usage_ok (u w : Z) (a : usage_accumulator) : Prop :=
  0 <= value_ex a <= u * rate_limiting_precision + w /\ 0 <= consumed a <= 2 * u + w + 1.

Definition window_ok (u w : Z) : Prop := 0 <= u < 2^40 /\ 0 < w /\ (u * rate_limiting_precision + w) * w < 2^64.

Lemma average_bound u w a : 0 < w -> usage_ok u w a -> 0 <= average a <= u + w.
Proof.
  intros Hw [[H1 H2] _]. unfold average. pose proof (divide_ceil_bounds (value_ex a) rate_limiting_precision ltac:(done) H1).
  unfold rate_limiting_precision in *. nia.
Qed.

Lemma next_period_ok u w ordinal a : window_ok u w -> usage_ok u w a -> last_ordinal a < ordinal ->
  exists v, next_period ordinal w a = Ok (mkUsageAcc ordinal v (average (mkUsageAcc ordinal v (consumed a)))) /\
    0 <= v /\ v * w <= value_ex a * (w - 1).
Proof.
  intros (Hu & Hw & Hb) [[H1 H2] _] Hl. unfold next_period. rewrite (proj2 (Z.eqb_neq _ _)) by lia.
  rewrite rl_assert_true by (by apply Z.ltb_lt). cbn [mbind res_bind]. destruct (Z.ltb_spec ordinal (last_ordinal a + w)) as [Hlt|].
  - rewrite ratio_mul_ok; cbn [numerator denominator]; [|lia|lia|nia|lia]. cbn. eexists. split; [done|].
    split; [apply Z.div_pos; nia|].
    pose proof (Z.mul_div_le (value_ex a * (w - (ordinal - last_ordinal a))) w Hw). nia.
  - cbn. exists 0. split; [done|]. nia.
Qed.

(** One more period with at most [u] units keeps the bound. *)
Lemma usage_add_ok u w units ordinal a : window_ok u w -> usage_ok u w a -> last_ordinal a < ordinal -> 0 <= units <= u ->
  exists a', usage_add units ordinal w a = Ok a' /\ usage_ok u w a' /\ last_ordinal a' = ordinal.
Proof.
  intros Hwin Hok Hl Hun. pose proof Hwin as (Hu & Hw & Hb). pose proof Hok as [[Hv1 Hv2] Hc].
  assert (Hw32 : w < 2^32) by (clear -Hu Hw Hb; unfold rate_limiting_precision in Hb; nia).
  assert (Hup : 0 <= units * rate_limiting_precision <= u * rate_limiting_precision) by (unfold rate_limiting_precision; lia).
  pose proof (divide_ceil_bounds (units * rate_limiting_precision) w Hw (proj1 Hup)) as Hd.
  pose proof (divide_ceil_le (units * rate_limiting_precision) w Hw (proj1 Hup)) as Hcb.
  unfold usage_add. rewrite (rl_assert_true (units <=? max_raw_value)) by (apply Z.leb_le; pose proof max_raw_value_ge; lia).
  rewrite (rl_assert_true (units <=? _)) by (apply Z.leb_le; unfold uint64_max; lia). cbn [mbind res_bind].
  set (contrib := integer_divide_ceil _ _) in *.
  unfold downgrade_cast. rewrite (rl_assert_true (_ && _)) by (apply andb_true_iff; rewrite !Z.leb_le; unfold uint64_max, rate_limiting_precision in *; lia).
  cbn [mbind res_bind]. rewrite rl_assert_true by (apply Z.leb_le; unfold uint64_max, rate_limiting_precision in *; lia). cbn [mbind res_bind].
  destruct (next_period_ok u w ordinal a Hwin Hok Hl) as (v & -> & Hv0 & Hvw). cbn [mbind res_bind].
  set (a1 := mkUsageAcc ordinal v _) in *. assert (Hv : v + contrib <= u * rate_limiting_precision + w) by (clear -Hup Hd Hvw Hv2 Hw; nia).
  assert (Ha : 0 <= average (mkUsageAcc ordinal v (consumed a)) <= u + w).
  { apply (average_bound u w); [done|]. split; cbn; [lia|]. lia. }
  eexists. split; [done|]. cbn. rewrite !u64_id by (unfold is_u64, rate_limiting_precision in *; lia).
  split; [|done]. split; cbn; lia.
Qed.

(** ** Elastic limits *)

(** What the parameters of blocks stay within, while the producers change them: the
    maximum of a block between [bb_lo] and [bb_hi], the window, the multiplier. *)
Record block_bounds := mkBounds { bb_lo : Z; bb_hi : Z; bb_window : Z; bb_mult : Z }.

Record params_ok (b : block_bounds) (p : elastic_limit_parameters) : Prop := {
  po_range : 0 <= bb_lo b <= el_max p /\ el_max p <= bb_hi b;
  po_window : window_ok (bb_hi b) (bb_window b) /\ periods p = bb_window b;
  po_mult : 1 <= bb_mult b /\ max_multiplier p = bb_mult b;
  po_contract : 0 <= numerator (contract_rate p) /\ 0 < denominator (contract_rate p) /\
    bb_hi b * bb_mult b * numerator (contract_rate p) < 2^64;
  po_expand : 0 < numerator (expand_rate p) /\ 0 < denominator (expand_rate p) /\
    bb_hi b * bb_mult b * numerator (expand_rate p) < 2^64
}.

Definition limit_ok (b : block_bounds) (v : Z) : Prop := bb_lo b <= v <= bb_hi b * bb_mult b.

Lemma update_elastic_ok b p cur avg : params_ok b p -> limit_ok b cur ->
  exists v, update_elastic_limit cur avg p = Ok v /\ limit_ok b v /\ el_max p <= v <= el_max p * max_multiplier p.
Proof.
  intros [[Hr1 Hr2] [Hw _] [Hmu Em] (Hc1 & Hc2 & Hc3) (He1 & He2 & He3)] [Hl1 Hl2]. unfold update_elastic_limit. rewrite Em.
  assert (Hmm : 0 <= el_max p * bb_mult b <= bb_hi b * bb_mult b) by nia. assert (bb_hi b * bb_mult b < 2^64) by nia.
  rewrite ratio_mul_ok; [|lia|destruct (_ <? _); lia|destruct (_ <? _); nia|destruct (_ <? _); lia].
  cbn. eexists. split; [done|]. rewrite u64_id by (unfold is_u64; lia). unfold limit_ok. assert (el_max p <= el_max p * bb_mult b) by nia. lia.
Qed.

(** ** Blocks *)

(** The averages, the limits and the pending usage of the blocks so far, the
    last of which had the number [n]. *)
Record blocks_ok (bc bn : block_bounds) (n : Z) (r : resource_limits_manager) : Prop := {
  bk_cpu_params : params_ok bc (cpu_limit_parameters (rl_config r));
  bk_net_params : params_ok bn (net_limit_parameters (rl_config r));
  bk_cpu : let s := rl_state r in
    usage_ok (bb_hi bc) (bb_window bc) (average_block_cpu_usage s) /\ last_ordinal (average_block_cpu_usage s) = n /\
    0 <= pending_cpu_usage s <= bb_hi bc /\ limit_ok bc (virtual_cpu_limit s);
  bk_net : let s := rl_state r in
    usage_ok (bb_hi bn) (bb_window bn) (average_block_net_usage s) /\ last_ordinal (average_block_net_usage s) = n /\
    0 <= pending_net_usage s <= bb_hi bn /\ limit_ok bn (virtual_net_limit s)
}.

(** The virtual limits are between the maximum of a block and its multiple. *)
Definition limits_fresh (r : resource_limits_manager) : Prop :=
  let c := cpu_limit_parameters (rl_config r) in let n := net_limit_parameters (rl_config r) in
  el_max c <= virtual_cpu_limit (rl_state r) <= el_max c * max_multiplier c /\ el_max n <= virtual_net_limit (rl_state r) <= el_max n * max_multiplier n.

Lemma process_block_ok bc bn n n' r : blocks_ok bc bn n r -> n < n' ->
  exists r', process_block_usage n' r = Ok r' /\ blocks_ok bc bn n' r' /\ rl_limits r' = rl_limits r /\ rl_config r' = rl_config r /\
    pending_cpu_usage (rl_state r') = 0 /\ pending_net_usage (rl_state r') = 0 /\
    total_ram_bytes (rl_state r') = total_ram_bytes (rl_state r) /\ total_cpu_weight (rl_state r') = total_cpu_weight (rl_state r) /\
    total_net_weight (rl_state r') = total_net_weight (rl_state r) /\ limits_fresh r'.
Proof.
  intros [Pc Pn (Hc1 & Hc2 & Hc3 & Hc4) (Hn1 & Hn2 & Hn3 & Hn4)] Hlt. unfold process_block_usage.
  destruct (po_window _ _ Pc) as [Wc ->], (po_window _ _ Pn) as [Wn ->].
  destruct (usage_add_ok _ _ (pending_cpu_usage (rl_state r)) n' _ Wc Hc1) as (ac & -> & Ac1 & Ac2); [lia|done|].
  cbn [mbind res_bind]. unfold update_virtual_cpu_limit. cbn [virtual_cpu_limit average_block_cpu_usage setf].
  destruct (update_elastic_ok _ _ _ (average ac) Pc Hc4) as (vc & Ec & Vc & Fc).
  change (virtual_cpu_limit ((rl_state r) <| average_block_cpu_usage := ac |>)) with (virtual_cpu_limit (rl_state r)).
  change (average_block_cpu_usage ((rl_state r) <| average_block_cpu_usage := ac |>)) with ac. rewrite Ec. cbn [mbind res_bind].
  destruct (usage_add_ok _ _ (pending_net_usage (rl_state r)) n' _ Wn Hn1) as (an & En & An1 & An2); [lia|done|].
  destruct (update_elastic_ok _ _ _ (average an) Pn Hn4) as (vn & Ev & Vn & Fn).
  cbn. rewrite En. cbn. unfold update_virtual_net_limit. cbn. rewrite Ev. cbn. eexists. split; [done|].
  split; [|done]. split; cbn; [done|done| |]; (split; [done|]); (split; [done|]); (split; [lia|done]).
Qed.

(** ** Totals *)

Definition weight_of (f : resource_limits_object -> Z) (pending : bool) (r : resource_limits_manager) : Z :=
  map_sum (fun k l => if Bool.eqb k.1 pending then Z.max 0 (f l) else 0) (rl_limits r).

(** The totals are the sums of the limits in force, and a pending change
    belongs to an account. *)
Record totals_ok (r : resource_limits_manager) : Prop := {
  to_ram : total_ram_bytes (rl_state r) = weight_of ram_bytes false r;
  to_cpu : total_cpu_weight (rl_state r) = weight_of cpu_weight false r;
  to_net : total_net_weight (rl_state r) = weight_of net_weight false r;
  to_pending a : is_Some (rl_limits r !! (true, a)) -> is_Some (rl_limits r !! (false, a))
}.

Lemma weight_nonneg f b r : 0 <= weight_of f b r.
Proof. apply map_sum_nonneg. intros k v _. destruct (Bool.eqb _ _); lia. Qed.

Lemma update_total_val total value pending t :
  update_total total value pending = Ok t -> t = total - Z.max 0 value + Z.max 0 pending.
Proof.
  unfold update_total, rl_assert. destruct (Z.ltb_spec 0 value); [destruct (value <=? total); [|done]|]; cbn [mbind res_bind];
    (destruct (Z.ltb_spec 0 pending); [destruct (_ <=? _); [|done]|]; cbn [mbind res_bind]; intros [= <-]; lia).
Qed.

Lemma update_total_runs total value pending rest :
  total = Z.max 0 value + rest -> 0 <= rest -> total + Z.max 0 pending < 2^64 -> is_ok (update_total total value pending) = true.
Proof.
  intros Ht Hr Hb. unfold update_total. destruct (Z.ltb_spec 0 value); [rewrite rl_assert_true by (apply Z.leb_le; lia)|];
    cbn [mbind res_bind]; (destruct (Z.ltb_spec 0 pending); [rewrite rl_assert_true by (apply Z.leb_le; unfold uint64_max; lia)|]; done).
Qed.

(** Applying the pending limits [p] of an owner with limits [l]. *)
Section one.
Context (r : resource_limits_manager) (o : name) (p l : resource_limits_object).
Context (Hp : rl_limits r !! (true, o) = Some p) (Hl : rl_limits r !! (false, o) = Some l).
Let m' := delete (true, o) (<[(false, o) := p]> (rl_limits r)).

Lemma applied_sum (h : bool * name -> resource_limits_object -> Z) :
  map_sum h m' = map_sum h (rl_limits r) - h (false, o) l + h (false, o) p - h (true, o) p.
Proof using Hp Hl.
  unfold m'. rewrite (map_sum_delete _ _ _ p) by (by rewrite lookup_insert_ne by done). rewrite (map_sum_insert _ _ _ l) by done. lia.
Qed.

Lemma sum_rest f : exists rest, weight_of f false r = Z.max 0 (f l) + rest /\ 0 <= rest.
Proof using Hl.
  exists (map_sum (fun k x => if Bool.eqb k.1 false then Z.max 0 (f x) else 0) (delete (false, o) (rl_limits r))).
  split; [unfold weight_of; rewrite (map_sum_delete _ _ _ l) by done; cbn; lia|].
  apply map_sum_nonneg. intros k v _. destruct (Bool.eqb _ _); lia.
Qed.
End one.

(** What a turn of the loop does when it succeeds. *)
Lemma apply_pending_effect r o r' : totals_ok r -> apply_pending o r = Ok r' ->
  totals_ok r' /\ (forall f, weight_of f false r' + weight_of f true r' <= weight_of f false r + weight_of f true r) /\
  (forall a, get_account_limits a r' = get_account_limits a r) /\ size (rl_limits r') = pred (size (rl_limits r)) /\
  rl_usage r' = rl_usage r /\ rl_config r' = rl_config r /\ (forall bc bn n, blocks_ok bc bn n r -> blocks_ok bc bn n r').
Proof.
  intros [T1 T2 T3 T4] H. unfold apply_pending in H.
  destruct (rl_limits r !! (true, o)) as [p|] eqn:Hp; [|done]. destruct (rl_limits r !! (false, o)) as [l|] eqn:Hl; [|done]. cbn [rl_get mbind res_bind] in H.
  apply res_bind_ok in H as (t1 & E1%update_total_val & H). apply res_bind_ok in H as (t2 & E2%update_total_val & H).
  apply res_bind_ok in H as (t3 & E3%update_total_val & H). injection H as H.
  assert (EL : rl_limits r' = delete (true, o) (<[(false, o) := p]> (rl_limits r))) by (by subst r').
  assert (Hf : forall f, weight_of f false r' = weight_of f false r - Z.max 0 (f l) + Z.max 0 (f p) /\
    weight_of f true r' = weight_of f true r - Z.max 0 (f p)).
  { intros f. unfold weight_of. rewrite EL, !(applied_sum r o p l Hp Hl). cbn. lia. }
  split; [|split; [|split; [|split; [|subst r'; split; [done|split; [done|]]]]]].
  - split; [rewrite (proj1 (Hf _))..|]; [subst r'; cbn; lia..|].
    intros a. rewrite EL, !lookup_delete, !lookup_insert. repeat case_decide; simplify_eq; eauto.
  - intros f. rewrite (proj1 (Hf f)), (proj2 (Hf f)). lia.
  - intros a. unfold get_account_limits. rewrite EL, !lookup_delete, !lookup_insert. repeat case_decide; simplify_eq; try done. by rewrite Hp.
  - rewrite EL, map_size_delete, lookup_insert_ne by done. rewrite Hp, map_size_insert_Some by (by eexists). done.
  - intros bc bn n [B1 B2 B3 B4]. split; done.
Qed.

Lemma apply_pending_runs r o : totals_ok r -> is_Some (rl_limits r !! (true, o)) ->
  (forall f, f ∈ [ram_bytes; cpu_weight; net_weight] -> weight_of f false r + weight_of f true r < 2^64) ->
  exists r', apply_pending o r = Ok r'.
Proof.
  intros [T1 T2 T3 T4] [p Hp] Hb. destruct (T4 o ltac:(by eexists)) as [l Hl].
  assert (Hpb : forall f, f ∈ [ram_bytes; cpu_weight; net_weight] -> weight_of f false r + Z.max 0 (f p) < 2^64).
  { intros f Hin. specialize (Hb f Hin). enough (Z.max 0 (f p) <= weight_of f true r) by lia.
    unfold weight_of. rewrite <- (map_sum_elem_le _ (rl_limits r) (true, o) p); [cbn; lia| |done]. intros k v _. destruct (Bool.eqb _ _); lia. }
  unfold apply_pending. rewrite Hp, Hl. cbn [rl_get mbind res_bind].
  destruct (sum_rest r o l Hl ram_bytes) as (q1 & Q1 & ?), (sum_rest r o l Hl cpu_weight) as (q2 & Q2 & ?), (sum_rest r o l Hl net_weight) as (q3 & Q3 & ?).
  pose proof (update_total_runs _ (ram_bytes l) (ram_bytes p) q1 Q1 ltac:(done) (Hpb ram_bytes ltac:(set_solver))) as U1.
  pose proof (update_total_runs _ (cpu_weight l) (cpu_weight p) q2 Q2 ltac:(done) (Hpb cpu_weight ltac:(set_solver))) as U2.
  pose proof (update_total_runs _ (net_weight l) (net_weight p) q3 Q3 ltac:(done) (Hpb net_weight ltac:(set_solver))) as U3.
  rewrite T1, T2, T3. repeat (destruct (update_total _ _ _); [cbn [mbind res_bind]|done]). by eexists.
Qed.

Lemma first_pending_None r : first_pending r = None -> forall a, rl_limits r !! (true, a) = None.
Proof.
  unfold first_pending, pending_owners. intros H a. destruct (map snd _) eqn:E; [|done].
  destruct (rl_limits r !! (true, a)) as [l|] eqn:El; [|done]. exfalso.
  assert (Hin : a ∈ map snd (filter (fun k => k.1 = true) (map fst (map_to_list (rl_limits r))))); [|rewrite E in Hin; by apply elem_of_nil in Hin].
  apply list_elem_of_fmap. exists (true, a). split; [done|]. apply list_elem_of_filter. split; [done|].
  apply list_elem_of_fmap. exists ((true, a), l). split; [done|]. by apply elem_of_map_to_list.
Qed.

Lemma first_pending_Some r o : first_pending r = Some o -> is_Some (rl_limits r !! (true, o)).
Proof.
  unfold first_pending. destruct (pending_owners r) as [|x l] eqn:E; [done|]. intros [= <-].
  assert (Hin : foldr Z.min x l ∈ x :: l).
  { clear. induction l as [|y l IH]; cbn; [by left|]. destruct (Z.min_spec y (foldr Z.min x l)) as [[_ ->]|[_ ->]]; [right; by left|].
    apply elem_of_cons in IH as [->|?]; [by left|right; by right]. }
  rewrite <- E in Hin. unfold pending_owners in Hin. apply list_elem_of_fmap in Hin as ([b o] & Eo & Hin).
  apply list_elem_of_filter in Hin as [Hb Hin]. apply list_elem_of_fmap in Hin as ([k v] & Ek & Hin).
  apply elem_of_map_to_list in Hin. cbn in *. subst. by eexists.
Qed.

Lemma apply_all_effect fuel : forall r r', totals_ok r -> apply_all_pending fuel r = Ok r' ->
  totals_ok r' /\ (forall a, rl_limits r' !! (true, a) = None) /\ (forall a, get_account_limits a r' = get_account_limits a r) /\
  rl_usage r' = rl_usage r /\ rl_config r' = rl_config r /\ (forall bc bn n, blocks_ok bc bn n r -> blocks_ok bc bn n r').
Proof.
  induction fuel as [|fuel IH]; intros r r' HT H; cbn [apply_all_pending] in H; destruct (first_pending r) as [o|] eqn:E; try done;
    [injection H as <-; split; [done|]; split; [by apply first_pending_None|done]| |
     injection H as <-; split; [done|]; split; [by apply first_pending_None|done]].
  apply res_bind_ok in H as (r1 & H1 & H). apply apply_pending_effect in H1 as (HT1 & _ & Hg & _ & Hu & Hc & HB); [|done].
  destruct (IH _ _ HT1 H) as (HT' & Hn & Hg' & Hu' & Hc' & HB'). split; [done|]. split; [done|].
  split; [intros a; by rewrite Hg', Hg|]. split; [congruence|]. split; [congruence|auto].
Qed.

Lemma apply_all_runs fuel : forall r, totals_ok r -> (size (rl_limits r) <= fuel)%nat ->
  (forall f, f ∈ [ram_bytes; cpu_weight; net_weight] -> weight_of f false r + weight_of f true r < 2^64) ->
  exists r', apply_all_pending fuel r = Ok r'.
Proof.
  induction fuel as [|fuel IH]; intros r HT Hs Hb; cbn [apply_all_pending]; destruct (first_pending r) as [o|] eqn:E; [|by eexists| |by eexists].
  - apply first_pending_Some in E as [l Hl]. assert (size (rl_limits r) = 0%nat) as Hz by lia. apply map_size_empty_inv in Hz.
    by rewrite Hz, lookup_empty in Hl.
  - apply first_pending_Some in E. destruct (apply_pending_runs r o HT E Hb) as (r1 & H1). rewrite H1. cbn [mbind res_bind].
    apply apply_pending_effect in H1 as (HT1 & Hle & _ & Hsz & _); [|done]. apply IH; [done|lia|].
    intros f Hin. specialize (Hle f). specialize (Hb f Hin). lia.
Qed.

(** ** The manager as a whole *)

(** What the end of a block takes from the chain configuration. *)
Record block_config := mkBlockConfig {
  max_block_cpu_usage : Z; target_block_cpu_usage_pct : Z; max_block_net_usage : Z; target_block_net_usage_pct : Z
}.

Definition EOS_PERCENT (value percentage : Z) : Z := u64 (value * percentage) / 10000.

Definition cpu_parameters (c : block_config) : elastic_limit_parameters :=
  mkElastic (EOS_PERCENT (max_block_cpu_usage c) (target_block_cpu_usage_pct c)) (max_block_cpu_usage c)
    (block_cpu_usage_average_window_ms / block_interval_ms) 1000 (mkRatio 99 100) (mkRatio 1000 999).
Definition net_parameters (c : block_config) : elastic_limit_parameters :=
  mkElastic (EOS_PERCENT (max_block_net_usage c) (target_block_net_usage_pct c)) (max_block_net_usage c)
    (block_size_average_window_ms / block_interval_ms) 1000 (mkRatio 99 100) (mkRatio 1000 999).

(** [finalize_block]: the end of a block for the resource limits, with the configuration of the chain. *)
Definition finalize_resources (c : block_config) (block_num : Z) (r : resource_limits_manager) : res resource_limits_manager :=
  r ← process_account_limit_updates r;
  r ← set_block_parameters (cpu_parameters c) (net_parameters c) r;
  process_block_usage block_num r.

Inductive resource_op :=
| OInitialize (account : name)
| OSetLimits (account : name) (ram net cpu : Z)
| OAddRam (account : name) (delta : Z)
| OProcessLimits
| OUpdateUsage (accounts : list name) (time_slot : Z)
| OTransaction (accounts : list name) (cpu net time_slot : Z)
| OParameters (c : block_config)
| OBlock (block_num : Z).

Definition resource_apply (op : resource_op) (r : resource_limits_manager) : res resource_limits_manager :=
  match op with
  | OInitialize a => initialize_account a r
  | OSetLimits a ram net cpu => snd <$> set_account_limits a ram net cpu r
  | OAddRam a d => add_pending_ram_usage a d r
  | OProcessLimits => process_account_limit_updates r
  | OUpdateUsage l t => update_account_usage l t r
  | OTransaction l cpu net t => add_transaction_usage l cpu net t r
  | OParameters c => set_block_parameters (cpu_parameters c) (net_parameters c) r
  | OBlock n => process_block_usage n r
  end.

(** Blocks come in order. *)
Definition block_after (n : Z) (op : resource_op) : Z := match op with OBlock n' => n' | _ => n end.

(** The states the manager comes to while the chain has configurations that are [allowed]. *)
Inductive resource_reach (allowed : block_config -> Prop) : Z -> resource_limits_manager -> Prop :=
| rr_init : resource_reach allowed 0 resources_init
| rr_step n r op r' : resource_reach allowed n r -> match op with OBlock n' => n < n' | OParameters c => allowed c | _ => True end ->
    resource_apply op r = Ok r' -> resource_reach allowed (block_after n op) r'.

(** Everything but the tables of usage is kept. *)
Definition same_but_usage (r r' : resource_limits_manager) : Prop :=
  rl_limits r' = rl_limits r /\ rl_config r' = rl_config r /\ rl_state r' = rl_state r.

Lemma update_usage_same a cpu net t r r' : update_usage a cpu net t r = Ok r' -> same_but_usage r r'.
Proof.
  unfold update_usage. intros H. apply res_bind_ok in H as (u & _ & H). apply res_bind_ok in H as (n & _ & H).
  apply res_bind_ok in H as (c & _ & H). by injection H as <-.
Qed.

Lemma same_trans r1 r2 r3 : same_but_usage r1 r2 -> same_but_usage r2 r3 -> same_but_usage r1 r3.
Proof. intros (? & ? & ?) (? & ? & ?). repeat split; congruence. Qed.

Lemma update_account_usage_same l t : forall r r', update_account_usage l t r = Ok r' -> same_but_usage r r'.
Proof.
  induction l as [|a l IH]; intros r r' H; cbn in H; [by injection H as <-|].
  apply res_bind_ok in H as (r1 & H1%update_usage_same & H). eapply same_trans; [done|by apply IH].
Qed.

Lemma charge_accounts_same l cpu net t : forall r r', charge_accounts l cpu net t r = Ok r' -> same_but_usage r r'.
Proof.
  induction l as [|a l IH]; intros r r' H; cbn in H; [by injection H as <-|]. apply res_bind_ok in H as (r1 & H1 & H).
  eapply same_trans; [|by apply IH]. unfold charge_account in H1. apply res_bind_ok in H1 as (? & _ & H1).
  apply res_bind_ok in H1 as (r2 & H2%update_usage_same & H1). apply res_bind_ok in H1 as (? & _ & H1).
  apply res_bind_ok in H1 as (? & _ & H1). apply res_bind_ok in H1 as (? & _ & H1). by injection H1 as <-.
Qed.

Section bounds.
Context (bc bn : block_bounds).

Lemma same_ok n r r' : same_but_usage r r' -> blocks_ok bc bn n r /\ totals_ok r -> blocks_ok bc bn n r' /\ totals_ok r'.
Proof.
  intros (E1 & E2 & E3) [[B1 B2 B3 B4] [T1 T2 T3 T4]].
  split; split; unfold weight_of in *; rewrite ?E1, ?E2, ?E3; done.
Qed.

Lemma weight_insert f b k l r r' : rl_limits r' = <[k := l]> (rl_limits r) ->
  weight_of f b r' = weight_of f b r - (match rl_limits r !! k with Some l0 => if Bool.eqb k.1 b then Z.max 0 (f l0) else 0 | None => 0 end)
    + (if Bool.eqb k.1 b then Z.max 0 (f l) else 0).
Proof.
  intros E. unfold weight_of. rewrite E. destruct (rl_limits r !! k) as [l0|] eqn:Ek.
  - by rewrite (map_sum_insert _ _ _ l0).
  - rewrite map_sum_insert_new by done. lia.
Qed.

Lemma initialize_ok n a r r' : blocks_ok bc bn n r -> totals_ok r -> initialize_account a r = Ok r' -> blocks_ok bc bn n r' /\ totals_ok r'.
Proof.
  intros [B1 B2 B3 B4] [T1 T2 T3 T4] H. unfold initialize_account in H.
  destruct (rl_limits r !! (false, a)) eqn:E1; [done|]. destruct (rl_usage r !! a); [done|]. injection H as H.
  assert (EL : rl_limits r' = <[(false, a) := limits0]> (rl_limits r)) by (by subst r').
  split; [by subst r'|]. split; [rewrite (weight_insert _ _ _ _ _ _ EL), E1; subst r'; cbn; lia..|].
  intros b. rewrite EL. rewrite lookup_insert_ne by done. intros Hb%T4. rewrite lookup_insert. case_decide; [by eexists|done].
Qed.

Lemma set_limits_ok n a ram net cpu r b r' : blocks_ok bc bn n r -> totals_ok r -> set_account_limits a ram net cpu r = Ok (b, r') ->
  blocks_ok bc bn n r' /\ totals_ok r'.
Proof.
  intros [B1 B2 B3 B4] [T1 T2 T3 T4] H. unfold set_account_limits in H. apply res_bind_ok in H as (l & Hl & H). injection H as _ H.
  assert (Ha : is_Some (rl_limits r !! (false, a))).
  { unfold get_account_limits in Hl. destruct (rl_limits r !! (true, a)) eqn:E; [apply T4; by rewrite E|].
    destruct (rl_limits r !! (false, a)); [by eexists|done]. }
  assert (EL : rl_limits r' = <[(true, a) := mkLimits net cpu ram]> (rl_limits r)) by (by subst r').
  split; [by subst r'|]. split; [rewrite (weight_insert _ _ _ _ _ _ EL); destruct (rl_limits r !! (true, a)); subst r'; cbn; lia..|].
  intros x. rewrite EL. rewrite (lookup_insert_ne _ (true, a) (false, x)) by done. rewrite lookup_insert. case_decide as D; [|apply T4].
  injection D as <-. done.
Qed.

Lemma transaction_ok n l cpu net t r r' : blocks_ok bc bn n r -> totals_ok r -> add_transaction_usage l cpu net t r = Ok r' ->
  blocks_ok bc bn n r' /\ totals_ok r'.
Proof.
  intros HB HT H. unfold add_transaction_usage in H. apply res_bind_ok in H as (r1 & H1%charge_accounts_same & H).
  destruct (same_ok n r r1 H1 (conj HB HT)) as [[B1 B2 (B3 & B4 & _ & B6) (C3 & C4 & _ & C6)] [T1 T2 T3 T4]]. cbv zeta in H. pose proof (po_range _ _ B1). pose proof (po_range _ _ B2).
  apply res_bind_ok in H as (? & P1%rl_assert_Ok & H). apply res_bind_ok in H as (? & P2%rl_assert_Ok & H). injection H as <-.
  apply Z.leb_le in P1, P2. cbn in P1, P2.
  split; [|by split]. split; cbn; [done|done| |]; (split; [done|]); (split; [done|]); (split; [|done]); (split; [apply u64_range|lia]).
Qed.

Lemma parameters_ok n c r r' : params_ok bc (cpu_parameters c) -> params_ok bn (net_parameters c) -> blocks_ok bc bn n r -> totals_ok r ->
  set_block_parameters (cpu_parameters c) (net_parameters c) r = Ok r' -> blocks_ok bc bn n r' /\ totals_ok r'.
Proof.
  intros Pc Pn [B1 B2 B3 B4] [T1 T2 T3 T4] H. unfold set_block_parameters in H.
  apply res_bind_ok in H as (? & _ & H). apply res_bind_ok in H as (? & _ & H). injection H as <-. split; by split.
Qed.

(** Configurations within the bounds, those of the genesis among them. *)
Context (allowed : block_config -> Prop).
Context (allowed_ok : forall c, allowed c -> params_ok bc (cpu_parameters c) /\ params_ok bn (net_parameters c)).
Context (init_ok : blocks_ok bc bn 0 resources_init).

Lemma resource_inv n r : resource_reach allowed n r -> blocks_ok bc bn n r /\ totals_ok r.
Proof using allowed_ok init_ok.
  induction 1 as [|n r op r' Hr IH Hop H]; [by split; [|split]|].
  destruct op as [a|a ram net cpu|a d| |l t|l cpu net t|c|n']; cbn [resource_apply block_after] in *; destruct IH as [HB HT].
  - by eapply initialize_ok.
  - destruct (set_account_limits a ram net cpu r) as [[b r1]|] eqn:E; [|done]. injection H as <-. by eapply set_limits_ok.
  - apply (same_ok n r); [|done]. unfold add_pending_ram_usage in H. destruct (d =? 0); [by injection H as <-|].
    apply res_bind_ok in H as (u & _ & H). apply res_bind_ok in H as (? & _ & H). apply res_bind_ok in H as (? & _ & H). by injection H as <-.
  - apply apply_all_effect in H as (HT' & _ & _ & _ & _ & HB'); auto.
  - apply update_account_usage_same in H. by apply (same_ok n r).
  - by eapply transaction_ok.
  - destruct (allowed_ok c Hop). by eapply parameters_ok.
  - destruct (process_block_ok bc bn n n' r HB Hop) as (r1 & E & HB1 & EL & _ & _ & _ & E1 & E2 & E3 & _). rewrite E in H. injection H as <-.
    split; [done|]. destruct HT as [T1 T2 T3 T4]. split; unfold weight_of in *; rewrite ?EL, ?E1, ?E2, ?E3; done.
Qed.
End bounds.

(** ** The theorems *)

Lemma average_close u w a : 0 < w <= rate_limiting_precision -> usage_ok u w a -> average a <= u + 1.
Proof.
  intros Hw [[H1 H2] _]. unfold average. pose proof (divide_ceil_bounds (value_ex a) rate_limiting_precision ltac:(done) H1).
  unfold rate_limiting_precision in *. nia.
Qed.

Definition default_block_config : block_config := mkBlockConfig default_max_block_cpu_usage 1000 default_max_block_net_usage 1000.
Definition default_cpu_bounds : block_bounds := mkBounds default_max_block_cpu_usage default_max_block_cpu_usage 120 1000.
Definition default_net_bounds : block_bounds := mkBounds default_max_block_net_usage default_max_block_net_usage 120 1000.

(** Blocks of any processor time that 32 bits can hold, and of up to 128 GiB. *)
Definition config_fits (c : block_config) : Prop := 0 <= max_block_cpu_usage c < 2^32 /\ 0 <= max_block_net_usage c < 2^37.
Definition cpu_bounds : block_bounds := mkBounds 0 (2^32) 120 1000.
Definition net_bounds : block_bounds := mkBounds 0 (2^37) 120 1000.

Lemma default_reach n r : resource_reach (eq default_block_config) n r -> blocks_ok default_cpu_bounds default_net_bounds n r /\ totals_ok r.
Proof.
  apply resource_inv.
  - intros c <-. split; (split; repeat split; vm_compute; congruence).
  - split; (split; repeat split; vm_compute; congruence) || (repeat split; vm_compute; congruence).
Qed.

Lemma fits_params c : config_fits c -> params_ok cpu_bounds (cpu_parameters c) /\ params_ok net_bounds (net_parameters c).
Proof.
  intros [Hc Hn]. split.
  all: split; [cbn in *; lia|split; [repeat split; vm_compute; congruence|reflexivity]|split; [vm_compute; congruence|reflexivity]|repeat split; vm_compute; congruence..].
Qed.

Lemma fits_reach n r : resource_reach config_fits n r -> blocks_ok cpu_bounds net_bounds n r /\ totals_ok r.
Proof.
  apply resource_inv; [exact fits_params|].
  split; (split; repeat split; vm_compute; congruence) || (repeat split; vm_compute; congruence).
Qed.

(** C22: In every reachable state of the resource manager, with the default block
    parameters, the three totals are the sums of the positive limits in force, the
    virtual block limits are between the real maximum and 1000 times as much, no
    block used more than its maximum, and neither does the moving average, but for
    one unit of rounding. *)
Theorem resource_invariant n r : resource_reach (eq default_block_config) n r ->
  (total_ram_bytes (rl_state r) = weight_of ram_bytes false r /\ total_cpu_weight (rl_state r) = weight_of cpu_weight false r /\
   total_net_weight (rl_state r) = weight_of net_weight false r) /\
  (default_max_block_cpu_usage <= virtual_cpu_limit (rl_state r) <= 1000 * default_max_block_cpu_usage /\
   default_max_block_net_usage <= virtual_net_limit (rl_state r) <= 1000 * default_max_block_net_usage) /\
  (0 <= pending_cpu_usage (rl_state r) <= default_max_block_cpu_usage /\ 0 <= pending_net_usage (rl_state r) <= default_max_block_net_usage) /\
  average (average_block_cpu_usage (rl_state r)) <= default_max_block_cpu_usage + 1 /\
  average (average_block_net_usage (rl_state r)) <= default_max_block_net_usage + 1.
Proof.
  intros [[_ _ (B1 & _ & B3 & B4) (C1 & _ & C3 & C4)] [T1 T2 T3 _]]%default_reach.
  apply average_close in B1, C1; [|done..]. unfold limit_ok in *. cbn in *.
  split; [done|]. unfold default_max_block_cpu_usage, default_max_block_net_usage in *. lia.
Qed.

(** C31: The end of a block.  Let the configuration of the chain change from block to block, as
    long as the maximum of a block is below 2^32 microseconds and 2^37 bytes.  In every
    state that blocks, transactions and changes of limits lead to, the usage of the next
    block can be accounted for under the next configuration: setting the parameters and
    [process_block_usage] succeed, without overflow in the averages or the limits.  The
    whole end of the block, which first applies the pending limits of accounts, succeeds
    when for each of RAM, cpu and net the positive limits in force and the pending ones add
    up to less than 2^64 (otherwise it can fail): afterwards nothing is pending, every account has the limits it
    was given, the usage of the block is reset, and the virtual limits are between the
    new maximum of a block and 1000 times as much. *)
Theorem block_end_succeeds n n' r c : resource_reach config_fits n r -> config_fits c -> n < n' ->
  (exists r1 r2, set_block_parameters (cpu_parameters c) (net_parameters c) r = Ok r1 /\ process_block_usage n' r1 = Ok r2) /\
  ((forall f, f ∈ [ram_bytes; cpu_weight; net_weight] -> weight_of f false r + weight_of f true r < 2^64) ->
   exists r', finalize_resources c n' r = Ok r' /\ (forall a, rl_limits r' !! (true, a) = None) /\
     (forall a, get_account_limits a r' = get_account_limits a r) /\ pending_cpu_usage (rl_state r') = 0 /\ pending_net_usage (rl_state r') = 0 /\
     max_block_cpu_usage c <= virtual_cpu_limit (rl_state r') <= max_block_cpu_usage c * 1000 /\
     max_block_net_usage c <= virtual_net_limit (rl_state r') <= max_block_net_usage c * 1000).
Proof.
  intros [HB HT]%fits_reach Hc Hn. destruct (fits_params c Hc) as [Pc Pn].
  assert (Hset : forall q, exists q', set_block_parameters (cpu_parameters c) (net_parameters c) q = Ok q' /\ rl_limits q' = rl_limits q /\
    cpu_limit_parameters (rl_config q') = cpu_parameters c /\ net_limit_parameters (rl_config q') = net_parameters c) by (intros q; eexists; split; [reflexivity|done]).
  split.
  - destruct (Hset r) as (r1 & E1 & _). destruct (parameters_ok _ _ n c r r1 Pc Pn HB HT E1) as [HB1 _].
    destruct (process_block_ok _ _ n n' r1 HB1 Hn) as (r2 & E2 & _). by exists r1, r2.
  - intros Hb. destruct (apply_all_runs (size (rl_limits r)) r HT ltac:(lia) Hb) as (r1 & E1).
    pose proof (apply_all_effect _ _ _ HT E1) as (HT1 & Hp & Hg & _ & _ & HB1). destruct (Hset r1) as (r2 & E2 & EL2 & Ec & En).
    destruct (parameters_ok _ _ n c r1 r2 Pc Pn (HB1 _ _ n HB) HT1 E2) as [HB2 _].
    destruct (process_block_ok _ _ n n' r2 HB2 Hn) as (r3 & E3 & _ & EL & Ecfg & P1 & P2 & _ & _ & _ & F). exists r3.
    split; [unfold finalize_resources, process_account_limit_updates; rewrite E1; cbn [mbind res_bind]; rewrite E2; exact E3|].
    split; [intros a; by rewrite EL, EL2|]. split; [intros a; rewrite <- Hg; unfold get_account_limits; by rewrite EL, EL2|].
    split; [done|]. split; [done|]. unfold limits_fresh in F. rewrite Ecfg, Ec, En in F. exact F.
Qed.

(** Two accounts, their limits, a transaction, two blocks. *)
Fixpoint resource_exec (ops : list resource_op) (n : Z) (r : resource_limits_manager) : res (Z * resource_limits_manager) :=
  match ops with
  | [] => Ok (n, r)
  | op :: l => if match op with OBlock n' => n <? n' | _ => true end
               then r' ← resource_apply op r; resource_exec l (block_after n op) r' else rl_fail "block order"
  end.

Lemma resource_exec_reach allowed ops : Forall (fun op => match op with OParameters c => allowed c | _ => True end) ops ->
  forall n r n' r', resource_reach allowed n r -> resource_exec ops n r = Ok (n', r') -> resource_reach allowed n' r'.
Proof.
  induction 1 as [|op l Hop _ IH]; intros n r n' r' Hr H; cbn [resource_exec] in H; [by injection H as <- <-|].
  destruct (match op with OBlock m => n <? m | _ => true end) eqn:E; [|done]. apply res_bind_ok in H as (r1 & H1 & H).
  eapply IH; [|exact H]. eapply rr_step; [done| |done]. destruct op; try done. by apply Z.ltb_lt.
Qed.

Definition resource_demo_ops : list resource_op :=
  [OInitialize (N "alice"); OInitialize (N "bob"); OSetLimits (N "alice") 8000 30 70; OSetLimits (N "bob") (-1) 10 30;
    OAddRam (N "alice") 2996; OProcessLimits; OParameters default_block_config; OBlock 1; OTransaction [N "alice"] 1500 120 2; OSetLimits (N "bob") 4000 20 (-1)].

Definition resource_demo : Z * resource_limits_manager :=
  match resource_exec resource_demo_ops 0 resources_init with
  | Ok x => x | Err _ => (0, resources_init) end.

Lemma resource_demo_reach allowed : allowed default_block_config -> resource_reach allowed 1 (snd resource_demo).
Proof.
  intros Ha. apply (resource_exec_reach allowed resource_demo_ops) with 0 resources_init; [repeat constructor; exact Ha|apply rr_init|]. vm_compute. reflexivity.
Qed.

Lemma resource_invariant_witness :
  total_cpu_weight (rl_state (snd resource_demo)) = 100 /\ weight_of cpu_weight false (snd resource_demo) = 100 /\
  total_cpu_weight (rl_state (snd resource_demo)) = weight_of cpu_weight false (snd resource_demo) /\
  virtual_cpu_limit (rl_state (snd resource_demo)) = 200200.
Proof.
  split; [vm_compute; reflexivity|]. split; [vm_compute; reflexivity|]. split; [|vm_compute; reflexivity].
  exact (proj1 (proj2 (proj1 (resource_invariant 1 (snd resource_demo) (resource_demo_reach _ eq_refl))))).
Defined.

(** The producers raise the time of a block to a second, half of it the target. *)
Definition demo_block_config : block_config := mkBlockConfig 1000000 5000 default_max_block_net_usage 1000.

Lemma block_end_succeeds_witness :
  exists r', finalize_resources demo_block_config 2 (snd resource_demo) = Ok r' /\ total_cpu_weight (rl_state r') = 70 /\
    get_account_limits (N "bob") r' = Ok (mkLimits 20 (-1) 4000) /\ virtual_cpu_limit (rl_state r') = 1000000.
Proof.
  assert (F1 : config_fits default_block_config) by (repeat split; vm_compute; congruence). assert (F2 : config_fits demo_block_config) by (repeat split; vm_compute; congruence).
  destruct (block_end_succeeds 1 2 (snd resource_demo) demo_block_config (resource_demo_reach _ F1) F2 ltac:(lia)) as (_ & H).
  destruct H as (r' & E & _ & Hg & _).
  - intros f Hf. repeat (apply elem_of_cons in Hf as [->|Hf]; [vm_compute; reflexivity|]). by apply elem_of_nil in Hf.
  - exists r'. split; [exact E|]. rewrite Hg. vm_compute in E. injection E as <-. split; [reflexivity|]. split; vm_compute; reflexivity.
Defined.
