(* ===== verification/Permissions.v ===== *)
(** * Accounts, permissions and the authorization of transactions

    libraries/chain/authorization_manager.cpp with permission_object.hpp and
    permission_link_object.hpp: the tables of permissions and links, which
    permission an action needs, and the check that a transaction declares and
    satisfies it.  libraries/chain/eosio_contract.cpp: the native actions that change
    these tables.  libraries/chain/controller.cpp: the native accounts of the
    genesis.

    Keys are numbers; their order and packed size are arbitrary functions, as the
    theorems do not depend on them.  The other parameters are the container of the
    authority checker (boost), the chain configuration, and the node's list of keys it
    does not accept in the blocks it produces. *)

From S2P Require Import Prelude Names Chain Authority ResourceLimits.
#[local] Open Scope Z_scope.

(** config.hpp *)
Definition system_account_name : name := N "eosio".
Definition null_account_name : name := N "eosio.null".
Definition producers_account_name : name := N "eosio.prods".
Definition majority_producers_permission_name : name := N "prod.major".
Definition minority_producers_permission_name : name := N "prod.minor".
Definition active_name : name := N "active".
Definition owner_name : name := N "owner".
Definition eosio_any_name : name := N "eosio.any".
Definition eosio_code_name : name := N "eosio.code".
Definition setcode_ram_bytes_multiplier : Z := 10.
Definition overhead_per_account_ram_bytes : Z := 2 * 1024.
Definition overhead_per_row_per_index_ram_bytes : Z := 32.
Definition fixed_overhead_shared_vector_ram_bytes : Z := 16.

(** Sizes are billed in multiples of 16 bytes. *)
Definition billable_size_v (value : Z) : Z := (value + 16 - 1) / 16 * 16.
Definition billable_permission_level_weight : Z := billable_size_v 24.
Definition billable_key_weight : Z := billable_size_v 8.
Definition billable_wait_weight : Z := billable_size_v 16.
Definition billable_shared_authority : Z := billable_size_v (3 * fixed_overhead_shared_vector_ram_bytes + 4).
Definition billable_permission_object : Z := billable_size_v (billable_shared_authority + 64 + 5 * overhead_per_row_per_index_ram_bytes).
Definition billable_permission_link_object : Z := billable_size_v (40 + overhead_per_row_per_index_ram_bytes * 3).

(** ** State *)

Record permission_object := mkPermission {
  po_id : Z;
  usage_id : Z;
  po_parent : Z;            (* the id of the parent; 0 for none *)
  po_owner : name;
  po_name : name;
  last_updated : Z;
  po_auth : authority
}.
#[export] Instance eta_permission : Eta permission_object := fun p =>
  mkPermission (po_id p) (usage_id p) (po_parent p) (po_owner p) (po_name p) (last_updated p) (po_auth p).

(** The account with its sequence object, which is created with it. *)
Record account_object := mkAccount {
  privileged : bool; creation_date : Z;
  last_code_update : Z; code_version : Z; acct_code : list Z; acct_abi : list Z;   (* the code and the abi as bytes *)
  code_sequence : Z; abi_sequence : Z
}.
#[export] Instance eta_account : Eta account_object := fun a =>
  mkAccount (privileged a) (creation_date a) (last_code_update a) (code_version a) (acct_code a) (acct_abi a) (code_sequence a) (abi_sequence a).
Definition new_account (is_privileged : bool) (date : Z) : account_object := mkAccount is_privileged date 0 0 [] [] 0 0.

(** A delayed transaction: its sender, times, and the authorizations in it. *)
Record generated_transaction_object := mkGenerated {
  gto_sender : name; published : Z; delay_until : Z; gto_auths : list permission_level
}.

Record auth_db := mkAuthDb {
  accounts : gmap name account_object;
  permissions : gmap Z permission_object;
  next_permission_id : Z;
  permission_usages : gmap Z Z;                     (* when a permission was last used *)
  next_usage_id : Z;
  links : gmap (name * name * name) name;           (* account, code, message type *)
  resources : resource_limits_manager;
  generated : gmap Z generated_transaction_object   (* by transaction id *)
}.
#[export] Instance eta_auth_db : Eta auth_db := fun d =>
  mkAuthDb (accounts d) (permissions d) (next_permission_id d) (permission_usages d) (next_usage_id d) (links d) (resources d) (generated d).

Definition eos_assert {S} (b : bool) (msg : string) : M S unit := if b then mret tt else fail (ChainError msg).

(** The index by owner and name. *)
Definition by_owner (d : auth_db) (owner nm : name) : option permission_object :=
  match filter (fun kv => po_owner kv.2 = owner /\ po_name kv.2 = nm) (map_to_list (permissions d)) with
  | (_, p) :: _ => Some p
  | [] => None
  end.

(** [find_permission] and [get_permission]: the empty name is refused. *)
Definition find_permission (d : auth_db) (level : permission_level) : res (option permission_object) :=
  if (level.1 =? 0) || (level.2 =? 0) then Err (ChainError "Invalid permission") else Ok (by_owner d level.1 level.2).

Definition get_permission (d : auth_db) (level : permission_level) : res permission_object :=
  p ← find_permission d level;
  match p with Some p => Ok p | None => Err (ChainError "Failed to retrieve permission") end.

(** [permission_object::satisfies]: the walk up the parents of [other]; [None]
    when it leaves the table or runs out of fuel. *)
Fixpoint walk_up (fuel : nat) (d : auth_db) (id : Z) (parent : permission_object) : option bool :=
  match fuel with
  | O => None
  | S fuel' =>
      if id =? po_parent parent then Some true
      else if po_parent parent =? 0 then Some false
      else match permissions d !! po_parent parent with
           | Some p => walk_up fuel' d id p
           | None => None
           end
  end.

Definition satisfies (d : auth_db) (this other : permission_object) : option bool :=
  if negb (po_owner this =? po_owner other) then Some false
  else if (po_id this =? po_id other) || (po_id this =? po_parent other) then Some true
  else match permissions d !! po_parent other with
       | Some p => walk_up (size (permissions d)) d (po_id this) p
       | None => None
       end.

(** ** Changing permissions *)

Definition create_permission (account nm : name) (parent : Z) (auth : authority) (time : Z) : M auth_db permission_object :=
  now ← ask current_time;
  d ← gets id;
  let creation_time := if time =? 0 then now else time in
  let p := mkPermission (next_permission_id d) (next_usage_id d) parent account nm creation_time auth in
  _ ← (match by_owner d account nm with
       | Some _ => fail (ChainError "could not insert object, most likely a uniqueness constraint was violated")
       | None => mret tt
       end);
  _ ← assign permission_usages (<[next_usage_id d := creation_time]> (permission_usages d));
  _ ← assign next_usage_id (next_usage_id d + 1);
  _ ← assign permissions (<[next_permission_id d := p]> (permissions d));
  _ ← assign next_permission_id (next_permission_id d + 1);
  mret p.

Definition modify_permission (p : permission_object) (auth : authority) : M auth_db unit :=
  now ← ask current_time;
  modify permissions (po_id p) (fun row => Ok (row <| po_auth := auth |> <| last_updated := now |>)).

Definition has_children (d : auth_db) (id : Z) : bool :=
  existsb (fun kv => po_parent kv.2 =? id) (map_to_list (permissions d)).

Definition remove_permission (p : permission_object) : M auth_db unit :=
  d ← gets id;
  _ ← eos_assert (negb (has_children d (po_id p))) "Cannot remove a permission which has children. Remove the children first.";
  _ ← assign permission_usages (delete (usage_id p) (permission_usages d));
  erase permissions (po_id p).

Definition update_permission_usage (p : permission_object) : M auth_db unit :=
  now ← ask current_time;
  modify permission_usages (usage_id p) (fun _ => Ok now).

Definition get_permission_last_used (p : permission_object) : M auth_db Z := get permission_usages (usage_id p) "unknown key".

(** [context.add_ram_usage]. *)
Definition add_ram_usage (account : name) (delta : Z) : M auth_db unit :=
  r ← gets resources;
  r ← lift (add_pending_ram_usage account delta r);
  assign resources r.

Section actions.
Context (key_lt : Z -> Z -> bool) (pack_size : Z -> Z).                  (* fc: public keys *)
Context (max_transaction_delay max_authority_depth : Z).                 (* the chain configuration *)
Context (enforce_key_list : bool) (key_accepted : Z -> bool).            (* the key list of the node *)
Context (code_hash : list Z -> Z) (code_valid : list Z -> bool).         (* fc: sha256; wasm: validate *)

(** [shared_authority::get_billable_size]. *)
Definition get_billable_size (auth : authority) : Z :=
  Z.of_nat (length (auth_accounts auth)) * billable_permission_level_weight +
  Z.of_nat (length (auth_waits auth)) * billable_wait_weight +
  lsum (fun k => billable_key_weight + pack_size (kw_key k)) (auth_keys auth).

Definition permission_size (p : permission_object) : Z := billable_permission_object + get_billable_size (po_auth p).

Definition account_exists (d : auth_db) (a : name) : bool := match accounts d !! a with Some _ => true | None => false end.

(** One account of an authority. *)
Definition precondition_account (d : auth_db) (p : permission_level) : res unit :=
  if negb (account_exists d p.1) then Err (ChainError "account does not exist")
  else if (p.2 =? owner_name) || (p.2 =? active_name) then Ok tt
  else if p.2 =? eosio_code_name then Ok tt
  else _ ← get_permission d p; Ok tt.

Definition validate_authority_precondition (auth : authority) : M auth_db unit :=
  d ← gets id;
  _ ← lift (foldr (fun a rest => _ ← precondition_account d (pw_permission a); rest) (Ok tt) (auth_accounts auth));
  eos_assert (negb enforce_key_list || forallb (fun k => key_accepted (kw_key k)) (auth_keys auth)) "key is on the blacklist".

(** A permission name or account name that starts with eosio and a dot. *)
Definition reserved_name (n : name) : bool := String.prefix "eosio." (name_to_string n).

Definition newaccount (creator nm : name) (owner active : authority) : M auth_db unit :=
  _ ← require_auth creator;
  _ ← eos_assert (validate key_lt owner) "Invalid owner authority";
  _ ← eos_assert (validate key_lt active) "Invalid active authority";
  _ ← eos_assert (negb (nm =? 0)) "account name cannot be empty";
  _ ← eos_assert (String.length (name_to_string nm) <=? 12)%nat "account names can only be 12 chars long";
  c ← get accounts creator "unknown key";
  _ ← when (negb (privileged c)) (eos_assert (negb (reserved_name nm)) "only privileged accounts can have names that start with 'eosio.'");
  existing ← find accounts nm;
  _ ← eos_assert (match existing with None => true | Some _ => false end) "Cannot create account named ${name}, as that name is already taken";
  now ← ask current_time;
  _ ← emplace accounts nm (new_account false now);
  _ ← validate_authority_precondition owner;
  _ ← validate_authority_precondition active;
  owner_permission ← create_permission nm owner_name 0 owner 0;
  active_permission ← create_permission nm active_name (po_id owner_permission) active 0;
  r ← gets resources;
  r ← lift (initialize_account nm r);
  _ ← assign resources r;
  add_ram_usage nm (overhead_per_account_ram_bytes + 2 * billable_permission_object +
                    get_billable_size (po_auth owner_permission) + get_billable_size (po_auth active_permission)).

Definition updateauth (account permission parent : name) (auth : authority) : M auth_db unit :=
  _ ← require_auth account;
  _ ← eos_assert (negb (permission =? 0)) "Cannot create authority with empty name";
  _ ← eos_assert (negb (reserved_name permission)) "Permission names that start with 'eosio.' are reserved";
  _ ← eos_assert (negb (permission =? parent)) "Cannot set an authority as its own parent";
  _ ← get accounts account "unknown key";
  _ ← eos_assert (validate key_lt auth) "Invalid authority";
  _ ← when (permission =? active_name) (eos_assert (parent =? owner_name) "Cannot change active authority's parent from owner");
  _ ← (if permission =? owner_name then eos_assert (parent =? 0) "Cannot change owner authority's parent"
       else eos_assert (negb (parent =? 0)) "Only owner permission can have empty parent");
  _ ← (match last (auth_waits auth) with
       | Some w => eos_assert (wait_sec w <=? max_transaction_delay) "Cannot set delay longer than max_transacton_delay"
       | None => mret tt
       end);
  _ ← validate_authority_precondition auth;
  d ← gets id;
  existing ← lift (find_permission d (account, permission));
  parent_id ← (if negb (permission =? owner_name) then p ← lift (get_permission d (account, parent)); mret (po_id p) else mret 0);
  match existing with
  | Some p =>
      _ ← eos_assert (parent_id =? po_parent p) "Changing parent authority is not currently supported";
      let old_size := permission_size p in
      _ ← modify_permission p auth;
      add_ram_usage (po_owner p) (billable_permission_object + get_billable_size auth - old_size)
  | None =>
      p ← create_permission account permission parent_id auth 0;
      add_ram_usage account (permission_size p)
  end.

(** The index of links by the permission they require. *)
Definition linked (d : auth_db) (account permission : name) : bool :=
  existsb (fun kv => (kv.1.1.1 =? account) && (kv.2 =? permission)) (map_to_list (links d)).

Definition deleteauth (account permission : name) : M auth_db unit :=
  _ ← require_auth account;
  _ ← eos_assert (negb (permission =? active_name)) "Cannot delete active authority";
  _ ← eos_assert (negb (permission =? owner_name)) "Cannot delete owner authority";
  d ← gets id;
  _ ← eos_assert (negb (linked d account permission)) "Cannot delete a linked authority. Unlink the authority first.";
  p ← lift (get_permission d (account, permission));
  let old_size := permission_size p in
  _ ← remove_permission p;
  add_ram_usage account (- old_size).

(** The index of permissions by name, of any account. *)
Definition name_in_use (d : auth_db) (permission : name) : bool :=
  existsb (fun kv => po_name kv.2 =? permission) (map_to_list (permissions d)).

Definition linkauth (account code type requirement : name) : M auth_db unit :=
  _ ← eos_assert (negb (requirement =? 0)) "Required permission cannot be empty";
  _ ← require_auth account;
  d ← gets id;
  _ ← eos_assert (account_exists d account) "Failed to retrieve account";
  _ ← eos_assert (account_exists d code) "Failed to retrieve code for account";
  _ ← when (negb (requirement =? eosio_any_name)) (eos_assert (name_in_use d requirement) "Failed to retrieve permission");
  link ← find links (account, code, type);
  match link with
  | Some required =>
      _ ← eos_assert (negb (required =? requirement)) "Attempting to update required authority, but new requirement is same as old";
      put links (account, code, type) requirement
  | None =>
      _ ← put links (account, code, type) requirement;
      add_ram_usage account billable_permission_link_object
  end.

Definition unlinkauth (account code type : name) : M auth_db unit :=
  _ ← require_auth account;
  link ← find links (account, code, type);
  _ ← eos_assert (match link with Some _ => true | None => false end) "Attempting to unlink authority, but no link found";
  _ ← add_ram_usage account (- billable_permission_link_object);
  erase links (account, code, type).

(** ** The code and the abi of an account *)

Definition bytes_size (l : list Z) : Z := Z.of_nat (length l).

Definition setcode (account vmtype vmversion : Z) (code : list Z) : M auth_db unit :=
  _ ← require_auth account;
  _ ← eos_assert (vmtype =? 0) "code should be 0";
  _ ← eos_assert (vmversion =? 0) "version should be 0";
  _ ← when (0 <? bytes_size code) (eos_assert (code_valid code) "invalid wasm");
  let code_id := if 0 <? bytes_size code then code_hash code else 0 in
  a ← get accounts account "unknown key";
  let old_size := bytes_size (acct_code a) * setcode_ram_bytes_multiplier in
  let new_size := bytes_size code * setcode_ram_bytes_multiplier in
  _ ← eos_assert (negb (code_version a =? code_id)) "contract is already running this version of code";
  now ← ask current_time;
  _ ← modify accounts account (fun a => Ok (a <| last_code_update := now |> <| code_version := code_id |> <| acct_code := code |>
        <| code_sequence := u64 (code_sequence a + 1) |>));
  when (negb (new_size =? old_size)) (add_ram_usage account (new_size - old_size)).

Definition setabi (account : name) (abi : list Z) : M auth_db unit :=
  _ ← require_auth account;
  a ← get accounts account "unknown key";
  let old_size := bytes_size (acct_abi a) in
  let new_size := bytes_size abi in
  _ ← modify accounts account (fun a => Ok (a <| acct_abi := abi |> <| abi_sequence := u64 (abi_sequence a + 1) |>));
  when (negb (new_size =? old_size)) (add_ram_usage account (new_size - old_size)).

(** ** The permission an action needs *)

Definition lookup_linked_permission (d : auth_db) (authorizer scope act_name : name) : option name :=
  match links d !! (authorizer, scope, act_name) with
  | Some p => Some p
  | None => links d !! (authorizer, scope, 0)
  end.

(** The native actions that cannot be linked. *)
Definition unlinkable (act_name : name) : bool :=
  existsb (fun n => act_name =? N n) ["updateauth"; "deleteauth"; "linkauth"; "unlinkauth"; "canceldelay"].

(** [None] when the action is linked to eosio.any. *)
Definition lookup_minimum_permission (d : auth_db) (authorizer scope act_name : name) : res (option name) :=
  if (scope =? system_account_name) && unlinkable act_name
  then Err (ChainError "cannot call lookup_minimum_permission on native actions that are not allowed to be linked to minimum permissions")
  else match lookup_linked_permission d authorizer scope act_name with
       | None => Ok (Some active_name)
       | Some p => Ok (if p =? eosio_any_name then None else Some p)
       end.

(** ** Actions as the check sees them *)

Inductive action_data :=
| DUpdateauth (account permission parent : name) (auth : authority)
| DDeleteauth (account permission : name)
| DLinkauth (account code type requirement : name)
| DUnlinkauth (account code type : name)
| DCanceldelay (canceling_auth : permission_level) (trx_id : Z)
| DOther.

Record trx_action := mkTrxAction {
  ta_account : name; ta_name : name; ta_authorization : list permission_level; ta_data : action_data
}.

Definition chain_assert (b : bool) (msg : string) : res unit := if b then Ok tt else Err (ChainError msg).

(** The declared permission must be [min] or one of its ancestors. *)
Definition check_satisfies (d : auth_db) (auth : permission_level) (min : permission_object) (msg : string) : res unit :=
  p ← get_permission d auth;
  match satisfies d p min with
  | Some b => chain_assert b msg
  | None => Err (ChainError "permission table inconsistent")
  end.

Definition single_auth (auths : list permission_level) (msg : string) : res permission_level :=
  match auths with [auth] => Ok auth | _ => Err (ChainError msg) end.

Definition check_updateauth_authorization (d : auth_db) (account permission parent : name) (auths : list permission_level) : res unit :=
  auth ← single_auth auths "updateauth action should only have one declared authorization";
  _ ← chain_assert (auth.1 =? account) "the owner of the affected permission needs to be the actor of the declared authorization";
  existing ← find_permission d (account, permission);
  min ← match existing with Some p => Ok p | None => get_permission d (account, parent) end;
  check_satisfies d auth min "updateauth action declares irrelevant authority".

Definition check_deleteauth_authorization (d : auth_db) (account permission : name) (auths : list permission_level) : res unit :=
  auth ← single_auth auths "deleteauth action should only have one declared authorization";
  _ ← chain_assert (auth.1 =? account) "the owner of the permission to delete needs to be the actor of the declared authorization";
  min ← get_permission d (account, permission);
  check_satisfies d auth min "updateauth action declares irrelevant authority".

Definition check_linkauth_authorization (d : auth_db) (account code type : name) (auths : list permission_level) : res unit :=
  auth ← single_auth auths "link action should only have one declared authorization";
  _ ← chain_assert (auth.1 =? account) "the owner of the linked permission needs to be the actor of the declared authorization";
  _ ← chain_assert (negb (unlinkable type)) "Cannot link to a minimum permission";
  linked ← lookup_minimum_permission d account code type;
  match linked with
  | None => Ok tt
  | Some p => min ← get_permission d (account, p); check_satisfies d auth min "link action declares irrelevant authority"
  end.

Definition check_unlinkauth_authorization (d : auth_db) (account code type : name) (auths : list permission_level) : res unit :=
  auth ← single_auth auths "unlink action should only have one declared authorization";
  _ ← chain_assert (auth.1 =? account) "the owner of the linked permission needs to be the actor of the declared authorization";
  match lookup_linked_permission d account code type with
  | None => Err (ChainError "cannot unlink non-existent permission link")
  | Some p =>
      if p =? eosio_any_name then Ok tt
      else min ← get_permission d (account, p); check_satisfies d auth min "unlink action declares irrelevant authority"
  end.

(** Returns the delay of the transaction to cancel. *)
Definition check_canceldelay_authorization (d : auth_db) (canceling_auth : permission_level) (trx_id : Z) (auths : list permission_level) : res Z :=
  auth ← single_auth auths "canceldelay action should only have one declared authorization";
  min ← get_permission d canceling_auth;
  _ ← check_satisfies d auth min "canceldelay action declares irrelevant authority";
  match generated d !! trx_id with
  | Some g =>
      _ ← chain_assert (gto_sender g =? 0) "cannot cancel trx_id, there is no deferred transaction with that transaction id";
      _ ← chain_assert (bool_decide (canceling_auth ∈ gto_auths g))
            "canceling_auth in canceldelay action was not found as authorization in the original delayed transaction";
      Ok (delay_until g - published g)
  | None => Err (ChainError "cannot cancel trx_id, there is no deferred transaction with that transaction id")
  end.

(** ** The check of a transaction *)

(** The cases of native actions: whether the action is one, and its delay. *)
Definition special_case (d : auth_db) (delay : Z) (act : trx_action) : res (bool * Z) :=
  if negb (ta_account act =? system_account_name) then Ok (false, delay)
  else if ta_name act =? N "updateauth" then
    match ta_data act with
    | DUpdateauth account permission parent _ =>
        _ ← check_updateauth_authorization d account permission parent (ta_authorization act); Ok (true, delay)
    | _ => Err (ChainError "unpack") end
  else if ta_name act =? N "deleteauth" then
    match ta_data act with
    | DDeleteauth account permission => _ ← check_deleteauth_authorization d account permission (ta_authorization act); Ok (true, delay)
    | _ => Err (ChainError "unpack") end
  else if ta_name act =? N "linkauth" then
    match ta_data act with
    | DLinkauth account code type _ => _ ← check_linkauth_authorization d account code type (ta_authorization act); Ok (true, delay)
    | _ => Err (ChainError "unpack") end
  else if ta_name act =? N "unlinkauth" then
    match ta_data act with
    | DUnlinkauth account code type => _ ← check_unlinkauth_authorization d account code type (ta_authorization act); Ok (true, delay)
    | _ => Err (ChainError "unpack") end
  else if ta_name act =? N "canceldelay" then
    match ta_data act with
    | DCanceldelay canceling trx_id =>
        c ← check_canceldelay_authorization d canceling trx_id (ta_authorization act); Ok (true, Z.max delay c)
    | _ => Err (ChainError "unpack") end
  else Ok (false, delay).

(** [permissions_to_satisfy]: in the order of the permissions, each with the
    least delay it was declared with. *)
Fixpoint to_satisfy (p : permission_level) (delay : Z) (l : list (permission_level * Z)) : list (permission_level * Z) :=
  match l with
  | [] => [(p, delay)]
  | (q, dq) :: l' =>
      if level_lt p q then (p, delay) :: l
      else if level_lt q p then (q, dq) :: to_satisfy p delay l'
      else (q, if delay <? dq then delay else dq) :: l'
  end.

(** A declared authorization of an action. *)
Definition check_declared (d : auth_db) (satisfied_authorizations : list permission_level) (special : bool) (delay : Z) (act : trx_action)
    (l : list (permission_level * Z)) (declared : permission_level) : res (list (permission_level * Z)) :=
  _ ← (if special then Ok tt else
         min ← lookup_minimum_permission d declared.1 (ta_account act) (ta_name act);
         match min with
         | None => Ok tt
         | Some m => p ← get_permission d (declared.1, m); check_satisfies d declared p "action declares irrelevant authority"
         end);
  Ok (if bool_decide (declared ∈ satisfied_authorizations) then l else to_satisfy declared delay l).

Fixpoint check_declared_all (d : auth_db) (satisfied_authorizations : list permission_level) (special : bool) (delay : Z) (act : trx_action)
    (auths : list permission_level) (l : list (permission_level * Z)) : res (list (permission_level * Z)) :=
  match auths with
  | [] => Ok l
  | a :: auths' => l ← check_declared d satisfied_authorizations special delay act l a;
                   check_declared_all d satisfied_authorizations special delay act auths' l
  end.

Fixpoint check_actions (d : auth_db) (satisfied_authorizations : list permission_level) (delay : Z) (acts : list trx_action)
    (l : list (permission_level * Z)) : res (list (permission_level * Z)) :=
  match acts with
  | [] => Ok l
  | act :: acts' =>
      sd ← special_case d delay act;
      l ← check_declared_all d satisfied_authorizations sd.1 sd.2 act (ta_authorization act) l;
      check_actions d satisfied_authorizations delay acts' l
  end.

Context (ordered : list meta_permission -> list meta_permission).        (* boost: flat_multiset *)

(** The authority of a permission, as the checker asks for it. *)
Definition permission_to_authority (d : auth_db) (p : permission_level) : option authority :=
  match get_permission d p with Ok o => Some (po_auth o) | Err _ => None end.

Fixpoint satisfy_all (d : auth_db) (keys : list Z) (perms : gset permission_level) (l : list (permission_level * Z)) (used : list bool) :
    res (list bool) :=
  match l with
  | [] => Ok used
  | (p, delay) :: l' =>
      let '(b, used) := satisfied_level ordered (permission_to_authority d) keys perms delay (Z.to_nat max_authority_depth) p used in
      _ ← chain_assert b "transaction declares authority, but does not have signatures for it";
      satisfy_all d keys perms l' used
  end.

(** A delay of the maximum counts as any delay. *)
Definition effective_delay (provided : Z) : Z :=
  if max_transaction_delay * 1000000 <=? provided then 2^63 - 1 else provided.

Definition check_authorization (d : auth_db) (actions : list trx_action) (keys : list Z) (perms : gset permission_level) (delay : Z)
    (allow_unused_keys : bool) (satisfied_authorizations : list permission_level) : res unit :=
  l ← check_actions d satisfied_authorizations (effective_delay delay) actions [];
  used ← satisfy_all d keys perms l (no_keys_used keys);
  if allow_unused_keys then Ok tt else chain_assert (all_keys_used used) "transaction bears irrelevant signatures".

(** The check of a single permission. *)
Definition check_permission (d : auth_db) (account permission : name) (keys : list Z) (perms : gset permission_level) (delay : Z)
    (allow_unused_keys : bool) : res unit :=
  let '(b, used) := satisfied_level ordered (permission_to_authority d) keys perms (effective_delay delay) (Z.to_nat max_authority_depth)
                      (account, permission) (no_keys_used keys) in
  _ ← chain_assert b "permission was not satisfied";
  if allow_unused_keys then Ok tt else chain_assert (all_keys_used used) "irrelevant keys provided".

Definition get_required_keys (d : auth_db) (actions : list trx_action) (candidate_keys : list Z) (delay : Z) : res (list Z) :=
  let auths := map (fun p => (p, delay)) (concat (map ta_authorization actions)) in
  used ← satisfy_all d candidate_keys ∅ auths (no_keys_used candidate_keys);
  Ok (used_keys candidate_keys used).
End actions.

(** ** The genesis *)

Section genesis.
Context (pack_size : Z -> Z) (initial_timestamp : Z).

Definition create_native_account (nm : name) (owner active : authority) (is_privileged : bool) : M auth_db unit :=
  _ ← emplace accounts nm (new_account is_privileged initial_timestamp);
  owner_permission ← create_permission nm owner_name 0 owner initial_timestamp;
  active_permission ← create_permission nm active_name (po_id owner_permission) active initial_timestamp;
  r ← gets resources;
  r ← lift (initialize_account nm r);
  r ← lift (add_pending_ram_usage nm (overhead_per_account_ram_bytes + 2 * billable_permission_object +
              get_billable_size pack_size (po_auth owner_permission) + get_billable_size pack_size (po_auth active_permission)) r);
  _ ← lift (verify_account_ram_usage nm r);
  assign resources r.

(** The table of permissions starts with a row that reserves the id 0. *)
Definition empty_authority0 : authority := mkAuthority 0 [] [] [].
Definition db_init : auth_db :=
  mkAuthDb ∅ {[ 0 := mkPermission 0 0 0 0 0 0 empty_authority0 ]} 1 ∅ 0 ∅ resources_init ∅.

Definition initialize_database (initial_key : Z) : M auth_db unit :=
  let system_auth := mkAuthority 1 [mkKeyWeight initial_key 1] [] [] in
  _ ← create_native_account system_account_name system_auth system_auth true;
  let empty_authority := mkAuthority 1 [] [] [] in
  let active_producers_authority := mkAuthority 1 [] [mkPermWeight (system_account_name, active_name) 1] [] in
  _ ← create_native_account null_account_name empty_authority empty_authority false;
  _ ← create_native_account producers_account_name empty_authority active_producers_authority false;
  d ← gets id;
  active_permission ← lift (get_permission d (producers_account_name, active_name));
  majority_permission ← create_permission producers_account_name majority_producers_permission_name (po_id active_permission)
                          active_producers_authority initial_timestamp;
  _ ← create_permission producers_account_name minority_producers_permission_name (po_id majority_permission)
        active_producers_authority initial_timestamp;
  mret tt.
End genesis.

(** ** The permissions of the producers *)

Definition update_permission (p : permission_object) (auth : authority) : M auth_db unit :=
  when (negb (bool_decide (po_auth p = auth))) (modify permissions (po_id p) (fun row => Ok (row <| po_auth := auth |>))).

(** [update_producers_authority], at the start of every block: the three permissions of the
    producers' account follow the schedule.  Their new size is not billed. *)
Definition calculate_threshold (num_producers numerator denominator : Z) : Z := u32 (u32 (num_producers * numerator) / denominator + 1).
Definition producers_permission (producers : list name) (nm : name) (numerator denominator : Z) : M auth_db unit :=
  d ← gets id;
  p ← lift (get_permission d (producers_account_name, nm));
  update_permission p (mkAuthority (calculate_threshold (Z.of_nat (length producers)) numerator denominator) []
                         (map (fun q => mkPermWeight (q, active_name) 1) producers) []).
Definition update_producers_authority (producers : list name) : M auth_db unit :=
  _ ← producers_permission producers active_name 2 3;
  _ ← producers_permission producers majority_producers_permission_name 1 2;
  producers_permission producers minority_producers_permission_name 1 3.

(** ** The native actions *)

Inductive auth_action :=
| ANewaccount (creator nm : name) (owner active : authority)
| AUpdateauth (account permission parent : name) (auth : authority)
| ADeleteauth (account permission : name)
| ALinkauth (account code type requirement : name)
| AUnlinkauth (account code type : name)
| ASetcode (account vmtype vmversion : Z) (code : list Z)
| ASetabi (account : name) (abi : list Z)
| AProducers (producers : list name).     (* no action: the step of the node at the start of a block *)

Record chain_params := mkChainParams {
  cp_key_lt : Z -> Z -> bool; cp_pack_size : Z -> Z; cp_max_delay : Z; cp_enforce : bool; cp_key_accepted : Z -> bool;
  cp_code_hash : list Z -> Z; cp_code_valid : list Z -> bool
}.

Definition auth_apply (cp : chain_params) (a : auth_action) : M auth_db unit :=
  match a with
  | ANewaccount creator nm owner active =>
      newaccount (cp_key_lt cp) (cp_pack_size cp) (cp_enforce cp) (cp_key_accepted cp) creator nm owner active
  | AUpdateauth account permission parent auth =>
      updateauth (cp_key_lt cp) (cp_pack_size cp) (cp_max_delay cp) (cp_enforce cp) (cp_key_accepted cp) account permission parent auth
  | ADeleteauth account permission => deleteauth (cp_pack_size cp) account permission
  | ALinkauth account code type requirement => linkauth account code type requirement
  | AUnlinkauth account code type => unlinkauth account code type
  | ASetcode account vmtype vmversion code => setcode (cp_code_hash cp) (cp_code_valid cp) account vmtype vmversion code
  | ASetabi account abi => setabi account abi
  | AProducers producers => update_producers_authority producers
  end.
