(* ===== verification/PermissionTree.v ===== *)
(** * The tree of permissions and its bill

    The invariants of the tables of Permissions.v: the permissions of an account form
    a tree, [satisfies] decides its order, and the RAM charged to an account is the
    sum of the sizes of its rows.  Both hold from the genesis on, under every native
    action. *)

From S2P Require Import Prelude Names Chain Authority ResourceLimits Permissions.
#[local] Open Scope Z_scope.

(** ** The tree of permissions *)

(** [above d i j]: permission [i] is [j] or an ancestor of it. *)
Inductive above (d : auth_db) (i : Z) : Z -> Prop :=
| above_self : above d i i
| above_parent j p : permissions d !! j = Some p -> po_parent p <> 0 -> above d i (po_parent p) -> above d i j.

Record row_ok (d : auth_db) (i : Z) (p : permission_object) : Prop := {
  ro_owner : po_owner p <> 0;
  ro_name : po_name p <> 0;
  ro_parent : 0 <= po_parent p < i;
  ro_top : po_parent p = 0 <-> po_name p = owner_name;
  ro_up : po_parent p <> 0 -> exists q, permissions d !! po_parent p = Some q /\ po_owner q = po_owner p;
  ro_account : is_Some (accounts d !! po_owner p)
}.

Record perm_forest (d : auth_db) : Prop := {
  pt_zero : permissions d !! 0 = Some (mkPermission 0 0 0 0 0 0 empty_authority0);
  pt_id i p : permissions d !! i = Some p -> po_id p = i /\ 0 <= i < next_permission_id d;
  pt_row i p : permissions d !! i = Some p -> i <> 0 -> row_ok d i p;
  pt_unique i j p q : permissions d !! i = Some p -> permissions d !! j = Some q ->
    po_owner p = po_owner q -> po_name p = po_name q -> i = j
}.

(** An account has its permissions owner and active, the second below the first. *)
Definition has_base (d : auth_db) (a : name) : Prop :=
  exists i j p q, permissions d !! i = Some p /\ po_owner p = a /\ po_name p = owner_name /\
    permissions d !! j = Some q /\ po_owner q = a /\ po_name q = active_name /\ po_parent q = i.

Definition perm_tree (d : auth_db) : Prop := perm_forest d /\ forall a, is_Some (accounts d !! a) -> has_base d a.

Lemma by_owner_Some d o n p : by_owner d o n = Some p -> exists i, permissions d !! i = Some p /\ po_owner p = o /\ po_name p = n.
Proof.
  unfold by_owner. destruct (filter _ _) as [|[i q] l] eqn:E; [done|]. intros [= ->].
  assert (H : (i, p) ∈ filter (fun kv => po_owner kv.2 = o /\ po_name kv.2 = n) (map_to_list (permissions d))) by (rewrite E; left).
  apply list_elem_of_filter in H as [[H1 H2] H]. apply elem_of_map_to_list in H. eauto.
Qed.

Lemma by_owner_None d o n i p : by_owner d o n = None -> permissions d !! i = Some p -> po_owner p = o -> po_name p = n -> False.
Proof.
  unfold by_owner. destruct (filter _ _) as [|[j q] l] eqn:E; [|done]. intros _ Hp <- <-.
  assert (H : (i, p) ∈ filter (fun kv => po_owner kv.2 = po_owner p /\ po_name kv.2 = po_name p) (map_to_list (permissions d))).
  { apply list_elem_of_filter. split; [done|]. by apply elem_of_map_to_list. }
  rewrite E in H. by apply elem_of_nil in H.
Qed.

Lemma get_permission_Some d l p : get_permission d l = Ok p ->
  l.1 <> 0 /\ l.2 <> 0 /\ exists i, permissions d !! i = Some p /\ po_owner p = l.1 /\ po_name p = l.2.
Proof.
  unfold get_permission, find_permission. destruct (Z.eqb_spec l.1 0); [done|]. destruct (Z.eqb_spec l.2 0); [done|]. cbn.
  destruct (by_owner d l.1 l.2) as [q|] eqn:E; [|done]. intros [= ->]. split; [done|]. split; [done|]. by apply by_owner_Some.
Qed.

Section tree.
Context (d : auth_db) (T : perm_forest d).

Lemma row_of_named i p : permissions d !! i = Some p -> po_owner p <> 0 -> i <> 0 /\ po_id p = i /\ row_ok d i p.
Proof using T.
  intros Hp Ho. assert (i <> 0) as Hi. { intros ->. rewrite (pt_zero d T) in Hp. by injection Hp as <-. }
  split; [done|]. split; [by apply (pt_id d T)|by apply (pt_row d T)].
Qed.

Lemma above_owner i j p q : above d i j -> permissions d !! i = Some p -> permissions d !! j = Some q -> j <> 0 -> po_owner p = po_owner q.
Proof using T.
  intros H. revert q. induction H as [|j r Hr Hn H IH]; intros q Hp Hq Hj; [congruence|]. rewrite Hr in Hq. injection Hq as <-.
  destruct (ro_up _ _ _ (pt_row d T _ _ Hr Hj) Hn) as (s & Hs & Eo). rewrite <- Eo. by apply IH.
Qed.

(** The rows with an id up to [j]: how far the walk can go. *)
Definition below (j : Z) : nat := size (filter (fun kv => kv.1 <= j) (permissions d)).

Lemma below_lt j k p : permissions d !! k = Some p -> j < k -> (below j < below k)%nat.
Proof.
  intros Hk Hj. unfold below. apply map_subset_size. split.
  - apply map_filter_subseteq_ext. intros i x _. cbn. lia.
  - intros Hs. assert (E : filter (fun kv => kv.1 <= k) (permissions d) !! k = Some p) by (apply map_lookup_filter_Some; split; [done|cbn; lia]).
    eapply lookup_weaken in E; [|exact Hs]. apply map_lookup_filter_Some in E as [_ E]. cbn in E. lia.
Qed.

Lemma walk_up_spec fuel : forall i k p, i <> 0 -> permissions d !! k = Some p -> (below k <= fuel)%nat ->
  exists b, walk_up fuel d i p = Some b /\ (b = true <-> po_parent p <> 0 /\ above d i (po_parent p)).
Proof using T.
  induction fuel as [|fuel IH]; intros i k p Hi Hk Hf.
  { pose proof (below_lt (k - 1) k p Hk ltac:(lia)). lia. }
  cbn. destruct (Z.eqb_spec i (po_parent p)) as [<-|Hne].
  { exists true. split; [done|]. split; [intros _; split; [done|constructor]|done]. }
  destruct (Z.eqb_spec (po_parent p) 0) as [E|Hp0]; [exists false; split; [done|]; split; [done|]; by intros [? _]|].
  assert (Hk0 : k <> 0). { intros ->. rewrite (pt_zero d T) in Hk. by injection Hk as <-. }
  pose proof (pt_row d T k p Hk Hk0) as Hr. destruct (ro_up _ _ _ Hr Hp0) as (q & Hq & _). rewrite Hq.
  pose proof (below_lt (po_parent p) k p Hk (proj2 (ro_parent _ _ _ Hr))).
  destruct (IH i (po_parent p) q Hi Hq ltac:(lia)) as (b & -> & Hb). exists b. split; [done|]. rewrite Hb. split.
  - intros [Hn Ha]. split; [done|]. by eapply above_parent.
  - intros [_ Ha]. inversion Ha as [Ei|j q' Hq' Hn Ha' Ej]; subst; [congruence|]. rewrite Hq in Hq'. by injection Hq' as <-.
Qed.

(** [satisfies] decides the relation: its walk ends and does not leave the table. *)
Lemma satisfies_spec i j p q : permissions d !! i = Some p -> i <> 0 -> permissions d !! j = Some q -> j <> 0 ->
  exists b, satisfies d p q = Some b /\ (b = true <-> above d i j).
Proof using T.
  intros Hp Hi Hq Hj. pose proof (pt_row d T j q Hq Hj) as Hr. unfold satisfies.
  rewrite (proj1 (pt_id d T i p Hp)), (proj1 (pt_id d T j q Hq)).
  destruct (Z.eqb_spec (po_owner p) (po_owner q)) as [Eo|Eo]; cbn [negb].
  2: { exists false. split; [done|]. split; [done|]. intros Ha. destruct Eo. by eapply above_owner. }
  destruct (Z.eqb_spec i j) as [->|Hij]; [exists true; split; [done|]; split; [intros _; constructor|done]|].
  destruct (Z.eqb_spec i (po_parent q)) as [Ei|Hip]; cbn [orb].
  { exists true. split; [done|]. split; [intros _|done]. eapply above_parent; [done|congruence|]. rewrite <- Ei. constructor. }
  assert (Hpar : exists r, permissions d !! po_parent q = Some r).
  { destruct (Z.eq_dec (po_parent q) 0) as [->|Hn]; [eexists; apply (pt_zero d T)|]. destruct (ro_up _ _ _ Hr Hn) as (r & ? & _). eauto. }
  destruct Hpar as [r Hpar]. rewrite Hpar.
  destruct (walk_up_spec (size (permissions d)) i (po_parent q) r Hi Hpar) as (b & -> & Hb).
  { unfold below. apply map_subseteq_size, map_filter_subseteq. }
  exists b. split; [done|]. rewrite Hb. split.
  - intros [Hn Ha]. destruct (Z.eq_dec (po_parent q) 0) as [E0|E0].
    { rewrite E0, (pt_zero d T) in Hpar. injection Hpar as <-. done. }
    eapply above_parent; [done|done|]. by eapply above_parent.
  - intros Ha. inversion Ha as [|j' q' Hq' Hn Ha' Ej]; subst; [done|]. rewrite Hq in Hq'. injection Hq' as <-.
    inversion Ha' as [|k r' Hr' Hn' Ha'' Ek]; subst; [done|]. rewrite Hpar in Hr'. by injection Hr' as <-.
Qed.
End tree.

(** ** The native actions keep the tree *)

Lemma eos_assert_Ok {S} b msg c (s : S) o u s' o' : eos_assert b msg c s o = Ok (u, s', o') -> b = true /\ s' = s /\ o' = o.
Proof. unfold eos_assert. destruct b; [|done]. intros [= <- <-]. done. Qed.

(** What the tree depends on. *)
Definition same_tree (d d' : auth_db) : Prop :=
  accounts d' = accounts d /\ permissions d' = permissions d /\ next_permission_id d' = next_permission_id d.

Lemma forest_grow d d' : perm_forest d -> permissions d' = permissions d -> next_permission_id d' = next_permission_id d ->
  (forall a, is_Some (accounts d !! a) -> is_Some (accounts d' !! a)) -> perm_forest d'.
Proof.
  intros [F1 F2 F3 F4] Ep En Ha. split; rewrite ?Ep, ?En; [exact F1|exact F2| |exact F4].
  intros i p Hp Hi. destruct (F3 i p Hp Hi). split; rewrite ?Ep; auto.
Qed.

Lemma tree_same d d' : same_tree d d' -> perm_tree d -> perm_tree d'.
Proof.
  intros (Ea & Ep & En) [F B]. split; [apply (forest_grow d); [done..|by rewrite Ea]|]. unfold has_base in *. by rewrite Ea, Ep.
Qed.

Lemma create_permission_Ok account nm parent auth time c s o p s' o' : create_permission account nm parent auth time c s o = Ok (p, s', o') ->
  by_owner s account nm = None /\ o' = o /\ po_id p = next_permission_id s /\ po_parent p = parent /\ po_owner p = account /\
  po_name p = nm /\ po_auth p = auth /\ permissions s' = <[next_permission_id s := p]> (permissions s) /\
  next_permission_id s' = next_permission_id s + 1 /\ accounts s' = accounts s /\ links s' = links s /\ resources s' = resources s.
Proof.
  unfold create_permission. intros H. apply bind_Ok in H as (now & ? & ? & (-> & -> & ->)%ask_Ok & H).
  apply bind_Ok in H as (d & ? & ? & (-> & -> & ->)%gets_Ok & H). cbv zeta in H. unfold id in H. destruct (by_owner s account nm); [done|].
  minv. done.
Qed.

Lemma forest_create d d' p : perm_forest d -> by_owner d (po_owner p) (po_name p) = None ->
  permissions d' = <[next_permission_id d := p]> (permissions d) -> next_permission_id d' = next_permission_id d + 1 ->
  accounts d' = accounts d -> po_id p = next_permission_id d -> row_ok d (next_permission_id d) p -> perm_forest d'.
Proof.
  intros F Hn Ep En Ea Hid Hr. pose proof F as [F1 F2 F3 F4]. pose proof (F2 0 _ F1) as [_ H0].
  assert (Hnew : permissions d !! next_permission_id d = None).
  { destruct (permissions d !! next_permission_id d) eqn:E; [|done]. apply F2 in E as [_ ?]. lia. }
  assert (Hmono : forall i q, row_ok d i q -> row_ok d' i q).
  { intros i q [R1 R2 R3 R4 R5 R6]. split; [done..| |by rewrite Ea]. intros Hq. destruct (R5 Hq) as (x & Hx & ?). exists x. split; [|done].
    rewrite Ep, lookup_insert_ne; [done|]. intros E. rewrite <- E in Hx. congruence. }
  split; rewrite ?Ep, ?En.
  - rewrite lookup_insert_ne by lia. done.
  - intros i q. rewrite lookup_insert. case_decide; [intros [= <-]; subst i; split; [done|lia]|]. intros [? ?]%F2. lia.
  - intros i q. rewrite lookup_insert. case_decide; [intros [= <-] _; subst i; auto|]. intros Hq Hi. apply Hmono. auto.
  - intros i j a b. rewrite !lookup_insert. repeat case_decide; subst; try done; [intros [= <-]|intros ? [= <-]|apply F4]; intros; exfalso.
    + by eapply (by_owner_None d); eauto.
    + by eapply (by_owner_None d); eauto.
Qed.

Lemma base_grow d d' a : (forall i p, permissions d !! i = Some p -> permissions d' !! i = Some p) -> has_base d a -> has_base d' a.
Proof. intros H (i & j & p & q & Hp & ? & ? & Hq & ? & ? & ?). exists i, j, p, q. auto 10. Qed.

Lemma create_grow d d' p : perm_forest d -> permissions d' = <[next_permission_id d := p]> (permissions d) ->
  forall i q, permissions d !! i = Some q -> permissions d' !! i = Some q.
Proof.
  intros F -> i q Hq. rewrite lookup_insert_ne; [done|]. apply (pt_id d F) in Hq. lia.
Qed.

Lemma add_ram_Ok a delta c s o u s' o' : add_ram_usage a delta c s o = Ok (u, s', o') ->
  exists r, add_pending_ram_usage a delta (resources s) = Ok r /\ s' = s <| resources := r |> /\ o' = o.
Proof. unfold add_ram_usage. intros H. minv. eauto. Qed.

Lemma precondition_same auth e k c s o u s' o' : validate_authority_precondition e k auth c s o = Ok (u, s', o') -> s' = s /\ o' = o.
Proof.
  unfold validate_authority_precondition. intros H. apply bind_Ok in H as (d & ? & ? & (-> & -> & ->)%gets_Ok & H).
  apply bind_Ok in H as (? & ? & ? & (_ & -> & ->)%lift_Ok & H). by apply eos_assert_Ok in H as (_ & -> & ->).
Qed.

Lemma when_assert_same {S} b b' msg c (s : S) o u s' o' : when b (eos_assert b' msg) c s o = Ok (u, s', o') ->
  (b = true -> b' = true) /\ s' = s /\ o' = o.
Proof. destruct b; cbn; [intros (? & ? & ?)%eos_assert_Ok|intros [= <- <- <-]]; done. Qed.

(** [astep H] runs the guards at the head of an action. *)
Ltac astep H :=
  first [apply bind_Ok in H as (?v & ?s & ?o & (?Hg & -> & ->)%require_auth_Ok & H)
        |apply bind_Ok in H as (?v & ?s & ?o & (?Hg & -> & ->)%eos_assert_Ok & H)
        |apply bind_Ok in H as (?v & ?s & ?o & (?Hg & -> & ->)%when_assert_same & H)
        |apply bind_Ok in H as (?v & ?s & ?o & (-> & ->)%precondition_same & H)
        |apply bind_Ok in H as (?v & ?s & ?o & (?Hg & -> & ->)%get_Ok & H)
        |apply bind_Ok in H as (?v & ?s & ?o & (-> & -> & ->)%find_Ok & H)
        |apply bind_Ok in H as (?v & ?s & ?o & (-> & -> & ->)%ask_Ok & H)
        |apply bind_Ok in H as (?v & ?s & ?o & (-> & -> & ->)%gets_Ok & H)
        |apply bind_Ok in H as (?v & ?s & ?o & (?Hg & -> & ->)%lift_Ok & H)].

(** What opening an account does, with the states between the rows it adds. *)
Definition opens_account (ps : Z -> Z) (nm : name) (owner active : authority) (s s' : auth_db) : Prop :=
  accounts s !! nm = None /\ exists p q s1 s2 r1 r2 act,
    accounts s1 = <[nm := act]> (accounts s) /\ permissions s1 = permissions s /\ next_permission_id s1 = next_permission_id s /\
    acct_code act = [] /\ acct_abi act = [] /\
    by_owner s1 nm owner_name = None /\ permissions s2 = <[next_permission_id s1 := p]> (permissions s1) /\
    next_permission_id s2 = next_permission_id s1 + 1 /\ accounts s2 = accounts s1 /\
    by_owner s2 nm active_name = None /\ permissions s' = <[next_permission_id s2 := q]> (permissions s2) /\
    next_permission_id s' = next_permission_id s2 + 1 /\ accounts s' = accounts s2 /\ links s' = links s /\
    po_id p = next_permission_id s1 /\ po_parent p = 0 /\ po_owner p = nm /\ po_name p = owner_name /\ po_auth p = owner /\
    po_id q = next_permission_id s2 /\ po_parent q = po_id p /\ po_owner q = nm /\ po_name q = active_name /\ po_auth q = active /\
    initialize_account nm (resources s) = Ok r1 /\
    add_pending_ram_usage nm (overhead_per_account_ram_bytes + 2 * billable_permission_object +
      get_billable_size ps owner + get_billable_size ps active) r1 = Ok r2 /\ resources s' = r2.

Lemma newaccount_effect cp creator nm owner active c s o u s' o' :
  auth_apply cp (ANewaccount creator nm owner active) c s o = Ok (u, s', o') ->
  nm <> 0 /\ opens_account (cp_pack_size cp) nm owner active s s'.
Proof.
  cbn [auth_apply]. unfold newaccount. intros H. do 10 astep H.
  match goal with E : negb (nm =? 0) = true |- _ => apply negb_true_iff, Z.eqb_neq in E as Hnm end.
  destruct (accounts s !! nm) as [|] eqn:Ea; [done|]. split; [done|]. split; [done|].
  apply bind_Ok in H as (? & s1 & ? & E1 & H). apply emplace_Ok in E1 as (_ & E1 & ->).
  assert (A1 : accounts s1 = <[nm := new_account false (current_time c)]> (accounts s) /\ permissions s1 = permissions s /\
    next_permission_id s1 = next_permission_id s /\ links s1 = links s /\ resources s1 = resources s) by (by rewrite E1).
  clear E1. destruct A1 as (A1 & A2 & A3 & A4 & A5). do 2 astep H.
  apply bind_Ok in H as (p & s2 & ? & Ep & H). apply create_permission_Ok in Ep as (P1 & -> & P2 & P3 & P4 & P5 & P6 & P7 & P8 & P9 & P10 & P11).
  apply bind_Ok in H as (q & s3 & ? & Eq & H). apply create_permission_Ok in Eq as (Q1 & -> & Q2 & Q3 & Q4 & Q5 & Q6 & Q7 & Q8 & Q9 & Q10 & Q11).
  apply bind_Ok in H as (? & ? & ? & (-> & -> & ->)%gets_Ok & H). apply bind_Ok in H as (r1 & ? & ? & (Hr1 & -> & ->)%lift_Ok & H).
  apply bind_Ok in H as (? & s4 & ? & Hs & H). apply assign_Ok in Hs as (-> & ->). apply add_ram_Ok in H as (r2 & Hr2 & -> & ->).
  rewrite Q11, P11, A5 in Hr1. rewrite P6, Q6 in Hr2.
  exists p, q, s1, s2, r1, r2, (new_account false (current_time c)).
  do 3 (split; [assumption|]). do 2 (split; [reflexivity|]).
  do 8 (split; [assumption|]). split; [exact (eq_trans Q10 (eq_trans P10 A4))|].
  do 11 (split; [assumption|]). split; [exact Hr2|reflexivity].
Qed.

Lemma create_native_effect ps t nm owner active b c s o u s' o' :
  create_native_account ps t nm owner active b c s o = Ok (u, s', o') -> opens_account ps nm owner active s s'.
Proof.
  intros H. unfold create_native_account in H.
  apply bind_Ok in H as (? & s1 & ? & E1 & H). apply emplace_Ok in E1 as (E0 & E1 & ->).
  assert (A1 : accounts s1 = <[nm := new_account b t]> (accounts s) /\ permissions s1 = permissions s /\
    next_permission_id s1 = next_permission_id s /\ links s1 = links s /\ resources s1 = resources s) by (by rewrite E1).
  clear E1. destruct A1 as (A1 & A2 & A3 & A4 & A5). split; [exact E0|].
  apply bind_Ok in H as (p & s2 & ? & Ep & H). apply create_permission_Ok in Ep as (P1 & -> & P2 & P3 & P4 & P5 & P6 & P7 & P8 & P9 & P10 & P11).
  apply bind_Ok in H as (q & s3 & ? & Eq & H). apply create_permission_Ok in Eq as (Q1 & -> & Q2 & Q3 & Q4 & Q5 & Q6 & Q7 & Q8 & Q9 & Q10 & Q11).
  apply bind_Ok in H as (? & ? & ? & (-> & -> & ->)%gets_Ok & H). apply bind_Ok in H as (r1 & ? & ? & (Hr1 & -> & ->)%lift_Ok & H).
  apply bind_Ok in H as (r2 & ? & ? & (Hr2 & -> & ->)%lift_Ok & H). apply bind_Ok in H as (? & ? & ? & (_ & -> & ->)%lift_Ok & H).
  apply assign_Ok in H as (-> & ->). rewrite Q11, P11, A5 in Hr1. rewrite P6, Q6 in Hr2.
  exists p, q, s1, s2, r1, r2, (new_account b t).
  do 3 (split; [assumption|]). do 2 (split; [reflexivity|]).
  do 8 (split; [assumption|]). split; [exact (eq_trans Q10 (eq_trans P10 A4))|].
  do 11 (split; [assumption|]). split; [exact Hr2|reflexivity].
Qed.

Lemma updateauth_effect cp account permission parent auth c s o u s' o' :
  auth_apply cp (AUpdateauth account permission parent auth) c s o = Ok (u, s', o') ->
  is_Some (accounts s !! account) /\ accounts s' = accounts s /\ links s' = links s /\ account <> 0 /\ permission <> 0 /\
  exists pid, (if permission =? owner_name then pid = 0 else exists q, get_permission s (account, parent) = Ok q /\ pid = po_id q) /\
  match by_owner s account permission with
  | Some p => pid = po_parent p /\ next_permission_id s' = next_permission_id s /\ (exists row, permissions s !! po_id p = Some row /\
      permissions s' = <[po_id p := row <| po_auth := auth |> <| last_updated := current_time c |>]> (permissions s)) /\
      add_pending_ram_usage (po_owner p) (billable_permission_object + get_billable_size (cp_pack_size cp) auth - permission_size (cp_pack_size cp) p)
        (resources s) = Ok (resources s')
  | None => exists p, po_id p = next_permission_id s /\ po_parent p = pid /\ po_owner p = account /\ po_name p = permission /\
      po_auth p = auth /\ permissions s' = <[next_permission_id s := p]> (permissions s) /\
      next_permission_id s' = next_permission_id s + 1 /\
      add_pending_ram_usage account (permission_size (cp_pack_size cp) p) (resources s) = Ok (resources s')
  end.
Proof.
  cbn [auth_apply]. unfold updateauth. intros H. do 7 astep H.
  assert (Hacc : is_Some (accounts s !! account)) by eauto.
  apply bind_Ok in H as (? & s1 & o1 & Hd & H).
  assert (s1 = s /\ o1 = o) as [-> ->] by (destruct (permission =? owner_name); by apply eos_assert_Ok in Hd as (_ & -> & ->)). clear Hd.
  apply bind_Ok in H as (? & s1 & o1 & Hd & H).
  assert (s1 = s /\ o1 = o) as [-> ->] by (destruct (last (auth_waits auth)); [by apply eos_assert_Ok in Hd as (_ & -> & ->)|by injection Hd as <- <-]). clear Hd.
  do 2 astep H. apply bind_Ok in H as (existing & ? & ? & (Hf & -> & ->)%lift_Ok & H). unfold id in Hf.
  apply bind_Ok in H as (pid & s1 & o1 & Hp & H).
  unfold find_permission in Hf. cbn [fst snd] in Hf. destruct (Z.eqb_spec account 0) as [|Ha0]; [done|]. destruct (Z.eqb_spec permission 0) as [|Hp0]; [done|].
  injection Hf as <-.
  assert (Hpid : s1 = s /\ o1 = o /\ if permission =? owner_name then pid = 0 else exists q, get_permission s (account, parent) = Ok q /\ pid = po_id q).
  { destruct (permission =? owner_name); cbn [negb] in Hp; [by injection Hp as <- <- <-|].
    apply bind_Ok in Hp as (q & ? & ? & (Hq & -> & ->)%lift_Ok & Hp). injection Hp as <- <- <-. eauto. }
  destruct Hpid as (-> & -> & Hpid). clear Hp. unfold id in H.
  destruct (by_owner s account permission) as [p|] eqn:Eb.
  - apply bind_Ok in H as (? & ? & ? & (Ep%Z.eqb_eq & -> & ->)%eos_assert_Ok & H). cbv zeta in H.
    apply bind_Ok in H as (? & s1 & ? & Hm & H). unfold modify_permission in Hm. apply bind_Ok in Hm as (now & ? & ? & (-> & -> & ->)%ask_Ok & Hm).
    apply modify_Ok in Hm as (row & row' & Hrow & [= <-] & E1 & ->). apply add_ram_Ok in H as (r & Hr & -> & ->).
    assert (Es : accounts s1 = accounts s /\ links s1 = links s /\ next_permission_id s1 = next_permission_id s /\ resources s1 = resources s /\
      permissions s1 = <[po_id p := row <| po_auth := auth |> <| last_updated := current_time c |>]> (permissions s)) by (by rewrite E1).
    destruct Es as (Ea & El & En & Er & Epm). rewrite Er in Hr. do 3 (split; [assumption|]). do 2 (split; [assumption|]).
    exists pid. split; [exact Hpid|]. split; [exact Ep|]. split; [exact En|]. split; [|exact Hr]. exists row. split; [exact Hrow|exact Epm].
  - apply bind_Ok in H as (p & s1 & ? & Hc & H).
    apply create_permission_Ok in Hc as (_ & -> & P2 & P3 & P4 & P5 & P6 & P7 & P8 & P9 & P10 & P11).
    apply add_ram_Ok in H as (r & Hr & -> & ->). rewrite P11 in Hr.
    do 3 (split; [assumption|]). do 2 (split; [assumption|]). exists pid. split; [exact Hpid|]. exists p. do 7 (split; [assumption|]). exact Hr.
Qed.

Lemma deleteauth_effect cp account permission c s o u s' o' :
  auth_apply cp (ADeleteauth account permission) c s o = Ok (u, s', o') ->
  permission <> active_name /\ permission <> owner_name /\ linked s account permission = false /\
  accounts s' = accounts s /\ links s' = links s /\ next_permission_id s' = next_permission_id s /\
  exists p row, get_permission s (account, permission) = Ok p /\ has_children s (po_id p) = false /\
    permissions s !! po_id p = Some row /\ permissions s' = delete (po_id p) (permissions s) /\
    add_pending_ram_usage account (- permission_size (cp_pack_size cp) p) (resources s) = Ok (resources s').
Proof.
  cbn [auth_apply]. unfold deleteauth. intros H. do 5 astep H.
  repeat match goal with E : negb (_ =? _) = true |- _ => apply negb_true_iff, Z.eqb_neq in E end.
  match goal with E : negb (linked _ _ _) = true |- _ => apply negb_true_iff in E; unfold id in E end.
  apply bind_Ok in H as (p & ? & ? & (Hp & -> & ->)%lift_Ok & H). unfold id in Hp. cbv zeta in H.
  apply bind_Ok in H as (? & s1 & ? & Hm & H). unfold remove_permission in Hm. do 2 astep Hm.
  match goal with E : negb (has_children _ _) = true |- _ => apply negb_true_iff in E; unfold id in E end.
  apply bind_Ok in Hm as (? & s2 & ? & E2 & Hm). apply assign_Ok in E2 as (E2 & ->). apply erase_Ok in Hm as (row & Hrow & E1 & ->).
  apply add_ram_Ok in H as (r & Hr & -> & ->).
  assert (Es : accounts s1 = accounts s /\ links s1 = links s /\ next_permission_id s1 = next_permission_id s /\ resources s1 = resources s /\
    permissions s1 = delete (po_id p) (permissions s) /\ permissions s !! po_id p = Some row) by (rewrite E1, E2 in *; done).
  destruct Es as (Ea & El & En & Er & Epm & Hrow'). rewrite Er in Hr. do 6 (split; [assumption|]).
  exists p, row. do 4 (split; [assumption|]). exact Hr.
Qed.

Lemma linkauth_effect cp account code type requirement c s o u s' o' :
  auth_apply cp (ALinkauth account code type requirement) c s o = Ok (u, s', o') ->
  same_tree s s' /\ links s' = <[(account, code, type) := requirement]> (links s) /\ is_Some (accounts s !! account) /\
  match links s !! (account, code, type) with
  | Some _ => resources s' = resources s
  | None => add_pending_ram_usage account billable_permission_link_object (resources s) = Ok (resources s')
  end.
Proof.
  cbn [auth_apply]. unfold linkauth. intros H. do 7 astep H.
  match goal with E : account_exists _ account = true |- _ => rename E into Hacc end.
  assert (Hs : is_Some (accounts s !! account)) by (unfold account_exists, id in Hacc; destruct (accounts s !! account); [eauto|done]).
  destruct (links s !! (account, code, type)) as [required|].
  - astep H. apply put_Ok in H as (-> & ->). done.
  - apply bind_Ok in H as (? & s1 & ? & E1 & H). apply put_Ok in E1 as (E1 & ->). apply add_ram_Ok in H as (r & Hr & -> & ->).
    rewrite E1 in *. done.
Qed.

Lemma unlinkauth_effect cp account code type c s o u s' o' :
  auth_apply cp (AUnlinkauth account code type) c s o = Ok (u, s', o') ->
  same_tree s s' /\ links s' = delete (account, code, type) (links s) /\ is_Some (links s !! (account, code, type)) /\
  add_pending_ram_usage account (- billable_permission_link_object) (resources s) = Ok (resources s').
Proof.
  cbn [auth_apply]. unfold unlinkauth. intros H. do 3 astep H.
  apply bind_Ok in H as (? & s1 & ? & E1 & H). apply add_ram_Ok in E1 as (r & Hr & E1 & ->). apply erase_Ok in H as (row & Hrow & E2 & ->).
  rewrite E1 in *. rewrite E2. split; [done|]. split; [done|]. split; [|done]. eexists. exact Hrow.
Qed.

(** What an account itself is billed for. *)
Definition account_size (a : account_object) : Z :=
  overhead_per_account_ram_bytes + setcode_ram_bytes_multiplier * bytes_size (acct_code a) + bytes_size (acct_abi a).

(** A new code or abi is billed by the difference of the sizes. *)
Definition resizes (account : name) (s s' : auth_db) : Prop :=
  permissions s' = permissions s /\ next_permission_id s' = next_permission_id s /\ links s' = links s /\
  exists a a', accounts s !! account = Some a /\ accounts s' = <[account := a']> (accounts s) /\
    add_pending_ram_usage account (account_size a' - account_size a) (resources s) = Ok (resources s').

Lemma when_ram_Ok account n m c s o u s' o' : when (negb (n =? m)) (add_ram_usage account (n - m)) c s o = Ok (u, s', o') ->
  exists r, add_pending_ram_usage account (n - m) (resources s) = Ok r /\ s' = s <| resources := r |>.
Proof.
  unfold when. destruct (Z.eqb_spec n m) as [->|]; cbn [negb].
  - intros [= _ <- _]. exists (resources s). split; [by rewrite Z.sub_diag|by destruct s].
  - intros (r & Hr & -> & _)%add_ram_Ok. by exists r.
Qed.

Lemma setcode_effect cp account vmtype vmversion code c s o u s' o' :
  auth_apply cp (ASetcode account vmtype vmversion code) c s o = Ok (u, s', o') -> resizes account s s'.
Proof.
  cbn [auth_apply]. unfold setcode. cbv zeta. intros H. do 5 astep H.
  match goal with E : accounts s !! account = Some ?x |- _ => rename x into a; rename E into Ha end. do 2 astep H.
  apply bind_Ok in H as (? & s1 & ? & E1 & H). apply modify_Ok in E1 as (a0 & a' & Ha' & [= <-] & E1 & ->). apply when_ram_Ok in H as (r & Hr & ->).
  rewrite Ha in Ha'. injection Ha' as <-. rewrite E1 in *. do 3 (split; [done|]). eexists a, _. split; [done|]. split; [done|].
  cbn. rewrite <- Hr. f_equal. unfold account_size. cbn. lia.
Qed.

Lemma setabi_effect cp account abi c s o u s' o' :
  auth_apply cp (ASetabi account abi) c s o = Ok (u, s', o') -> resizes account s s'.
Proof.
  cbn [auth_apply]. unfold setabi. cbv zeta. intros H. do 2 astep H.
  match goal with E : accounts s !! account = Some ?x |- _ => rename x into a; rename E into Ha end.
  apply bind_Ok in H as (? & s1 & ? & E1 & H). apply modify_Ok in E1 as (a0 & a' & Ha' & [= <-] & E1 & ->). apply when_ram_Ok in H as (r & Hr & ->).
  rewrite Ha in Ha'. injection Ha' as <-. rewrite E1 in *. do 3 (split; [done|]). eexists a, _. split; [done|]. split; [done|].
  cbn. rewrite <- Hr. f_equal. unfold account_size. cbn. lia.
Qed.

(** A permission of the producers' account gets another authority, and nothing else changes. *)
Definition reauthorizes (s s' : auth_db) : Prop :=
  s' = s \/ exists i p auth, permissions s !! i = Some p /\ i = po_id p /\ po_owner p = producers_account_name /\
    s' = s <| permissions := <[i := p <| po_auth := auth |>]> (permissions s) |>.

Lemma producers_permission_effect producers nm n m c s o u s' o' : perm_forest s ->
  producers_permission producers nm n m c s o = Ok (u, s', o') -> reauthorizes s s'.
Proof.
  intros F. unfold producers_permission. intros H. do 2 astep H. match goal with E : get_permission _ _ = Ok ?x |- _ => rename x into p; rename E into Hp end.
  apply get_permission_Some in Hp as (_ & _ & i & Hi & Ho & _). unfold id in Hi. cbn [fst] in Ho. destruct (pt_id s F i p Hi) as [Eid _].
  unfold update_permission, when in H. destruct (negb _); [|injection H as _ <- _; by left].
  apply modify_Ok in H as (row & row' & Hrow & [= <-] & -> & _). subst i. rewrite Hi in Hrow. injection Hrow as <-. right.
  eexists _, p, _. do 3 (split; [done|]). reflexivity.
Qed.

Lemma owner_not_active : owner_name <> active_name /\ owner_name <> 0 /\ active_name <> 0.
Proof. repeat split; vm_compute; discriminate. Qed.

#[local] Opaque owner_name active_name.

Lemma next_positive d : perm_forest d -> 0 < next_permission_id d.
Proof. intros F. pose proof (pt_id d F 0 _ (pt_zero d F)). lia. Qed.

(** A new account with its two permissions. *)
Lemma opens_tree ps nm owner active s s' : perm_tree s -> nm <> 0 -> opens_account ps nm owner active s s' -> perm_tree s'.
Proof.
  intros [F B] Hnm (_ & p & q & s1 & s2 & r1 & r2 & act & A1 & A2 & A3 & _ & _ & P1 & P2 & P3 & P4 & Q1 & Q2 & Q3 & Q4 &
    _ & E1 & E2 & E3 & E4 & _ & E5 & E6 & E7 & E8 & _).
  destruct owner_not_active as (N1 & N2 & N3). pose proof (next_positive s F) as Hpos.
  assert (F1 : perm_forest s1).
  { apply (forest_grow s); [done..|]. intros a Ha. rewrite A1, lookup_insert. case_decide; [by eexists|done]. }
  assert (Hacc : is_Some (accounts s1 !! nm)) by (rewrite A1, lookup_insert_eq; by eexists).
  assert (F2 : perm_forest s2).
  { apply (forest_create s1 s2 p); [exact F1|rewrite E3, E4; exact P1|assumption..|]. split; rewrite ?E2, ?E3, ?E4; [done|done|lia|tauto|lia|done]. }
  assert (Hp : permissions s2 !! next_permission_id s1 = Some p) by (rewrite P2; apply lookup_insert_eq).
  assert (F3 : perm_forest s').
  { apply (forest_create s2 s' q); [exact F2|rewrite E7, E8; exact Q1|assumption..|].
    split; rewrite ?E6, ?E7, ?E8, ?E1, ?P4; [done|done|lia|split; [lia|congruence]| |done].
    intros _. exists p. split; [exact Hp|]. congruence. }
  pose proof (create_grow s1 s2 p F1 P2) as G1. pose proof (create_grow s2 s' q F2 Q2) as G2.
  split; [done|]. intros a Ha. rewrite Q4, P4, A1 in Ha. destruct (decide (a = nm)) as [->|Hne].
  - exists (next_permission_id s1), (next_permission_id s2), p, q. split; [by apply G2|]. do 2 (split; [done|]).
    split; [rewrite Q2; apply lookup_insert_eq|]. do 2 (split; [done|]). congruence.
  - rewrite lookup_insert_ne in Ha by congruence. apply (base_grow s2 s' a G2), (base_grow s1 s2 a G1). destruct (B a Ha) as (i & j & x & y & Hx).
    exists i, j, x, y. by rewrite A2.
Qed.

(** Replacing a row by one with the same place in the tree. *)
Lemma tree_modify d d' i row row' : perm_tree d -> permissions d !! i = Some row -> i <> 0 ->
  permissions d' = <[i := row']> (permissions d) -> accounts d' = accounts d -> next_permission_id d' = next_permission_id d ->
  po_id row' = po_id row -> po_parent row' = po_parent row -> po_owner row' = po_owner row -> po_name row' = po_name row -> perm_tree d'.
Proof.
  intros [[F1 F2 F3 F4] B] Hi Hi0 Ep Ea En R1 R2 R3 R4.
  assert (Hl : forall j q', permissions d' !! j = Some q' -> exists q, permissions d !! j = Some q /\ po_id q' = po_id q /\
    po_parent q' = po_parent q /\ po_owner q' = po_owner q /\ po_name q' = po_name q).
  { intros j q'. rewrite Ep, lookup_insert. case_decide; [subst j; intros [= <-]; eauto 10|]. intros Hq. eauto 10. }
  assert (Hr : forall j q, permissions d !! j = Some q -> exists q', permissions d' !! j = Some q' /\ po_id q' = po_id q /\
    po_parent q' = po_parent q /\ po_owner q' = po_owner q /\ po_name q' = po_name q).
  { intros j q Hq. rewrite Ep, lookup_insert. case_decide; [subst j|eauto 10]. rewrite Hi in Hq. injection Hq as <-. eauto 10. }
  split; [split|].
  - by rewrite Ep, lookup_insert_ne.
  - intros j q' (q & Hq & E1 & _)%Hl. rewrite E1, En. by apply F2.
  - intros j q' (q & Hq & E1 & E2 & E3 & E4)%Hl Hj. destruct (F3 j q Hq Hj) as [G1 G2 G3 G4 G5 G6]. split; rewrite ?E2, ?E3, ?E4, ?Ea; try done.
    intros (x & Hx & Ex)%G5. destruct (Hr _ _ Hx) as (x' & Hx' & _ & _ & Eo & _). exists x'. split; [done|]. congruence.
  - intros j k a' b' (a & Ha & _ & _ & A3 & A4)%Hl (b & Hb & _ & _ & B3 & B4)%Hl Eo Enm. apply (F4 j k a b); congruence.
  - intros a Hacc. rewrite Ea in Hacc. destruct (B a Hacc) as (j & k & p & q & Hp & P1 & P2 & Hq & Q1 & Q2 & Q3).
    destruct (Hr _ _ Hp) as (p' & Hp' & _ & _ & P3 & P4). destruct (Hr _ _ Hq) as (q' & Hq' & _ & Q4 & Q5 & Q6).
    exists j, k, p', q'. repeat (split; [first [assumption|congruence]|]). congruence.
Qed.

(** A new permission below an existing one of its owner. *)
Lemma tree_child d d' p i q : perm_tree d -> by_owner d (po_owner p) (po_name p) = None -> po_owner p <> 0 -> po_name p <> 0 ->
  po_name p <> owner_name -> permissions d !! i = Some q -> po_owner q = po_owner p -> po_parent p = po_id q ->
  po_id p = next_permission_id d -> permissions d' = <[next_permission_id d := p]> (permissions d) ->
  next_permission_id d' = next_permission_id d + 1 -> accounts d' = accounts d -> perm_tree d'.
Proof.
  intros [F B] Eb Ho Hn Hno Hi Eo Epar Eid Ep En Ea.
  destruct (row_of_named d F i q Hi ltac:(congruence)) as (Hi0 & Eq & Hr). pose proof (pt_id d F i q Hi) as [_ Hlt].
  split; [|intros a Hac; rewrite Ea in Hac; apply (base_grow d); [by apply (create_grow d d' p F)|by apply B]].
  apply (forest_create d d' p); [assumption..|]. split; rewrite ?Epar, ?Eq; [assumption|assumption|lia|split; [lia|congruence]| |].
  - intros _. exists q. split; [exact Hi|exact Eo].
  - rewrite <- Eo. apply Hr.
Qed.

Lemma updateauth_tree cp account permission parent auth c s o u s' o' : perm_tree s ->
  auth_apply cp (AUpdateauth account permission parent auth) c s o = Ok (u, s', o') -> perm_tree s'.
Proof.
  intros [F B] H. apply updateauth_effect in H as (Hacc & Ea & _ & Ha0 & Hp0 & pid & Hpid & H).
  destruct (by_owner s account permission) as [p|] eqn:Eb.
  - destruct H as (_ & En & (row & Hrow & Ep) & _). apply by_owner_Some in Eb as (i & Hi & E1 & E2).
    destruct (row_of_named s F i p Hi ltac:(congruence)) as (Hi0 & Eid & _). rewrite Eid in *.
    by eapply (tree_modify s s' i row); [split|done..].
  - destruct H as (p & P2 & P3 & P4 & P5 & _ & Ep & En & _).
    assert (Hno : permission <> owner_name).
    { intros ->. destruct (B account Hacc) as (i & _ & x & _ & Hx & X1 & X2 & _). by eapply (by_owner_None s). }
    rewrite (proj2 (Z.eqb_neq _ _) Hno) in Hpid. destruct Hpid as (q & Hq & ->).
    apply get_permission_Some in Hq as (_ & _ & i & Hi & Q1 & Q2). cbn [fst snd] in Q1, Q2.
    apply (tree_child s s' p i q); try congruence. by split.
Qed.

Lemma deleteauth_tree cp account permission c s o u s' o' : perm_tree s ->
  auth_apply cp (ADeleteauth account permission) c s o = Ok (u, s', o') -> perm_tree s'.
Proof.
  intros [F B] H. apply deleteauth_effect in H as (Hna & Hno & _ & Ea & _ & En & p & row & Hp & Hch & Hrow & Ep & _).
  apply get_permission_Some in Hp as (Ha0 & _ & i & Hi & P1 & P2). cbn [fst snd] in *.
  destruct (row_of_named s F i p Hi ltac:(congruence)) as (Hi0 & Eid & _). rewrite Eid in *. clear Hrow row. pose proof F as [F1 F2 F3 F4].
  assert (Hch' : forall j q, permissions s !! j = Some q -> po_parent q <> i).
  { intros j q Hq E. unfold has_children in Hch. apply not_true_iff_false in Hch. apply Hch, existsb_exists. exists (j, q).
    split; [apply list_elem_of_In, elem_of_map_to_list; done|]. cbn. by apply Z.eqb_eq. }
  split; [split|]; rewrite ?Ep, ?En.
  - by rewrite lookup_delete_ne.
  - intros j q [_ Hq]%lookup_delete_Some. by apply F2.
  - intros j q [_ Hq]%lookup_delete_Some Hj. destruct (F3 j q Hq Hj) as [G1 G2 G3 G4 G5 G6]. split; rewrite ?Ea; try done.
    intros (x & Hx & Ex)%G5. exists x. split; [|done]. rewrite Ep, lookup_delete_ne; [done|]. intros E. by apply (Hch' j q Hq).
  - intros j k a b [_ Hj]%lookup_delete_Some [_ Hk]%lookup_delete_Some. by apply F4.
  - intros a Hacc. rewrite Ea in Hacc. destruct (B a Hacc) as (j & k & x & y & Hx & X1 & X2 & Hy & Y1 & Y2 & Y3).
    assert (j <> i) by (intros ->; congruence). assert (k <> i) by (intros ->; congruence).
    exists j, k, x, y. rewrite Ep, !lookup_delete_ne by congruence. repeat (split; [assumption|]). assumption.
Qed.

Lemma reauthorizes_tree s s' : perm_tree s -> reauthorizes s s' -> perm_tree s'.
Proof.
  intros T [->|(i & p & auth & Hi & Eid & Ho & ->)]; [done|]. eapply (tree_modify s _ i p); try done.
  intros ->. rewrite (pt_zero s (proj1 T)) in Hi. injection Hi as <-. cbn in Ho. revert Ho. vm_compute. done.
Qed.

Lemma producers_effect cp producers c s o u s' o' : perm_tree s -> auth_apply cp (AProducers producers) c s o = Ok (u, s', o') ->
  exists s1 s2, perm_tree s1 /\ perm_tree s2 /\ perm_tree s' /\ reauthorizes s s1 /\ reauthorizes s1 s2 /\ reauthorizes s2 s'.
Proof.
  intros T. cbn [auth_apply]. unfold update_producers_authority. intros H.
  apply bind_Ok in H as (? & s1 & ? & H1%producers_permission_effect & H); [|apply T]. pose proof (reauthorizes_tree _ _ T H1) as T1.
  apply bind_Ok in H as (? & s2 & ? & H2%producers_permission_effect & H); [|apply T1]. pose proof (reauthorizes_tree _ _ T1 H2) as T2.
  apply producers_permission_effect in H as H3; [|apply T2]. exists s1, s2. pose proof (reauthorizes_tree _ _ T2 H3). done.
Qed.

(** Every account of before and none more. *)
Lemma resizes_tree account s s' : perm_tree s -> resizes account s s' -> perm_tree s'.
Proof.
  intros [F B] (Ep & En & _ & a & a' & Ha & Ea & _).
  assert (Hs : forall x, is_Some (accounts s' !! x) <-> is_Some (accounts s !! x)).
  { intros x. rewrite Ea, lookup_insert. case_decide; [subst x; rewrite Ha; split; by eexists|done]. }
  split; [apply (forest_grow s); [done..|]; intros x; apply Hs|]. intros x Hx%Hs. apply (base_grow s); [by rewrite Ep|by apply B].
Qed.

Lemma auth_apply_tree cp a c s o u s' o' : perm_tree s -> auth_apply cp a c s o = Ok (u, s', o') -> perm_tree s'.
Proof.
  intros T H. destruct a.
  - apply newaccount_effect in H as [Hnm H]. by eapply opens_tree.
  - by eapply updateauth_tree.
  - by eapply deleteauth_tree.
  - apply linkauth_effect in H as (Hs & _). by apply (tree_same s).
  - apply unlinkauth_effect in H as (Hs & _). by apply (tree_same s).
  - apply setcode_effect in H. by eapply resizes_tree.
  - apply setabi_effect in H. by eapply resizes_tree.
  - apply producers_effect in H as (s1 & s2 & _ & _ & T' & _); done.
Qed.

(** ** The genesis *)

Lemma create_native_tree ps t nm owner active b c s o u s' o' : perm_tree s -> nm <> 0 ->
  create_native_account ps t nm owner active b c s o = Ok (u, s', o') -> perm_tree s'.
Proof. intros T Hnm H%create_native_effect. by eapply opens_tree. Qed.

Lemma db_init_tree : perm_tree db_init.
Proof.
  unfold db_init. split; [split; cbn [permissions next_permission_id accounts]|].
  - done.
  - intros i p [<- <-]%lookup_singleton_Some. cbn. lia.
  - intros i p [<- <-]%lookup_singleton_Some. done.
  - by intros i j p q [<- <-]%lookup_singleton_Some [<- <-]%lookup_singleton_Some.
  - intros a. cbn. rewrite lookup_empty. by intros [? ?].
Qed.

(** ** RAM *)

Definition ram_of (d : auth_db) (a : name) : Z :=
  match rl_usage (resources d) !! a with Some u => ram_usage u | None => 0 end.

(** What the account, its permissions and its links are billed for. *)
Definition booked (ps : Z -> Z) (d : auth_db) (a : name) : Z :=
  match accounts d !! a with Some x => account_size x | None => 0 end +
  map_sum (fun _ p => if po_owner p =? a then permission_size ps p else 0) (permissions d) +
  map_sum (fun k _ => if k.1.1 =? a then billable_permission_link_object else 0) (links d).

Definition usage_typed (r : resource_limits_manager) : Prop := forall a u, rl_usage r !! a = Some u -> is_u64 (ram_usage u).

Lemma add_pending_ram_effect a delta r r' : usage_typed r -> add_pending_ram_usage a delta r = Ok r' ->
  forall x, match rl_usage r' !! x with Some u => ram_usage u | None => 0 end =
    match rl_usage r !! x with Some u => ram_usage u | None => 0 end + if x =? a then delta else 0.
Proof.
  intros Ht H x. unfold add_pending_ram_usage in H. destruct (Z.eqb_spec delta 0) as [->|Hd].
  { injection H as <-. destruct (x =? a); lia. }
  destruct (rl_usage r !! a) as [u|] eqn:Eu; [|done]. cbn [rl_get mbind res_bind] in H.
  apply res_bind_ok in H as (? & H1%rl_assert_Ok & H). apply res_bind_ok in H as (? & H2%rl_assert_Ok & H). injection H as <-.
  pose proof (Ht a u Eu) as Hu. unfold is_u64 in Hu. cbn. rewrite lookup_insert. destruct (Z.eqb_spec x a) as [->|Hne].
  - rewrite decide_True, Eu by done. cbn. apply u64_id. unfold is_u64, uint64_max in *.
    apply orb_true_iff in H1, H2. rewrite !Z.leb_le in H1, H2. lia.
  - rewrite decide_False by congruence. lia.
Qed.

(** The bill of the permissions after adding a row. *)
Lemma perms_new ps a d d' p : perm_forest d -> permissions d' = <[next_permission_id d := p]> (permissions d) ->
  map_sum (fun _ p => if po_owner p =? a then permission_size ps p else 0) (permissions d') =
  (if po_owner p =? a then permission_size ps p else 0) + map_sum (fun _ p => if po_owner p =? a then permission_size ps p else 0) (permissions d).
Proof.
  intros F ->. rewrite map_sum_insert_new; [done|]. destruct (permissions d !! _) eqn:E; [|done]. apply (pt_id d F) in E. lia.
Qed.

Lemma opens_ram ps nm owner active s s' x : perm_tree s -> usage_typed (resources s) -> opens_account ps nm owner active s s' ->
  ram_of s' x - ram_of s x = booked ps s' x - booked ps s x.
Proof.
  intros [F _] Ht (Hnone & p & q & s1 & s2 & r1 & r2 & act & A1 & A2 & A3 & C1 & C2 & P1 & P2 & P3 & P4 & Q1 & Q2 & Q3 & Q4 &
    EL & E1 & E2 & E3 & E4 & E9 & E5 & E6 & E7 & E8 & E10 & R1 & R2 & R3). pose proof (next_positive s F) as Hpos.
  unfold booked. rewrite EL. assert (EA : accounts s' = <[nm := act]> (accounts s)) by congruence. rewrite EA, lookup_insert.
  assert (Hq : forall g, map_sum g (permissions s') = g (next_permission_id s2) q + (g (next_permission_id s1) p + map_sum g (permissions s))).
  { intros g. rewrite Q2, map_sum_insert_new, P2, map_sum_insert_new, A2; [done|rewrite A2, A3|rewrite P2, lookup_insert_ne, A2, P3, A3 by lia];
      (destruct (permissions s !! _) eqn:E; [apply (pt_id s F) in E; lia|done]). }
  rewrite Hq, E3, E7. unfold permission_size. rewrite E9, E10.
  unfold initialize_account in R1. destruct (rl_limits (resources s) !! (false, nm)); [done|]. destruct (rl_usage (resources s) !! nm) eqn:Eu; [done|].
  injection R1 as R1. assert (Ht1 : usage_typed r1).
  { subst r1. intros a v. cbn. rewrite lookup_insert. case_decide; [intros [= <-]; unfold is_u64; cbn; lia|apply Ht]. }
  pose proof (add_pending_ram_effect _ _ _ _ Ht1 R2 x) as Hx. unfold ram_of. rewrite R3, Hx. subst r1. cbn. rewrite lookup_insert.
  destruct (Z.eqb_spec nm x) as [->|Hne].
  - rewrite !decide_True, Eu, Hnone, Z.eqb_refl by done. unfold account_size. rewrite C1, C2. unfold bytes_size. cbn [length]. cbn. lia.
  - rewrite !decide_False by done. rewrite (proj2 (Z.eqb_neq x nm)) by congruence. cbn. lia.
Qed.

Lemma updateauth_ram cp account permission parent auth c s o u s' o' x : perm_tree s -> usage_typed (resources s) ->
  auth_apply cp (AUpdateauth account permission parent auth) c s o = Ok (u, s', o') ->
  ram_of s' x - ram_of s x = booked (cp_pack_size cp) s' x - booked (cp_pack_size cp) s x.
Proof.
  intros [F _] Ht H. apply updateauth_effect in H as (_ & Ea & EL & Ha0 & _ & pid & _ & H).
  unfold booked, ram_of. rewrite EL, Ea. destruct (by_owner s account permission) as [p|] eqn:Eb.
  - destruct H as (_ & _ & (row & Hrow & Ep) & Hr). apply by_owner_Some in Eb as (i & Hi & E1 & E2).
    destruct (row_of_named s F i p Hi ltac:(congruence)) as (_ & Eid & _). rewrite Eid in *. rewrite Hi in Hrow. injection Hrow as <-.
    rewrite (add_pending_ram_effect _ _ _ _ Ht Hr x), Ep, (map_sum_insert _ _ _ p) by done. cbn. unfold permission_size. cbn.
    rewrite (Z.eqb_sym x). destruct (po_owner p =? x); lia.
  - destruct H as (p & _ & _ & P4 & _ & _ & Ep & _ & Hr).
    rewrite (add_pending_ram_effect _ _ _ _ Ht Hr x), (perms_new _ x s s' p F Ep), P4. rewrite (Z.eqb_sym x). destruct (account =? x); lia.
Qed.

Lemma resizes_ram ps account s s' x : usage_typed (resources s) -> resizes account s s' ->
  ram_of s' x - ram_of s x = booked ps s' x - booked ps s x.
Proof.
  intros Ht (Ep & _ & EL & a & a' & Ha & Ea & Hr). unfold booked, ram_of. rewrite EL, Ep, Ea, (add_pending_ram_effect _ _ _ _ Ht Hr x), lookup_insert.
  destruct (Z.eqb_spec x account) as [->|Hne]; [rewrite decide_True, Ha by done; lia|rewrite decide_False by congruence; lia].
Qed.

Lemma reauthorizes_same ps s s' x : x <> producers_account_name -> reauthorizes s s' -> resources s' = resources s /\ booked ps s' x = booked ps s x.
Proof.
  intros Hx [->|(i & p & auth & Hi & _ & Ho & ->)]; [done|]. split; [done|]. unfold booked. cbn -[map_sum].
  rewrite (map_sum_insert _ _ _ p) by done. cbn. rewrite Ho, (proj2 (Z.eqb_neq _ x)) by congruence. lia.
Qed.

(** The permissions of the producers' account follow the schedule without a bill. *)
Lemma auth_ram cp a c s o u s' o' x : x <> producers_account_name -> perm_tree s -> usage_typed (resources s) -> auth_apply cp a c s o = Ok (u, s', o') ->
  ram_of s' x - ram_of s x = booked (cp_pack_size cp) s' x - booked (cp_pack_size cp) s x.
Proof.
  intros Hx T Ht H.
  destruct a as [creator nm owner active|account permission parent auth|account permission|account code type requirement|account code type|account|account|producers].
  - apply newaccount_effect in H as [_ H]. by eapply opens_ram.
  - by eapply updateauth_ram.
  - apply deleteauth_effect in H as (_ & _ & _ & Ea & EL & _ & p & row & Hp & _ & Hrow & Ep & Hr). destruct T as [F _].
    apply get_permission_Some in Hp as (Ha0 & _ & i & Hi & P1 & P2). cbn [fst snd] in *.
    destruct (row_of_named s F i p Hi ltac:(congruence)) as (_ & Eid & _). rewrite Eid in *.
    unfold booked, ram_of. rewrite EL, Ea, (add_pending_ram_effect _ _ _ _ Ht Hr x), Ep, (map_sum_delete _ _ _ p) by done.
    rewrite P1, (Z.eqb_sym x). destruct (account =? x); lia.
  - apply linkauth_effect in H as ((Ea & Ep & _) & EL & _ & H). unfold booked, ram_of. rewrite Ep, Ea, EL.
    destruct (links s !! (account, code, type)) as [l|] eqn:El.
    + rewrite H, (map_sum_insert _ _ _ l) by done. cbn. lia.
    + rewrite (add_pending_ram_effect _ _ _ _ Ht H x), map_sum_insert_new by done. cbn. rewrite (Z.eqb_sym x). destruct (account =? x); lia.
  - apply unlinkauth_effect in H as ((Ea & Ep & _) & EL & [l El] & H). unfold booked, ram_of. rewrite Ep, Ea, EL.
    rewrite (add_pending_ram_effect _ _ _ _ Ht H x), (map_sum_delete _ _ _ l) by done. cbn. rewrite (Z.eqb_sym x). destruct (account =? x); lia.
  - apply setcode_effect in H. by eapply resizes_ram.
  - apply setabi_effect in H. by eapply resizes_ram.
  - apply producers_effect in H as (s1 & s2 & _ & _ & _ & H1 & H2 & H3); [|done].
    destruct (reauthorizes_same (cp_pack_size cp) _ _ x Hx H1), (reauthorizes_same (cp_pack_size cp) _ _ x Hx H2), (reauthorizes_same (cp_pack_size cp) _ _ x Hx H3).
    unfold ram_of. replace (resources s') with (resources s) by congruence. lia.
Qed.

Lemma add_pending_typed a delta r r' : usage_typed r -> add_pending_ram_usage a delta r = Ok r' -> usage_typed r'.
Proof.
  intros Ht H.
  unfold add_pending_ram_usage in H. destruct (Z.eqb_spec delta 0) as [->|Hd]; [by injection H as <-|].
  destruct (rl_usage r !! a) as [u|] eqn:Eu; [|done]. cbn [rl_get mbind res_bind] in H.
  apply res_bind_ok in H as (? & _ & H). apply res_bind_ok in H as (? & _ & H). injection H as <-.
  intros b v. cbn. rewrite lookup_insert. case_decide; [|apply Ht]. intros [= <-]. cbn. unfold is_u64, u64. apply Z.mod_pos_bound. lia.
Qed.

Lemma opens_typed ps nm owner active s s' : usage_typed (resources s) -> opens_account ps nm owner active s s' -> usage_typed (resources s').
Proof.
  intros Ht (_ & p & q & s1 & s2 & r1 & r2 & act & H). do 24 destruct H as [_ H]. destruct H as (R1 & R2 & ->).
  eapply add_pending_typed; [|exact R2]. unfold initialize_account in R1.
  destruct (rl_limits (resources s) !! (false, nm)); [done|]. destruct (rl_usage (resources s) !! nm); [done|].
  injection R1 as <-. intros a v. cbn. rewrite lookup_insert. case_decide; [intros [= <-]; unfold is_u64; cbn; lia|apply Ht].
Qed.

Lemma auth_typed cp a c s o u s' o' : perm_tree s -> usage_typed (resources s) -> auth_apply cp a c s o = Ok (u, s', o') -> usage_typed (resources s').
Proof.
  intros T Ht H.
  destruct a as [creator nm owner active|account permission parent auth|account permission|account code type requirement|account code type|account|account|producers].
  - apply newaccount_effect in H as [_ H]. by eapply opens_typed.
  - apply updateauth_effect in H as (_ & _ & _ & _ & _ & pid & _ & H). destruct (by_owner s account permission) as [p|].
    + destruct H as (_ & _ & _ & Hr). by eapply add_pending_typed.
    + destruct H as (p & _ & _ & _ & _ & _ & _ & _ & Hr). by eapply add_pending_typed.
  - apply deleteauth_effect in H as (_ & _ & _ & _ & _ & _ & p & row & _ & _ & _ & _ & Hr). by eapply add_pending_typed.
  - apply linkauth_effect in H as (_ & _ & _ & H). destruct (links s !! (account, code, type)); [by rewrite H|by eapply add_pending_typed].
  - apply unlinkauth_effect in H as (_ & _ & _ & H). by eapply add_pending_typed.
  - apply setcode_effect in H as (_ & _ & _ & a & a' & _ & _ & Hr). by eapply add_pending_typed.
  - apply setabi_effect in H as (_ & _ & _ & a & a' & _ & _ & Hr). by eapply add_pending_typed.
  - apply producers_effect in H as (s1 & s2 & _ & _ & _ & H1 & H2 & H3); [|done]. assert (Hne : 0 <> producers_account_name) by (vm_compute; discriminate).
    apply (reauthorizes_same (cp_pack_size cp) _ _ 0 Hne) in H1 as [E1 _], H2 as [E2 _], H3 as [E3 _]. by rewrite E3, E2, E1.
Qed.

(** The bill of every account but the one of the producers, which gets two
    permissions at the genesis that are not billed.  The name 0 is no account: it
    owns the row that reserves the id 0. *)
Definition ram_exact (ps : Z -> Z) (d : auth_db) : Prop :=
  perm_tree d /\ usage_typed (resources d) /\ forall x, x <> 0 -> x <> producers_account_name -> ram_of d x = booked ps d x.

Lemma opens_exact ps nm owner active s s' : nm <> 0 -> opens_account ps nm owner active s s' -> ram_exact ps s -> ram_exact ps s'.
Proof.
  intros Hnm H (T & Ht & Hx). split; [by eapply opens_tree|]. split; [by eapply opens_typed|].
  intros x Hn0 Hn. pose proof (opens_ram ps nm owner active s s' x T Ht H). pose proof (Hx x Hn0 Hn). lia.
Qed.

Lemma auth_exact cp a : preserves (ram_exact (cp_pack_size cp)) (auth_apply cp a).
Proof.
  intros c s o u s' o' H (T & Ht & Hx). split; [by eapply auth_apply_tree|]. split; [by eapply auth_typed|].
  intros x Hn0 Hn. pose proof (auth_ram cp a c s o u s' o' x Hn T Ht H). pose proof (Hx x Hn0 Hn). lia.
Qed.

Lemma db_init_exact ps : ram_exact ps db_init.
Proof.
  split; [apply db_init_tree|]. split; [intros a u; cbn; rewrite lookup_empty; done|].
  intros x Hx _. unfold ram_of, booked, db_init. cbn [resources accounts permissions links rl_usage resources_init].
  rewrite !lookup_empty, map_sum_singleton, map_sum_empty. cbn [po_owner]. by rewrite (proj2 (Z.eqb_neq 0 x)) by congruence.
Qed.

(** A permission of the producers' account that is created without a bill. *)
Lemma producers_exact ps s s' p : perm_forest s -> permissions s' = <[next_permission_id s := p]> (permissions s) ->
  po_owner p = producers_account_name -> accounts s' = accounts s -> links s' = links s -> resources s' = resources s ->
  perm_tree s' -> ram_exact ps s -> ram_exact ps s'.
Proof.
  intros F Ep Eo Ea El Er T' (_ & Ht & Hx). split; [exact T'|]. rewrite Er. split; [exact Ht|]. intros x Hn0 Hn. specialize (Hx x Hn0 Hn).
  unfold ram_of, booked in *. rewrite Er, El, Ea, (perms_new ps x s s' p F Ep), Eo.
  rewrite (proj2 (Z.eqb_neq _ x)) by congruence. lia.
Qed.

Lemma create_native_exact ps t nm owner active b c s o u s' o' : nm <> 0 ->
  create_native_account ps t nm owner active b c s o = Ok (u, s', o') -> ram_exact ps s -> ram_exact ps s'.
Proof. intros Hnm H%create_native_effect. by eapply opens_exact. Qed.

Lemma initialize_exact ps t key c o u s' o' : initialize_database ps t key c db_init o = Ok (u, s', o') -> ram_exact ps s'.
Proof.
  unfold initialize_database. cbv zeta. intros H.
  apply bind_Ok in H as (? & s1 & ? & C1 & H). apply create_native_exact in C1 as T1; [|vm_compute; discriminate|apply db_init_exact].
  apply bind_Ok in H as (? & s2 & ? & C2 & H). apply create_native_exact in C2 as T2; [|vm_compute; discriminate|exact T1].
  apply bind_Ok in H as (? & s3 & ? & C3 & H). apply create_native_exact in C3 as T3; [|vm_compute; discriminate|exact T2].
  apply bind_Ok in H as (? & ? & ? & (-> & -> & ->)%gets_Ok & H). apply bind_Ok in H as (a & ? & ? & (Ha & -> & ->)%lift_Ok & H).
  apply get_permission_Some in Ha as (_ & _ & i & Hi & A1 & A2). unfold id in Hi. cbn [fst snd] in A1, A2.
  apply bind_Ok in H as (p & s4 & ? & Ep & H). apply create_permission_Ok in Ep as (P1 & -> & P2 & P3 & P4 & P5 & _ & P7 & P8 & P9 & P10 & P11).
  apply bind_Ok in H as (q & s5 & ? & Eq & H). apply create_permission_Ok in Eq as (Q1 & -> & Q2 & Q3 & Q4 & Q5 & _ & Q7 & Q8 & Q9 & Q10 & Q11).
  injection H as _ <- _. pose proof (proj1 T3) as F3.
  assert (F4 : perm_tree s4).
  { apply (tree_child s3 s4 p i a); try assumption; [by rewrite P4, P5|rewrite P4; vm_compute; discriminate|
      rewrite P5; vm_compute; discriminate|rewrite P5; vm_compute; discriminate|congruence]. }
  apply (producers_exact ps s4 s5 q); try assumption; [apply F4| |apply (producers_exact ps s3 s4 p); try assumption; apply F3].
  apply (tree_child s4 s5 q (next_permission_id s3) p); try assumption; [by rewrite Q4, Q5|rewrite Q4; vm_compute; discriminate|
      rewrite Q5; vm_compute; discriminate|rewrite Q5; vm_compute; discriminate|rewrite P7; apply lookup_insert_eq|congruence].
Qed.

Lemma genesis_reach_exact cp t key c0 o0 u0 d0 o1 d : initialize_database (cp_pack_size cp) t key c0 db_init o0 = Ok (u0, d0, o1) ->
  reach d0 (auth_apply cp) d -> ram_exact (cp_pack_size cp) d.
Proof. intros H0. apply reach_invariant; [by eapply initialize_exact|]. intros a. apply auth_exact. Qed.

(** ** Claims *)

(** C21: From the genesis on, under any sequence of the native actions and of the node's own
    updates of the producers' permissions, the permissions of
    each account form a tree: every account keeps its permissions owner and active, the
    second below the first, every other permission has a parent of the same account with a
    smaller id, no name occurs twice; and on any two permissions the walk of
    [satisfies] up the parents ends, stays within the table and decides whether the
    one is the other or an ancestor of it. *)
Theorem permission_trees cp t key c0 o0 u0 d0 o1 d :
  initialize_database (cp_pack_size cp) t key c0 db_init o0 = Ok (u0, d0, o1) -> reach d0 (auth_apply cp) d ->
  perm_tree d /\
  forall i j p q, permissions d !! i = Some p -> i <> 0 -> permissions d !! j = Some q -> j <> 0 ->
    exists b, satisfies d p q = Some b /\ (b = true <-> above d i j).
Proof.
  intros H0 H. destruct (genesis_reach_exact _ _ _ _ _ _ _ _ _ H0 H) as (T & _). split; [exact T|].
  apply satisfies_spec, T.
Qed.

(** C32: From the genesis on, under any sequence of the native actions (newaccount, updateauth,
    deleteauth, linkauth, unlinkauth, setcode and setabi) and of the node's own updates of
    the producers' permissions, the RAM an account is charged for by them is the sum of the
    sizes of what it has: the account, ten bytes for each of its code, its abi, its
    permissions with the keys, accounts and waits of their authorities, and its links.
    What the actions add they give back when the row goes, and no usage wraps
    around.  This is of every account but eosio.prods, whose permissions the node
    creates and changes without a bill, and of the empty name, which is no account.  The rows of contracts' own
    tables and deferred transactions are billed elsewhere. *)
Theorem ram_is_booked cp t key c0 o0 u0 d0 o1 d a :
  initialize_database (cp_pack_size cp) t key c0 db_init o0 = Ok (u0, d0, o1) -> reach d0 (auth_apply cp) d ->
  a <> 0 -> a <> producers_account_name -> ram_of d a = booked (cp_pack_size cp) d a.
Proof. intros H0 H. by apply (genesis_reach_exact _ _ _ _ _ _ _ _ _ H0 H). Qed.

(** ** An example chain *)

Definition cp_demo : chain_params := mkChainParams Z.ltb (fun _ => 34) 3888000 false (fun _ => true) (fun l => 1 + lsum id l) (fun _ => true).
Definition one_key (k : Z) : authority := mkAuthority 1 [mkKeyWeight k 1] [] [].

(** Two accounts; ann gets a permission pay below active, linked to her transfers, and a contract; bob becomes the producer. *)
Definition demo_actions : list (auth_action * ctx) :=
  let c := ctx_of (N "eosio") [N "eosio"; N "ann"; N "bob"] 5 in
  [ (ANewaccount (N "eosio") (N "ann") (one_key 2) (one_key 3), c);
    (ANewaccount (N "eosio") (N "bob") (one_key 4) (mkAuthority 1 [] [mkPermWeight (N "ann", N "active") 1] []), c);
    (AUpdateauth (N "ann") (N "pay") (N "active") (one_key 5), c);
    (ALinkauth (N "ann") (N "bob") (N "transfer") (N "pay"), c);
    (ASetcode (N "ann") 0 0 [0; 97; 115; 109], c); (ASetabi (N "ann") [1; 2; 3], c); (AProducers [N "bob"], c) ].

Definition run_of {A} (d : A) (r : res (unit * A * out)) : A := match r with Ok (_, s, _) => s | Err _ => d end.
Definition demo_genesis : auth_db := run_of db_init (initialize_database (cp_pack_size cp_demo) 0 1 (ctx_of 0 [] 0) db_init no_out).
Definition demo_chain : auth_db := ok_or db_init (exec_all (auth_apply cp_demo) demo_actions demo_genesis).

Lemma demo_genesis_Ok : exists u o, initialize_database (cp_pack_size cp_demo) 0 1 (ctx_of 0 [] 0) db_init no_out = Ok (u, demo_genesis, o).
Proof.
  unfold demo_genesis. assert (E : match initialize_database (cp_pack_size cp_demo) 0 1 (ctx_of 0 [] 0) db_init no_out with Ok _ => true | Err _ => false end = true)
    by (vm_compute; reflexivity). destruct (initialize_database _ _ _ _ _ _) as [[[u s] o]|]; [by exists u, o|done].
Qed.

Lemma demo_chain_reach : reach demo_genesis (auth_apply cp_demo) demo_chain.
Proof.
  unfold demo_chain. assert (E : match exec_all (auth_apply cp_demo) demo_actions demo_genesis with Ok _ => true | Err _ => false end = true)
    by (vm_compute; reflexivity). destruct (exec_all _ _ _) as [s|] eqn:Es; [|done]. eapply exec_all_reach; [apply reach_init|exact Es].
Qed.

Definition demo_row (i : Z) : permission_object := default (mkPermission 0 0 0 0 0 0 empty_authority0) (permissions demo_chain !! i).

(** The owner permission of ann is above pay, the active permission of bob is not. *)
Lemma permission_trees_witness : perm_tree demo_chain /\
  satisfies demo_chain (demo_row 9) (demo_row 13) = Some true /\ above demo_chain 9 13 /\
  satisfies demo_chain (demo_row 12) (demo_row 13) = Some false /\ ~ above demo_chain 12 13.
Proof.
  destruct demo_genesis_Ok as (u & o & E). destruct (permission_trees cp_demo 0 1 _ _ _ _ _ demo_chain E demo_chain_reach) as [T H].
  assert (S1 : satisfies demo_chain (demo_row 9) (demo_row 13) = Some true) by (vm_compute; reflexivity).
  assert (S2 : satisfies demo_chain (demo_row 12) (demo_row 13) = Some false) by (vm_compute; reflexivity).
  assert (R9 : permissions demo_chain !! 9 = Some (demo_row 9)) by (vm_compute; reflexivity).
  assert (R12 : permissions demo_chain !! 12 = Some (demo_row 12)) by (vm_compute; reflexivity).
  assert (R13 : permissions demo_chain !! 13 = Some (demo_row 13)) by (vm_compute; reflexivity).
  split; [exact T|]. split; [exact S1|]. split; [|split; [exact S2|]].
  - destruct (H 9 13 _ _ R9 ltac:(discriminate) R13 ltac:(discriminate)) as (b & Eb & Hb). rewrite S1 in Eb. injection Eb as <-. by apply Hb.
  - intros Ha. destruct (H 12 13 _ _ R12 ltac:(discriminate) R13 ltac:(discriminate)) as (b & Eb & Hb). rewrite S2 in Eb. injection Eb as <-.
    by apply Hb in Ha.
Defined.

(** The account, owner, active and pay with a key each, the link, the code and the abi. *)
Lemma ram_is_booked_witness : ram_of demo_chain (N "ann") = booked (fun _ => 34) demo_chain (N "ann") /\
  ram_of demo_chain (N "ann") = 2048 + 3 * (288 + 50) + 144 + 10 * 4 + 3.
Proof.
  destruct demo_genesis_Ok as (u & o & E). split; [|vm_compute; reflexivity].
  apply (ram_is_booked cp_demo 0 1 _ _ _ _ _ demo_chain (N "ann") E demo_chain_reach); vm_compute; discriminate.
Defined.
