(* ===== verification/Authorize.v ===== *)
(** * The check of a transaction's authorizations

    What it means when [check_authorization] accepts a transaction, and what a link to a
    permission the account does not have does to it. *)

From S2P Require Import Prelude Names Chain Authority ResourceLimits Permissions PermissionTree.
#[local] Open Scope Z_scope.
#[local] Opaque owner_name active_name.

(** ** The check of a transaction *)

Lemma sat_delay p2a keys perms d1 d2 p : d1 <= d2 -> sat p2a keys perms d1 p -> sat p2a keys perms d2 p.
Proof.
  intros Hd. induction 1 as [p H|p auth C Hp HC Hw Hk Hq IH Ht]; [by apply sat_provided|].
  eapply sat_authority; try done. intros w Hin. specialize (Hw w Hin). lia.
Qed.

Lemma level_lt_total p q : level_lt p q = false -> level_lt q p = false -> p = q.
Proof.
  unfold level_lt. destruct p as [a b], q as [x y]. cbn [fst snd]. intros H1 H2.
  apply orb_false_iff in H1 as [H1 H1'], H2 as [H2 H2']. apply Z.ltb_ge in H1, H2. assert (a = x) as <- by lia.
  rewrite Z.eqb_refl in H1', H2'. cbn in H1', H2'. apply Z.ltb_ge in H1', H2'. f_equal. lia.
Qed.

(** Declared with a delay of at most [d]. *)
Definition declared_within (l : list (permission_level * Z)) (p : permission_level) (d : Z) : Prop := exists d', (p, d') ∈ l /\ d' <= d.

Lemma to_satisfy_new p d l : declared_within (to_satisfy p d l) p d.
Proof.
  induction l as [|[q dq] l IH]; cbn; [exists d; split; [left|lia]|]. destruct (level_lt p q) eqn:E1; [exists d; split; [left|lia]|].
  destruct (level_lt q p) eqn:E2; [destruct IH as (d' & ? & ?); exists d'; split; [by right|done]|].
  rewrite (level_lt_total p q E1 E2). destruct (Z.ltb_spec d dq); eexists; (split; [left|lia]).
Qed.

Lemma to_satisfy_old p d l q dq : declared_within l q dq -> declared_within (to_satisfy p d l) q dq.
Proof.
  intros (d' & Hin & Hle). induction l as [|[r dr] l IH]; cbn; [by apply elem_of_nil in Hin|].
  destruct (level_lt p r); [exists d'; split; [by right|done]|]. apply elem_of_cons in Hin as [[= <- <-]|Hin].
  - destruct (level_lt q p); [exists d'; split; [left|done]|]. destruct (Z.ltb_spec d d'); eexists; (split; [left|lia]).
  - destruct (level_lt r p); [destruct (IH Hin) as (x & ? & ?); exists x; split; [by right|done]|]. exists d'. split; [by right|done].
Qed.

(** The permission a declared authorization must reach for an action. *)
Definition required_permission (d : auth_db) (act : trx_action) (declared : permission_level) : res (option permission_object) :=
  if ta_account act =? system_account_name then
    if ta_name act =? N "updateauth" then
      match ta_data act with
      | DUpdateauth account permission parent _ =>
          existing ← find_permission d (account, permission);
          match existing with Some p => Ok (Some p) | None => Some <$> get_permission d (account, parent) end
      | _ => Err (ChainError "unpack") end
    else if ta_name act =? N "deleteauth" then
      match ta_data act with DDeleteauth account permission => Some <$> get_permission d (account, permission) | _ => Err (ChainError "unpack") end
    else if ta_name act =? N "linkauth" then
      match ta_data act with
      | DLinkauth account code type _ =>
          linked ← lookup_minimum_permission d account code type;
          match linked with None => Ok None | Some p => Some <$> get_permission d (account, p) end
      | _ => Err (ChainError "unpack") end
    else if ta_name act =? N "unlinkauth" then
      match ta_data act with
      | DUnlinkauth account code type =>
          match lookup_linked_permission d account code type with
          | None => Err (ChainError "cannot unlink non-existent permission link")
          | Some p => if p =? eosio_any_name then Ok None else Some <$> get_permission d (account, p)
          end
      | _ => Err (ChainError "unpack") end
    else if ta_name act =? N "canceldelay" then
      match ta_data act with DCanceldelay canceling _ => Some <$> get_permission d canceling | _ => Err (ChainError "unpack") end
    else
      min ← lookup_minimum_permission d declared.1 (ta_account act) (ta_name act);
      match min with None => Ok None | Some m => Some <$> get_permission d (declared.1, m) end
  else
    min ← lookup_minimum_permission d declared.1 (ta_account act) (ta_name act);
    match min with None => Ok None | Some m => Some <$> get_permission d (declared.1, m) end.

(** The declared permission exists and is the required one or above it. *)
Definition authorized (d : auth_db) (act : trx_action) (declared : permission_level) : Prop :=
  exists m, required_permission d act declared = Ok m /\
  match m with
  | None => True
  | Some q => exists p, get_permission d declared = Ok p /\ po_owner p = po_owner q /\ above d (po_id p) (po_id q)
  end.

Section check.
Context (d : auth_db) (T : perm_forest d).

Lemma chain_assert_Ok b msg u : chain_assert b msg = Ok u -> b = true.
Proof. unfold chain_assert. by destruct b. Qed.

Lemma named_row l p : get_permission d l = Ok p -> po_id p <> 0 /\ permissions d !! po_id p = Some p.
Proof using T.
  intros (H1 & H2 & i & Hi & E1 & E2)%get_permission_Some. destruct (row_of_named d T i p Hi ltac:(congruence)) as (Hi0 & -> & _). done.
Qed.

Lemma check_satisfies_Ok auth min msg u l : check_satisfies d auth min msg = Ok u -> get_permission d l = Ok min ->
  exists p, get_permission d auth = Ok p /\ po_owner p = po_owner min /\ above d (po_id p) (po_id min).
Proof using T.
  unfold check_satisfies. intros H Hm. apply res_bind_ok in H as (p & Hp & H). exists p. split; [done|].
  destruct (named_row _ _ Hp) as [P1 P2], (named_row _ _ Hm) as [M1 M2].
  destruct (satisfies_spec d T _ _ _ _ P2 P1 M2 M1) as (b & E & Hb). rewrite E in H. apply chain_assert_Ok in H as ->.
  assert (Ha : above d (po_id p) (po_id min)) by (by apply Hb). split; [|done]. by eapply above_owner.
Qed.

Lemma find_get l p : find_permission d l = Ok (Some p) -> get_permission d l = Ok p.
Proof. unfold get_permission. by intros ->. Qed.

Lemma single_auth_Ok auths msg a : single_auth auths msg = Ok a -> auths = [a].
Proof. unfold single_auth. destruct auths as [|x [|]]; try done. by intros [= ->]. Qed.

Ltac bstep H := let x := fresh "x" in let E := fresh "E" in apply res_bind_ok in H as (x & E & H).

Lemma special_authorized delay act dl : special_case d delay act = Ok (true, dl) ->
  forall a, a ∈ ta_authorization act -> authorized d act a.
Proof using T.
  unfold special_case, authorized, required_permission. intros H a Ha.
  destruct (ta_account act =? system_account_name); cbn [negb] in H; [|done].
  assert (Hone : forall msg auth, single_auth (ta_authorization act) msg = Ok auth -> a = auth).
  { intros msg auth E%single_auth_Ok. rewrite E in Ha. by apply list_elem_of_singleton in Ha. }
  destruct (ta_name act =? N "updateauth"); [destruct (ta_data act); try discriminate; bstep H; clear H; bstep E|].
  { rewrite (Hone _ _ E0). bstep E. bstep E. bstep E. rewrite E2. cbn. destruct x2 as [p|].
    - injection E3 as <-. eexists; split; [reflexivity|]. cbn. apply find_get in E2. by eapply check_satisfies_Ok.
    - rewrite E3. eexists; split; [reflexivity|]. cbn. by eapply check_satisfies_Ok. }
  destruct (ta_name act =? N "deleteauth"); [destruct (ta_data act); try discriminate; bstep H; clear H; bstep E|].
  { rewrite (Hone _ _ E0). bstep E. bstep E. rewrite E2. eexists; split; [reflexivity|]. cbn. by eapply check_satisfies_Ok. }
  destruct (ta_name act =? N "linkauth"); [destruct (ta_data act); try discriminate; bstep H; clear H; bstep E|].
  { rewrite (Hone _ _ E0). bstep E. bstep E. bstep E. rewrite E3. cbn. destruct x3 as [p|]; [|by exists None].
    bstep E. rewrite E4. eexists; split; [reflexivity|]. cbn. by eapply check_satisfies_Ok. }
  destruct (ta_name act =? N "unlinkauth"); [destruct (ta_data act); try discriminate; bstep H; clear H; bstep E|].
  { rewrite (Hone _ _ E0). bstep E. destruct (lookup_linked_permission _ _ _ _) as [p|]; [|discriminate].
    destruct (p =? eosio_any_name); [by exists None|]. bstep E. rewrite E2. eexists; split; [reflexivity|]. cbn. by eapply check_satisfies_Ok. }
  destruct (ta_name act =? N "canceldelay"); [destruct (ta_data act); try discriminate; bstep H; clear H; bstep E|discriminate].
  rewrite (Hone _ _ E0). bstep E. bstep E. rewrite E1. eexists; split; [reflexivity|]. cbn. by eapply check_satisfies_Ok.
Qed.

(** An action that is none of the special cases. *)
Lemma plain_required delay act dl a : special_case d delay act = Ok (false, dl) ->
  required_permission d act a =
    (min ← lookup_minimum_permission d a.1 (ta_account act) (ta_name act);
     match min with None => Ok None | Some m => Some <$> get_permission d (a.1, m) end).
Proof.
  unfold special_case, required_permission. destruct (ta_account act =? system_account_name); cbn [negb]; [|done].
  intros H. repeat match type of H with
  | context [if ?b then _ else _] => destruct b; [destruct (ta_data act); try discriminate; bstep H; discriminate|] end. done.
Qed.

Lemma check_declared_Ok sat_auths special delay act l a l' :
  check_declared d sat_auths special delay act l a = Ok l' ->
  (special = false -> exists m, (min ← lookup_minimum_permission d a.1 (ta_account act) (ta_name act);
     match min with None => Ok None | Some m => Some <$> get_permission d (a.1, m) end) = Ok m /\
     match m with None => True | Some q => exists p, get_permission d a = Ok p /\ po_owner p = po_owner q /\ above d (po_id p) (po_id q) end) /\
  (a ∈ sat_auths \/ declared_within l' a delay) /\
  (forall q dq, declared_within l q dq -> declared_within l' q dq).
Proof using T.
  unfold check_declared. intros H. bstep H. injection H as <-. split; [|split].
  - intros ->. bstep E. rewrite E0. cbn. destruct x0 as [m|]; [|by exists None]. bstep E. rewrite E1.
    eexists; split; [reflexivity|]. cbn. by eapply check_satisfies_Ok.
  - case_bool_decide; [by left|]. right. apply to_satisfy_new.
  - intros q dq Hq. case_bool_decide; [done|]. by apply to_satisfy_old.
Qed.

Lemma check_declared_all_Ok sat_auths special delay act auths : forall l l',
  check_declared_all d sat_auths special delay act auths l = Ok l' ->
  (forall a, a ∈ auths -> (exists l0 l1, check_declared d sat_auths special delay act l0 a = Ok l1) /\
     (a ∈ sat_auths \/ declared_within l' a delay)) /\
  (forall q dq, declared_within l q dq -> declared_within l' q dq).
Proof using T.
  induction auths as [|a auths IH]; intros l l' H; cbn in H; [injection H as <-; split; [by intros a ?%elem_of_nil|done]|].
  bstep H. destruct (IH _ _ H) as [H1 H2], (check_declared_Ok _ _ _ _ _ _ _ E) as (_ & H3 & H4). split; [|auto].
  intros b [->|Hb]%elem_of_cons; [|auto]. split; [eauto|]. destruct H3; auto.
Qed.

Lemma check_actions_Ok sat_auths delay acts : forall l l', check_actions d sat_auths delay acts l = Ok l' ->
  (forall act a, act ∈ acts -> a ∈ ta_authorization act -> authorized d act a /\
     exists sp dl, special_case d delay act = Ok (sp, dl) /\ (a ∈ sat_auths \/ declared_within l' a dl)) /\
  (forall q dq, declared_within l q dq -> declared_within l' q dq).
Proof using T.
  induction acts as [|act acts IH]; intros l l' H; cbn in H; [injection H as <-; split; [by intros act a ?%elem_of_nil|done]|].
  bstep H. bstep H. destruct x as [sp dl]. cbn [fst snd] in E0.
  destruct (IH _ _ H) as [H1 H2], (check_declared_all_Ok _ _ _ _ _ _ _ E0) as [H3 H4]. split; [|auto].
  intros b a [->|Hb]%elem_of_cons Ha; [|auto]. destruct (H3 a Ha) as ((l0 & l1 & Hd) & Hs). split.
  - destruct sp; [by eapply special_authorized|]. unfold authorized. rewrite (plain_required _ _ _ a E).
    by apply (check_declared_Ok _ _ _ _ _ _ _ Hd).
  - exists sp, dl. split; [done|]. destruct Hs; auto.
Qed.
End check.

(** Thresholds and weights have their width. *)
Definition authorities_typed (d : auth_db) : Prop := forall i p, permissions d !! i = Some p -> authority_typed (po_auth p).

Lemma satisfy_all_sound depth ordered d keys perms l : (forall l, ordered l ≡ₚ l) -> authorities_typed d ->
  forall used used', satisfy_all depth ordered d keys perms l used = Ok used' ->
  forall p delay, (p, delay) ∈ l -> sat (permission_to_authority d) keys perms delay p.
Proof.
  intros Ho Ht. induction l as [|[p delay] l IH]; intros used used' H q dq; [by intros ?%elem_of_nil|]. cbn in H.
  destruct (satisfied_level _ _ _ _ _ _ _ _) as [b used1] eqn:E. apply res_bind_ok in H as (x & Hb & H). apply chain_assert_Ok in Hb as ->.
  intros [[= -> ->]|Hin]%elem_of_cons; [|by eapply IH]. eapply satisfied_level_sound; [done| | |exact E].
  - intros a. unfold permission_to_authority, get_permission, find_permission. cbn [fst snd]. rewrite Z.eqb_refl, orb_true_r. done.
  - intros r a. unfold permission_to_authority. destruct (get_permission d r) as [o|] eqn:Eo; [|done]. intros [= <-].
    apply get_permission_Some in Eo as (_ & _ & i & Hi & _). by eapply Ht.
Qed.

Lemma check_authorized max_delay depth ordered d actions keys perms delay unused satisfied_auths u :
  perm_forest d -> check_authorization max_delay depth ordered d actions keys perms delay unused satisfied_auths = Ok u ->
  forall act a, act ∈ actions -> a ∈ ta_authorization act -> authorized d act a.
Proof.
  intros T H act a Hact Ha. unfold check_authorization in H. apply res_bind_ok in H as (l & Hl & _).
  by apply (check_actions_Ok d T _ _ _ _ _ Hl).
Qed.

(** The transactions that need the link of an action: the action itself under a
    permission of the account, and the native actions that change the link. *)
Inductive uses_link (account code type : name) (act : trx_action) (declared : permission_level) : Prop :=
| uses_action : ta_account act = code -> ta_name act = type -> declared.1 = account -> uses_link account code type act declared
| uses_linkauth requirement : ta_account act = system_account_name -> ta_name act = N "linkauth" ->
    ta_data act = DLinkauth account code type requirement -> uses_link account code type act declared
| uses_unlinkauth : ta_account act = system_account_name -> ta_name act = N "unlinkauth" ->
    ta_data act = DUnlinkauth account code type -> uses_link account code type act declared.

Lemma link_required d account code type requirement act declared : links d !! (account, code, type) = Some requirement ->
  requirement <> eosio_any_name -> code <> system_account_name -> by_owner d account requirement = None ->
  uses_link account code type act declared -> forall m, required_permission d act declared <> Ok m.
Proof.
  intros Hl Ha Hc Hn Hu m. assert (Hg : exists e, get_permission d (account, requirement) = Err e).
  { unfold get_permission, find_permission. cbn [fst snd]. destruct ((account =? 0) || (requirement =? 0)); [by eexists|]. cbn. rewrite Hn. by eexists. }
  destruct Hg as [e He]. assert (Hm : lookup_minimum_permission d account code type = Ok (Some requirement)).
  { unfold lookup_minimum_permission, lookup_linked_permission. rewrite (proj2 (Z.eqb_neq code _)), Hl by done. cbn [andb].
    by rewrite (proj2 (Z.eqb_neq requirement _)). }
  unfold required_permission. destruct Hu as [E1 E2 E3|r E1 E2 E3|E1 E2 E3].
  - rewrite E1, E2, E3, (proj2 (Z.eqb_neq code _)), Hm by done. cbn. by rewrite He.
  - rewrite E1, E2, E3, Z.eqb_refl. change (N "linkauth" =? N "updateauth") with false. change (N "linkauth" =? N "deleteauth") with false.
    rewrite Z.eqb_refl, Hm. cbn. by rewrite He.
  - rewrite E1, E2, E3, Z.eqb_refl. change (N "unlinkauth" =? N "updateauth") with false. change (N "unlinkauth" =? N "deleteauth") with false.
    change (N "unlinkauth" =? N "linkauth") with false. rewrite Z.eqb_refl. unfold lookup_linked_permission. rewrite Hl, (proj2 (Z.eqb_neq requirement _)), He by done.
    by cbn.
Qed.

(** *** Later states of the node *)

(** The native actions as a transaction holds them. *)
Definition native_data (a : auth_action) : option (name * action_data) :=
  match a with
  | ANewaccount _ _ _ _ => Some (N "newaccount", DOther)
  | AUpdateauth account permission parent auth => Some (N "updateauth", DUpdateauth account permission parent auth)
  | ADeleteauth account permission => Some (N "deleteauth", DDeleteauth account permission)
  | ALinkauth account code type requirement => Some (N "linkauth", DLinkauth account code type requirement)
  | AUnlinkauth account code type => Some (N "unlinkauth", DUnlinkauth account code type)
  | ASetcode _ _ _ _ => Some (N "setcode", DOther)
  | ASetabi _ _ => Some (N "setabi", DOther)
  | AProducers _ => None
  end.

Definition sent_in (actions : list trx_action) (a : auth_action) : Prop :=
  exists nm data declared auths, native_data a = Some (nm, data) /\ declared ∈ auths /\ mkTrxAction system_account_name nm auths data ∈ actions.

(** What the node makes of a state: transactions whose authorizations were checked, with the
    native actions in them that are [ok], and the update of the producers' permissions. *)
Inductive node_runs (cp : chain_params) (depth : Z) (ordered : list meta_permission -> list meta_permission) (ok : auth_action -> Prop) (d : auth_db) : auth_db -> Prop :=
| runs_none : node_runs cp depth ordered ok d d
| runs_transaction d1 d2 actions keys perms delay unused satisfied_auths acts : node_runs cp depth ordered ok d d1 ->
    check_authorization (cp_max_delay cp) depth ordered d1 actions keys perms delay unused satisfied_auths = Ok tt ->
    (forall a c, (a, c) ∈ acts -> sent_in actions a /\ ok a) -> exec_all (auth_apply cp) acts d1 = Ok d2 -> node_runs cp depth ordered ok d d2
| runs_block d1 d2 producers c : node_runs cp depth ordered ok d d1 -> exec_all (auth_apply cp) [(AProducers producers, c)] d1 = Ok d2 -> node_runs cp depth ordered ok d d2.

Section dangling.
Context (cp : chain_params) (account code type requirement : name).
Context (not_any : requirement <> eosio_any_name) (not_system : code <> system_account_name).

(** The link is there and the permission it asks for is not. *)
Record dangling (d : auth_db) : Prop := {
  dg_tree : perm_tree d;
  dg_account : is_Some (accounts d !! account);
  dg_link : links d !! (account, code, type) = Some requirement;
  dg_missing i p : permissions d !! i = Some p -> po_owner p = account -> po_name p = requirement -> False
}.

(** The actions that leave the link and do not create the permission. *)
Definition leaves_link (a : auth_action) : Prop :=
  match a with
  | AUpdateauth a p _ _ => (a, p) <> (account, requirement)
  | ALinkauth a c t _ | AUnlinkauth a c t => (a, c, t) <> (account, code, type)
  | _ => True
  end.

(** Rows of before under their owner and name, and new ones under another. *)
Lemma dangling_grow s s' : dangling s -> perm_tree s' -> is_Some (accounts s' !! account) -> links s' !! (account, code, type) = links s !! (account, code, type) ->
  (forall i p', permissions s' !! i = Some p' ->
     (exists p, permissions s !! i = Some p /\ po_owner p = po_owner p' /\ po_name p = po_name p') \/ (po_owner p', po_name p') <> (account, requirement)) ->
  dangling s'.
Proof.
  intros [T A L M] T' A' L' Hp. split; [done..|by rewrite L'|]. intros i p Hi Eo En.
  destruct (Hp i p Hi) as [(q & Hq & Qo & Qn)|Hne]; [apply (M i q Hq); congruence|congruence].
Qed.

Lemma reauthorizes_dangling s s' : dangling s -> perm_tree s' -> reauthorizes s s' -> dangling s'.
Proof.
  intros D T' [->|(i & p & auth & Hi & Eid & Ho & ->)]; [done|]. apply (dangling_grow s); [done|done|apply D|done|].
  intros j q. cbn. rewrite lookup_insert. case_decide; [subst j; intros [= <-]; left; by exists p|intros Hq; left; by exists q].
Qed.

Lemma dangling_step a c s o u s' o' : leaves_link a -> dangling s -> auth_apply cp a c s o = Ok (u, s', o') -> dangling s'.
Proof.
  intros Ha D H. pose proof (auth_apply_tree _ _ _ _ _ _ _ _ (dg_tree _ D) H) as T'. pose proof (dg_account _ D) as A. pose proof (proj1 (dg_tree _ D)) as F.
  assert (Hsame : forall P : Z -> permission_object -> Prop, permissions s' = permissions s -> forall i p', permissions s' !! i = Some p' ->
     (exists p, permissions s !! i = Some p /\ po_owner p = po_owner p' /\ po_name p = po_name p') \/ P i p') by (intros P -> i p' Hp; left; by exists p').
  destruct a as [creator nm owner active|acc perm parent auth|acc perm|acc c0 t0 req|acc c0 t0|acc|acc|producers]; cbn [leaves_link] in Ha.
  - apply newaccount_effect in H as [_ H]. destruct H as (Hnone & p & q & s1 & s2 & r1 & r2 & act & A1 & A2 & A3 & _ & _ & P1 & P2 & P3 & P4 & Q1 & Q2 & Q3 & Q4 &
      EL & E1 & E2 & E3 & E4 & E9 & E5 & E6 & E7 & E8 & _). assert (Hne : nm <> account) by (intros ->; rewrite Hnone in A; by destruct A).
    apply (dangling_grow s); [done|done|by rewrite Q4, P4, A1, lookup_insert_ne|by rewrite EL|].
    intros i x. rewrite Q2, P2, A2, !lookup_insert. do 2 (case_decide; [intros [= <-]; right; congruence|]). intros Hx. left. exact (ex_intro _ x (conj Hx (conj eq_refl eq_refl))).
  - apply updateauth_effect in H as (_ & Ea & EL & Ha0 & _ & pid & _ & H).
    apply (dangling_grow s); [done|done|by rewrite Ea|by rewrite EL|]. destruct (by_owner s acc perm) as [p|] eqn:Eb.
    + destruct H as (_ & _ & (row & Hrow & ->) & _). intros i x. rewrite lookup_insert. case_decide; [subst i; intros [= <-]; left; by exists row|intros Hx; left; by exists x].
    + destruct H as (p & _ & _ & P4 & P5 & _ & -> & _). intros i x. rewrite lookup_insert.
      case_decide; [intros [= <-]; right; congruence|intros Hx; left; by exists x].
  - apply deleteauth_effect in H as (_ & _ & _ & Ea & EL & _ & p & row & _ & _ & _ & Ep & _).
    apply (dangling_grow s); [done|done|by rewrite Ea|by rewrite EL|]. intros i x. rewrite Ep. intros [_ Hx]%lookup_delete_Some. left. by exists x.
  - apply linkauth_effect in H as ((Ea & Ep & _) & EL & _). apply (dangling_grow s); [done|done|by rewrite Ea|by rewrite EL, lookup_insert_ne|by apply Hsame].
  - apply unlinkauth_effect in H as ((Ea & Ep & _) & EL & _). apply (dangling_grow s); [done|done|by rewrite Ea|by rewrite EL, lookup_delete_ne|by apply Hsame].
  - apply setcode_effect in H as (Ep & _ & EL & x & x' & _ & Ea & _). apply (dangling_grow s); [done|done| |by rewrite EL|by apply Hsame].
    rewrite Ea, lookup_insert. by case_decide.
  - apply setabi_effect in H as (Ep & _ & EL & x & x' & _ & Ea & _). apply (dangling_grow s); [done|done| |by rewrite EL|by apply Hsame].
    rewrite Ea, lookup_insert. by case_decide.
  - apply producers_effect in H as (s1 & s2 & T1 & T2 & T3 & H1 & H2 & H3); [|apply D].
    apply (reauthorizes_dangling s2); [|done..]. apply (reauthorizes_dangling s1); [|done..]. by apply (reauthorizes_dangling s).
Qed.

Lemma dangling_all acts : forall s s', Forall (fun ac => leaves_link ac.1) acts -> dangling s -> exec_all (auth_apply cp) acts s = Ok s' -> dangling s'.
Proof.
  induction acts as [|[a c] acts IH]; intros s s' Hf D H; cbn in H; [by injection H as <-|]. apply Forall_cons in Hf as [Ha Hf].
  destruct (auth_apply cp a c s no_out) as [[[u s1] o1]|] eqn:E; [|done]. apply (IH s1); [done| |done]. by eapply dangling_step.
Qed.

(** The check refuses what needs the link. *)
Lemma dangling_refused d max_delay depth ordered actions keys perms delay unused satisfied_auths act declared : dangling d ->
  act ∈ actions -> declared ∈ ta_authorization act -> uses_link account code type act declared ->
  exists e, check_authorization max_delay depth ordered d actions keys perms delay unused satisfied_auths = Err e.
Proof using not_any not_system.
  intros D Hact Hd Hu. destruct (check_authorization _ _ _ _ _ _ _ _ _ _) as [v|e] eqn:E; [|by exists e]. exfalso.
  destruct (check_authorized _ _ _ _ _ _ _ _ _ _ _ (proj1 (dg_tree _ D)) E act declared Hact Hd) as (m & Hm & _). revert Hm.
  apply (link_required d account code type requirement); [apply D|done..| |done]. destruct (by_owner d account requirement) as [p|] eqn:Eb; [|done].
  apply by_owner_Some in Eb as (i & Hi & Eo & En). destruct (dg_missing _ D i p Hi Eo En).
Qed.

(** The permission is not created by [a]. *)
Definition not_created (a : auth_action) : Prop := forall parent auth, a <> AUpdateauth account requirement parent auth.

Lemma checked_leaves d depth ordered actions keys perms delay unused satisfied_auths a : dangling d ->
  check_authorization (cp_max_delay cp) depth ordered d actions keys perms delay unused satisfied_auths = Ok tt -> sent_in actions a -> not_created a -> leaves_link a.
Proof using not_any not_system.
  intros D Hc (nm & data & declared & auths & Hn & Hd & Hin) Ha.
  assert (Hno : ~ uses_link account code type (mkTrxAction system_account_name nm auths data) declared).
  { intros Hu. destruct (dangling_refused d (cp_max_delay cp) depth ordered actions keys perms delay unused satisfied_auths _ declared D Hin Hd Hu) as [e He]. by rewrite He in Hc. }
  destruct a; cbn [leaves_link native_data] in *; try exact I.
  - intros [= -> ->]. by eapply Ha.
  - intros [= -> -> ->]. injection Hn as <- <-. apply Hno. by eapply uses_linkauth.
  - intros [= -> -> ->]. injection Hn as <- <-. apply Hno. by apply uses_unlinkauth.
Qed.

Lemma runs_dangling depth ordered d d2 : node_runs cp depth ordered not_created d d2 -> dangling d -> dangling d2.
Proof using not_any not_system.
  induction 1 as [|d1 d2 actions keys perms delay unused sats acts _ IH Hc Hs He|d1 d2 producers c _ IH He]; intros D; [done| |].
  - apply (dangling_all acts d1); [|auto|done]. apply Forall_forall. intros [a c] Hin. cbn. destruct (Hs a c Hin). eapply checked_leaves; [apply IH, D|exact Hc|done|done].
  - apply (dangling_all [(AProducers producers, c)] d1); [by constructor|auto|done].
Qed.
End dangling.

(** C38: linkauth accepts the name of a permission the account does not have, because it looks
    for the name among the permissions of all accounts.  Let it link an action of a contract other than
    eosio to such a name (not the name eosio.any, which asks for no permission).  Then in
    every later state, as long as the account does not create the permission with
    updateauth, whatever other transactions pass the check and however the producers
    change: the link is still there, and every transaction that declares a permission of
    the account for the linked action is refused, whoever signs it, and so are the native
    actions that would replace or remove the link. *)
Theorem dangling_link_blocks cp account code type requirement c d o u d' o' :
  perm_tree d -> auth_apply cp (ALinkauth account code type requirement) c d o = Ok (u, d', o') ->
  by_owner d account requirement = None -> requirement <> eosio_any_name -> code <> system_account_name ->
  forall depth ordered d2, node_runs cp depth ordered (not_created account requirement) d' d2 ->
    links d2 !! (account, code, type) = Some requirement /\
    forall max_delay depth ordered actions keys perms delay unused satisfied_auths act declared,
      act ∈ actions -> declared ∈ ta_authorization act -> uses_link account code type act declared ->
      exists e, check_authorization max_delay depth ordered d2 actions keys perms delay unused satisfied_auths = Err e.
Proof.
  intros T H Hn Ha Hc depth ordered d2 Hr. pose proof (auth_apply_tree _ _ _ _ _ _ _ _ T H) as T'.
  apply linkauth_effect in H as ((Ea & Ep & _) & EL & Hacc & _).
  assert (D : dangling account code type requirement d2).
  { eapply runs_dangling; [done|done|exact Hr|]. split; [done|by rewrite Ea|rewrite EL; apply lookup_insert_eq|].
    intros i p. rewrite Ep. intros Hi Eo En. by eapply (by_owner_None d). }
  split; [apply D|]. intros. by eapply (dangling_refused account code type requirement).
Qed.

(** What a successful check shows of every declared authorization. *)
Lemma check_sound max_delay depth ordered d actions keys perms delay unused satisfied_auths u :
  perm_forest d -> authorities_typed d -> (forall l, ordered l ≡ₚ l) ->
  check_authorization max_delay depth ordered d actions keys perms delay unused satisfied_auths = Ok u ->
  forall act a, act ∈ actions -> a ∈ ta_authorization act ->
    authorized d act a /\
    exists sp dl, special_case d (effective_delay max_delay delay) act = Ok (sp, dl) /\
      (a ∈ satisfied_auths \/ sat (permission_to_authority d) keys perms dl a).
Proof.
  intros T Ht Ho H act a Hact Ha. unfold check_authorization in H.
  apply res_bind_ok in H as (l & Hl & H). apply res_bind_ok in H as (used & Hs & _).
  destruct (check_actions_Ok d T _ _ _ _ _ Hl) as [H1 _]. destruct (H1 act a Hact Ha) as (Hauth & sp & dl & Hsp & Hd).
  split; [done|]. exists sp, dl. split; [done|]. destruct Hd as [Hd|(d' & Hin & Hle)]; [by left|right].
  eapply sat_delay; [exact Hle|]. by eapply satisfy_all_sound.
Qed.

(** C12: When the check of a transaction succeeds, every authorization it declares is
    good for its action: the declared permission is the one the action requires
    (the linked or the active one, or the one a native action changes) or an ancestor
    of it in the account's tree, and it was satisfied before or is satisfied by the
    keys, the permissions and the delay of the transaction. *)
Theorem check_authorization_sound max_delay depth ordered d actions keys perms delay unused satisfied_auths u :
  perm_forest d -> authorities_typed d -> (forall l, ordered l ≡ₚ l) ->
  check_authorization max_delay depth ordered d actions keys perms delay unused satisfied_auths = Ok u ->
  forall act a, act ∈ actions -> a ∈ ta_authorization act ->
    authorized d act a /\
    exists sp dl, special_case d (effective_delay max_delay delay) act = Ok (sp, dl) /\
      (a ∈ satisfied_auths \/ sat (permission_to_authority d) keys perms dl a).
Proof. apply check_sound. Qed.

Definition typedb (auth : authority) : bool :=
  (0 <=? threshold auth) && (threshold auth <? 2^32) && forallb (fun m => (0 <=? get_weight m) && (get_weight m <? 2^16)) (all_factors auth).

Lemma demo_typed : authorities_typed demo_chain.
Proof.
  assert (H : forallb (fun kv => typedb (po_auth kv.2)) (map_to_list (permissions demo_chain)) = true) by (vm_compute; reflexivity).
  intros i p Hp%elem_of_map_to_list. rewrite forallb_forall in H. apply list_elem_of_In in Hp. specialize (H _ Hp). cbn [snd] in H.
  unfold typedb in H. rewrite !andb_true_iff, forallb_forall, Z.leb_le, Z.ltb_lt in H. destruct H as [H1 H2]. split; [lia|].
  intros m Hm%list_elem_of_In. specialize (H2 m Hm). rewrite andb_true_iff, Z.leb_le, Z.ltb_lt in H2. lia.
Qed.

Lemma demo_tree : perm_tree demo_chain.
Proof. destruct demo_genesis_Ok as (u & o & E). apply (genesis_reach_exact _ _ _ _ _ _ _ _ _ E demo_chain_reach). Qed.

(** A transfer under pay and a change of pay under active. *)
Definition demo_trx : list trx_action :=
  [ mkTrxAction (N "bob") (N "transfer") [(N "ann", N "pay")] DOther;
    mkTrxAction (N "eosio") (N "updateauth") [(N "ann", N "active")] (DUpdateauth (N "ann") (N "pay") (N "active") (one_key 7)) ].

Lemma check_authorization_sound_witness :
  check_authorization 3888000 6 multiset_order demo_chain demo_trx [3; 5] ∅ 0 false [] = Ok tt /\
  (forall act a, act ∈ demo_trx -> a ∈ ta_authorization act ->
     authorized demo_chain act a /\ exists sp dl, special_case demo_chain (effective_delay 3888000 0) act = Ok (sp, dl) /\
       (a ∈ [] \/ sat (permission_to_authority demo_chain) [3; 5] ∅ dl a)) /\
  (exists e, check_authorization 3888000 6 multiset_order demo_chain demo_trx [5] ∅ 0 false [] = Err e) /\
  (exists e, check_authorization 3888000 6 multiset_order demo_chain
     [mkTrxAction (N "eosio") (N "updateauth") [(N "ann", N "pay")] (DUpdateauth (N "ann") (N "active") (N "owner") (one_key 7))]
     [2; 3; 5] ∅ 0 true [] = Err e).
Proof.
  assert (E : check_authorization 3888000 6 multiset_order demo_chain demo_trx [3; 5] ∅ 0 false [] = Ok tt) by (vm_compute; reflexivity).
  split; [exact E|]. split; [|split; eexists; vm_compute; reflexivity].
  exact (check_authorization_sound 3888000 6 multiset_order demo_chain demo_trx [3; 5] ∅ 0 false [] tt
    (proj1 demo_tree) demo_typed multiset_order_perm E).
Defined.

(** bob links a transfer to pay, a permission only ann has; his own permissions do not do, not
    even after the next change of the producers. *)
Definition linked_chain : auth_db := ok_or demo_chain
  (exec_all (auth_apply cp_demo) [(ALinkauth (N "bob") (N "ann") (N "transfer") (N "pay"), ctx_of (N "eosio") [N "bob"] 9)] demo_chain).
Definition later_chain : auth_db := ok_or demo_chain (exec_all (auth_apply cp_demo) [(AProducers [N "ann"; N "bob"], ctx_of (N "eosio") [] 10)] linked_chain).

Lemma dangling_link_blocks_witness : links later_chain !! (N "bob", N "ann", N "transfer") = Some (N "pay") /\
  forall keys perms, exists e, check_authorization 3888000 6 multiset_order later_chain
    [mkTrxAction (N "ann") (N "transfer") [(N "bob", N "owner")] DOther] keys perms 0 true [] = Err e.
Proof.
  destruct (auth_apply cp_demo (ALinkauth (N "bob") (N "ann") (N "transfer") (N "pay")) (ctx_of (N "eosio") [N "bob"] 9) demo_chain no_out)
    as [[[u d'] o]|e] eqn:E; [|exfalso; revert E; vm_compute; discriminate].
  assert (Hd : linked_chain = d') by (unfold linked_chain; cbn [exec_all]; rewrite E; reflexivity).
  destruct (exec_all (auth_apply cp_demo) [(AProducers [N "ann"; N "bob"], ctx_of (N "eosio") [] 10)] linked_chain) as [d2|e] eqn:E2;
    [|exfalso; revert E2; vm_compute; discriminate].
  assert (Hd2 : later_chain = d2) by (unfold later_chain; rewrite E2; reflexivity). rewrite Hd2. rewrite Hd in E2.
  destruct (dangling_link_blocks cp_demo (N "bob") (N "ann") (N "transfer") (N "pay") _ demo_chain _ _ d' _ demo_tree E
      ltac:(vm_compute; reflexivity) ltac:(vm_compute; discriminate) ltac:(vm_compute; discriminate) 6 multiset_order d2
      (runs_block _ _ _ _ d' d' d2 _ _ (runs_none _ _ _ _ d') E2)) as [Hl Hb].
  split; [exact Hl|]. intros keys perms.
  apply (Hb 3888000 6 multiset_order _ keys perms 0 true [] (mkTrxAction (N "ann") (N "transfer") [(N "bob", N "owner")] DOther) (N "bob", N "owner")); [left|left|].
  apply uses_action; reflexivity.
Defined.
