(* ===== verification/Sending.v ===== *)
(** * What an action may send

    libraries/chain/apply_context.cpp: the inline actions and the deferred transactions of a
    running action, with the checks of the node that decide whether they are accepted
    ([execute_inline], [schedule_deferred_transaction]);
    libraries/chain/transaction_context.cpp: [validate_referenced_accounts], the booking of
    network usage; libraries/chain/controller.cpp: the lists of actors a producer accepts;
    libraries/chain/wasm_interface.cpp: [check_transaction_authorization], by which a
    contract asks whether permissions are enough for a transaction.

    A transaction is its unpacked form.  Its id and its packed size are parameters. *)

From S2P Require Import Prelude Names Chain Authority ResourceLimits Permissions PermissionTree Authorize.
#[local] Open Scope Z_scope.

(** ** Transactions *)

Record transaction := mkTransaction {
  expiration : Z;                 (* seconds *)
  ref_block_num : Z;
  ref_block_prefix : Z;
  max_net_usage_words : Z;
  max_cpu_usage_ms : Z;
  delay_sec : Z;
  context_free_actions : list trx_action;
  trx_actions : list trx_action;
  transaction_extensions : list (Z * list Z)
}.
#[export] Instance eta_transaction : Eta transaction := fun t =>
  mkTransaction (expiration t) (ref_block_num t) (ref_block_prefix t) (max_net_usage_words t) (max_cpu_usage_ms t) (delay_sec t)
    (context_free_actions t) (trx_actions t) (transaction_extensions t).

Definition declared_auths (acts : list trx_action) : list permission_level := concat (map ta_authorization acts).

(** A row of the table of generated transactions, by sender and sender id. *)
Record generated_trx := mkGeneratedTrx {
  gt_trx_id : Z;
  gt_payer : name;
  gt_published : Z;
  gt_delay_until : Z;
  gt_expiration : Z;
  gt_trx : transaction
}.
#[export] Instance eta_generated_trx : Eta generated_trx := fun g =>
  mkGeneratedTrx (gt_trx_id g) (gt_payer g) (gt_published g) (gt_delay_until g) (gt_expiration g) (gt_trx g).

(** What the controller and the context of the running transaction say. *)
Record trx_ctx := mkTrxCtx {
  is_producing_block : bool;
  skip_auth_check : bool;
  skip_trx_checks : bool;
  allow_ram_billing_in_notify : bool;
  actor_whitelist : list name;                (* in ascending order, as the next two *)
  actor_blacklist : list name;
  sender_bypass_whiteblacklist : list name;
  enforce_whiteblacklist : bool;
  trx_published : Z;                          (* microseconds *)
  eager_net_limit : Z;
  base_per_transaction_net_usage : Z;
  deferred_trx_expiration_window : Z;         (* seconds *)
  head_block_ref : Z * Z                      (* of the head block's id, as a reference *)
}.

(** The part of the node that sending changes. *)
Record sender := mkSender {
  tables : auth_db;
  generated_trxs : gmap (name * Z) generated_trx;
  net_usage : Z;
  inline_actions : list trx_action
}.
#[export] Instance eta_sender : Eta sender := fun s => mkSender (tables s) (generated_trxs s) (net_usage s) (inline_actions s).

(** ** Authorization by a permission *)

Definition has_auth2 (c : ctx) (level : permission_level) : bool :=
  existsb (fun p => (p.1 =? level.1) && (p.2 =? level.2)) (auths c).

Definition require_auth2 {S} (level : permission_level) : M S unit := fun c s o =>
  if has_auth2 c level then Ok (tt, s, o) else Err (MissingAuth level.1).

(** ** The lists of actors *)

(** [flat_set<account_name>] of the given elements. *)
Definition flat_set (l : list name) : list name := merge_sort Z.le (remove_dups l).

(** [std::lower_bound]: what is left of an ascending list from the first element that is not below [x]. *)
Fixpoint lower_bound (x : name) (l : list name) : list name :=
  match l with
  | [] => []
  | y :: l' => if y <? x then lower_bound x l' else l
  end.

Fixpoint all_listed (actors rest : list name) : bool :=
  match actors with
  | [] => true
  | actor :: actors' =>
      match lower_bound actor rest with
      | b :: rest' => if b =? actor then all_listed actors' rest' else false
      | [] => false
      end
  end.

Fixpoint some_listed (actors rest : list name) : bool :=
  match actors with
  | [] => false
  | actor :: actors' =>
      match lower_bound actor rest with
      | [] => false
      | b :: rest' => if b =? actor then true else some_listed actors' (b :: rest')
      end
  end.

Definition check_actor_list (t : trx_ctx) (actors : list name) : res unit :=
  match actors, actor_whitelist t, actor_blacklist t with
  | [], _, _ => Ok tt
  | a :: _, w :: _, _ =>
      chain_assert ((w <=? a) && (default a (last actors) <=? default w (last (actor_whitelist t))) && all_listed actors (actor_whitelist t))
        "authorizing actor(s) in transaction are not on the actor whitelist"
  | a :: _, [], b :: _ =>
      chain_assert (negb ((a <=? default b (last (actor_blacklist t))) && (b <=? default a (last actors)) && some_listed actors (actor_blacklist t)))
        "authorizing actor(s) in transaction are on the actor blacklist"
  | _ :: _, [], [] => Ok tt
  end.

Definition sender_avoids_whitelist_blacklist_enforcement (t : trx_ctx) (sender : name) : bool :=
  bool_decide (sender ∈ sender_bypass_whiteblacklist t).

(** ** The accounts of a transaction *)

Definition code_exists (d : auth_db) (a : trx_action) : res unit := chain_assert (account_exists d (ta_account a)) "action's code account does not exist".

Fixpoint validate_context_free (d : auth_db) (l : list trx_action) : res unit :=
  match l with
  | [] => Ok tt
  | a :: l' =>
      _ ← code_exists d a;
      _ ← chain_assert (bool_decide (ta_authorization a = [])) "context-free actions cannot have authorizations";
      validate_context_free d l'
  end.

Fixpoint validate_levels (d : auth_db) (l : list permission_level) : res unit :=
  match l with
  | [] => Ok tt
  | auth :: l' =>
      _ ← chain_assert (account_exists d auth.1) "action's authorizing actor does not exist";
      p ← find_permission d auth;
      _ ← chain_assert (bool_decide (is_Some p)) "action's authorizations include a non-existent permission";
      validate_levels d l'
  end.

Fixpoint validate_actions (d : auth_db) (l : list trx_action) : res unit :=
  match l with
  | [] => Ok tt
  | a :: l' =>
      _ ← code_exists d a;
      _ ← validate_levels d (ta_authorization a);
      validate_actions d l'
  end.

Definition validate_referenced_accounts (t : trx_ctx) (d : auth_db) (trx : transaction) (enforce_actor_whitelist_blacklist : bool) : res unit :=
  _ ← validate_context_free d (context_free_actions trx);
  _ ← validate_actions d (trx_actions trx);
  _ ← chain_assert (negb (bool_decide (declared_auths (trx_actions trx) = []))) "transaction must have at least one authorization";
  if enforce_actor_whitelist_blacklist then check_actor_list t (flat_set (map fst (declared_auths (trx_actions trx)))) else Ok tt.

(** ** Sending *)

(** [privileged], which exec_one takes from the account of the receiver. *)
Definition is_privileged (d : auth_db) (receiver : name) : bool :=
  match accounts d !! receiver with Some a => privileged a | None => false end.

Section sending.
Context (max_transaction_delay max_authority_depth : Z).                   (* the chain configuration *)
Context (ordered : list meta_permission -> list meta_permission).          (* boost: flat_multiset *)
Context (trx_id trx_size : transaction -> Z).

Local Abbreviation check_auth := (check_authorization max_transaction_delay max_authority_depth ordered).

(** The exceptions of [check_authorization] that are no [authorization_exception]. *)
Definition is_authorization_exception (e : error) : bool :=
  match e with
  | ChainError msg => negb (existsb (String.eqb msg)
      [ "Failed to retrieve permission"; "permission table inconsistent"; "Cannot link to a minimum permission";
        "cannot unlink non-existent permission link"; "cannot cancel trx_id, there is no deferred transaction with that transaction id";
        "canceling_auth in canceldelay action was not found as authorization in the original delayed transaction"; "unpack" ]%string)
  | _ => false
  end.

Definition check_transaction_authorization (d : auth_db) (trx : transaction) (provided_keys : list Z) (provided_permissions : list permission_level) : res bool :=
  match check_auth d (trx_actions trx) provided_keys (list_to_set provided_permissions) (delay_sec trx * 1000000) false [] with
  | Ok _ => Ok true
  | Err e => if is_authorization_exception e then Ok false else Err e
  end.

(** [act_account]: the account the running action is for; [act_auths]: its authorizations. *)
Definition execute_inline (t : trx_ctx) (act_account : name) (a : trx_action) : M sender unit :=
  d ← gets tables;
  receiver ← ask self;
  act_auths ← ask auths;
  now ← ask current_time;
  _ ← lift (chain_assert (account_exists d (ta_account a)) "inline action's code account does not exist");
  let enforce := enforce_whiteblacklist t && is_producing_block t in
  let send_to_self := ta_account a =? receiver in
  let inherit := send_to_self && (receiver =? act_account) && is_producing_block t in
  let inherited := if inherit then filter (fun p => p ∈ act_auths) (ta_authorization a) else [] in
  _ ← lift (validate_levels d (ta_authorization a));
  _ ← lift (if enforce then check_actor_list t (flat_set (map fst (ta_authorization a))) else Ok tt);
  _ ← lift (if negb (skip_auth_check t) && negb (is_privileged d receiver) then
              match check_auth d [a] [] {[(receiver, eosio_code_name)]} (now - trx_published t) false inherited with
              | Ok _ => Ok tt
              | Err e => if negb send_to_self then Err e
                         else if is_producing_block t then Err (ChainError "Authorization failure with inline action sent to self") else Ok tt
              end
            else Ok tt);
  l ← gets inline_actions;
  assign inline_actions (l ++ [a]).

Definition add_net_usage (t : trx_ctx) (u : Z) : M sender unit :=
  n ← gets net_usage;
  _ ← assign net_usage (u64 (n + u));
  lift (chain_assert (skip_trx_checks t || (u64 (n + u) <=? eager_net_limit t)) "transaction net usage is too high").

Definition transaction_id_net_usage : Z := 32.
Definition billable_generated : Z := billable_size_v (96 + 4 + 5 * overhead_per_row_per_index_ram_bytes).

(** [M auth_db] as a part of [M sender]. *)
Definition on_tables {A} (m : M auth_db A) : M sender A := fun c s o =>
  match m c (tables s) o with Ok (a, d, o') => Ok (a, s <| tables := d |>, o') | Err e => Err e end.

(** What the authorization check of a deferred transaction comes to. *)
Definition check_deferred (t : trx_ctx) (d : auth_db) (receiver : name) (trx : transaction) : res unit :=
  let sending_only_to_self := forallb (fun a => ta_account a =? receiver) (trx_actions trx) in
  match check_auth d (trx_actions trx) [] {[(receiver, eosio_code_name)]} (delay_sec trx * 1000000) false [] with
  | Ok _ => Ok tt
  | Err e => if negb sending_only_to_self then Err e
             else if is_producing_block t then Err (ChainError "Authorization failure with sent deferred transaction consisting only of actions to self")
             else Ok tt
  end.

(** The row of the table, by sender id and, for the authorization manager, by transaction id. *)
Definition store_generated (t : trx_ctx) (sender_id : Z) (payer : name) (trx : transaction) (replace_existing : bool) : M sender unit :=
  receiver ← ask self;
  now ← ask current_time;
  let until := now + delay_sec trx * 1000000 in
  let expires := until + deferred_trx_expiration_window t * 1000000 in
  old ← find generated_trxs (receiver, sender_id);
  match old with
  | Some g =>
      _ ← lift (chain_assert replace_existing "deferred transaction with the same sender_id and payer already exists");
      _ ← lift (chain_assert (negb (is_producing_block t)) "Replacing a deferred transaction is temporarily disabled.");
      _ ← put generated_trxs (receiver, sender_id) (mkGeneratedTrx (gt_trx_id g) payer now until expires trx);
      on_tables (put generated (gt_trx_id g) (mkGenerated receiver now until (declared_auths (trx_actions trx))))
  | None =>
      _ ← put generated_trxs (receiver, sender_id) (mkGeneratedTrx (trx_id trx) payer now until expires trx);
      on_tables (emplace generated (trx_id trx) (mkGenerated receiver now until (declared_auths (trx_actions trx))))
  end.

Definition schedule_deferred_transaction (t : trx_ctx) (act_account : name) (sender_id : Z) (payer : name) (trx : transaction) (replace_existing : bool) :
    M sender unit :=
  _ ← lift (chain_assert (bool_decide (context_free_actions trx = [])) "context free actions are not currently allowed in generated transactions");
  d ← gets tables;
  receiver ← ask self;
  now ← ask current_time;
  let trx := trx <| expiration := u32 ((now + 999999) / 1000000) |>
                 <| ref_block_num := fst (head_block_ref t) |> <| ref_block_prefix := snd (head_block_ref t) |> in
  let enforce := enforce_whiteblacklist t && is_producing_block t && negb (sender_avoids_whitelist_blacklist_enforcement t receiver) in
  _ ← lift (validate_referenced_accounts t d trx enforce);
  _ ← add_net_usage t (base_per_transaction_net_usage t + transaction_id_net_usage);
  _ ← when (negb (skip_auth_check t) && negb (is_privileged d receiver))
        (_ ← when (negb (payer =? receiver)) (require_auth payer);
         lift (check_deferred t d receiver trx));
  _ ← store_generated t sender_id payer trx replace_existing;
  _ ← lift (chain_assert (negb (is_producing_block t) || allow_ram_billing_in_notify t || (receiver =? act_account) || (receiver =? payer) || is_privileged d receiver)
              "Cannot charge RAM to other accounts during notify.");
  on_tables (add_ram_usage payer (billable_generated + trx_size trx)).

Definition cancel_deferred_transaction (sender_id : Z) : M sender bool :=
  sender_ ← ask self;
  old ← find generated_trxs (sender_, sender_id);
  match old with
  | Some g =>
      _ ← on_tables (add_ram_usage (gt_payer g) (- (billable_generated + trx_size (gt_trx g))));
      _ ← erase generated_trxs (sender_, sender_id);
      _ ← on_tables (erase generated (gt_trx_id g));
      mret true
  | None => mret false
  end.
End sending.

(** ** The lists of actors are decided *)

Lemma flat_set_sorted l : StronglySorted Z.lt (flat_set l).
Proof.
  assert (Hs : StronglySorted Z.le (flat_set l)) by (apply StronglySorted_merge_sort; apply _).
  assert (Hd : NoDup (flat_set l)) by (unfold flat_set; rewrite merge_sort_Permutation; apply NoDup_remove_dups).
  revert Hs Hd. generalize (flat_set l). induction 1 as [|x m Hm IH Hx]; intros Hd; constructor; apply NoDup_cons in Hd as [Hn Hd]; [by apply IH|].
  rewrite Forall_forall in Hx |- *. intros y Hy. specialize (Hx y Hy). assert (x <> y) by (by intros ->). lia.
Qed.

Lemma elem_of_flat_set x l : x ∈ flat_set l <-> x ∈ l.
Proof. unfold flat_set. by rewrite merge_sort_Permutation, elem_of_remove_dups. Qed.

Lemma sorted_above a l x : StronglySorted Z.lt (a :: l) -> x ∈ l -> a < x.
Proof. intros [_ H]%StronglySorted_inv Hx. by apply (proj1 (Forall_forall _ _) H). Qed.

Lemma lower_bound_spec x l : StronglySorted Z.lt l ->
  StronglySorted Z.lt (lower_bound x l) /\ forall y, y ∈ lower_bound x l <-> y ∈ l /\ x <= y.
Proof.
  induction 1 as [|a l Hl IH Ha]; cbn; [split; [constructor|]; intros y; rewrite !elem_of_nil; tauto|].
  destruct (Z.ltb_spec a x) as [Hlt|Hge].
  - split; [apply IH|]. intros y. rewrite (proj2 IH y), elem_of_cons. split; [tauto|]. intros [[->|Hy] Hle]; [lia|done].
  - split; [by constructor|]. intros y. split; [|tauto]. intros Hy. split; [done|]. apply elem_of_cons in Hy as [->|Hy]; [done|].
    rewrite Forall_forall in Ha. specialize (Ha y Hy). lia.
Qed.

Lemma all_listed_spec actors : StronglySorted Z.lt actors -> forall rest, StronglySorted Z.lt rest ->
  all_listed actors rest = true <-> forall a, a ∈ actors -> a ∈ rest.
Proof.
  induction 1 as [|a l Hl IH Ha]; intros rest Hr; cbn; [split; [by intros _ a ?%elem_of_nil|done]|]. rewrite Forall_forall in Ha.
  destruct (lower_bound_spec a rest Hr) as [Hs Hb]. destruct (lower_bound a rest) as [|b rest'] eqn:E.
  { split; [done|]. intros H. specialize (H a (list_elem_of_here _ _)). assert (Hn : a ∈ []) by (apply Hb; split; [done|lia]). by apply elem_of_nil in Hn. }
  destruct (Z.eqb_spec b a) as [->|Hne].
  - rewrite IH by (by apply StronglySorted_inv in Hs as [? _]). split; intros H x Hx.
    + apply elem_of_cons in Hx as [->|Hx]; [apply Hb; by left|]. apply Hb. right. by apply H.
    + pose proof (Ha x Hx) as Hlt. assert (Hin : x ∈ a :: rest') by (apply Hb; split; [apply H; by right|lia]).
      apply elem_of_cons in Hin as [->|Hin]; [lia|done].
  - split; [done|]. intros H. exfalso. assert (Hin : a ∈ b :: rest') by (apply Hb; split; [apply H; left|lia]).
    apply elem_of_cons in Hin as [->|Hin]; [done|]. pose proof (sorted_above _ _ _ Hs Hin). pose proof (proj2 (proj1 (Hb b) (list_elem_of_here _ _))). lia.
Qed.

Lemma some_listed_spec actors : StronglySorted Z.lt actors -> forall rest, StronglySorted Z.lt rest ->
  some_listed actors rest = true <-> exists a, a ∈ actors /\ a ∈ rest.
Proof.
  induction 1 as [|a l Hl IH Ha]; intros rest Hr; cbn; [split; [done|by intros (a & ?%elem_of_nil & _)]|]. rewrite Forall_forall in Ha.
  destruct (lower_bound_spec a rest Hr) as [Hs Hb]. destruct (lower_bound a rest) as [|b rest'] eqn:E.
  { split; [done|]. intros (x & Hx & Hin). assert (Hn : x ∈ []); [|by apply elem_of_nil in Hn].
    apply Hb. split; [done|]. apply elem_of_cons in Hx as [->|Hx]; [done|]. specialize (Ha x Hx). lia. }
  destruct (Z.eqb_spec b a) as [->|Hne].
  - split; [|done]. intros _. exists a. split; [left|]. apply Hb. left.
  - rewrite IH by done. split; intros (x & Hx & Hin).
    + exists x. split; [by right|]. by apply Hb in Hin as [Hin _].
    + apply elem_of_cons in Hx as [->|Hx]; [|exists x; split; [done|apply Hb; split; [done|specialize (Ha x Hx); lia]]].
      exfalso. assert (Hn : a ∈ b :: rest') by (by apply Hb). apply elem_of_cons in Hn as [->|Hn]; [done|].
      pose proof (sorted_above _ _ _ Hs Hn). pose proof (proj2 (proj1 (Hb b) (list_elem_of_here _ _))). lia.
Qed.

Lemma sorted_extents a l d x : StronglySorted Z.lt (a :: l) -> x ∈ a :: l -> a <= x <= default d (last (a :: l)).
Proof.
  revert a x. induction l as [|b l IH]; intros a x Hs Hx.
  - apply list_elem_of_singleton in Hx as ->. cbn. lia.
  - pose proof Hs as [Hs' Hf]%StronglySorted_inv. apply Forall_cons in Hf as [Hab _]. change (last (a :: b :: l)) with (last (b :: l)).
    apply elem_of_cons in Hx as [->|Hx]; [pose proof (IH b b Hs' (list_elem_of_here _ _)); lia|]. specialize (IH b x Hs' Hx). lia.
Qed.

(** The search through the sorted lists, with its shortcut on their ends, finds
    whether all actors are on the first list or, when it is empty, none is on the second. *)
Theorem check_actor_list_spec t l : StronglySorted Z.lt (actor_whitelist t) -> StronglySorted Z.lt (actor_blacklist t) ->
  check_actor_list t (flat_set l) = Ok tt <->
  (actor_whitelist t <> [] -> forall a, a ∈ l -> a ∈ actor_whitelist t) /\
  (actor_whitelist t = [] -> forall a, a ∈ l -> a ∉ actor_blacklist t).
Proof.
  intros Hw Hb. setoid_rewrite <- (fun x => elem_of_flat_set x l). pose proof (flat_set_sorted l) as Ha. unfold check_actor_list.
  destruct (flat_set l) as [|a actors]; [split; [intros _; split; intros _ x ?%elem_of_nil; done|done]|].
  assert (Hc : forall b msg, chain_assert b msg = Ok tt <-> b = true) by (intros [] ?; by unfold chain_assert).
  destruct (actor_whitelist t) as [|w ws] eqn:Ew; [destruct (actor_blacklist t) as [|b bs] eqn:Eb|].
  - split; [|done]. intros _. split; [done|]. intros _ x _. apply not_elem_of_nil.
  - rewrite Hc, negb_true_iff, <- not_true_iff_false, !andb_true_iff, !Z.leb_le, some_listed_spec by done. split.
    + intros H. split; [done|]. intros _ x Hx Hin. apply H.
      pose proof (sorted_extents a actors a x Ha Hx). pose proof (sorted_extents b bs b x Hb Hin). split; [lia|]. by exists x.
    + intros [_ H] (_ & x & Hx & Hin). by apply (H eq_refl x).
  - rewrite Hc, !andb_true_iff, !Z.leb_le, all_listed_spec by done. split.
    + intros [_ H]. split; [by intros _|done].
    + intros [H _]. specialize (H ltac:(done)). split; [|done]. split.
      * apply (sorted_extents w ws w a Hw). apply H. left.
      * destruct (last (a :: actors)) as [z|] eqn:El; [|by apply last_None in El]. cbn. apply (sorted_extents w ws w z Hw), H. by eapply last_Some_elem_of.
Qed.

(** ** What the check reads *)

(** Two states of the node with the same permissions and links, in which the delayed transactions
    that the actions cancel are the same. *)
Definition same_permissions (acts : list trx_action) (d d' : auth_db) : Prop :=
  permissions d = permissions d' /\ links d = links d' /\
  forall act canceling_auth trx_id, act ∈ acts -> ta_data act = DCanceldelay canceling_auth trx_id -> generated d !! trx_id = generated d' !! trx_id.

Section same.
Context (all : list trx_action) (d d' : auth_db) (Hd : same_permissions all d d').

Lemma find_permission_same p : find_permission d p = find_permission d' p.
Proof using Hd. destruct Hd as (E & _ & _). unfold find_permission, by_owner. by rewrite E. Qed.

Lemma get_permission_same p : get_permission d p = get_permission d' p.
Proof using Hd. unfold get_permission. by rewrite find_permission_same. Qed.

Lemma lookup_linked_same a s n : lookup_linked_permission d a s n = lookup_linked_permission d' a s n.
Proof using Hd. destruct Hd as (_ & E & _). unfold lookup_linked_permission. by rewrite E. Qed.

Lemma check_satisfies_same a m msg : check_satisfies d a m msg = check_satisfies d' a m msg.
Proof using Hd.
  unfold check_satisfies, satisfies. rewrite get_permission_same. destruct (get_permission d' a) as [p|]; [|done]. cbn. destruct Hd as (E & _ & _). rewrite E.
  assert (W : forall n id q, walk_up n d id q = walk_up n d' id q); [|destruct (negb _); [done|]; destruct (_ || _); [done|]; destruct (_ !! _); [by rewrite W|done]].
  induction n as [|n IH]; intros id q; [done|]. cbn. rewrite E. destruct (_ =? _); [done|]. destruct (_ =? _); [done|]. by destruct (_ !! _).
Qed.

Lemma res_bind_ext {A B} (m m' : res A) (f g : A -> res B) : m = m' -> (forall a, f a = g a) -> (m ≫= f) = (m' ≫= g).
Proof. intros <- H. destruct m; cbn; [apply H|done]. Qed.

Ltac same_with := repeat first [reflexivity | rewrite find_permission_same | rewrite get_permission_same | rewrite lookup_linked_same | rewrite check_satisfies_same
  | apply res_bind_ext; [|intros ?] | match goal with |- context [match ?x with _ => _ end] => destruct x end].

Lemma special_case_same delay act : act ∈ all -> special_case d delay act = special_case d' delay act.
Proof using Hd.
  intros Hin. assert (Hg : forall canceling_auth i, ta_data act = DCanceldelay canceling_auth i -> generated d !! i = generated d' !! i)
    by (intros canceling_auth i E; by apply (proj2 (proj2 Hd)) with act canceling_auth).
  unfold special_case, check_updateauth_authorization, check_deleteauth_authorization, check_linkauth_authorization, check_unlinkauth_authorization,
    check_canceldelay_authorization, lookup_minimum_permission. destruct (ta_data act) as [| | | |canceling i|]; [same_with..|rewrite (Hg canceling i eq_refl)|]; same_with.
Qed.

Lemma check_actions_same except delay acts : (forall act, act ∈ acts -> act ∈ all) -> forall l, check_actions d except delay acts l = check_actions d' except delay acts l.
Proof using Hd.
  assert (D : forall special dl act l a, check_declared d except special dl act l a = check_declared d' except special dl act l a).
  { intros. unfold check_declared, lookup_minimum_permission. same_with. }
  assert (A : forall special dl act auths l, check_declared_all d except special dl act auths l = check_declared_all d' except special dl act auths l).
  { induction auths as [|a auths IH]; intros l; cbn; [done|]. apply res_bind_ext; [apply D|apply IH]. }
  induction acts as [|act acts IH]; intros Hin l; cbn; [done|]. apply res_bind_ext; [apply special_case_same, Hin; by left|]. intros sd.
  apply res_bind_ext; [apply A|apply IH]. intros x Hx. apply Hin. by right.
Qed.

Lemma check_same max_delay depth ordered keys perms delay unused except :
  check_authorization max_delay depth ordered d all keys perms delay unused except =
  check_authorization max_delay depth ordered d' all keys perms delay unused except.
Proof using Hd.
  unfold check_authorization. apply res_bind_ext; [by apply check_actions_same|]. intros l. apply res_bind_ext; [|done].
  generalize (no_keys_used keys). induction l as [|[p dl] l IH]; intros used; cbn [satisfy_all]; [done|].
  assert (E : permission_to_authority d = permission_to_authority d'); [|rewrite E; destruct (satisfied_level _ _ _ _ _ _ _ _); by apply res_bind_ext].
  unfold permission_to_authority, get_permission, find_permission, by_owner. destruct Hd as (E & _ & _). by rewrite E.
Qed.
End same.

(** ** What is sent is authorized *)

Section sent.
Context (max_transaction_delay max_authority_depth : Z) (ordered : list meta_permission -> list meta_permission).
Context (trx_id trx_size : transaction -> Z) (Ho : forall l, ordered l ≡ₚ l).

Local Abbreviation check_auth := (check_authorization max_transaction_delay max_authority_depth ordered).

(** Every declared authorization of the actions is good for its action and, unless
    excepted, satisfied without keys by the given permissions and the delay that
    [special_case] allows the action in a transaction delayed by [delay] microseconds: this
    delay, the age of the transaction to cancel, or any when it is at least the maximum. *)
Definition covered (d : auth_db) (delay : Z) (acts : list trx_action) (except : list permission_level) (perms : gset permission_level) : Prop :=
  forall act a, act ∈ acts -> a ∈ ta_authorization act ->
    authorized d act a /\ exists sp dl, special_case d (effective_delay max_transaction_delay delay) act = Ok (sp, dl) /\
      (a ∈ except \/ sat (permission_to_authority d) [] perms dl a).

Lemma check_covered d acts perms delay except u : perm_forest d -> authorities_typed d ->
  check_auth d acts [] perms delay false except = Ok u -> covered d delay acts except perms.
Proof using Ho. intros T Ht H. exact (check_sound _ _ _ _ _ _ _ _ _ _ _ T Ht Ho H). Qed.

Lemma check_transaction_covered d trx perms : perm_forest d -> authorities_typed d ->
  check_transaction_authorization max_transaction_delay max_authority_depth ordered d trx [] perms = Ok true ->
  covered d (delay_sec trx * 1000000) (trx_actions trx) [] (list_to_set perms).
Proof using Ho.
  unfold check_transaction_authorization. intros T Ht. destruct (check_authorization _ _ _ _ _ _ _ _ _ _) as [u|e] eqn:E.
  - intros _. by eapply check_covered.
  - by destruct (is_authorization_exception e).
Qed.

(** An inline action needs the permission eosio.code of the sending account for each
    authorization it declares, but for those of the running action when an account sends to itself. *)
Theorem inline_authorized t act_account a c s o u s' o' :
  execute_inline max_transaction_delay max_authority_depth ordered t act_account a c s o = Ok (u, s', o') ->
  perm_forest (tables s) -> authorities_typed (tables s) -> skip_auth_check t = false -> is_privileged (tables s) (self c) = false ->
  ta_account a <> self c \/ is_producing_block t = true ->
  s' = s <| inline_actions := inline_actions s ++ [a] |> /\
  covered (tables s) (current_time c - trx_published t) [a] (if ta_account a =? self c then auths c else []) {[(self c, eosio_code_name)]}.
Proof using Ho.
  unfold execute_inline. intros H T Ht Hs Hp Hself. minv. split; [done|]. rewrite Hs, Hp in *. cbn [negb andb] in *.
  match goal with H : (match ?r with _ => _ end) = Ok _ |- _ => destruct r as [v|e] eqn:E in H end.
  - pose proof (check_covered _ _ _ _ _ _ T Ht E) as Hc. intros act p Hact Hin. destruct (Hc act p Hact Hin) as (H1 & sp & dl & Hsp & H2). split; [done|]. exists sp, dl. split; [done|].
    destruct H2 as [H2|H2]; [left|by right]. destruct (ta_account a =? self c); [|by cbn in H2].
    destruct (_ && _ && _); [by apply list_elem_of_filter in H2 as [? _]|by apply elem_of_nil in H2].
  - exfalso. destruct (Z.eqb_spec (ta_account a) (self c)) as [He|]; [|done]. destruct Hself as [|Hpr]; [done|]. by rewrite Hpr in *.
Qed.

Lemma on_tables_Ok {A} (m : M auth_db A) a c s o s' o' : on_tables m c s o = Ok (a, s', o') ->
  exists d, m c (tables s) o = Ok (a, d, o') /\ s' = s <| tables := d |>.
Proof. unfold on_tables. destruct (m c (tables s) o) as [[[b d] o1]|]; [|done]. intros [= -> <- <-]. by exists d. Qed.

(** The row a deferred transaction is stored in. *)
Lemma schedule_Ok t act_account id payer trx replace c s o u s' o' :
  schedule_deferred_transaction max_transaction_delay max_authority_depth ordered trx_id trx_size t act_account id payer trx replace c s o = Ok (u, s', o') ->
  exists g, generated_trxs s' = <[(self c, id) := g]> (generated_trxs s) /\ (replace = false -> generated_trxs s !! (self c, id) = None) /\
    trx_actions (gt_trx g) = trx_actions trx /\ context_free_actions (gt_trx g) = [] /\ gt_payer g = payer /\
    gt_delay_until g = current_time c + delay_sec trx * 1000000.
Proof.
  unfold schedule_deferred_transaction, store_generated, add_net_usage. intros H. minv.
  all: repeat match goal with H : on_tables _ _ _ _ = Ok _ |- _ => apply on_tables_Ok in H as (? & _ & ->) end.
  all: match goal with H : chain_assert (bool_decide (_)) _ = Ok _ |- _ => apply chain_assert_Ok, bool_decide_eq_true_1 in H end.
  all: eexists; split; [reflexivity|]; split; [|done].
  all: intros ->; first [done|match goal with H : chain_assert false _ = Ok _ |- _ => discriminate H end].
Qed.

(** A deferred transaction of a contract without privileges needs its permission eosio.code for
    each authorization, and the authority of the account that pays. *)
Theorem deferred_authorized t act_account id payer trx replace c s o u s' o' :
  schedule_deferred_transaction max_transaction_delay max_authority_depth ordered trx_id trx_size t act_account id payer trx replace c s o = Ok (u, s', o') ->
  perm_forest (tables s) -> authorities_typed (tables s) -> skip_auth_check t = false -> is_privileged (tables s) (self c) = false ->
  (exists a, a ∈ trx_actions trx /\ ta_account a <> self c) \/ is_producing_block t = true ->
  covered (tables s) (delay_sec trx * 1000000) (trx_actions trx) [] {[(self c, eosio_code_name)]} /\ (payer = self c \/ has_auth c payer = true).
Proof using Ho.
  unfold schedule_deferred_transaction, add_net_usage. intros H T Ht Hs Hp Hself. rewrite Hs in H. minv.
  all: try (by rewrite Hp in *). all: split; [|first [by right|left; zb; lia]].
  all: match goal with H : check_deferred _ _ _ _ _ _ _ = Ok _ |- _ => rename H into Hd end.
  all: unfold check_deferred in Hd; destruct (check_authorization _ _ _ _ _ _ _ _ _ _) as [v|e] eqn:Ec in Hd; [exact (check_covered _ _ _ _ _ _ T Ht Ec)|].
  all: exfalso; destruct (forallb _ _) eqn:Ea in Hd; [|done]; rewrite forallb_forall in Ea; cbn [negb] in Hd.
  all: destruct Hself as [(x & Hx%list_elem_of_In & Hne)|Hpr]; [by apply Hne, Z.eqb_eq, Ea|by rewrite Hpr in Hd].
Qed.
End sent.
