(* ===== verification/Msig.v ===== *)
(** * The contract eosio.msig

    contracts/eosio.msig/eosio.msig.cpp: a proposed transaction is stored with the permissions
    asked to approve it; who has one of them may approve and withdraw; when the approvals
    given are enough for the transaction, anybody can have it sent.  The host functions
    it calls are those of Sending.v.

    The theorems are about every history of the contract, the node's own tables
    changing arbitrarily between its actions: what is sent is what was proposed, and
    the approvals counted for it are those given by the permissions themselves since
    then and not withdrawn ([exec_sound]); and what all have approved can be sent
    ([exec_live]).  [sudo] is the contract eosio.sudo. *)

From S2P Require Import Prelude Names Chain Authority ResourceLimits Permissions PermissionTree Authorize Sending.
#[local] Open Scope Z_scope.

(** ** State *)

Record approvals_info := mkApprovals {
  requested_approvals : list permission_level;
  provided_approvals : list permission_level
}.

(** Tables by scope (the proposer) and name. *)
Record msig := mkMsig {
  proposals : gmap (name * name) transaction;
  approvals : gmap (name * name) approvals_info;
  chain : sender
}.
#[export] Instance eta_msig : Eta msig := fun s => mkMsig (proposals s) (approvals s) (chain s).

(** [uint128_t(a) << 64 | b]. *)
Definition deferred_id (a b : Z) : Z := Z.lor (Z.shiftl a 64) b.

(** [now()]. *)
Definition now_sec (c : ctx) : Z := u32 (current_time c / 1000000).

(** [erase] of what [std::find] found. *)
Fixpoint erase_level (p : permission_level) (l : list permission_level) : list permission_level :=
  match l with
  | [] => []
  | q :: l' => if bool_decide (q = p) then l' else q :: erase_level p l'
  end.

Definition on_chain {A} (m : M sender A) : M msig A := fun c s o =>
  match m c (chain s) o with Ok (a, n, o') => Ok (a, s <| chain := n |>, o') | Err e => Err e end.

Section msig.
Context (max_transaction_delay max_authority_depth : Z) (ordered : list meta_permission -> list meta_permission).
Context (trx_id trx_size : transaction -> Z).

Local Abbreviation check_trx := (check_transaction_authorization max_transaction_delay max_authority_depth ordered).
Local Abbreviation schedule := (schedule_deferred_transaction max_transaction_delay max_authority_depth ordered trx_id trx_size).

(** [send_deferred] of a contract on one of its own actions. *)
Definition send_trx (t : trx_ctx) (sender_id : Z) (payer : name) (trx : transaction) : M msig unit :=
  act_account ← ask self;
  on_chain (schedule t act_account sender_id payer trx false).

(** ** Actions *)

Definition propose (proposer proposal_name : name) (requested : list permission_level) (trx : transaction) : M msig unit :=
  _ ← require_auth proposer;
  now ← ask now_sec;
  _ ← eosio_assert (now <=? expiration trx) "transaction expired";
  existing ← find proposals (proposer, proposal_name);
  _ ← eosio_assert (negb (bool_decide (is_Some existing))) "proposal with the same name exists";
  d ← gets (fun s => tables (chain s));
  res ← lift (check_trx d trx [] requested);
  _ ← eosio_assert res "transaction authorization failed";
  _ ← emplace proposals (proposer, proposal_name) trx;
  emplace approvals (proposer, proposal_name) (mkApprovals requested []).

Definition approve (proposer proposal_name : name) (level : permission_level) : M msig unit :=
  _ ← require_auth2 level;
  apps ← get approvals (proposer, proposal_name) "proposal not found";
  _ ← eosio_assert (bool_decide (level ∈ requested_approvals apps)) "approval is not on the list of requested approvals";
  modify approvals (proposer, proposal_name)
    (fun a => Ok (mkApprovals (erase_level level (requested_approvals a)) (provided_approvals a ++ [level]))).

Definition unapprove (proposer proposal_name : name) (level : permission_level) : M msig unit :=
  _ ← require_auth2 level;
  apps ← get approvals (proposer, proposal_name) "proposal not found";
  _ ← eosio_assert (bool_decide (level ∈ provided_approvals apps)) "no approval previously granted";
  modify approvals (proposer, proposal_name)
    (fun a => Ok (mkApprovals (requested_approvals a ++ [level]) (erase_level level (provided_approvals a)))).

Definition cancel (proposer proposal_name canceler : name) : M msig unit :=
  _ ← require_auth canceler;
  prop ← get proposals (proposer, proposal_name) "proposal not found";
  now ← ask now_sec;
  _ ← when (negb (canceler =? proposer)) (eosio_assert (expiration prop <? now) "cannot cancel until expiration");
  _ ← get approvals (proposer, proposal_name) "proposal not found";
  _ ← erase proposals (proposer, proposal_name);
  erase approvals (proposer, proposal_name).

Definition exec (t : trx_ctx) (proposer proposal_name executer : name) : M msig unit :=
  _ ← require_auth executer;
  prop ← get proposals (proposer, proposal_name) "proposal not found";
  apps ← get approvals (proposer, proposal_name) "proposal not found";
  now ← ask now_sec;
  _ ← eosio_assert (now <=? expiration prop) "transaction expired";
  d ← gets (fun s => tables (chain s));
  res ← lift (check_trx d prop [] (provided_approvals apps));
  _ ← eosio_assert res "transaction authorization failed";
  _ ← send_trx t (deferred_id proposer proposal_name) executer prop;
  _ ← erase proposals (proposer, proposal_name);
  erase approvals (proposer, proposal_name).

Inductive msig_action :=
| MPropose (proposer proposal_name : name) (requested : list permission_level) (trx : transaction)
| MApprove (proposer proposal_name : name) (level : permission_level)
| MUnapprove (proposer proposal_name : name) (level : permission_level)
| MCancel (proposer proposal_name canceler : name)
| MExec (proposer proposal_name executer : name).

Definition msig_apply (t : trx_ctx) (a : msig_action) : M msig unit :=
  match a with
  | MPropose p n r trx => propose p n r trx
  | MApprove p n level => approve p n level
  | MUnapprove p n level => unapprove p n level
  | MCancel p n canceler => cancel p n canceler
  | MExec p n executer => exec t p n executer
  end.

(** The contract eosio.sudo: its only action sends what its own authority and the executer's agree on. *)
Definition sudo_exec (t : trx_ctx) (executer : name) (trx : transaction) : M sender unit :=
  me ← ask self;
  _ ← require_auth me;
  _ ← require_auth executer;
  now ← ask current_time;
  schedule t me (deferred_id executer now) executer trx false.

(** ** Histories *)

Record event := mkEvent { ev_action : msig_action; ev_ctx : ctx; ev_tables : auth_db }.

(** The newest event comes first. *)
Inductive history : list event -> msig -> Prop :=
| history_start n : history [] (mkMsig ∅ ∅ n)
| history_action l s t a c o u s' o' : history l s -> msig_apply t a c s o = Ok (u, s', o') ->
    history (mkEvent a c (tables (chain s)) :: l) s'
| history_node l s n : history l s -> history l (s <| chain := n |>).

(** The proposal with a key that a log leaves open: what was proposed, by which event,
    and the events since then. *)
Record case := mkCase { proposed_by : event; case_trx : transaction; case_requested : list permission_level; since : list event }.

Definition continue (e : event) (o : option case) : option case :=
  match o with Some x => Some (mkCase (proposed_by x) (case_trx x) (case_requested x) (e :: since x)) | None => None end.

Fixpoint case_of (k : name * name) (l : list event) : option case :=
  match l with
  | [] => None
  | e :: l' =>
      match ev_action e with
      | MPropose p n r trx => if bool_decide ((p, n) = k) then Some (mkCase e trx r []) else continue e (case_of k l')
      | MCancel p n _ | MExec p n _ => if bool_decide ((p, n) = k) then None else continue e (case_of k l')
      | _ => continue e (case_of k l')
      end
  end.

(** Approvals of a permission less withdrawals. *)
Definition ballot_of (k : name * name) (p : permission_level) (e : event) : Z :=
  match ev_action e with
  | MApprove q n level => if bool_decide ((q, n) = k /\ level = p) then 1 else 0
  | MUnapprove q n level => if bool_decide ((q, n) = k /\ level = p) then -1 else 0
  | _ => 0
  end.

Definition granted (k : name * name) (p : permission_level) (l : list event) : Z := foldr (fun e z => ballot_of k p e + z) 0 l.

(** An approval that carries the permission. *)
Definition given_by (k : name * name) (p : permission_level) (e : event) : Prop := ev_action e = MApprove k.1 k.2 p /\ p ∈ auths (ev_ctx e).

(** ** Lists of permissions *)

Fixpoint times (p : permission_level) (l : list permission_level) : Z :=
  match l with [] => 0 | q :: l' => (if bool_decide (q = p) then 1 else 0) + times p l' end.

Lemma times_app p l l' : times p (l ++ l') = times p l + times p l'.
Proof. induction l; cbn; lia. Qed.

Lemma times_erase p q l : q ∈ l -> times p (erase_level q l) = times p l - (if bool_decide (q = p) then 1 else 0).
Proof.
  induction l as [|r l IH]; [by intros ?%elem_of_nil|]. intros Hin. cbn. destruct (bool_decide_reflect (r = q)) as [->|Hne]; [lia|].
  apply elem_of_cons in Hin as [->|Hin]; [done|]. cbn. rewrite IH by done. lia.
Qed.

Lemma times_nonneg p l : 0 <= times p l.
Proof. induction l; cbn; [lia|]. destruct (bool_decide _); lia. Qed.

Lemma times_pos p l : 0 < times p l <-> p ∈ l.
Proof.
  induction l as [|q l IH]; cbn; [rewrite elem_of_nil; lia|]. pose proof (times_nonneg p l). rewrite elem_of_cons, <- IH.
  destruct (bool_decide_reflect (q = p)) as [->|Hne]; [split; [by left|lia]|]. split; [intros; right; lia|]. intros [->|?]; [done|lia].
Qed.

Lemma has_auth2_elem c p : has_auth2 c p = true -> p ∈ auths c.
Proof.
  unfold has_auth2. rewrite existsb_exists. intros ([a b] & Hin & [H1%Z.eqb_eq H2%Z.eqb_eq]%andb_true_iff). cbn in *.
  apply list_elem_of_In in Hin. destruct p. by subst.
Qed.

Lemma require_auth2_Ok {S} p u c (s s' : S) o o' : require_auth2 p c s o = Ok (u, s', o') -> p ∈ auths c /\ s' = s /\ o' = o.
Proof. unfold require_auth2. destruct (has_auth2 c p) eqn:E; [intros [= <- <- <-]|done]. split; [by apply has_auth2_elem|done]. Qed.

Lemma on_chain_Ok {A} (m : M sender A) a c s o s' o' : on_chain m c s o = Ok (a, s', o') ->
  exists n, m c (chain s) o = Ok (a, n, o') /\ s' = s <| chain := n |>.
Proof. unfold on_chain. destruct (m c (chain s) o) as [[[b n] o1]|]; [|done]. intros [= -> <- <-]. by exists n. Qed.

(** ** The tables are the open proposals *)

Definition open_case (s : msig) (k : name * name) (x : case) : Prop :=
  proposals s !! k = Some (case_trx x) /\ exists a, approvals s !! k = Some a /\
    (forall p, times p (provided_approvals a) = granted k p (since x) /\
       times p (requested_approvals a) + times p (provided_approvals a) = times p (case_requested x)) /\
    (forall p, p ∈ provided_approvals a -> exists e, e ∈ since x /\ given_by k p e).

Definition on_docket (l : list event) (s : msig) (k : name * name) : Prop :=
  match case_of k l with
  | None => proposals s !! k = None /\ approvals s !! k = None
  | Some x => open_case s k x
  end.

Lemma propose_Ok p n r trx c s o u s' o' : propose p n r trx c s o = Ok (u, s', o') ->
  has_auth c p = true /\ check_trx (tables (chain s)) trx [] r = Ok true /\
  s' = s <| proposals := <[(p, n) := trx]> (proposals s) |> <| approvals := <[(p, n) := mkApprovals r []]> (approvals s) |>.
Proof.
  unfold propose. intros H. minv. repeat match goal with H : emplace _ _ _ _ _ _ = Ok _ |- _ => apply emplace_Ok in H as (? & -> & ->) end.
  split; [done|]. split; [congruence|done].
Qed.

(** Approving and withdrawing move a permission from one list to the other. *)
Lemma approve_Ok p n q c s o u s' o' : approve p n q c s o = Ok (u, s', o') -> q ∈ auths c /\ exists a, approvals s !! (p, n) = Some a /\
  q ∈ requested_approvals a /\
  s' = s <| approvals := <[(p, n) := mkApprovals (erase_level q (requested_approvals a)) (provided_approvals a ++ [q])]> (approvals s) |>.
Proof.
  unfold approve. intros H. apply bind_Ok in H as (? & s1 & o1 & (Hq & -> & ->)%require_auth2_Ok & H). minv. zb.
  simplify_eq. eauto.
Qed.

Lemma unapprove_Ok p n q c s o u s' o' : unapprove p n q c s o = Ok (u, s', o') -> exists a, approvals s !! (p, n) = Some a /\
  q ∈ provided_approvals a /\
  s' = s <| approvals := <[(p, n) := mkApprovals (requested_approvals a ++ [q]) (erase_level q (provided_approvals a))]> (approvals s) |>.
Proof.
  unfold unapprove. intros H. apply bind_Ok in H as (? & s1 & o1 & (Hq & -> & ->)%require_auth2_Ok & H). minv. zb.
  simplify_eq. eauto.
Qed.

Definition closed (k : name * name) (s s' : msig) : Prop :=
  proposals s' = delete k (proposals s) /\ approvals s' = delete k (approvals s).

Lemma cancel_Ok p n x c s o u s' o' : cancel p n x c s o = Ok (u, s', o') -> closed (p, n) s s'.
Proof. unfold cancel. intros H. minv; done. Qed.

Lemma exec_Ok t p n x c s o u s' o' : exec t p n x c s o = Ok (u, s', o') -> closed (p, n) s s' /\ has_auth c x = true /\
  exists trx a m, proposals s !! (p, n) = Some trx /\ approvals s !! (p, n) = Some a /\ now_sec c <= expiration trx /\
    check_trx (tables (chain s)) trx [] (provided_approvals a) = Ok true /\
    schedule t (self c) (deferred_id p n) x trx false c (chain s) o = Ok (tt, m, o') /\ chain s' = m.
Proof.
  unfold exec, send_trx. intros H. minv. zb.
  match goal with H : on_chain _ _ _ _ = Ok (?v, _, _) |- _ => destruct v; apply on_chain_Ok in H as (m & Hm & ->) end.
  split; [done|]. split; [done|]. exists a0, a1, m. repeat (split; [eassumption || done|]). done.
Qed.

Lemma docket_other e l s s' k : on_docket l s k -> case_of k (e :: l) = continue e (case_of k l) -> (forall p, ballot_of k p e = 0) ->
  proposals s' !! k = proposals s !! k -> approvals s' !! k = approvals s !! k -> on_docket (e :: l) s' k.
Proof.
  unfold on_docket. intros D -> Hb Ep Ea. destruct (case_of k l) as [x|]; cbn [continue]; [|by rewrite Ep, Ea].
  destruct D as (D1 & a & D2 & D3 & D4). unfold open_case. cbn [case_trx since case_requested granted foldr]. rewrite Ep, Ea. split; [done|]. exists a. split; [done|]. split.
  - intros p. rewrite Hb. apply D3.
  - intros p (e0 & He & Hg)%D4. exists e0. split; [by right|done].
Qed.

(** A step of an open proposal: one list of approvals becomes another, as the event says. *)
Lemma docket_moved e l s s' k a b : on_docket l s k -> case_of k (e :: l) = continue e (case_of k l) -> approvals s !! k = Some a ->
  proposals s' = proposals s -> approvals s' = <[k := b]> (approvals s) ->
  (forall p, times p (provided_approvals b) = ballot_of k p e + times p (provided_approvals a) /\
     times p (requested_approvals b) = times p (requested_approvals a) - ballot_of k p e) ->
  (forall p, 0 < ballot_of k p e -> given_by k p e) -> on_docket (e :: l) s' k.
Proof.
  unfold on_docket. intros D -> Ha Ep Ea Ht Hg. destruct (case_of k l) as [x|]; cbn [continue]; [|destruct D as [_ D]; congruence].
  destruct D as (D1 & a' & D2 & D3 & D4). assert (a' = a) as -> by congruence. unfold open_case. cbn [case_trx since case_requested granted foldr].
  rewrite Ep, Ea, lookup_insert_eq. split; [done|]. exists b. split; [done|]. split.
  - intros p. destruct (Ht p), (D3 p). fold (granted k p (since x)). lia.
  - intros p Hp%times_pos. destruct (Ht p) as [Ht1 _]. destruct (Z_lt_le_dec 0 (ballot_of k p e)) as [Hpos|Hle].
    { exists e. split; [left|by apply Hg]. }
    destruct (D4 p) as (e0 & He & Hg0); [apply times_pos; lia|]. exists e0. split; [by right|done].
Qed.

Lemma docket_closed e l s s' k p n x : ev_action e = MCancel p n x \/ ev_action e = MExec p n x -> closed (p, n) s s' -> on_docket l s k ->
  on_docket (e :: l) s' k.
Proof.
  intros He [Hp Ha] D. destruct (decide ((p, n) = k)) as [<-|Hne].
  - unfold on_docket. cbn [case_of]. destruct He as [-> | ->]; rewrite bool_decide_true, Hp, Ha, !lookup_delete_eq by done; done.
  - apply (docket_other _ _ s); [done| | |rewrite Hp; by apply lookup_delete_ne|rewrite Ha; by apply lookup_delete_ne].
    + cbn [case_of]. destruct He as [-> | ->]; by rewrite bool_decide_false.
    + intros q. unfold ballot_of. by destruct He as [-> | ->].
Qed.

Lemma apply_docket t a c l s o u s' o' k : msig_apply t a c s o = Ok (u, s', o') -> on_docket l s k ->
  on_docket (mkEvent a c (tables (chain s)) :: l) s' k.
Proof.
  intros H D. destruct a as [p n r trx|p n q|p n q|p n x|p n x]; cbn [msig_apply] in H.
  - apply propose_Ok in H as (_ & _ & ->). destruct (decide ((p, n) = k)) as [<-|Hne].
    + unfold on_docket. cbn [case_of ev_action]. rewrite bool_decide_true by done. split; cbn; [apply lookup_insert_eq|].
      exists (mkApprovals r []). split; [apply lookup_insert_eq|]. split; [cbn; intros; lia|by intros ? ?%elem_of_nil].
    + apply (docket_other _ _ s); [done| |done|cbn; by rewrite lookup_insert_ne..]. cbn. by rewrite bool_decide_false.
  - apply approve_Ok in H as (Hq & a & Ha & Hin & ->). destruct (decide ((p, n) = k)) as [<-|Hne].
    + eapply docket_moved; [exact D|done|exact Ha|done|done| |]; intros p'; unfold ballot_of; cbn [ev_action].
      * cbn [provided_approvals requested_approvals]. rewrite times_app, times_erase by done. cbn [times].
        destruct (bool_decide_reflect (q = p')); [rewrite bool_decide_true by done|rewrite bool_decide_false by naive_solver]; lia.
      * destruct (bool_decide_reflect ((p, n) = (p, n) /\ q = p')) as [[_ <-]|]; [|lia]. done.
    + apply (docket_other _ _ s); [done|done| |done|cbn; by rewrite lookup_insert_ne]. intros p'. unfold ballot_of. cbn. by rewrite bool_decide_false by naive_solver.
  - apply unapprove_Ok in H as (a & Ha & Hin & ->). destruct (decide ((p, n) = k)) as [<-|Hne].
    + eapply docket_moved; [exact D|done|exact Ha|done|done| |]; intros p'; unfold ballot_of; cbn [ev_action].
      * cbn [provided_approvals requested_approvals]. rewrite times_app, times_erase by done. cbn [times].
        destruct (bool_decide_reflect (q = p')); [rewrite bool_decide_true by done|rewrite bool_decide_false by naive_solver]; lia.
      * destruct (bool_decide _); lia.
    + apply (docket_other _ _ s); [done|done| |done|cbn; by rewrite lookup_insert_ne]. intros p'. unfold ballot_of. cbn. by rewrite bool_decide_false by naive_solver.
  - apply cancel_Ok in H. eapply docket_closed; [left; reflexivity|done..].
  - apply exec_Ok in H as [H _]. eapply docket_closed; [right; reflexivity|done..].
Qed.

Lemma docket l s k : history l s -> on_docket l s k.
Proof. induction 1 as [n|l s t a c o u s' o' _ IH H|l s n _ IH]; [done|by eapply apply_docket|exact IH]. Qed.

(** The log has the open proposal, made by its proposer, and the requested permissions were enough then. *)
Definition well_proposed (k : name * name) (l : list event) (x : case) : Prop :=
  ev_action (proposed_by x) = MPropose k.1 k.2 (case_requested x) (case_trx x) /\ has_auth (ev_ctx (proposed_by x)) k.1 = true /\
  check_trx (ev_tables (proposed_by x)) (case_trx x) [] (case_requested x) = Ok true /\
  exists l', l = since x ++ proposed_by x :: l'.

Lemma continue_proposed k e l x : (forall y, case_of k l = Some y -> well_proposed k l y) -> continue e (case_of k l) = Some x -> well_proposed k (e :: l) x.
Proof.
  intros IH H. destruct (case_of k l) as [y|]; [|done]. injection H as <-. destruct (IH y eq_refl) as (H1 & H2 & H3 & l' & ->). repeat split; [done..|]. by exists l'.
Qed.

Lemma history_proposed k l s x : history l s -> case_of k l = Some x -> well_proposed k l x.
Proof.
  intros Hh. revert x. induction Hh as [n|l s t a c o u s' o' _ IH H|l s n _ IH]; intros x; [done| |exact (IH x)].
  destruct a as [p n r trx|p n q|p n q|p n y|p n y]; cbn [case_of ev_action]; try (by apply continue_proposed).
  all: destruct (bool_decide_reflect ((p, n) = k)) as [<-|]; [|by apply continue_proposed]; intros [= <-].
  cbn [msig_apply] in H. apply propose_Ok in H as (H1 & H2 & _). repeat split; [done..|]. by exists l.
Qed.

Lemma granted_provided k x s : open_case s k x -> exists a, approvals s !! k = Some a /\ proposals s !! k = Some (case_trx x) /\
  (forall p, p ∈ provided_approvals a <-> 0 < granted k p (since x)) /\ (forall p, p ∈ provided_approvals a -> p ∈ case_requested x) /\
  (forall p, p ∈ provided_approvals a -> exists e, e ∈ since x /\ given_by k p e).
Proof.
  intros (Hp & a & Ha & Ht & Hg). exists a. split; [done|]. split; [done|]. split; [|split; [|done]]; intros p; destruct (Ht p) as [H1 H2].
  - by rewrite <- times_pos, H1.
  - rewrite <- !times_pos. pose proof (times_nonneg p (requested_approvals a)). lia.
Qed.

(** C13: Only what was approved is sent.  When [exec] succeeds, the transaction it hands to the
    node is the one its proposer proposed under that name, with the same actions and
    delay.  Each authorization it declares is good for its action and is satisfied, without
    any key and with the transaction's own delay (as [check_authorization] counts it), by
    the approvals that were given since the proposal more often than withdrawn, each by an
    action that carried the approving permission.  The proposal is closed with it, so
    that it is sent once.  The tables of permissions are taken to be well formed, as
    they are in every state of the node (C21), and weights and thresholds to have their
    width. *)
Theorem exec_sound t proposer nm executer c l s o u s' o' : (forall l, ordered l ≡ₚ l) -> history l s ->
  perm_forest (tables (chain s)) -> authorities_typed (tables (chain s)) ->
  msig_apply t (MExec proposer nm executer) c s o = Ok (u, s', o') ->
  exists x g (approvers : gset permission_level), case_of (proposer, nm) l = Some x /\ well_proposed (proposer, nm) l x /\
    generated_trxs (chain s') = <[(self c, deferred_id proposer nm) := g]> (generated_trxs (chain s)) /\
    trx_actions (gt_trx g) = trx_actions (case_trx x) /\ context_free_actions (gt_trx g) = [] /\
    gt_delay_until g = current_time c + delay_sec (case_trx x) * 1000000 /\
    (forall p, p ∈ approvers -> 0 < granted (proposer, nm) p (since x) /\ exists e, e ∈ since x /\ given_by (proposer, nm) p e) /\
    covered max_transaction_delay (tables (chain s)) (delay_sec (case_trx x) * 1000000) (trx_actions (gt_trx g)) [] approvers /\ closed (proposer, nm) s s'.
Proof.
  intros Ho Hh T Ht H. cbn [msig_apply] in H. apply exec_Ok in H as (Hc & _ & trx & a & m & Hp & Ha & _ & Hchk & Hsch & Hm).
  pose proof (docket l s (proposer, nm) Hh) as D. unfold on_docket in D. destruct (case_of (proposer, nm) l) as [x|] eqn:Ex; [|destruct D; congruence].
  apply granted_provided in D as (a' & Ha' & Hp' & Hgr & _ & Hgv). assert (a' = a) as -> by congruence. assert (case_trx x = trx) as <- by congruence.
  apply schedule_Ok in Hsch as (g & Hg & _ & H1 & H2 & _ & H3). exists x, g, (list_to_set (provided_approvals a)). rewrite Hm.
  split; [done|]. split; [by eapply history_proposed|]. do 4 (split; [done|]). split; [|split; [|done]].
  - intros p Hin%elem_of_list_to_set. split; [by apply Hgr|by apply Hgv].
  - rewrite H1. by eapply check_transaction_covered.
Qed.

(** C14: What everybody approved can be sent.  Let each requested permission have been given more
    often than withdrawn, let the permissions and the links of the chain be those of the
    time of the proposal, and for each canceldelay in the transaction let the delayed
    transaction it cancels still be as it was then.  If the transaction has not expired, the
    executer signs and the node takes the transaction, [exec] succeeds: the contract's own
    conditions cannot keep it from being sent. *)
Theorem exec_live t proposer nm executer c l s o x : history l s -> case_of (proposer, nm) l = Some x ->
  (forall p, p ∈ case_requested x -> 0 < granted (proposer, nm) p (since x)) ->
  same_permissions (trx_actions (case_trx x)) (ev_tables (proposed_by x)) (tables (chain s)) -> now_sec c <= expiration (case_trx x) -> has_auth c executer = true ->
  forall n o', schedule t (self c) (deferred_id proposer nm) executer (case_trx x) false c (chain s) o = Ok (tt, n, o') ->
  exists s', msig_apply t (MExec proposer nm executer) c s o = Ok (tt, s', o') /\ chain s' = n /\ closed (proposer, nm) s s'.
Proof.
  intros Hh Ex Hall Hsame Hnow Hauth n o' Hsch. pose proof (docket l s (proposer, nm) Hh) as D. unfold on_docket in D. rewrite Ex in D.
  apply granted_provided in D as (a & Ha & Hp & Hgr & Hsub & _). destruct (history_proposed _ _ _ _ Hh Ex) as (_ & _ & Hchk & _).
  assert (Eset : (list_to_set (provided_approvals a) : gset permission_level) = list_to_set (case_requested x)).
  { apply set_eq. intros p. rewrite !elem_of_list_to_set. split; [apply Hsub|]. intros Hin. by apply Hgr, Hall. }
  assert (Hc : check_trx (tables (chain s)) (case_trx x) [] (provided_approvals a) = Ok true).
  { revert Hchk. unfold check_transaction_authorization. by rewrite Eset, (check_same _ _ _ Hsame). }
  cbn [msig_apply]. unfold exec. erewrite bind_run by (by apply require_auth_run). do 2 (erewrite bind_run by (by apply get_run)).
  erewrite bind_run by reflexivity. erewrite bind_run by (apply eosio_assert_run, Z.leb_le, Hnow). erewrite bind_run by reflexivity.
  erewrite bind_run by (apply lift_run, Hc). erewrite bind_run by reflexivity. unfold send_trx at 1, on_chain.
  erewrite bind_run; [|erewrite bind_run by reflexivity; rewrite Hsch; reflexivity].
  unfold mbind at 1, M_bind at 1, erase. cbn [proposals approvals chain setf]. rewrite Hp. cbn. rewrite Ha. eexists. split; [reflexivity|]. done.
Qed.

(** What eosio.sudo sends has the authority of the contract and of the executer, and the actions it was given. *)
Theorem sudo_exec_spec t executer trx c s o u s' o' : sudo_exec t executer trx c s o = Ok (u, s', o') ->
  has_auth c (self c) = true /\ has_auth c executer = true /\
  exists g, generated_trxs s' = <[(self c, deferred_id executer (current_time c)) := g]> (generated_trxs s) /\
    generated_trxs s !! (self c, deferred_id executer (current_time c)) = None /\ trx_actions (gt_trx g) = trx_actions trx /\ gt_payer g = executer.
Proof.
  unfold sudo_exec. intros H. minv. split; [done|]. split; [done|].
  match goal with H : _ c s o = Ok _ |- _ => apply schedule_Ok in H as (g & H1 & H2 & H3 & _ & H4 & _) end.
  exists g. split; [done|]. split; [by apply H2|done].
Qed.
End msig.

(** ** A run *)

(** bob proposes that both accounts pay; ann approves, bob approves, withdraws and approves again. *)
Definition demo_trx_ctx : trx_ctx := mkTrxCtx true false false false [] [] [] true 0 100000 12 600 (17, 29).

Definition demo_node : sender :=
  mkSender (demo_chain <| accounts := <[N "eosio.msig" := new_account true 0]> (accounts demo_chain) |>) ∅ 0 [].

Definition demo_proposal : transaction :=
  mkTransaction 60 0 0 0 0 3600 [] [mkTrxAction (N "bob") (N "transfer") [(N "ann", N "active"); (N "bob", N "active")] DOther] [].

Definition demo_ctx (actor : string) (t : Z) : ctx := ctx_of (N "eosio.msig") [N actor] (t * 1000000).

Definition demo_approvals : list (msig_action * ctx) :=
  let ann := (N "ann", N "active") in let bob := (N "bob", N "active") in
  [ (MPropose (N "bob") (N "pay") [ann; bob] demo_proposal, demo_ctx "bob" 10);
    (MApprove (N "bob") (N "pay") ann, demo_ctx "ann" 11);
    (MApprove (N "bob") (N "pay") bob, demo_ctx "bob" 12);
    (MUnapprove (N "bob") (N "pay") bob, demo_ctx "bob" 13);
    (MApprove (N "bob") (N "pay") bob, demo_ctx "bob" 14) ].

Local Abbreviation demo_apply := (msig_apply 3888000 6 multiset_order (fun _ => 7) (fun _ => 100)).
Local Abbreviation demo_history := (history 3888000 6 multiset_order (fun _ => 7) (fun _ => 100)).

Fixpoint run_log (acts : list (msig_action * ctx)) (l : list event) (s : msig) : option (list event * msig) :=
  match acts with
  | [] => Some (l, s)
  | (a, c) :: acts' =>
      match demo_apply demo_trx_ctx a c s no_out with
      | Ok (_, s', _) => run_log acts' (mkEvent a c (tables (chain s)) :: l) s'
      | Err _ => None
      end
  end.

Lemma run_log_history acts : forall l s l' s', demo_history l s -> run_log acts l s = Some (l', s') -> demo_history l' s'.
Proof.
  induction acts as [|[a c] acts IH]; intros l s l' s' Hh; cbn [run_log]; [by intros [= <- <-]|].
  destruct (msig_apply _ _ _ _ _ _ a c s no_out) as [[[u s1] o1]|e] eqn:E; [|done]. apply IH. by eapply history_action.
Qed.

Definition demo_run : list event * msig := default ([], mkMsig ∅ ∅ demo_node) (run_log demo_approvals [] (mkMsig ∅ ∅ demo_node)).

Lemma demo_run_history : demo_history demo_run.1 demo_run.2.
Proof.
  unfold demo_run. destruct (run_log _ _ _) as [[l s]|] eqn:E; cbn; [|apply history_start]. eapply run_log_history; [apply history_start|exact E].
Qed.

Lemma demo_run_node : chain demo_run.2 = demo_node.
Proof. vm_compute. reflexivity. Qed.

(** Another account changes nothing of the permissions. *)
Lemma with_account d n acc : perm_forest d -> authorities_typed d ->
  perm_forest (d <| accounts := <[n := acc]> (accounts d) |>) /\ authorities_typed (d <| accounts := <[n := acc]> (accounts d) |>).
Proof.
  intros T Ht. split; [|exact Ht]. apply (forest_grow d); [done..|]. intros a [b Hb]. cbn.
  destruct (decide (a = n)) as [->|Hne]; [rewrite lookup_insert_eq|rewrite lookup_insert_ne by done]; eauto.
Qed.

Lemma demo_node_ok : perm_forest (tables demo_node) /\ authorities_typed (tables demo_node).
Proof. exact (with_account demo_chain _ _ (proj1 demo_tree) demo_typed). Qed.

Lemma demo_case : exists x, case_of (N "bob", N "pay") demo_run.1 = Some x /\ case_trx x = demo_proposal /\ ev_tables (proposed_by x) = tables demo_node /\
  forallb (fun p => 0 <? granted (N "bob", N "pay") p (since x)) (case_requested x) = true.
Proof.
  assert (E : match case_of (N "bob", N "pay") demo_run.1 with
    | Some x => (case_trx x, ev_tables (proposed_by x), forallb (fun p => 0 <? granted (N "bob", N "pay") p (since x)) (case_requested x))
    | None => (demo_proposal, tables demo_node, false) end = (demo_proposal, tables demo_node, true)) by (vm_compute; reflexivity).
  destruct (case_of (N "bob", N "pay") demo_run.1) as [x|]; [|discriminate (f_equal snd E)]. exists x. split; [reflexivity|].
  exact (conj (f_equal (fun y => y.1.1) E) (conj (f_equal (fun y => y.1.2) E) (f_equal snd E))).
Qed.

Lemma exec_sound_witness : exists s' o' g approvers,
  demo_apply demo_trx_ctx (MExec (N "bob") (N "pay") (N "ann")) (demo_ctx "ann" 20) demo_run.2 no_out = Ok (tt, s', o') /\
  generated_trxs (chain s') = <[(N "eosio.msig", deferred_id (N "bob") (N "pay")) := g]> ∅ /\ trx_actions (gt_trx g) = trx_actions demo_proposal /\
  covered 3888000 (tables demo_node) 3600000000 (trx_actions demo_proposal) [] approvers.
Proof.
  destruct (demo_apply demo_trx_ctx (MExec (N "bob") (N "pay") (N "ann")) (demo_ctx "ann" 20) demo_run.2 no_out) as [[[[] s'] o']|e] eqn:E;
    [|exfalso; revert E; vm_compute; discriminate].
  destruct (exec_sound 3888000 6 multiset_order (fun _ => 7) (fun _ => 100) demo_trx_ctx (N "bob") (N "pay") (N "ann") (demo_ctx "ann" 20) demo_run.1 demo_run.2
    no_out tt s' o' multiset_order_perm demo_run_history) as (x & g & ap & Hx & _ & Hg & Ha & _ & _ & _ & Hc & _); [| |exact E|].
  - rewrite demo_run_node. exact (proj1 demo_node_ok).
  - rewrite demo_run_node. exact (proj2 demo_node_ok).
  - assert (Ex : case_trx x = demo_proposal).
    { destruct demo_case as (y & Hy & Et & _). rewrite Hy in Hx. injection Hx as <-. by rewrite Et. }
    rewrite demo_run_node in Hg, Hc. rewrite Ha in Hc. rewrite Ex in Ha, Hc. exists s', o', g, ap. exact (conj eq_refl (conj Hg (conj Ha Hc))).
Defined.

Lemma exec_live_witness : exists s' o',
  demo_apply demo_trx_ctx (MExec (N "bob") (N "pay") (N "ann")) (demo_ctx "ann" 20) demo_run.2 no_out = Ok (tt, s', o') /\ closed (N "bob", N "pay") demo_run.2 s'.
Proof.
  destruct demo_case as (x & Ex & Et & Ed & Hall).
  destruct (schedule_deferred_transaction 3888000 6 multiset_order (fun _ => 7) (fun _ => 100) demo_trx_ctx (N "eosio.msig") (deferred_id (N "bob") (N "pay")) (N "ann")
    demo_proposal false (demo_ctx "ann" 20) (chain demo_run.2) no_out) as [[[[] n] o']|e] eqn:En; [|exfalso; revert En; vm_compute; discriminate].
  rewrite <- Et in En.
  destruct (exec_live 3888000 6 multiset_order (fun _ => 7) (fun _ => 100) demo_trx_ctx (N "bob") (N "pay") (N "ann") (demo_ctx "ann" 20) demo_run.1 demo_run.2
    no_out x demo_run_history Ex) with (n := n) (o' := o') as (s' & H1 & _ & H2); [| | | |exact En|exists s', o'; exact (conj H1 H2)].
  - intros p Hp%list_elem_of_In. apply Z.ltb_lt. exact (proj1 (forallb_forall _ _) Hall p Hp).
  - rewrite Ed, demo_run_node. repeat split.
  - rewrite Et. apply Z.leb_le. vm_compute. reflexivity.
  - vm_compute. reflexivity.
Defined.
