(* ===== verification/HeaderState.v ===== *)
(** * Block headers and DPoS irreversibility

    libraries/chain/block_header_state.cpp with block_header.hpp,
    producer_schedule.hpp and block_timestamp.hpp: the state a node keeps per block
    header, the producer a slot belongs to, the confirmations that make a block
    irreversible and the change of the producer schedule.

    Hashes (SHA-256, from OpenSSL), and the recovery of the key that made a signature
    (secp256k1), are parameters. *)

From stdpp Require Import sorting.
From S2P Require Import Prelude Names Chain Merkle.
#[local] Open Scope Z_scope.

(** config.hpp *)
Definition producer_repetitions : Z := 12.
Definition max_producers : Z := 125.
Definition maximum_tracked_dpos_confirmations : Z := 1024.

(** ** Data *)

Record producer_key := mkProducerKey { producer_name : name; block_signing_key : Z }.
Record producer_schedule_type := mkSchedule { version : Z; producers : list producer_key }.

#[export] Instance producer_key_eq_dec : EqDecision producer_key.
Proof. solve_decision. Defined.
#[export] Instance schedule_eq_dec : EqDecision producer_schedule_type.
Proof. solve_decision. Defined.

(** The key of a producer; 0 is the empty key. *)
Definition get_producer_key (s : producer_schedule_type) (p : name) : Z :=
  match list_find (fun k => producer_name k = p) (producers s) with Some (_, k) => block_signing_key k | None => 0 end.

Record block_header := mkHeader {
  timestamp : Z;                      (* the slot *)
  producer : name;
  confirmed : Z;                      (* uint16_t *)
  previous : digest;
  transaction_mroot : digest;
  action_mroot : digest;
  schedule_version : Z;
  new_producers : option producer_schedule_type;
  header_extensions : list (Z * list Z)
}.
#[export] Instance eta_header : Eta block_header := fun h =>
  mkHeader (timestamp h) (producer h) (confirmed h) (previous h) (transaction_mroot h) (action_mroot h) (schedule_version h)
    (new_producers h) (header_extensions h).

Record signed_block_header := mkSigned { hdr : block_header; producer_signature : Z }.

Record header_confirmation := mkConfirmation { conf_block_id : digest; conf_producer : name; conf_signature : Z }.

Record block_header_state := mkHeaderState {
  bhs_id : digest;
  block_num : Z;
  header : signed_block_header;
  dpos_proposed_irreversible_blocknum : Z;
  dpos_irreversible_blocknum : Z;
  bft_irreversible_blocknum : Z;
  pending_schedule_lib_num : Z;
  pending_schedule_hash : digest;
  pending_schedule : producer_schedule_type;
  active_schedule : producer_schedule_type;
  blockroot_merkle : incremental_merkle;
  producer_to_last_produced : gmap name Z;
  producer_to_last_implied_irb : gmap name Z;
  bhs_signing_key : Z;
  confirm_count : list Z;             (* uint8_t *)
  confirmations : list header_confirmation
}.
#[export] Instance eta_header_state : Eta block_header_state := fun s =>
  mkHeaderState (bhs_id s) (block_num s) (header s) (dpos_proposed_irreversible_blocknum s) (dpos_irreversible_blocknum s)
    (bft_irreversible_blocknum s) (pending_schedule_lib_num s) (pending_schedule_hash s) (pending_schedule s) (active_schedule s)
    (blockroot_merkle s) (producer_to_last_produced s) (producer_to_last_implied_irb s) (bhs_signing_key s) (confirm_count s) (confirmations s).

(** A header that is only declared. *)
Definition header0 : block_header := mkHeader 0 0 1 digest0 digest0 digest0 0 None [].
Definition schedule0 : producer_schedule_type := mkSchedule 0 [].
Definition header_state0 : block_header_state :=
  mkHeaderState digest0 0 (mkSigned header0 0) 0 0 0 0 digest0 schedule0 schedule0 incremental_merkle0 ∅ ∅ 0 [] [].

Definition hs_assert (b : bool) (msg : string) : res unit := if b then Ok tt else Err (ChainError msg).

(** ** Block numbers in ids *)

Definition endian_reverse_u32 (x : Z) : Z :=
  Z.lor (Z.lor (Z.lor (Z.land (Z.shiftr x 0x18) 0xFF)
    (Z.shiftl (Z.land (Z.shiftr x 0x10) 0xFF) 0x08))
    (Z.shiftl (Z.land (Z.shiftr x 0x08) 0xFF) 0x10))
    (Z.shiftl (Z.land x 0xFF) 0x18).

(** The argument is cut to 32 bits. *)
Definition num_from_id (id : digest) : Z := endian_reverse_u32 (u32 (word0 id)).
Definition header_block_num (h : block_header) : Z := u32 (num_from_id (previous h) + 1).

Definition is_active_producer (s : block_header_state) (n : name) : bool := bool_decide (is_Some (producer_to_last_produced s !! n)).

(** ** Whose turn it is *)

Definition get_scheduled_producer (sch : producer_schedule_type) (slot : Z) : res producer_key :=
  let n := Z.of_nat (length (producers sch)) in
  if n =? 0 then Err (ChainError "division by zero")
  else match producers sch !! Z.to_nat (slot mod (n * producer_repetitions) / producer_repetitions) with
       | Some k => Ok k
       | None => Err (ChainError "index out of range")
       end.

(** ** Irreversibility *)

(** The block that more than two thirds of the producers hold for irreversible. *)
Definition calc_dpos_last_irreversible (irb : gmap name Z) : Z :=
  let blocknums := merge_sort (Z.le) (map snd (map_to_list irb)) in
  match blocknums with
  | [] => 0
  | _ => default 0 (blocknums !! ((length blocknums - 1) / 3)%nat)
  end.

(** The loop of [set_confirmed], down from index [i - 1]. *)
Fixpoint confirm_loop (i : nat) (blocks_to_confirm : Z) (s : block_header_state) : block_header_state :=
  match i with
  | O => s
  | S i' =>
      if blocks_to_confirm =? 0 then s
      else
        let count := u8 (default 0 (confirm_count s !! i') - 1) in
        let cc := <[i' := count]> (confirm_count s) in
        if count =? 0 then
          s <| dpos_proposed_irreversible_blocknum := u32 (block_num s - (Z.of_nat (length cc) - 1 - Z.of_nat i')) |>
            <| confirm_count := drop (S i') cc |>
        else confirm_loop i' (blocks_to_confirm - 1) (s <| confirm_count := cc |>)
  end.

Definition set_confirmed (num_prev_blocks : Z) (s : block_header_state) : block_header_state :=
  let s := s <| header := mkSigned ((hdr (header s)) <| confirmed := num_prev_blocks |>) (producer_signature (header s)) |> in
  confirm_loop (length (confirm_count s)) (num_prev_blocks + 1) s.

(** The entries of a new schedule in one of the maps. *)
Definition renew (lib : Z) (old : gmap name Z) (sch : list producer_key) : gmap name Z :=
  foldl (fun m k => <[producer_name k := default lib (old !! producer_name k)]> m) ∅ sch.

Definition maybe_promote_pending (s : block_header_state) : bool * block_header_state :=
  if negb (Nat.eqb (length (producers (pending_schedule s))) 0) && (pending_schedule_lib_num s <=? dpos_irreversible_blocknum s) then
    let active := pending_schedule s in
    let lib := dpos_irreversible_blocknum s in
    (true,
     s <| active_schedule := active |>
       <| pending_schedule := mkSchedule (version active) [] |>
       <| producer_to_last_produced :=
            <[producer (hdr (header s)) := block_num s]> (renew lib (producer_to_last_produced s) (producers active)) |>
       <| producer_to_last_implied_irb := renew lib (producer_to_last_implied_irb s) (producers active) |>)
  else (false, s).

Section headers.
Context (hash : digest * digest -> digest) (header_digest : block_header -> digest) (schedule_hash : producer_schedule_type -> digest).
Context (recover : Z -> digest -> Z).                                    (* the key of a signature on a digest *)

(** The id of a header: its digest, with the block number in the first four bytes. *)
Definition header_id (h : block_header) : digest :=
  let result := header_digest h in
  let result := result <| word0 := Z.land (word0 result) 0xffffffff00000000 |> in
  result <| word0 := u64 (word0 result + endian_reverse_u32 (header_block_num h)) |>.

(** The count of confirmations a new block starts with is appended; at the limit the
    oldest one goes. *)
Definition grow_confirms (count : list Z) (required : Z) : list Z :=
  if Z.of_nat (length count) <? maximum_tracked_dpos_confirmations then count ++ [u8 required]
  else drop 1 count ++ [u8 required].

Definition required_confirmations (sch : producer_schedule_type) : Z := u32 (Z.of_nat (length (producers sch)) * 2 / 3 + 1).

Definition generate_next (when : Z) (s : block_header_state) : res block_header_state :=
  when ← (if negb (when =? 0)
          then _ ← hs_assert (timestamp (hdr (header s)) <? when) "next block must be in the future"; Ok when
          else Ok (u32 (timestamp (hdr (header s)) + 1)));
  prokey ← get_scheduled_producer (active_schedule s) when;
  merkle ← match append hash (bhs_id s) (blockroot_merkle s) with
           | Some (_, t) => Ok t
           | None => Err (ChainError "active nodes exhausted")
           end;
  let num := u32 (block_num s + 1) in
  let irb := <[producer_name prokey := dpos_proposed_irreversible_blocknum s]> (producer_to_last_implied_irb s) in
  Ok (header_state0
    <| header := mkSigned (header0 <| timestamp := when |> <| previous := bhs_id s |> <| schedule_version := version (active_schedule s) |>
                                   <| producer := producer_name prokey |>) 0 |>
    <| bhs_signing_key := block_signing_key prokey |>
    <| pending_schedule_lib_num := pending_schedule_lib_num s |>
    <| pending_schedule_hash := pending_schedule_hash s |>
    <| block_num := num |>
    <| producer_to_last_produced := <[producer_name prokey := num]> (producer_to_last_produced s) |>
    <| blockroot_merkle := merkle |>
    <| active_schedule := active_schedule s |>
    <| pending_schedule := pending_schedule s |>
    <| dpos_proposed_irreversible_blocknum := dpos_proposed_irreversible_blocknum s |>
    <| bft_irreversible_blocknum := bft_irreversible_blocknum s |>
    <| producer_to_last_implied_irb := irb |>
    <| dpos_irreversible_blocknum := calc_dpos_last_irreversible irb |>
    <| confirm_count := grow_confirms (confirm_count s) (required_confirmations (active_schedule s)) |>).

Definition set_new_producers (pending : producer_schedule_type) (s : block_header_state) : res block_header_state :=
  _ ← hs_assert (version pending =? u32 (version (active_schedule s) + 1)) "wrong producer schedule version specified";
  _ ← hs_assert (Nat.eqb (length (producers (pending_schedule s))) 0) "cannot set new pending producers until last pending is confirmed";
  Ok (s <| header := mkSigned ((hdr (header s)) <| new_producers := Some pending |>) (producer_signature (header s)) |>
        <| pending_schedule_hash := schedule_hash pending |>
        <| pending_schedule := pending |>
        <| pending_schedule_lib_num := block_num s |>).

(** ** Signatures *)

Definition sig_digest (s : block_header_state) : digest :=
  hash (hash (header_digest (hdr (header s)), get_root (blockroot_merkle s)), pending_schedule_hash s).

Definition signee (s : block_header_state) : Z := recover (producer_signature (header s)) (sig_digest s).

Definition verify_signee (key : Z) (s : block_header_state) : res unit :=
  hs_assert (bhs_signing_key s =? key) "block not signed by expected key".

Definition sign (signer : digest -> Z) (s : block_header_state) : res block_header_state :=
  let d := sig_digest s in
  let s := s <| header := mkSigned (hdr (header s)) (signer d) |> in
  _ ← hs_assert (bhs_signing_key s =? recover (signer d) d) "block is signed with unexpected key";
  Ok s.

(** ** The next header *)

Definition next (h : signed_block_header) (skip_validate_signee : bool) (s : block_header_state) : res block_header_state :=
  let b := hdr h in
  _ ← hs_assert (negb (timestamp b =? 0)) "";
  _ ← hs_assert (Nat.eqb (length (header_extensions b)) 0) "no supported extensions";
  _ ← hs_assert (timestamp (hdr (header s)) <? timestamp b) "block must be later in time";
  _ ← hs_assert (bool_decide (previous b = bhs_id s)) "block must link to current state";
  result ← generate_next (timestamp b) s;
  _ ← hs_assert (producer (hdr (header result)) =? producer b) "wrong producer specified";
  _ ← hs_assert (schedule_version (hdr (header result)) =? schedule_version b) "schedule_version in signed block is corrupted";
  _ ← (match producer_to_last_produced s !! producer b with
       | Some last => hs_assert (last <? u32 (block_num result - confirmed b)) "producer double-confirming known range"
       | None => Ok tt
       end);
  let result := set_confirmed (confirmed b) result in
  let '(was_pending_promoted, result) := maybe_promote_pending result in
  result ← match new_producers b with
           | Some pending =>
               _ ← hs_assert (negb was_pending_promoted)
                     "cannot set pending producer schedule in the same block in which pending was promoted to active";
               set_new_producers pending result
           | None => Ok result
           end;
  let hd := (hdr (header result)) <| action_mroot := action_mroot b |> <| transaction_mroot := transaction_mroot b |> in
  let result := result <| header := mkSigned hd (producer_signature h) |> <| bhs_id := header_id hd |> in
  _ ← (if skip_validate_signee then Ok tt else verify_signee (signee result) result);
  Ok result.

(** A confirmation by a producer of the active schedule. *)
Definition add_confirmation (conf : header_confirmation) (s : block_header_state) : res block_header_state :=
  _ ← hs_assert (forallb (fun c => negb (conf_producer c =? conf_producer conf)) (confirmations s)) "block already confirmed by this producer";
  let key := get_producer_key (active_schedule s) (conf_producer conf) in
  _ ← hs_assert (negb (key =? 0)) "producer not in current schedule";
  _ ← hs_assert (recover (conf_signature conf) (sig_digest s) =? key) "confirmation not signed by expected key";
  Ok (s <| confirmations := confirmations s ++ [conf] |>).

(** The state of the genesis block (controller.cpp). *)
Definition genesis_header_state (initial_key initial_timestamp : Z) (chain_id : digest) : block_header_state :=
  let initial_schedule := mkSchedule 0 [mkProducerKey (N "eosio") initial_key] in
  let h := header0 <| timestamp := initial_timestamp |> <| action_mroot := chain_id |> in
  header_state0
    <| active_schedule := initial_schedule |>
    <| pending_schedule := initial_schedule |>
    <| pending_schedule_hash := schedule_hash initial_schedule |>
    <| header := mkSigned h 0 |>
    <| bhs_id := header_id h |>
    <| block_num := header_block_num h |>.
End headers.
