(* ===== verification/Dpos.v ===== *)
(** * What makes a block irreversible

    The invariants of the header state of HeaderState.v along a chain of headers:
    each tracked block still misses as many confirmations as its count says, no
    producer counts twice, and a block is proposed as irreversible when more than two
    thirds of the producers have confirmed it.  Two forks that both get so far have
    more than a third of the producers in common. *)

From stdpp Require Import sorting.
From S2P Require Import Prelude Names Asset Chain Merkle HeaderState.
#[local] Open Scope Z_scope.

(** ** The count of confirmations *)

(** [confirm_loop] on the two fields it changes. *)
Fixpoint confirm_run (i : nat) (blocks bn prop : Z) (cc : list Z) : Z * list Z :=
  match i with
  | O => (prop, cc)
  | S i' =>
      if blocks =? 0 then (prop, cc)
      else
        let count := u8 (default 0 (cc !! i') - 1) in
        let cc := <[i' := count]> cc in
        if count =? 0 then (u32 (bn - (Z.of_nat (length cc) - 1 - Z.of_nat i')), drop (S i') cc)
        else confirm_run i' (blocks - 1) bn prop cc
  end.

Lemma confirm_loop_run i : forall blocks s,
  confirm_loop i blocks s =
    s <| dpos_proposed_irreversible_blocknum := (confirm_run i blocks (block_num s) (dpos_proposed_irreversible_blocknum s) (confirm_count s)).1 |>
      <| confirm_count := (confirm_run i blocks (block_num s) (dpos_proposed_irreversible_blocknum s) (confirm_count s)).2 |>.
Proof.
  induction i as [|i IH]; intros blocks s; cbn [confirm_loop confirm_run]; [by destruct s|].
  destruct (blocks =? 0); [by destruct s|]. cbv zeta. destruct (u8 _ =? 0); [by destruct s|]. rewrite IH. by destruct s.
Qed.

(** The loop stops at the first block whose count is used up, which becomes the
    proposed one; the counts above it stay, less one. *)
Lemma confirm_run_spec bn prop i : forall blocks cc, (i <= length cc)%nat -> 0 <= blocks -> (forall x, x ∈ cc -> 0 < x < 256) ->
  exists k p' cc', confirm_run i blocks bn prop cc = (p', cc') /\ (k <= i)%nat /\ length cc = (k + length cc')%nat /\
    (forall j x, (k <= j)%nat -> cc !! j = Some x ->
       cc' !! (j - k)%nat = Some (if (Z.of_nat i - blocks <=? Z.of_nat j) && (j <? i)%nat then x - 1 else x) /\
       (Z.of_nat i - blocks <= Z.of_nat j -> (j < i)%nat -> 1 < x)) /\
    ((k = O /\ p' = prop) \/
     (exists i0, k = S i0 /\ Z.of_nat i - blocks <= Z.of_nat i0 /\ cc !! i0 = Some 1 /\
        p' = u32 (bn - (Z.of_nat (length cc) - Z.of_nat k)))).
Proof.
  induction i as [|i IH]; intros blocks cc Hi Hb Hx; cbn [confirm_run].
  { exists O, prop, cc. do 3 (split; [done || lia|]). split; [|by left]. intros j x _ Hj. rewrite Nat.sub_0_r, Hj.
    rewrite andb_false_r. split; [done|lia]. }
  destruct (Z.eqb_spec blocks 0) as [->|Hb0].
  { exists O, prop, cc. do 3 (split; [done || lia|]). split; [|by left]. intros j x _ Hj. rewrite Nat.sub_0_r, Hj.
    replace ((Z.of_nat (S i) - 0 <=? Z.of_nat j) && (j <? S i)%nat) with false by lia. split; [done|lia]. }
  destruct (lookup_lt_is_Some_2 cc i ltac:(lia)) as [c Hc]. rewrite Hc. change (default 0 (Some c)) with c.
  pose proof (Hx c ltac:(by eapply list_elem_of_lookup_2)) as Hcr.
  assert (Hu : u8 (c - 1) = c - 1) by (unfold u8; rewrite Z.mod_small; lia). cbv zeta. rewrite !Hu, length_insert.
  destruct (Z.eqb_spec (c - 1) 0) as [Hz|Hz].
  - exists (S i), (u32 (bn - (Z.of_nat (length cc) - 1 - Z.of_nat i))), (drop (S i) (<[i := c - 1]> cc)).
    split; [done|]. split; [lia|]. split; [rewrite length_drop, length_insert; lia|]. split.
    + intros j x Hj Hjx. rewrite lookup_drop. replace (S i + (j - S i))%nat with j by lia.
      rewrite list_lookup_insert_ne by lia. replace ((j <? S i)%nat) with false by lia. rewrite andb_false_r. split; [done|lia].
    + right. exists i. split; [done|]. split; [lia|]. split; [rewrite Hc; f_equal; lia|]. f_equal. lia.
  - destruct (IH (blocks - 1) (<[i := c - 1]> cc)) as (k & p' & cc' & E & Hk & Hl & Hv & Hp).
    { rewrite length_insert. lia. } { lia. }
    { intros x [j Hj]%list_elem_of_lookup_1. destruct (decide (j = i)) as [->|Hne].
      - rewrite list_lookup_insert_eq in Hj by lia. injection Hj as <-. lia.
      - rewrite list_lookup_insert_ne in Hj by congruence. apply Hx. by eapply list_elem_of_lookup_2. }
    exists k, p', cc'. rewrite length_insert in Hl. split; [done|]. split; [lia|]. split; [done|]. split.
    + intros j x Hj Hjx. destruct (decide (j = i)) as [->|Hne].
      * rewrite Hc in Hjx. injection Hjx as <-. destruct (Hv i (c - 1) Hj) as [H1 _]; [by rewrite list_lookup_insert_eq by lia|].
        rewrite H1. replace ((i <? i)%nat) with false by lia. rewrite andb_false_r.
        replace ((Z.of_nat (S i) - blocks <=? Z.of_nat i) && (i <? S i)%nat) with true by lia. split; [done|lia].
      * destruct (Hv j x Hj) as [H1 H2]; [by rewrite list_lookup_insert_ne by congruence|]. rewrite H1.
        split; [|intros; apply H2; lia]. f_equal.
        replace ((Z.of_nat i - (blocks - 1) <=? Z.of_nat j) && (j <? i)%nat)
          with ((Z.of_nat (S i) - blocks <=? Z.of_nat j) && (j <? S i)%nat) by lia. done.
    + destruct Hp as [Hp|(i0 & -> & H1 & H2 & H3)]; [by left|right]. exists i0. split; [done|]. split; [lia|].
      rewrite list_lookup_insert_ne in H2 by lia. split; [done|]. rewrite length_insert in H3. done.
Qed.

(** ** One block *)

Lemma hs_assert_Ok b msg u : hs_assert b msg = Ok u -> b = true.
Proof. unfold hs_assert. by destruct b. Qed.

Lemma scheduled_in sch slot k : get_scheduled_producer sch slot = Ok k -> k ∈ producers sch.
Proof.
  unfold get_scheduled_producer. destruct (_ =? 0); [done|]. destruct (producers sch !! _) eqn:E; [|done].
  intros [= <-]. by eapply list_elem_of_lookup_2.
Qed.

Section one.
Context (hash : digest * digest -> digest) (header_digest : block_header -> digest) (schedule_hash : producer_schedule_type -> digest).
Context (recover : Z -> digest -> Z).
#[local] Abbreviation next := (next hash header_digest schedule_hash recover).

(** What a header does to the fields irreversibility depends on. *)
Record block_step (s : block_header_state) (b : block_header) (s' : block_header_state) : Prop := {
  bs_time : timestamp (hdr (header s)) < timestamp b;
  bs_time' : timestamp (hdr (header s')) = timestamp b;
  bs_link : previous b = bhs_id s;
  bs_turn : exists k, get_scheduled_producer (active_schedule s) (timestamp b) = Ok k /\ producer_name k = producer b;
  bs_fresh last : producer_to_last_produced s !! producer b = Some last -> last < u32 (u32 (block_num s + 1) - confirmed b);
  bs_num : block_num s' = u32 (block_num s + 1);
  bs_counts : let cc := grow_confirms (confirm_count s) (required_confirmations (active_schedule s)) in
    (dpos_proposed_irreversible_blocknum s', confirm_count s') =
      confirm_run (length cc) (confirmed b + 1) (block_num s') (dpos_proposed_irreversible_blocknum s) cc;
  bs_lib : dpos_irreversible_blocknum s' =
    calc_dpos_last_irreversible (<[producer b := dpos_proposed_irreversible_blocknum s]> (producer_to_last_implied_irb s));
  bs_root : exists d, append hash (bhs_id s) (blockroot_merkle s) = Some (d, blockroot_merkle s');
  bs_schedule :
    let lp := <[producer b := block_num s']> (producer_to_last_produced s) in
    let irb := <[producer b := dpos_proposed_irreversible_blocknum s]> (producer_to_last_implied_irb s) in
    let lib := dpos_irreversible_blocknum s' in
    (producers (pending_schedule s) <> [] /\ pending_schedule_lib_num s <= lib /\
       active_schedule s' = pending_schedule s /\ producers (pending_schedule s') = [] /\
       producer_to_last_produced s' = <[producer b := block_num s']> (renew lib lp (producers (active_schedule s'))) /\
       producer_to_last_implied_irb s' = renew lib irb (producers (active_schedule s')) /\ new_producers b = None) \/
    ((producers (pending_schedule s) = [] \/ lib < pending_schedule_lib_num s) /\
       active_schedule s' = active_schedule s /\ producer_to_last_produced s' = lp /\ producer_to_last_implied_irb s' = irb /\
       ((new_producers b = None /\ pending_schedule s' = pending_schedule s /\ pending_schedule_lib_num s' = pending_schedule_lib_num s) \/
        (producers (pending_schedule s) = [] /\ pending_schedule_lib_num s' = block_num s')))
}.

Lemma generate_next_Ok when s r : when <> 0 -> generate_next hash when s = Ok r ->
  timestamp (hdr (header s)) < when /\ exists k d t,
    get_scheduled_producer (active_schedule s) when = Ok k /\ append hash (bhs_id s) (blockroot_merkle s) = Some (d, t) /\
    let num := u32 (block_num s + 1) in
    let irb := <[producer_name k := dpos_proposed_irreversible_blocknum s]> (producer_to_last_implied_irb s) in
    block_num r = num /\ timestamp (hdr (header r)) = when /\ producer (hdr (header r)) = producer_name k /\ blockroot_merkle r = t /\
    pending_schedule_lib_num r = pending_schedule_lib_num s /\ pending_schedule r = pending_schedule s /\
    active_schedule r = active_schedule s /\ dpos_proposed_irreversible_blocknum r = dpos_proposed_irreversible_blocknum s /\
    producer_to_last_produced r = <[producer_name k := num]> (producer_to_last_produced s) /\
    producer_to_last_implied_irb r = irb /\ dpos_irreversible_blocknum r = calc_dpos_last_irreversible irb /\
    confirm_count r = grow_confirms (confirm_count s) (required_confirmations (active_schedule s)).
Proof.
  intros Hw H. unfold generate_next in H. rewrite (proj2 (Z.eqb_neq when 0) Hw) in H. cbn [negb] in H.
  apply res_bind_ok in H as (w & Hw' & H). apply res_bind_ok in Hw' as (? & Ht%hs_assert_Ok & [= <-]).
  apply res_bind_ok in H as (k & Hk & H). apply res_bind_ok in H as (t & Ht' & H).
  destruct (append _ _ _) as [[d t0]|] eqn:Ea; [|done]. injection Ht' as ->. injection H as <-.
  split; [lia|]. exists k, d, t. repeat (split; [done|]). done.
Qed.

(** The fields other than the confirmations. *)
Definition same_but_confirms (r r1 : block_header_state) : Prop :=
  block_num r1 = block_num r /\ timestamp (hdr (header r1)) = timestamp (hdr (header r)) /\ producer (hdr (header r1)) = producer (hdr (header r)) /\
  blockroot_merkle r1 = blockroot_merkle r /\ pending_schedule_lib_num r1 = pending_schedule_lib_num r /\ pending_schedule r1 = pending_schedule r /\
  active_schedule r1 = active_schedule r /\ producer_to_last_produced r1 = producer_to_last_produced r /\
  producer_to_last_implied_irb r1 = producer_to_last_implied_irb r /\ dpos_irreversible_blocknum r1 = dpos_irreversible_blocknum r.

Lemma set_confirmed_fields c r : same_but_confirms r (set_confirmed c r) /\
  (dpos_proposed_irreversible_blocknum (set_confirmed c r), confirm_count (set_confirmed c r)) =
    confirm_run (length (confirm_count r)) (c + 1) (block_num r) (dpos_proposed_irreversible_blocknum r) (confirm_count r).
Proof. unfold set_confirmed. rewrite confirm_loop_run. destruct r. cbn. split; [done|]. by rewrite <- surjective_pairing. Qed.

Lemma maybe_promote_fields r b r1 : maybe_promote_pending r = (b, r1) ->
  block_num r1 = block_num r /\ header r1 = header r /\ blockroot_merkle r1 = blockroot_merkle r /\
  dpos_irreversible_blocknum r1 = dpos_irreversible_blocknum r /\ dpos_proposed_irreversible_blocknum r1 = dpos_proposed_irreversible_blocknum r /\
  confirm_count r1 = confirm_count r /\ pending_schedule_lib_num r1 = pending_schedule_lib_num r /\
  let lib := dpos_irreversible_blocknum r in
  if b then
    producers (pending_schedule r) <> [] /\ pending_schedule_lib_num r <= lib /\ active_schedule r1 = pending_schedule r /\
    producers (pending_schedule r1) = [] /\
    producer_to_last_produced r1 =
      <[producer (hdr (header r)) := block_num r]> (renew lib (producer_to_last_produced r) (producers (active_schedule r1))) /\
    producer_to_last_implied_irb r1 = renew lib (producer_to_last_implied_irb r) (producers (active_schedule r1))
  else (producers (pending_schedule r) = [] \/ lib < pending_schedule_lib_num r) /\ r1 = r.
Proof.
  unfold maybe_promote_pending. destruct (producers (pending_schedule r)) as [|k l] eqn:Ep; cbn [length Nat.eqb negb andb].
  { intros [= <- <-]. repeat (split; [done|]). by split; [left|]. }
  destruct (Z.leb_spec (pending_schedule_lib_num r) (dpos_irreversible_blocknum r)); intros [= <- <-].
  - repeat (split; [done|]). cbn. rewrite Ep. done.
  - repeat (split; [done|]). split; [by right|done].
Qed.

Lemma set_new_producers_fields np r r1 : set_new_producers schedule_hash np r = Ok r1 ->
  producers (pending_schedule r) = [] /\ pending_schedule_lib_num r1 = block_num r /\ block_num r1 = block_num r /\
  timestamp (hdr (header r1)) = timestamp (hdr (header r)) /\ blockroot_merkle r1 = blockroot_merkle r /\
  dpos_irreversible_blocknum r1 = dpos_irreversible_blocknum r /\ dpos_proposed_irreversible_blocknum r1 = dpos_proposed_irreversible_blocknum r /\
  confirm_count r1 = confirm_count r /\ active_schedule r1 = active_schedule r /\ producer_to_last_produced r1 = producer_to_last_produced r /\
  producer_to_last_implied_irb r1 = producer_to_last_implied_irb r.
Proof.
  unfold set_new_producers. intros H. apply res_bind_ok in H as (? & _ & H). apply res_bind_ok in H as (? & H1%hs_assert_Ok & [= <-]).
  split; [by destruct (producers (pending_schedule r))|]. repeat (split; [done|]). done.
Qed.

Lemma next_step h skip s s' : next h skip s = Ok s' -> block_step s (hdr h) s'.
Proof.
  intros H. unfold HeaderState.next in H.
  apply res_bind_ok in H as (? & H0%hs_assert_Ok & H). apply negb_true_iff, Z.eqb_neq in H0.
  apply res_bind_ok in H as (? & _ & H). apply res_bind_ok in H as (? & _ & H).
  apply res_bind_ok in H as (? & Hl%hs_assert_Ok & H). apply bool_decide_eq_true in Hl.
  apply res_bind_ok in H as (r & Hr & H). apply generate_next_Ok in Hr as (Ht & k & d & t & Hk & Ha & R); [|done]. cbv zeta in R.
  destruct R as (R1 & R2 & R3 & R4 & R5 & R6 & R7 & R8 & R9 & R10 & R11 & R12).
  apply res_bind_ok in H as (? & Hp%hs_assert_Ok & H). apply Z.eqb_eq in Hp. rewrite R3 in Hp. rewrite Hp in *.
  apply res_bind_ok in H as (? & _ & H). apply res_bind_ok in H as (? & Hd & H).
  destruct (set_confirmed_fields (confirmed (hdr h)) r) as [(S1 & S2 & S3 & S4 & S5 & S6 & S7 & S8 & S9 & S10) Sc].
  set (r1 := set_confirmed (confirmed (hdr h)) r) in *. clearbody r1. cbv zeta in H.
  destruct (maybe_promote_pending r1) as [promoted r2] eqn:Em.
  apply maybe_promote_fields in Em as (M1 & M2 & M3 & M4 & M5 & M6 & M7 & M).
  apply res_bind_ok in H as (r3 & Hn & H). apply res_bind_ok in H as (? & _ & [= <-]).
  assert (N : block_num r3 = block_num r2 /\ timestamp (hdr (header r3)) = timestamp (hdr (header r2)) /\ blockroot_merkle r3 = blockroot_merkle r2 /\
    dpos_irreversible_blocknum r3 = dpos_irreversible_blocknum r2 /\ dpos_proposed_irreversible_blocknum r3 = dpos_proposed_irreversible_blocknum r2 /\
    confirm_count r3 = confirm_count r2 /\ active_schedule r3 = active_schedule r2 /\ producer_to_last_produced r3 = producer_to_last_produced r2 /\
    producer_to_last_implied_irb r3 = producer_to_last_implied_irb r2 /\
    ((new_producers (hdr h) = None /\ r3 = r2) \/
     (promoted = false /\ producers (pending_schedule r2) = [] /\ pending_schedule_lib_num r3 = block_num r2))).
  { destruct (new_producers (hdr h)) as [np|]; [|injection Hn as ->; repeat (split; [done|]); by left].
    apply res_bind_ok in Hn as (? & Hn%hs_assert_Ok & Hs). apply negb_true_iff in Hn.
    apply set_new_producers_fields in Hs as (N1 & N2 & N3 & N4 & N5 & N6 & N7 & N8 & N9 & N10 & N11).
    repeat (split; [assumption|]). by right. }
  destruct N as (N1 & N2 & N3 & N4 & N5 & N6 & N7 & N8 & N9 & N). clear Hn. rewrite R3 in S3. cbv zeta in M.
  split; cbn -[renew confirm_run calc_dpos_last_irreversible grow_confirms required_confirmations get_scheduled_producer u32].
  - exact Ht.
  - congruence.
  - exact Hl.
  - by exists k.
  - intros last E. rewrite E in Hd. apply hs_assert_Ok in Hd. rewrite R1 in Hd. lia.
  - congruence.
  - rewrite N5, N6, M5, M6, Sc, N1, M1, S1, R12, R8. done.
  - rewrite N4, M4, S10, R11. done.
  - exists d. by rewrite N3, M3, S4, R4.
  - rewrite N4, M4, N1, M1, N7, N8, N9. destruct promoted.
    + left. destruct M as (P1 & P2 & P3 & P4 & P5 & P6). rewrite S5, S6, R5, R6 in *. destruct N as [[N ->]|[? _]]; [|done].
      split; [done|]. split; [done|]. split; [done|]. split; [done|]. rewrite S3, S8, R9, S1, R1 in P5. rewrite S9, R10 in P6. rewrite S1, R1. done.
    + right. destruct M as [P1 ->]. rewrite S5, S6, R5, R6 in P1. split; [done|]. split; [by rewrite S7|]. split; [by rewrite S8, R9, S1, R1|].
      split; [by rewrite S9|]. destruct N as [[N ->]|(_ & N & E)]; [left|right].
      * split; [done|]. by rewrite S5, S6.
      * by rewrite S6, R6 in N.
Qed.
End one.

(** ** Chains of headers *)

Definition entry : Type := block_header_state * signed_block_header.

(** The number of the block of an entry, and the range of blocks it confirms. *)
Definition num (e : entry) : Z := block_num e.1 + 1.
Definition signer (e : entry) : name := producer (hdr e.2).
Definition confirms (k : Z) (e : entry) : Prop := num e - confirmed (hdr e.2) <= k <= num e.
#[export] Instance confirms_dec k e : Decision (confirms k e).
Proof. unfold confirms. apply _. Defined.
Definition confirmers (k : Z) (hs : list entry) : list name := map signer (filter (confirms k) hs).
Definition required (e : entry) : Z := Z.of_nat (length (producers (active_schedule e.1))) * 2 / 3 + 1.

(** What the chain needs of a block: its number fits, it does not confirm blocks
    before the first one, and the schedule has no more producers than allowed. *)
Record regular (e : entry) : Prop := {
  re_num : num e < 2^32;
  re_range : 0 <= confirmed (hdr e.2) <= num e;
  re_size : Z.of_nat (length (producers (active_schedule e.1))) <= max_producers
}.

Lemma required_range e : regular e -> 0 < required e < 256 /\ u8 (required_confirmations (active_schedule e.1)) = required e.
Proof.
  intros [_ _ H]. unfold max_producers in H. unfold required, required_confirmations.
  set (n := Z.of_nat _) in *. assert (0 <= n) by lia.
  assert (0 <= n * 2 / 3 <= 84) by (split; [apply Z.div_pos|apply Z.div_le_upper_bound]; lia).
  split; [lia|]. unfold u8, u32. rewrite (Z.mod_small _ (2^32)) by lia. apply Z.mod_small. lia.
Qed.

Lemma confirmers_cons k e hs : confirmers k (e :: hs) = (if decide (confirms k e) then [signer e] else []) ++ confirmers k hs.
Proof. unfold confirmers. rewrite filter_cons. by case_decide. Qed.

Lemma confirmers_elem k hs p : p ∈ confirmers k hs <-> exists e, e ∈ hs /\ confirms k e /\ signer e = p.
Proof.
  unfold confirmers. rewrite list_elem_of_fmap. split.
  - intros (e & -> & [? ?]%list_elem_of_filter). by exists e.
  - intros (e & ? & ? & <-). exists e. split; [done|]. by apply list_elem_of_filter.
Qed.

Lemma confirmers_none k hs : (forall e, e ∈ hs -> ~ confirms k e) -> confirmers k hs = [].
Proof.
  induction hs as [|e hs IH]; intros H; [done|]. rewrite confirmers_cons, decide_False by (apply H; left). apply IH. intros. apply H. by right.
Qed.

Section chains.
Context (hash : digest * digest -> digest) (header_digest : block_header -> digest) (schedule_hash : producer_schedule_type -> digest).
Context (recover : Z -> digest -> Z) (initial_key initial_timestamp : Z) (chain_id : digest).
#[local] Abbreviation next := (next hash header_digest schedule_hash recover).
#[local] Abbreviation genesis := (genesis_header_state header_digest schedule_hash initial_key initial_timestamp chain_id).

(** A chain from the genesis, the newest block first. *)
Inductive chain : list entry -> block_header_state -> Prop :=
| chain_genesis : chain [] genesis
| chain_block hs s h skip s' : chain hs s -> next h skip s = Ok s' -> chain ((s, h) :: hs) s'.

Definition tracked (hs : list entry) (bn : Z) (cc : list Z) : Prop :=
  forall i c, cc !! i = Some c -> exists e, e ∈ hs /\ num e = bn - (Z.of_nat (length cc) - 1 - Z.of_nat i) /\
    0 < c < 256 /\ c = required e - Z.of_nat (length (confirmers (num e) hs)).

Record dpos_ok (hs : list entry) (s : block_header_state) : Prop := {
  do_num : block_num s = 1 + Z.of_nat (length hs);
  do_hist e : e ∈ hs -> 1 < num e <= block_num s;
  do_tracked : tracked hs (block_num s) (confirm_count s);
  do_order : 0 <= dpos_proposed_irreversible_blocknum s <= block_num s - Z.of_nat (length (confirm_count s));
  do_quorum : dpos_proposed_irreversible_blocknum s <> 0 ->
    exists e, e ∈ hs /\ num e = dpos_proposed_irreversible_blocknum s /\ required e <= Z.of_nat (length (confirmers (num e) hs));
  do_once k : NoDup (confirmers k hs);
  do_known : (forall k, k ∈ producers (active_schedule s) -> is_Some (producer_to_last_produced s !! producer_name k)) \/
    (hs = [] /\ exists n, forall k, k ∈ producers (active_schedule s) -> producer_name k = n);
  do_last : exists promoted, promoted <= block_num s /\
    (producers (pending_schedule s) <> [] -> promoted < pending_schedule_lib_num s) /\
    forall e, e ∈ hs -> num e <= default promoted (producer_to_last_produced s !! signer e)
}.

Lemma genesis_ok : dpos_ok [] genesis.
Proof.
  assert (E : block_num genesis = 1) by reflexivity. split.
  - by rewrite E.
  - by intros e ?%elem_of_nil.
  - intros i c. cbn. by rewrite lookup_nil.
  - rewrite E. cbn. lia.
  - done.
  - intros k. constructor.
  - right. split; [done|]. exists (N "eosio"). by intros k ->%list_elem_of_singleton.
  - exists (-1). split; [rewrite E; lia|]. split; [cbn; lia|]. by intros e ?%elem_of_nil.
Qed.

(** The counts when the new block is added and before it confirms anything. *)
Lemma grown_tracked hs s h : dpos_ok hs s -> regular (s, h) ->
  let cc := grow_confirms (confirm_count s) (required_confirmations (active_schedule s)) in
  (forall i c, cc !! i = Some c -> exists e, e ∈ (s, h) :: hs /\ num e = num (s, h) - (Z.of_nat (length cc) - 1 - Z.of_nat i) /\
    0 < c < 256 /\ c = required e - Z.of_nat (length (confirmers (num e) hs))) /\
  dpos_proposed_irreversible_blocknum s <= num (s, h) - Z.of_nat (length cc) /\ cc <> [].
Proof.
  intros I R. destruct (required_range _ R) as [Hr Hu]. cbn [fst] in Hu.
  assert (Hnew : confirmers (num (s, h)) hs = []).
  { apply confirmers_none. intros e He [_ ?]. pose proof (do_hist _ _ I e He). unfold num in *. cbn in *. lia. }
  assert (Hold : exists n, grow_confirms (confirm_count s) (required_confirmations (active_schedule s)) = drop n (confirm_count s) ++ [required (s, h)] /\
    (n <= length (confirm_count s))%nat).
  { unfold grow_confirms. rewrite Hu. destruct (Z.ltb_spec (Z.of_nat (length (confirm_count s))) maximum_tracked_dpos_confirmations).
    - exists O. split; [done|lia].
    - exists 1%nat. split; [done|]. unfold maximum_tracked_dpos_confirmations in *. lia. }
  destruct Hold as (n & -> & Hn). cbv zeta. pose proof (do_order _ _ I). unfold num. cbn [fst]. rewrite length_app, length_drop. cbn [length].
  split; [|split; [lia|by destruct (drop n (confirm_count s))]].
  intros i c Hi. apply lookup_app_Some in Hi as [Hi|[Hge Hi]].
  - rewrite lookup_drop in Hi. pose proof (lookup_lt_Some _ _ _ Hi).
    destruct (do_tracked _ _ I _ _ Hi) as (e & He & En & Hc & Ec). unfold num in *.
    exists e. split; [by right|]. split; [|done]. rewrite En. lia.
  - rewrite length_drop in *. apply list_lookup_singleton_Some in Hi as [Hi <-].
    exists (s, h). split; [left|]. unfold num in Hnew. cbn [fst] in Hnew |- *. rewrite Hnew. cbn [length]. split; [lia|]. lia.
Qed.

Section step.
Context (hs : list entry) (s : block_header_state) (h : signed_block_header) (s' : block_header_state).
Context (I : dpos_ok hs s) (R : regular (s, h)) (B : block_step hash s (hdr h) s').

Lemma step_num : block_num s' = num (s, h).
Proof using I R B.
  rewrite (bs_num _ _ _ _ B). pose proof (re_num _ R) as H. pose proof (do_num _ _ I). unfold num in *. cbn [fst] in *.
  unfold u32. apply Z.mod_small. lia.
Qed.

(** The producer of the block has not confirmed anything the block confirms. *)
Lemma step_fresh k : confirms k (s, h) -> signer (s, h) ∉ confirmers k hs.
Proof using I R B.
  intros [H1 H2] (e & He & [H3 H4] & Ep)%confirmers_elem.
  destruct (bs_turn _ _ _ _ B) as (pk & Hk%scheduled_in & Epk).
  assert (Hne : hs <> []) by (by intros ->; apply elem_of_nil in He).
  destruct (do_known _ _ I) as [Hkn|[? _]]; [|done]. destruct (Hkn pk Hk) as [v Hv]. rewrite Epk in Hv. unfold signer in Ep. cbn [snd] in Ep.
  destruct (do_last _ _ I) as (P & _ & _ & HP). specialize (HP e He). unfold signer in HP. rewrite Ep, Hv in HP. cbn in HP.
  pose proof (bs_fresh _ _ _ _ B v Hv) as Hf. rewrite <- (bs_num _ _ _ _ B), step_num in Hf.
  pose proof (re_range _ R). pose proof (re_num _ R). cbn [snd] in *. unfold u32 in Hf. rewrite Z.mod_small in Hf by lia. lia.
Qed.

Lemma step_once k : NoDup (confirmers k ((s, h) :: hs)).
Proof using I R B.
  rewrite confirmers_cons. case_decide as Hc; [|apply (do_once _ _ I)]. cbn [app]. constructor; [by apply step_fresh|apply (do_once _ _ I)].
Qed.

Lemma step_count k : Z.of_nat (length (confirmers k ((s, h) :: hs))) =
  Z.of_nat (length (confirmers k hs)) + if decide (confirms k (s, h)) then 1 else 0.
Proof using Type. rewrite confirmers_cons. case_decide; rewrite length_app; cbn [length]; lia. Qed.

Lemma step_confirms : tracked ((s, h) :: hs) (block_num s') (confirm_count s') /\
  0 <= dpos_proposed_irreversible_blocknum s <= dpos_proposed_irreversible_blocknum s' /\
  dpos_proposed_irreversible_blocknum s' <= block_num s' - Z.of_nat (length (confirm_count s')) /\
  (dpos_proposed_irreversible_blocknum s' <> 0 ->
   exists e, e ∈ (s, h) :: hs /\ num e = dpos_proposed_irreversible_blocknum s' /\ required e <= Z.of_nat (length (confirmers (num e) ((s, h) :: hs)))).
Proof using I R B.
  pose proof (grown_tracked hs s h I R) as G. cbv zeta in G. destruct G as (G & Gp & _).
  pose proof (bs_counts _ _ _ _ B) as C. cbv zeta in C. rewrite step_num in C |- *.
  set (cc := grow_confirms _ _) in *. pose proof (re_range _ R) as Hrg. cbn [snd] in Hrg. pose proof (re_num _ R) as Hn.
  pose proof (do_order _ _ I) as Ho. pose proof (do_num _ _ I) as Hnum. assert (Hbn : num (s, h) = block_num s + 1) by done.
  destruct (confirm_run_spec (num (s, h)) (dpos_proposed_irreversible_blocknum s) (length cc) (confirmed (hdr h) + 1) cc)
    as (k & p' & cc' & E & Hk & Hl & Hv & Hp); [lia|lia| |].
  { intros x [i Hi]%list_elem_of_lookup_1. by destruct (G i x Hi) as (e & _ & _ & ? & _). }
  rewrite E in C. injection C as -> ->.
  assert (Hin : forall i e, num e = num (s, h) - (Z.of_nat (length cc) - 1 - Z.of_nat i) -> (i < length cc)%nat ->
    (Z.of_nat (length cc) - (confirmed (hdr h) + 1) <=? Z.of_nat i) && (i <? length cc)%nat = bool_decide (confirms (num e) (s, h))).
  { intros i e En Hi. unfold confirms. cbn [snd]. rewrite En. apply eq_true_iff_eq. rewrite bool_decide_eq_true. lia. }
  split; [|split; [|split]].
  - intros i c Hi. pose proof (lookup_lt_Some _ _ _ Hi) as Hlt.
    destruct (lookup_lt_is_Some_2 cc (i + k)%nat ltac:(lia)) as [x Hx]. destruct (G _ _ Hx) as (e & He & En & Hxr & Ex).
    destruct (Hv (i + k)%nat x ltac:(lia) Hx) as [Hc Hgt]. replace (i + k - k)%nat with i in Hc by lia. rewrite Hi in Hc. injection Hc as Hc.
    rewrite (Hin (i + k)%nat e En ltac:(lia)) in Hc. exists e. split; [done|]. split; [lia|]. rewrite step_count.
    pose proof (Hin (i + k)%nat e En ltac:(lia)) as Hb.
    case_bool_decide as Hcf; [rewrite decide_True by done|rewrite decide_False by done]; split; try lia.
  - split; [lia|]. destruct Hp as [[_ ->]|(i0 & -> & H1 & H2 & ->)]; [lia|]. unfold u32. rewrite Z.mod_small; lia.
  - destruct Hp as [[-> ->]|(i0 & -> & H1 & H2 & ->)]; [lia|]. unfold u32. rewrite Z.mod_small; lia.
  - intros Hnz. destruct Hp as [[-> ->]|(i0 & -> & H1 & H2 & ->)].
    + destruct (do_quorum _ _ I Hnz) as (e & He & En & Hq). exists e. split; [by right|]. split; [done|]. rewrite step_count. case_decide; lia.
    + destruct (G _ _ H2) as (e & He & En & _ & Ee). exists e. split; [done|].
      pose proof (lookup_lt_Some _ _ _ H2). pose proof (Hin i0 e En ltac:(lia)) as Hb. case_bool_decide as Hcf; [|lia].
      unfold u32. rewrite Z.mod_small by lia. split; [lia|]. rewrite step_count, decide_True by done. lia.
Qed.

Lemma renew_lookup lib old sch p :
  renew lib old sch !! p = if decide (p ∈ map producer_name sch) then Some (default lib (old !! p)) else None.
Proof using Type.
  unfold renew. induction sch as [|k sch IH] using rev_ind; [cbn [foldl map]; rewrite lookup_empty, decide_False; [done|apply not_elem_of_nil]|].
  rewrite foldl_app. cbn [foldl]. rewrite map_app. cbn [map]. destruct (decide (producer_name k = p)) as [<-|Hk].
  - rewrite lookup_insert_eq, decide_True; [done|]. apply elem_of_app. right. by apply list_elem_of_singleton.
  - rewrite lookup_insert_ne, IH by done. apply decide_ext. rewrite elem_of_app, list_elem_of_singleton. split; [by left|]. intros [?|?]; [done|congruence].
Qed.

Lemma step_known : (forall k, k ∈ producers (active_schedule s') -> is_Some (producer_to_last_produced s' !! producer_name k)).
Proof using I B.
  intros k Hk. destruct (bs_schedule _ _ _ _ B) as [(_ & _ & _ & _ & -> & _)|(_ & Ea & -> & _)].
  - rewrite lookup_insert. case_decide; [by eexists|]. rewrite renew_lookup, decide_True; [by eexists|]. by apply list_elem_of_fmap_2.
  - rewrite Ea in Hk. rewrite lookup_insert. case_decide as Hne; [by eexists|].
    destruct (do_known _ _ I) as [H|[_ [n H]]]; [by apply H|]. destruct (bs_turn _ _ _ _ B) as (pk & Hpk%scheduled_in & Epk).
    destruct Hne. rewrite <- Epk, (H k Hk). by apply H.
Qed.

Lemma step_last : exists promoted, promoted <= block_num s' /\
  (producers (pending_schedule s') <> [] -> promoted < pending_schedule_lib_num s') /\
  forall e, e ∈ (s, h) :: hs -> num e <= default promoted (producer_to_last_produced s' !! signer e).
Proof using I R B.
  destruct (do_last _ _ I) as (P & HP & Hpend & Hlast). pose proof step_num as Hn. assert (Hn' : num (s, h) = block_num s + 1) by done.
  assert (Hhist : forall e, e ∈ (s, h) :: hs -> num e <= block_num s').
  { intros e [->|He]%elem_of_cons; [lia|]. pose proof (do_hist _ _ I e He). lia. }
  destruct (bs_schedule _ _ _ _ B) as [(Hp & Hle & _ & Ep' & -> & _)|(_ & _ & -> & _ & Hpend')].
  - exists (block_num s'). split; [lia|]. split; [by rewrite Ep'|]. intros e He. rewrite lookup_insert. case_decide; [by apply Hhist|].
    rewrite renew_lookup. case_decide; [|by apply Hhist]. cbn. apply elem_of_cons in He as [->|He]; [done|].
    rewrite lookup_insert_ne by done. specialize (Hlast e He). specialize (Hpend Hp). destruct (_ !! signer e); cbn in *; lia.
  - exists P. split; [lia|]. split.
    + destruct Hpend' as [(_ & -> & ->)|[_ ->]]; [done|lia].
    + intros e He. rewrite lookup_insert. case_decide as Hs; [by apply Hhist|]. apply elem_of_cons in He as [->|He]; [done|]. by apply Hlast.
Qed.

Lemma step_ok : dpos_ok ((s, h) :: hs) s'.
Proof using I R B.
  pose proof step_num as Hn. assert (Hn' : num (s, h) = block_num s + 1) by done. pose proof (do_num _ _ I).
  destruct step_confirms as (C1 & C2 & C3 & C4). split.
  - cbn [length]. lia.
  - intros e [->|He]%elem_of_cons; [lia|]. pose proof (do_hist _ _ I e He). lia.
  - exact C1.
  - lia.
  - exact C4.
  - exact step_once.
  - left. exact step_known.
  - exact step_last.
Qed.
End step.

Lemma chain_ok hs s : chain hs s -> Forall regular hs -> dpos_ok hs s.
Proof.
  induction 1 as [|hs s h skip s' Hc IH Hn]; intros Hr; [apply genesis_ok|].
  apply Forall_cons in Hr as [R Hr]. eapply step_ok; [by apply IH|done|by eapply next_step].
Qed.
End chains.

(** ** Two thirds *)

(** How many producers hold [b] or a later block for irreversible. *)
Definition support (irb : gmap name Z) (b : Z) : nat := length (filter (fun v => (b <= v)%Z) (map snd (map_to_list irb))).

Lemma filter_all {A} (P : A -> Prop) `{forall x, Decision (P x)} (l : list A) : (forall x, x ∈ l -> P x) -> filter P l = l.
Proof.
  induction l as [|x l IH]; intros Hl; [done|]. rewrite filter_cons, decide_True by (apply Hl; left). f_equal. apply IH. intros. apply Hl. by right.
Qed.

(** In a sorted list the elements from [b] on are the last ones. *)
Lemma sorted_count (l : list Z) (i : nat) x b : StronglySorted Z.le l -> l !! i = Some x ->
  (b <= x -> (length l - i <= length (filter (fun v => (b <= v)%Z) l))%nat) /\
  (x < b -> (length (filter (fun v => (b <= v)%Z) l) <= length l - S i)%nat).
Proof.
  intros Hs Hi. revert i Hi.
  induction Hs as [|a l Hs IH Ha]; intros i Hi; [by rewrite lookup_nil in Hi|].
  rewrite filter_cons. destruct i as [|i]; cbn in Hi.
  - injection Hi as ->. rewrite Forall_forall in Ha. split; intros Hb.
    + rewrite decide_True by done. cbn [length]. rewrite Nat.sub_0_r.
      rewrite filter_all; [lia|]. intros y Hy. specialize (Ha y Hy). lia.
    + rewrite decide_False by lia. cbn [length]. pose proof (length_filter (fun v => (b <= v)%Z) l). lia.
  - destruct (IH i Hi) as [H1 H2]. rewrite Forall_forall in Ha. pose proof (Ha x ltac:(by eapply list_elem_of_lookup_2)) as Hax.
    cbn [length]. split; intros Hb.
    + specialize (H1 Hb). case_decide; cbn [length]; lia.
    + specialize (H2 Hb). rewrite decide_False by lia. lia.
Qed.

Lemma lib_spec irb b : irb <> ∅ -> b <= calc_dpos_last_irreversible irb <-> (2 * size irb < 3 * support irb b)%nat.
Proof.
  intros Hne. unfold calc_dpos_last_irreversible, support. set (l := map snd (map_to_list irb)).
  assert (Hn : size irb = length (merge_sort Z.le l)).
  { rewrite (Permutation_length (merge_sort_Permutation Z.le l)). subst l. by rewrite length_map, length_map_to_list. }
  assert (Hc : forall P (D : forall x, Decision (P x)), length (filter P l) = length (filter P (merge_sort Z.le l))).
  { intros P D. apply Permutation_length, filter_Permutation. symmetry. apply merge_sort_Permutation. }
  rewrite Hc, Hn. pose proof (StronglySorted_merge_sort Z.le l) as Hs.
  assert (Hpos : (0 < length (merge_sort Z.le l))%nat). { rewrite <- Hn. apply map_size_non_empty_iff in Hne. lia. }
  destruct (merge_sort Z.le l) as [|a m] eqn:Em; [cbn in Hpos; lia|]. rewrite <- Em in *. clear Em a m.
  set (srt := merge_sort Z.le l) in *. pose proof (Nat.Div0.div_mod (length srt - 1) 3) as Hdm.
  pose proof (Nat.mod_upper_bound (length srt - 1) 3 ltac:(lia)) as Hm. set (i := ((length srt - 1) / 3)%nat) in *.
  destruct (lookup_lt_is_Some_2 srt i ltac:(lia)) as [x Hx]. rewrite Hx. change (default 0 (Some x)) with x.
  destruct (sorted_count srt i x b Hs Hx) as [H1 H2]. split; intros H.
  - specialize (H1 H). lia.
  - destruct (Z.le_gt_cases b x) as [?|Hgt]; [done|]. specialize (H2 ltac:(lia)). lia.
Qed.

Lemma support_insert irb p v b : support (<[p := v]> irb) b =
  ((if decide (b <= v)%Z then 1 else 0) + support (delete p irb) b)%nat.
Proof.
  unfold support. rewrite <- insert_delete_eq, (Permutation_length (filter_Permutation _ _ _ (Permutation_map snd (map_to_list_insert (delete p irb) p v (lookup_delete_eq _ _))))).
  cbn [map snd]. rewrite filter_cons. case_decide; cbn [length]; lia.
Qed.

(** A producer that holds a later block for irreversible does not lower the count. *)
Lemma support_raise irb p v v' b : irb !! p = Some v -> v <= v' -> (support irb b <= support (<[p := v']> irb) b)%nat.
Proof.
  intros Hp Hv. rewrite <- (insert_id irb p v Hp) at 1. rewrite !support_insert. repeat case_decide; lia.
Qed.

Lemma lib_raise irb p v v' : irb !! p = Some v -> v <= v' -> calc_dpos_last_irreversible irb <= calc_dpos_last_irreversible (<[p := v']> irb).
Proof.
  intros Hp Hv. assert (Hne : irb <> ∅) by (by intros ->; rewrite lookup_empty in Hp).
  apply lib_spec; [apply insert_non_empty|]. pose proof (proj1 (lib_spec irb _ Hne) (Z.le_refl _)) as H.
  pose proof (support_raise irb p v v' (calc_dpos_last_irreversible irb) Hp Hv). rewrite map_size_insert_Some by (by eexists). lia.
Qed.

Lemma lib_bound irb m : (forall p v, irb !! p = Some v -> 0 <= v <= m) -> 0 <= m -> 0 <= calc_dpos_last_irreversible irb <= m.
Proof.
  intros Hv Hm. destruct (decide (irb = ∅)) as [->|Hne]; [unfold calc_dpos_last_irreversible; by rewrite map_to_list_empty|]. split.
  - apply lib_spec; [done|]. unfold support. rewrite filter_all.
    + rewrite length_map, length_map_to_list. apply map_size_non_empty_iff in Hne. lia.
    + intros v ([p w] & -> & Hin%elem_of_map_to_list)%list_elem_of_fmap. cbn. apply Hv in Hin. lia.
  - pose proof (proj1 (lib_spec irb _ Hne) (Z.le_refl _)) as H. unfold support in H.
    destruct (filter (fun v => (calc_dpos_last_irreversible irb <= v)%Z) (map snd (map_to_list irb))) as [|v l] eqn:E.
    + cbn in H. lia.
    + assert (Hin : v ∈ filter (fun v => (calc_dpos_last_irreversible irb <= v)%Z) (map snd (map_to_list irb))) by (rewrite E; left).
      apply list_elem_of_filter in Hin as [Hle ([p w] & -> & Hin%elem_of_map_to_list)%list_elem_of_fmap]. apply Hv in Hin. cbn in *. lia.
Qed.

Section lib.
Context (hash : digest * digest -> digest) (header_digest : block_header -> digest) (schedule_hash : producer_schedule_type -> digest).
Context (recover : Z -> digest -> Z) (initial_key initial_timestamp : Z) (chain_id : digest).
#[local] Abbreviation next := (next hash header_digest schedule_hash recover).
#[local] Abbreviation chain := (chain hash header_digest schedule_hash recover initial_key initial_timestamp chain_id).

Record lib_ok (hs : list entry) (s : block_header_state) : Prop := {
  lo_values p v : producer_to_last_implied_irb s !! p = Some v -> 0 <= v <= dpos_proposed_irreversible_blocknum s;
  lo_lib : 0 <= dpos_irreversible_blocknum s <= dpos_proposed_irreversible_blocknum s;
  lo_known : hs <> [] -> forall k, k ∈ producers (active_schedule s) -> is_Some (producer_to_last_implied_irb s !! producer_name k);
  lo_first : hs = [] -> producers (pending_schedule s) <> [] /\ pending_schedule_lib_num s = 0
}.

Lemma lib_step hs s h s' : lib_ok hs s -> block_step hash s (hdr h) s' ->
  0 <= dpos_proposed_irreversible_blocknum s <= dpos_proposed_irreversible_blocknum s' -> lib_ok ((s, h) :: hs) s'.
Proof.
  intros [L1 L2 L3 L4] B Hp. pose proof (bs_lib _ _ _ _ B) as Hl.
  set (irb := <[producer (hdr h) := dpos_proposed_irreversible_blocknum s]> (producer_to_last_implied_irb s)) in *.
  assert (Hv : forall p v, irb !! p = Some v -> 0 <= v <= dpos_proposed_irreversible_blocknum s).
  { intros p v. subst irb. rewrite lookup_insert. case_decide; [intros [= <-]; lia|apply L1]. }
  pose proof (lib_bound irb _ Hv ltac:(lia)) as Hb. rewrite <- Hl in Hb.
  destruct (bs_schedule _ _ _ _ B) as [(Hpn & Hpl & Ea & _ & _ & Ei & _)|(Hnp & Ea & _ & Ei & _)]; fold irb in Ei; split; rewrite ?Ei.
  - intros p v. rewrite renew_lookup. case_decide; [|done]. intros [= <-]. destruct (irb !! p) eqn:E; cbn; [apply Hv in E|]; lia.
  - lia.
  - intros _ k Hk. rewrite renew_lookup, decide_True; [by eexists|]. by apply list_elem_of_fmap_2.
  - done.
  - intros p v E. apply Hv in E. lia.
  - lia.
  - intros _ k Hk. subst irb. rewrite lookup_insert. case_decide; [by eexists|]. rewrite Ea in Hk. apply L3; [|done].
    intros ->. destruct (L4 eq_refl) as [? ?]. destruct Hnp; [done|lia].
  - done.
Qed.

Lemma chain_lib hs s : chain hs s -> Forall regular hs -> lib_ok hs s.
Proof.
  induction 1 as [|hs s h skip s' Hc IH Hn]; intros Hr.
  { split; cbn; [|lia|done|done]. intros p v. by rewrite lookup_empty. }
  apply Forall_cons in Hr as [R Hr]. apply next_step in Hn. pose proof (chain_ok _ _ _ _ _ _ _ _ _ Hc Hr) as I.
  eapply lib_step; [by apply IH|done|]. by destruct (step_confirms _ _ _ _ _ I R Hn) as (_ & ? & _).
Qed.

(** The block promoted the pending schedule. *)
Definition promotes (s s' : block_header_state) : Prop :=
  producers (pending_schedule s) <> [] /\ pending_schedule_lib_num s <= dpos_irreversible_blocknum s'.

Lemma lib_monotone hs s0 h0 s h s' : lib_ok ((s0, h0) :: hs) s -> block_step hash s0 (hdr h0) s -> block_step hash s (hdr h) s' ->
  ~ promotes s0 s -> dpos_irreversible_blocknum s <= dpos_irreversible_blocknum s'.
Proof.
  intros L B0 B Hnp. rewrite (bs_lib _ _ _ _ B0), (bs_lib _ _ _ _ B).
  destruct (bs_schedule _ _ _ _ B0) as [(Hpn & Hpl & _)|(_ & _ & _ & Ei & _)]; [by destruct Hnp|].
  rewrite <- Ei. destruct (bs_turn _ _ _ _ B) as (k & Hk%scheduled_in & Ek).
  destruct (lo_known _ _ L ltac:(done) k Hk) as [v Hv]. rewrite Ek in Hv. eapply lib_raise; [exact Hv|]. apply (lo_values _ _ L) in Hv. lia.
Qed.
End lib.

(** ** What a header commits to *)

Lemma endian_reverse_bytes x : 0 <= x < 2^32 ->
  endian_reverse_u32 x = (x / 2^24) mod 256 + (x / 2^16) mod 256 * 2^8 + (x / 2^8) mod 256 * 2^16 + x mod 256 * 2^24.
Proof.
  intros Hx. unfold endian_reverse_u32. change 0xFF with (Z.ones 8). rewrite !Z.land_ones, !Z.shiftr_div_pow2 by lia.
  pose proof (Z.mod_pos_bound (x / 2^24) 256 ltac:(lia)). pose proof (Z.mod_pos_bound (x / 2^16) 256 ltac:(lia)).
  pose proof (Z.mod_pos_bound (x / 2^8) 256 ltac:(lia)). change (2^0x18) with (2^24). change (2^0x10) with (2^16). change (2^0x08) with (2^8).
  change (2^8) with 256 in *. rewrite (lor_high _ _ 8), (lor_high _ _ 16), (lor_high _ _ 24) by lia. lia.
Qed.

Definition of_bytes (b0 b1 b2 b3 : Z) : Z := b0 + b1 * 2^8 + b2 * 2^16 + b3 * 2^24.
Definition is_byte (b : Z) : Prop := 0 <= b < 256.

Lemma bytes_of x : 0 <= x < 2^32 -> exists b0 b1 b2 b3, is_byte b0 /\ is_byte b1 /\ is_byte b2 /\ is_byte b3 /\ x = of_bytes b0 b1 b2 b3.
Proof.
  intros Hx. unfold is_byte, of_bytes. exists (x mod 256), (x / 256 mod 256), (x / 256 / 256 mod 256), (x / 256 / 256 / 256).
  pose proof (Z.div_mod x 256 ltac:(lia)). pose proof (Z.div_mod (x / 256) 256 ltac:(lia)). pose proof (Z.div_mod (x / 256 / 256) 256 ltac:(lia)).
  pose proof (Z.mod_pos_bound x 256 ltac:(lia)). pose proof (Z.mod_pos_bound (x / 256) 256 ltac:(lia)).
  pose proof (Z.mod_pos_bound (x / 256 / 256) 256 ltac:(lia)). lia.
Qed.

Lemma reverse_bytes b0 b1 b2 b3 : is_byte b0 -> is_byte b1 -> is_byte b2 -> is_byte b3 ->
  endian_reverse_u32 (of_bytes b0 b1 b2 b3) = of_bytes b3 b2 b1 b0.
Proof.
  unfold is_byte. intros H0 H1 H2 H3. rewrite endian_reverse_bytes by (unfold of_bytes; lia). unfold of_bytes.
  rewrite <- (Z.div_unique _ (2^24) b3 (b0 + b1 * 2^8 + b2 * 2^16)), <- (Z.div_unique _ (2^16) (b2 + b3 * 2^8) (b0 + b1 * 2^8)),
    <- (Z.div_unique _ (2^8) (b1 + b2 * 2^8 + b3 * 2^16) b0) by lia.
  rewrite <- (Z.mod_unique b3 256 0 b3), <- (Z.mod_unique (b2 + _) 256 b3 b2), <- (Z.mod_unique (b1 + _ + _) 256 (b2 + b3 * 2^8) b1),
    <- (Z.mod_unique (b0 + _ + _ + _) 256 (b1 + b2 * 2^8 + b3 * 2^16) b0) by lia. done.
Qed.

Lemma endian_reverse_twice x : 0 <= x < 2^32 -> 0 <= endian_reverse_u32 x < 2^32 /\ endian_reverse_u32 (endian_reverse_u32 x) = x.
Proof.
  intros (b0 & b1 & b2 & b3 & H0 & H1 & H2 & H3 & ->)%bytes_of. rewrite !reverse_bytes by done. split; [|done].
  unfold is_byte, of_bytes in *. lia.
Qed.

Section commits.
Context (hash : digest * digest -> digest) (header_digest : block_header -> digest) (schedule_hash : producer_schedule_type -> digest).
Context (recover : Z -> digest -> Z) (initial_key initial_timestamp : Z) (chain_id : digest).
#[local] Abbreviation next := (next hash header_digest schedule_hash recover).
#[local] Abbreviation chain := (chain hash header_digest schedule_hash recover initial_key initial_timestamp chain_id).

(** The id of a header carries the number of its block. *)
Lemma id_carries_num h : num_from_id (header_id header_digest h) = header_block_num h.
Proof.
  unfold num_from_id, header_id. cbn. set (n := header_block_num h).
  assert (Hn : 0 <= n < 2^32) by (apply Z.mod_pos_bound; lia). destruct (endian_reverse_twice n Hn) as [Hr E].
  set (r := endian_reverse_u32 n) in *. set (w := word0 (header_digest h)). unfold u64, u32.
  assert (Ez : Z.land w 0xffffffff00000000 mod 2^32 = 0) by (rewrite <- Z.land_ones, <- Z.land_assoc by lia; apply Z.land_0_r).
  rewrite Z.mod_mod_divide by (by exists (2^32)). rewrite <- Z.add_mod_idemp_l, Ez, Z.add_0_l, (Z.mod_small r) by lia. exact E.
Qed.

Lemma next_header h skip s s' : next h skip s = Ok s' ->
  previous (hdr (header s')) = bhs_id s /\ bhs_id s' = header_id header_digest (hdr (header s')).
Proof.
  intros H. unfold HeaderState.next in H.
  apply res_bind_ok in H as (? & H0%hs_assert_Ok & H). do 3 apply res_bind_ok in H as (? & _ & H).
  apply res_bind_ok in H as (r & Hr & H). do 3 apply res_bind_ok in H as (? & _ & H).
  assert (Hp : previous (hdr (header r)) = bhs_id s).
  { unfold generate_next in Hr. do 3 apply res_bind_ok in Hr as (? & _ & Hr). by injection Hr as <-. }
  assert (Hp1 : previous (hdr (header (set_confirmed (confirmed (hdr h)) r))) = bhs_id s).
  { unfold set_confirmed. rewrite confirm_loop_run. exact Hp. }
  set (r1 := set_confirmed _ r) in *. clearbody r1. cbv zeta in H. destruct (maybe_promote_pending r1) as [b r2] eqn:Em.
  apply maybe_promote_fields in Em as (_ & Eh & _). apply res_bind_ok in H as (r3 & Hn & H). apply res_bind_ok in H as (? & _ & [= <-]). cbn. split; [|done].
  rewrite <- Hp1, <- Eh. destruct (new_producers (hdr h)); [|by injection Hn as ->]. apply res_bind_ok in Hn as (? & _ & Hn).
  unfold set_new_producers in Hn. do 2 apply res_bind_ok in Hn as (? & _ & Hn). by injection Hn as <-.
Qed.

(** The ids of the blocks before the head, the genesis first. *)
Definition ids (hs : list entry) : list digest := map (fun e => bhs_id e.1) (reverse hs).

(** C30: Along a chain of headers every header is committed to its place: the block
    number in the state is the one its header computes from the previous id and the one its
    own id carries, each header links to the state before it and is strictly later than
    that state's header, and the incremental Merkle tree holds the ids of all earlier
    blocks, so its root is their Merkle root (for up to 2^31 blocks, the most that
    [merkle] is defined for).  The chain starts at the genesis and its
    headers are [regular], which the node does not check: numbers below 2^32, at
    most 125 producers, no header that confirms more blocks than there are. *)
Theorem header_commits hs s : chain hs s -> Forall regular hs ->
  block_num s = 1 + Z.of_nat (length hs) /\ num_from_id (bhs_id s) = block_num s /\ header_block_num (hdr (header s)) = block_num s /\
  (forall e, e ∈ hs -> previous (hdr e.2) = bhs_id e.1 /\ timestamp (hdr (header e.1)) < timestamp (hdr e.2) <= timestamp (hdr (header s))) /\
  (Z.of_nat (length hs) <= 2^31 -> Some (get_root (blockroot_merkle s)) = merkle hash (ids hs)).
Proof.
  intros C Hr. enough (H : block_num s = 1 + Z.of_nat (length hs) /\ num_from_id (bhs_id s) = block_num s /\ header_block_num (hdr (header s)) = block_num s /\
    (forall e, e ∈ hs -> previous (hdr e.2) = bhs_id e.1 /\ timestamp (hdr (header e.1)) < timestamp (hdr e.2) <= timestamp (hdr (header s))) /\
    holds_leaves hash (blockroot_merkle s) (ids hs)).
  { destruct H as (H1 & H2 & H3 & H4 & H5). repeat (split; [done|]). intros Hlen. apply get_root_holds; [done|]. unfold ids. rewrite length_map, length_reverse. exact Hlen. }
  induction C as [|hs s h skip s' C IH Hn].
  - split; [done|]. split; [apply id_carries_num|]. split; [done|]. split; [by intros e ?%elem_of_nil|apply holds_none].
  - apply Forall_cons in Hr as [R Hr]. destruct (IH Hr) as (H1 & H2 & H3 & H4 & H5). pose proof (next_step _ _ _ _ _ _ _ _ Hn) as B.
    apply next_header in Hn as [Hp Hid]. pose proof (step_num _ _ _ _ _ (chain_ok _ _ _ _ _ _ _ _ _ C Hr) R B) as En.
    assert (Enum : num (s, h) = block_num s + 1) by done. pose proof (re_num _ R) as Hlt. assert (Hlen : Z.of_nat (length hs) + 1 <= 2^63) by lia.
    assert (Eh : header_block_num (hdr (header s')) = block_num s').
    { unfold header_block_num. rewrite Hp, H2, En, Enum. unfold u32. apply Z.mod_small. lia. }
    split; [cbn [length]; lia|]. split; [by rewrite Hid, id_carries_num|]. split; [done|]. split.
    + pose proof (bs_time _ _ _ _ B). pose proof (bs_time' _ _ _ _ B). intros e [->|He]%elem_of_cons; [split; [apply (bs_link _ _ _ _ B)|cbn [fst snd]; lia]|].
      destruct (H4 e He). split; [done|lia].
    + unfold ids in *. rewrite reverse_cons, map_app. cbn [map fst]. destruct (bs_root _ _ _ _ B) as [d Ha].
      destruct (append_holds hash (blockroot_merkle s) _ (bhs_id s) H5) as (t & Ea & Ht).
      { rewrite length_map, length_reverse. exact Hlen. }
      rewrite Ha in Ea. by injection Ea as _ ->.
Qed.
End commits.

(** ** Claims *)


Section claims.
Context (hash : digest * digest -> digest) (header_digest : block_header -> digest) (schedule_hash : producer_schedule_type -> digest).
Context (recover : Z -> digest -> Z) (initial_key initial_timestamp : Z) (chain_id : digest).
#[local] Abbreviation next := (next hash header_digest schedule_hash recover).
#[local] Abbreviation chain := (chain hash header_digest schedule_hash recover initial_key initial_timestamp chain_id).



(** C18: In a chain of headers from the genesis, no producer confirms a block twice; each
    block that is still tracked misses exactly as many confirmations as its count
    says; and when a block is proposed as irreversible, more than two thirds as many
    producers as the schedule at that block had have confirmed it, all different.  A block
    numbered n with the field confirmed equal to c counts as confirming the blocks from
    n - c to n, itself included, which is what the code counts ([set_confirmed] goes on to
    "confirm the head block too") and not what the comment on the field says (a
    producer cannot confirm "this" block).  The theorem holds across changes of the
    schedule, for chains of regular blocks, a condition the node does not check: numbers
    below 2^32, at most 125 producers, no block that confirms more blocks than there are
    (without which [confirm_range_wraps]). *)
Theorem dpos_quorum hs s : chain hs s -> Forall regular hs ->
  (forall k, NoDup (confirmers k hs)) /\ tracked hs (block_num s) (confirm_count s) /\
  0 <= dpos_proposed_irreversible_blocknum s <= block_num s /\
  (dpos_proposed_irreversible_blocknum s <> 0 -> exists e, e ∈ hs /\ num e = dpos_proposed_irreversible_blocknum s /\
     2 * Z.of_nat (length (producers (active_schedule e.1))) < 3 * Z.of_nat (length (confirmers (num e) hs))).
Proof.
  intros Hc Hr. pose proof (chain_ok _ _ _ _ _ _ _ _ _ Hc Hr) as I. pose proof (do_order _ _ I).
  split; [exact (do_once _ _ I)|]. split; [exact (do_tracked _ _ I)|]. split; [lia|]. intros Hn.
  destruct (do_quorum _ _ I Hn) as (e & He & En & Hq). exists e. split; [done|]. split; [done|]. unfold required in Hq.
  set (n := Z.of_nat (length (producers _))) in *. pose proof (Z.div_mod (n * 2) 3 ltac:(lia)). pose proof (Z.mod_pos_bound (n * 2) 3 ltac:(lia)). lia.
Qed.


(** C27: The last irreversible block is the latest one that more than two thirds of the
    producers, counted by the record of what each last implied, hold for irreversible;
    it is never later than the proposed one; and it only moves back in the block
    after the one that promotes a new schedule. *)
Theorem lib_two_thirds hs s h skip s' : chain hs s -> next h skip s = Ok s' -> Forall regular ((s, h) :: hs) ->
  let irb := <[producer (hdr h) := dpos_proposed_irreversible_blocknum s]> (producer_to_last_implied_irb s) in
  (forall b, b <= dpos_irreversible_blocknum s' <-> (2 * size irb < 3 * support irb b)%nat) /\
  dpos_irreversible_blocknum s' <= dpos_proposed_irreversible_blocknum s' /\
  (dpos_irreversible_blocknum s' < dpos_irreversible_blocknum s -> exists s0 h0 hs0, hs = (s0, h0) :: hs0 /\ promotes s0 s).
Proof.
  intros C Hn Hr irb. pose proof (chain_block _ _ _ _ _ _ _ _ _ _ _ _ C Hn) as C'.
  pose proof (chain_lib _ _ _ _ _ _ _ _ _ C' Hr) as L'. pose proof (next_step _ _ _ _ _ _ _ _ Hn) as B. apply Forall_cons in Hr as [R Hr].
  pose proof (chain_lib _ _ _ _ _ _ _ _ _ C Hr) as L. split; [|split].
  - intros b. rewrite (bs_lib _ _ _ _ B). apply lib_spec, insert_non_empty.
  - apply (lo_lib _ _ L').
  - intros Hlt. inversion C as [E1 E2|hs0 s0 h0 skip0 s1 C0 Hn0 E1 E2]; subst.
    + pose proof (lo_lib _ _ L'). cbn in Hlt. lia.
    + exists s0, h0, hs0. split; [done|]. apply next_step in Hn0. apply dec_stable. intros Hnp.
      pose proof (lib_monotone _ _ _ _ _ _ _ L Hn0 B Hnp). lia.
Qed.
End claims.

(** ** Example chains *)

Definition pair_demo (p : digest * digest) : digest :=
  mkDigest ((word0 p.1 * 3 + word0 p.2 * 5 + word1 p.1) mod 2^64) ((word1 p.1 * 7 + word1 p.2 * 11 + word2 p.2) mod 2^64) (word2 p.1) 0.
Definition digest_demo (h : block_header) : digest := mkDigest (timestamp h * 2^32) (producer h) (confirmed h) (schedule_version h).
Definition hash_schedule_demo (s : producer_schedule_type) : digest := mkDigest (version s) 0 0 0.
Definition recover_demo (sig : Z) (d : digest) : Z := sig.
#[local] Abbreviation next_demo := (next pair_demo digest_demo hash_schedule_demo recover_demo).
#[local] Abbreviation genesis_demo := (genesis_header_state digest_demo hash_schedule_demo 7 12 digest0).
#[local] Abbreviation chain_demo := (chain pair_demo digest_demo hash_schedule_demo recover_demo 7 12 digest0).

(** The header a producer signs in a slot: it confirms what [range] says of the state
    and its own last block. *)
Definition propose (s : block_header_state) (slot range : Z) (np : option producer_schedule_type) : signed_block_header :=
  match get_scheduled_producer (active_schedule s) slot with
  | Ok k => mkSigned (mkHeader slot (producer_name k) range (bhs_id s) digest0 digest0 (version (active_schedule s)) np []) (block_signing_key k)
  | Err _ => mkSigned header0 0
  end.

(** As many blocks as can be confirmed honestly. *)
Definition honest (s : block_header_state) (slot : Z) : Z :=
  match get_scheduled_producer (active_schedule s) slot with
  | Ok k => block_num s - default (block_num s) (producer_to_last_produced s !! producer_name k)
  | Err _ => 0
  end.

Fixpoint run (l : list (Z * option Z * option producer_schedule_type)) (hs : list entry) (s : block_header_state) : res (list entry * block_header_state) :=
  match l with
  | [] => Ok (hs, s)
  | (slot, range, np) :: l' =>
      let h := propose s slot (default (honest s slot) range) np in
      s' ← next_demo h false s;
      run l' ((s, h) :: hs) s'
  end.

Lemma run_chain l : forall hs s hs' s', chain_demo hs s -> run l hs s = Ok (hs', s') -> chain_demo hs' s'.
Proof.
  induction l as [|[[slot range] np] l IH]; intros hs s hs' s' C H; cbn in H; [by injection H as <- <-|].
  apply res_bind_ok in H as (s1 & Hn & H). eapply IH; [|exact H]. by eapply chain_block.
Qed.

Definition keys (v : Z) (l : list string) : producer_schedule_type := mkSchedule v (map (fun n => mkProducerKey (N n) (N n)) l).

(** Three blocks by eosio; four producers take over from the third one on. *)
Definition demo_start : list (Z * option Z * option producer_schedule_type) :=
  [(13, None, None); (14, None, Some (keys 1 ["a"; "b"; "c"; "d"])); (15, None, None)].
Definition turns (l : list Z) : list (Z * option Z * option producer_schedule_type) := map (fun slot => (slot, None, None)) l.

Definition regularb (e : entry) : bool :=
  (num e <? 2^32) && (0 <=? confirmed (hdr e.2)) && (confirmed (hdr e.2) <=? num e) &&
  (Z.of_nat (length (producers (active_schedule e.1))) <=? max_producers).

Lemma regularb_ok hs : forallb regularb hs = true -> Forall regular hs.
Proof.
  rewrite forallb_forall, Forall_forall. intros H e He%list_elem_of_In. specialize (H e He). unfold regularb in H. split; lia.
Qed.

Definition run_demo (l : list (Z * option Z * option producer_schedule_type)) : list entry * block_header_state :=
  ok_or ([], genesis_demo) (run l [] genesis_demo).

Definition run_okb (l : list (Z * option Z * option producer_schedule_type)) : bool := match run l [] genesis_demo with Ok _ => true | Err _ => false end.

Lemma run_demo_chain l : run_okb l = true -> chain_demo (run_demo l).1 (run_demo l).2.
Proof.
  unfold run_okb, run_demo. destruct (run l [] genesis_demo) as [[hs s]|e] eqn:E; [|done]. intros _.
  eapply run_chain; [apply chain_genesis|exact E].
Qed.

(** Two rounds of four producers; block 10 is the latest that three of them confirmed. *)
Definition rounds_demo := demo_start ++ turns [48; 60; 72; 84; 96; 108; 120; 132].

Lemma dpos_quorum_witness :
  let hs := (run_demo rounds_demo).1 in let s := (run_demo rounds_demo).2 in
  chain_demo hs s /\ dpos_proposed_irreversible_blocknum s = 10 /\ confirmers 10 hs = [N "d"; N "c"; N "b"] /\
  NoDup (confirmers 10 hs) /\
  exists e, e ∈ hs /\ num e = 10 /\ 2 * Z.of_nat (length (producers (active_schedule e.1))) < 3 * Z.of_nat (length (confirmers (num e) hs)).
Proof.
  cbv zeta. pose proof (run_demo_chain rounds_demo ltac:(vm_compute; reflexivity)) as C.
  assert (E : dpos_proposed_irreversible_blocknum (run_demo rounds_demo).2 = 10) by (vm_compute; reflexivity).
  destruct (dpos_quorum _ _ _ _ _ _ _ _ _ C) as (H1 & _ & _ & H2); [apply regularb_ok; vm_compute; reflexivity|].
  split; [exact C|]. split; [exact E|]. split; [vm_compute; reflexivity|]. split; [apply H1|]. rewrite E in H2. apply H2. discriminate.
Defined.



Lemma lib_two_thirds_witness :
  let r := run_demo rounds_demo in let h := propose r.2 144 (honest r.2 144) None in
  exists s', next_demo h false r.2 = Ok s' /\ dpos_irreversible_blocknum s' = 8 /\
    (2 * size (<[producer (hdr h) := 10%Z]> (producer_to_last_implied_irb r.2)) <
     3 * support (<[producer (hdr h) := 10%Z]> (producer_to_last_implied_irb r.2)) 8)%nat.
Proof.
  cbv zeta. pose proof (run_demo_chain rounds_demo ltac:(vm_compute; reflexivity)) as C.
  set (h := propose _ _ _ _). destruct (next_demo h false (run_demo rounds_demo).2) as [s'|e] eqn:En.
  - exists s'. split; [reflexivity|]. assert (E : dpos_irreversible_blocknum (ok_or header_state0 (next_demo h false (run_demo rounds_demo).2)) = 8)
      by (vm_compute; reflexivity). rewrite En in E. change (dpos_irreversible_blocknum s' = 8) in E. split; [exact E|].
    destruct (lib_two_thirds _ _ _ _ _ _ _ _ _ _ _ _ C En) as (H & _ & _); [apply regularb_ok; vm_compute; reflexivity|].
    apply (H 8). rewrite E. apply Z.le_refl.
  - exfalso. revert En. vm_compute. discriminate.
Defined.

(** The last irreversible block can move back when the schedule changes.  Producer a
    misses its slots under a schedule of four, while the others make block 11
    irreversible; the next schedule keeps a and replaces the others by e.  The first
    block of e has block 3 as its last irreversible block, because the record of a
    counts for half of the producers. *)
Theorem lib_moves_back : exists hs s h s', chain_demo hs s /\ Forall regular ((s, h) :: hs) /\ next_demo h false s = Ok s' /\
  dpos_irreversible_blocknum s = 11 /\ dpos_irreversible_blocknum s' = 3.
Proof.
  set (l := demo_start ++ turns [60; 72; 84; 108; 120; 132] ++ [(156, None, Some (keys 2 ["a"; "e"]))] ++ turns [168; 180; 204; 216; 228]).
  set (s := (run_demo l).2). set (h := propose s 252 (honest s 252) None).
  exists (run_demo l).1, s, h, (ok_or header_state0 (next_demo h false s)).
  split; [apply run_demo_chain; vm_compute; reflexivity|]. split; [apply regularb_ok; vm_compute; reflexivity|].
  split; [|split; vm_compute; reflexivity]. assert (E : match next_demo h false s with Ok _ => true | Err _ => false end = true) by (vm_compute; reflexivity).
  destruct (next_demo h false s); [reflexivity|discriminate].
Qed.

(** The check against confirming a range twice can be evaded in the first 65535
    blocks.  A block that claims to confirm more blocks than there are makes the start of
    its range wrap around to a huge number, which the check accepts.  Here one
    producer out of four makes block 5 proposed as irreversible by itself, with three
    blocks in a row. *)
Theorem confirm_range_wraps : exists hs s, chain_demo hs s /\ dpos_proposed_irreversible_blocknum s = 5 /\
  confirmers 5 hs = [N "a"; N "a"; N "a"] /\ length (producers (active_schedule s)) = 4%nat.
Proof.
  set (l := demo_start ++ [(48, Some 100, None); (49, Some 100, None); (50, Some 100, None)]).
  exists (run_demo l).1, (run_demo l).2. split; [apply run_demo_chain; vm_compute; reflexivity|]. repeat split; vm_compute; reflexivity.
Qed.

Lemma header_commits_witness :
  let hs := (run_demo rounds_demo).1 in let s := (run_demo rounds_demo).2 in
  (forall e, e ∈ hs -> timestamp (hdr (header e.1)) < timestamp (hdr e.2)) /\
  block_num s = 12 /\ num_from_id (bhs_id s) = 12 /\ length (ids hs) = 11%nat /\ Some (get_root (blockroot_merkle s)) = merkle pair_demo (ids hs).
Proof.
  cbv zeta. pose proof (run_demo_chain rounds_demo ltac:(vm_compute; reflexivity)) as C.
  destruct (header_commits _ _ _ _ _ _ _ _ _ C) as (H1 & H2 & _ & H4 & H5); [apply regularb_ok; vm_compute; reflexivity|].
  split; [intros e He; apply (H4 e He)|].
  split; [vm_compute; reflexivity|]. split; [rewrite H2; vm_compute; reflexivity|]. split; [vm_compute; reflexivity|].
  apply H5. vm_compute. discriminate.
Defined.
