(* ===== verification/ForkDb.v ===== *)
(** * The fork database and the switch of forks

    libraries/chain/fork_database.cpp: the blocks above the last irreversible one, the
    choice of the head, the branches between two blocks, the removal of invalid
    blocks and of those that can no longer win.  libraries/chain/controller.cpp:
    [maybe_switch_forks], which moves the applied state from one fork to another.

    The index is a map by id and the code's shared pointers are ids: what a block holds
    is what the index has for its id.  The orders by last irreversible block and by
    number leave the order of equal elements to the past of a boost container; they
    are the parameters [by_lib] and [by_num], and the theorems use no more than that
    they list the blocks sorted. *)

From S2P Require Import Prelude Names Chain Merkle HeaderState.
#[local] Open Scope Z_scope.

#[export] Instance digest_countable : Countable digest :=
  inj_countable' (fun d => (word0 d, word1 d, word2 d, word3 d)) (fun '(a, b, c, e) => mkDigest a b c e) ltac:(by intros []).

Record block_state := mkBlockState { bs : block_header_state; validated : bool; in_current_chain : bool }.
#[export] Instance eta_block_state : Eta block_state := fun b => mkBlockState (bs b) (validated b) (in_current_chain b).

Definition bid (b : block_state) : digest := bhs_id (bs b).
Definition bnum (b : block_state) : Z := block_num (bs b).
Definition prev (b : block_state) : digest := previous (hdr (header (bs b))).

Record fork_database := mkForkDb {
  findex : gmap digest block_state;
  fhead : option digest;
  irreversible : list block_state              (* the signals sent, the oldest first *)
}.
#[export] Instance eta_fork_database : Eta fork_database := fun d => mkForkDb (findex d) (fhead d) (irreversible d).

Definition fork_init : fork_database := mkForkDb ∅ None [].

Definition blocks (idx : gmap digest block_state) : list block_state := map snd (map_to_list idx).

(** by_lib_block_num: [before_lib b c] when [b] precedes [c]. *)
Definition before_lib (b c : block_state) : bool :=
  let '(d, e) := (bs b, bs c) in
  (dpos_irreversible_blocknum e <? dpos_irreversible_blocknum d) ||
  ((dpos_irreversible_blocknum e =? dpos_irreversible_blocknum d) &&
   ((bft_irreversible_blocknum e <? bft_irreversible_blocknum d) ||
    ((bft_irreversible_blocknum e =? bft_irreversible_blocknum d) && (block_num e <? block_num d)))).

(** by_block_num: by number, the blocks of the current chain first. *)
Definition before_num (b c : block_state) : bool :=
  (bnum b <? bnum c) || ((bnum b =? bnum c) && in_current_chain b && negb (in_current_chain c)).

(** An order lists the elements, none after one that it precedes. *)
Record lawful_order (before : block_state -> block_state -> bool) (order : list block_state -> list block_state) : Prop := {
  lo_perm l : Permutation (order l) l;
  lo_sorted l : StronglySorted (fun b c => before c b = false) (order l)
}.

Section forkdb.
Context (hash : digest * digest -> digest) (header_digest : block_header -> digest) (schedule_hash : producer_schedule_type -> digest).
Context (recover : Z -> digest -> Z).
Context (by_lib by_num : list block_state -> list block_state).

Definition get_block (id : digest) (d : fork_database) : option block_state := findex d !! id.

(** Dereferencing a pointer that may be null, or the first element of an index. *)
Definition deref {A} (o : option A) (msg : string) : res A := match o with Some a => Ok a | None => Err (ChainError msg) end.

(** What a pointer to a block shows: the block of the index, or the object that was
    removed from it. *)
Definition now (d : fork_database) (h : block_state) : block_state := default h (findex d !! bid h).

(** The block is inserted before the checks. *)
Definition set_ (s : block_state) (d : fork_database) : res unit * fork_database :=
  let inserted := bool_decide (findex d !! bid s = None) in
  let d := if inserted then d <| findex := <[bid s := s]> (findex d) |> else d in
  if negb (bool_decide (bid s = header_id header_digest (hdr (header (bs s))))) then (Err (ChainError "block state id is different from block state header id"), d)
  else if negb inserted then (Err (ChainError "unable to insert block state, duplicate state detected"), d)
  else match fhead d with
       | None => (Ok tt, d <| fhead := Some (bid s) |>)
       | Some h =>
           match findex d !! h with
           | Some hb => (Ok tt, if bnum hb <? bnum s then d <| fhead := Some (bid s) |> else d)
           | None => (Err (ChainError "head"), d)
           end
       end.

(** ** Removal *)

Definition children (idx : gmap digest block_state) (id : digest) : list digest :=
  map bid (filter (fun b => prev b = id) (blocks idx)).

(** The loop over [remove_queue]; [None] when the fuel runs out. *)
Fixpoint remove_loop (fuel : nat) (queue : list digest) (idx : gmap digest block_state) : option (gmap digest block_state) :=
  match queue with
  | [] => Some idx
  | id :: queue' =>
      match fuel with
      | O => None
      | S fuel' => let idx := delete id idx in remove_loop fuel' (queue' ++ children idx id) idx
      end
  end.

Definition remove (id : digest) (d : fork_database) : res fork_database :=
  idx ← deref (remove_loop (S (size (findex d))) [id] (findex d)) "fuel";
  h ← deref (hd_error (by_lib (blocks idx))) "the fork database is empty";
  Ok (d <| findex := idx |> <| fhead := Some (bid h) |>).

(** The blocks of number [num] in their order, [nitr] on: the iterator is advanced before
    the block is removed, and must not be read when that removed its block too. *)
Fixpoint remove_level (fuel : nat) (num : Z) (nitr : list block_state) (d : fork_database) : res fork_database :=
  match nitr with
  | [] => Ok d
  | b :: rest =>
      if negb (bnum b =? num) then Ok d
      else match fuel with
           | O => Err (ChainError "fuel")
           | S fuel' =>
               d ← remove (bid b) d;
               match rest with
               | [] => Ok d
               | n :: _ =>
                   _ ← deref (findex d !! bid n) "erased iterator";
                   remove_level fuel' num (filter (fun c => is_Some (findex d !! bid c)) rest) d
               end
           end
  end.

(** [prune] after its loop: the block is irreversible, the others of its number go
    with what builds on them. *)
Definition prune_level (h : block_state) (d : fork_database) : res fork_database :=
  let d := match findex d !! bid h with
           | Some b => d <| irreversible := irreversible d ++ [b] |> <| findex := delete (bid h) (findex d) |>
           | None => d
           end in
  remove_level (size (findex d)) (bnum h) (filter (fun b => (bnum h <= bnum b)%Z) (by_num (blocks (findex d)))) d.

(** The loop over older blocks, each of which is pruned by the recursion. *)
Fixpoint prune_below (self : block_state -> fork_database -> res fork_database) (n : nat) (num : Z) (d : fork_database) : res fork_database :=
  match n with
  | O => Err (ChainError "fuel")
  | S n' =>
      match hd_error (by_num (blocks (findex d))) with
      | Some b => if bnum b <? num then d ← self b d; prune_below self n' num d else Ok d
      | None => Ok d
      end
  end.

Fixpoint prune (fuel : nat) (h : block_state) (d : fork_database) : res fork_database :=
  match fuel with
  | O => Err (ChainError "fuel")
  | S fuel' => d ← prune_below (prune fuel') (S (size (findex d))) (bnum h) d; prune_level h d
  end.

(** ** Adding blocks *)

Definition add_state (n : block_state) (skip_validate_previous : bool) (d : fork_database) : res fork_database :=
  _ ← deref (fhead d) "no head block set";
  _ ← (if skip_validate_previous then Ok tt
       else hs_assert (bool_decide (is_Some (findex d !! prev n))) "unlinkable block");
  _ ← hs_assert (bool_decide (findex d !! bid n = None)) "duplicate block added?";
  let idx := <[bid n := n]> (findex d) in
  h ← deref (hd_error (by_lib (blocks idx))) "empty";
  let d := d <| findex := idx |> <| fhead := Some (bid h) |> in
  o ← deref (hd_error (by_num (blocks idx))) "empty";
  if bnum o <? dpos_irreversible_blocknum (bs h) then prune (S (size idx)) o d else Ok d.

Definition add_block (b : signed_block_header) (skip_validate_signee : bool) (d : fork_database) : res fork_database :=
  _ ← deref (fhead d) "no head block set";
  _ ← hs_assert (bool_decide (findex d !! header_id header_digest (hdr b) = None)) "we already know about this block";
  prior ← deref (findex d !! previous (hdr b)) "unlinkable block";
  s ← next hash header_digest schedule_hash recover b skip_validate_signee (bs prior);
  add_state (mkBlockState s false false) true d.

(** ** Branches *)

(** The loops that take the higher block down to the number of the other one. *)
Fixpoint descend (fuel : nat) (d : fork_database) (b : block_state) (num : Z) (acc : list block_state) : res (list block_state * block_state) :=
  if bnum b <=? num then Ok (acc, b)
  else match fuel with
       | O => Err (ChainError "fuel")
       | S fuel' => p ← deref (findex d !! prev b) "block does not exist"; descend fuel' d p num (acc ++ [b])
       end.

Fixpoint descend_both (fuel : nat) (d : fork_database) (b c : block_state) (acc1 acc2 : list block_state) :
    res (list block_state * list block_state) :=
  if bool_decide (prev b = prev c) then Ok (acc1 ++ [b], acc2 ++ [c])
  else match fuel with
       | O => Err (ChainError "fuel")
       | S fuel' =>
           p ← deref (findex d !! prev b) "block does not exist";
           q ← deref (findex d !! prev c) "block does not exist";
           descend_both fuel' d p q (acc1 ++ [b]) (acc2 ++ [c])
       end.

(** A parent has the number before: the number of a block bounds the way down. *)
Definition fetch_branch_from (first second : digest) (d : fork_database) : res (list block_state * list block_state) :=
  b ← deref (findex d !! first) "null";
  c ← deref (findex d !! second) "null";
  '(acc1, b) ← descend (Z.to_nat (bnum b)) d b (bnum c) [];
  '(acc2, c) ← descend (Z.to_nat (bnum c)) d c (bnum b) [];
  descend_both (Z.to_nat (bnum b)) d b c acc1 acc2.

(** ** Marks and confirmations *)

Definition set_validity (h : block_state) (valid : bool) (d : fork_database) : res fork_database :=
  if valid then Ok (d <| findex := alter (fun b => b <| validated := true |>) (bid h) (findex d) |>) else remove (bid h) d.

Definition mark_in_current_chain (h : block_state) (in_chain : bool) (d : fork_database) : res fork_database :=
  if Bool.eqb (in_current_chain (now d h)) in_chain then Ok d
  else _ ← deref (findex d !! bid h) "could not find block in fork database";
       Ok (d <| findex := alter (fun b => b <| in_current_chain := in_chain |>) (bid h) (findex d) |>).

Definition get_block_in_current_chain_by_num (n : Z) (d : fork_database) : option block_state :=
  match hd_error (filter (fun b => (n <= bnum b)%Z) (by_num (blocks (findex d)))) with
  | Some b => if (bnum b =? n) && in_current_chain b then Some b else None
  | None => None
  end.

Definition set_bft (num : Z) (b : block_state) : block_state := b <| bs := (bs b) <| bft_irreversible_blocknum := num |> |>.

(** The children of one block that still have a lower number. *)
Fixpoint bft_children (num : Z) (ids : list digest) (idx : gmap digest block_state) (updated : list digest) : gmap digest block_state * list digest :=
  match ids with
  | [] => (idx, updated)
  | i :: ids' =>
      match idx !! i with
      | Some b =>
          if bft_irreversible_blocknum (bs b) <? num then bft_children num ids' (<[i := set_bft num b]> idx) (updated ++ [i])
          else bft_children num ids' idx updated
      | None => bft_children num ids' idx updated
      end
  end.

(** One layer: the lambda [update]. *)
Fixpoint bft_layer (num : Z) (layer : list digest) (idx : gmap digest block_state) (updated : list digest) : gmap digest block_state * list digest :=
  match layer with
  | [] => (idx, updated)
  | i :: layer' => let '(idx, updated) := bft_children num (children idx i) idx updated in bft_layer num layer' idx updated
  end.

Fixpoint bft_loop (fuel : nat) (num : Z) (queue : list digest) (idx : gmap digest block_state) : option (gmap digest block_state) :=
  match queue with
  | [] => Some idx
  | _ => match fuel with
         | O => None
         | S fuel' => let '(idx, updated) := bft_layer num queue idx [] in bft_loop fuel' num updated idx
         end
  end.

Definition set_bft_irreversible (id : digest) (d : fork_database) : res fork_database :=
  b ← deref (findex d !! id) "null";
  idx ← deref (bft_loop (S (size (findex d))) (bnum b) [id] (<[id := set_bft (bnum b) b]> (findex d))) "fuel";
  Ok (d <| findex := idx |>).

Definition add_header_confirmation (c : header_confirmation) (d : fork_database) : res fork_database :=
  b ← deref (findex d !! conf_block_id c) "unable to find block id";
  s ← add_confirmation hash header_digest recover c (bs b);
  let d := d <| findex := <[conf_block_id c := b <| bs := s |>]> (findex d) |> in
  if (bft_irreversible_blocknum s <? block_num s) &&
     (length (producers (active_schedule s)) * 2 / 3 + 1 <=? length (confirmations s))%nat
  then set_bft_irreversible (conf_block_id c) d else Ok d.

(** ** Stopping *)

(** The second part of [close]; the file it writes first is in ForkStore.v. *)
Definition close (d : fork_database) : res fork_database :=
  if bool_decide (size (findex d) = 0%nat) then Ok d
  else h ← deref (fhead d ≫= fun h => findex d !! h) "head";
       o ← deref (hd_error (by_num (blocks (findex d)))) "empty";
       d ← (if bnum o <=? dpos_irreversible_blocknum (bs h) then prune (S (size (findex d))) o d else Ok d);
       Ok (d <| findex := ∅ |>).
End forkdb.
