(* ===== verification/ForkTree.v ===== *)
(** * The fork database is a tree

    The invariant of fork_database.cpp: the blocks of the index form a tree that hangs
    from one block outside of it, with consecutive numbers.  What [remove] deletes,
    what [add] prunes, and that [fetch_branch_from] returns and what it returns. *)

From stdpp Require Import sorting.
From S2P Require Import Prelude Names Chain Merkle HeaderState Dpos ForkDb.
#[local] Open Scope Z_scope.

(** ** The index *)

Definition keyed (idx : gmap digest block_state) : Prop := forall id b, idx !! id = Some b -> bid b = id.

Lemma blocks_elem idx b : b ∈ blocks idx <-> exists id, idx !! id = Some b.
Proof.
  unfold blocks. rewrite list_elem_of_fmap. split.
  - intros ([id c] & -> & H%elem_of_map_to_list). by exists id.
  - intros [id H%elem_of_map_to_list]. by exists (id, b).
Qed.

Lemma children_elem idx id x : keyed idx -> x ∈ children idx id <-> exists b, idx !! x = Some b /\ prev b = id.
Proof.
  intros K. unfold children. rewrite list_elem_of_fmap. split.
  - intros (b & -> & [Hp [y Hy]%blocks_elem]%list_elem_of_filter). exists b. by rewrite (K _ _ Hy).
  - intros (b & Hb & <-). exists b. split; [by rewrite (K _ _ Hb)|]. apply list_elem_of_filter. split; [done|]. apply blocks_elem. by exists x.
Qed.

Lemma keyed_ids idx : keyed idx -> map bid (blocks idx) = map fst (map_to_list idx).
Proof.
  intros K. unfold blocks. rewrite map_map. apply map_ext_in. intros [id b] H%list_elem_of_In%elem_of_map_to_list. exact (K _ _ H).
Qed.

Lemma NoDup_filter_map {A B} (f : A -> B) (P : A -> Prop) `{forall x, Decision (P x)} l : NoDup (map f l) -> NoDup (map f (filter P l)).
Proof.
  induction l as [|a l IH]; [done|]. intros [Ha Hl]%NoDup_cons. rewrite filter_cons. case_decide; [|by apply IH].
  apply NoDup_cons. split; [|by apply IH]. intros (x & Hx & [_ Hin]%list_elem_of_filter)%list_elem_of_fmap.
  apply Ha, list_elem_of_fmap. by exists x.
Qed.

Lemma children_NoDup idx id : keyed idx -> NoDup (children idx id).
Proof. intros K. apply NoDup_filter_map. rewrite keyed_ids by done. apply NoDup_fst_map_to_list. Qed.

Lemma keyed_delete idx id : keyed idx -> keyed (delete id idx).
Proof. intros K x b [_ H]%lookup_delete_Some. exact (K _ _ H). Qed.

(** ** Removal *)

(** [x] is [root], or a block of the index above it. *)
Inductive builds_on (idx : gmap digest block_state) (root : digest) : digest -> Prop :=
| builds_self : builds_on idx root root
| builds_next x b : builds_on idx root (prev b) -> idx !! x = Some b -> builds_on idx root x.

Section removal.
Context (idx0 : gmap digest block_state) (root : digest) (K : keyed idx0).

(** [done] was processed, [queue] is to be: the blocks right above [done] are queued. *)
Record removing (processed : gset digest) (queue : list digest) (idx : gmap digest block_state) : Prop := {
  rm_idx x : idx !! x = if decide (x ∈ processed) then None else idx0 !! x;
  rm_nodup : NoDup queue;
  rm_fresh q : q ∈ queue -> q ∉ processed;
  rm_next x b : idx !! x = Some b -> prev b ∈ processed -> x ∈ queue;
  rm_queued q : q ∈ queue -> processed = ∅ \/ exists b, idx !! q = Some b /\ prev b ∈ processed;
  rm_sound x : x ∈ processed \/ x ∈ queue -> builds_on idx0 root x;
  rm_root : root ∈ processed \/ root ∈ queue
}.

Lemma removing_keyed processed queue idx : removing processed queue idx -> keyed idx.
Proof. intros R x b. rewrite (rm_idx _ _ _ R). case_decide; [done|apply K]. Qed.

Lemma next_children processed id queue idx x : removing processed (id :: queue) idx ->
  x ∈ children (delete id idx) id <-> x <> id /\ exists b, idx !! x = Some b /\ prev b = id.
Proof.
  intros R. rewrite children_elem by apply keyed_delete, (removing_keyed _ _ _ R).
  setoid_rewrite lookup_delete_Some. naive_solver.
Qed.

Lemma removing_step processed id queue idx : removing processed (id :: queue) idx -> (processed = ∅ -> queue = []) ->
  removing ({[id]} ∪ processed) (queue ++ children (delete id idx) id) (delete id idx).
Proof.
  intros R Hfirst. pose proof (fun x => next_children _ _ _ _ x R) as Hc. pose proof (removing_keyed _ _ _ R) as K1.
  destruct R as [Hi [Hn1 Hn2]%NoDup_cons Hf Hx Hq Hs Hr].
  pose proof (Hf id ltac:(left)) as Hid.
  assert (Hq' : forall q, q ∈ queue -> exists b, idx !! q = Some b /\ prev b ∈ processed).
  { intros q Hin. destruct (Hq q ltac:(by right)) as [E|?]; [|done]. rewrite (Hfirst E) in Hin. by apply elem_of_nil in Hin. }
  split.
  - intros x. rewrite lookup_delete, Hi. destruct (decide (id = x)) as [<-|Hne]; [by rewrite decide_True by set_solver|].
    destruct (decide (x ∈ processed)); [by rewrite decide_True by set_solver|by rewrite decide_False by set_solver].
  - apply NoDup_app. split; [done|]. split; [|by apply children_NoDup, keyed_delete].
    intros x Hxq (Hne & b & Hb & Hp)%Hc. destruct (Hq' x Hxq) as (c & Hc' & Hp'). rewrite Hb in Hc'. injection Hc' as <-. by rewrite Hp in Hp'.
  - intros q [Hin|(Hne & b & Hb & Hp)%Hc]%elem_of_app [->%elem_of_singleton|Hbad]%elem_of_union; [done| |done|].
    + by eapply Hf; [right|].
    + rewrite Hi, decide_True in Hb by done. done.
  - intros x b [Hne Hb]%lookup_delete_Some [Hp%elem_of_singleton|Hp]%elem_of_union; apply elem_of_app.
    + right. apply Hc. split; [done|]. by exists b.
    + left. pose proof (Hx x b Hb Hp) as [?|?]%elem_of_cons; [by subst|done].
  - intros q [Hin|(Hne & b & Hb & Hp)%Hc]%elem_of_app; right.
    + destruct (Hq' q Hin) as (c & Hc' & Hp'). exists c. rewrite lookup_delete_ne by (intros ->; done). split; [done|]. by apply elem_of_union; right.
    + exists b. rewrite lookup_delete_ne by done. split; [done|]. by apply elem_of_union; left; apply elem_of_singleton.
  - intros x [[->%elem_of_singleton|Hp]%elem_of_union|[Hin|(Hne & b & Hb & Hp)%Hc]%elem_of_app]; [apply Hs; by right; left|apply Hs; by left|apply Hs; by right; right|].
    apply builds_next with b; [rewrite Hp; apply Hs; by right; left|]. rewrite Hi in Hb. by case_decide.
  - rewrite elem_of_union, elem_of_singleton, elem_of_app. rewrite elem_of_cons in Hr. tauto.
Qed.

Lemma remove_loop_spec fuel : forall processed queue idx, removing processed queue idx -> (processed = ∅ -> queue = [root]) ->
  (size (dom idx ∪ list_to_set queue : gset digest) <= fuel)%nat ->
  exists idx', remove_loop fuel queue idx = Some idx' /\ forall x b, idx' !! x = Some b <-> idx0 !! x = Some b /\ ~ builds_on idx0 root x.
Proof.
  assert (Hend : forall processed idx, removing processed [] idx -> forall x b, idx !! x = Some b <-> idx0 !! x = Some b /\ ~ builds_on idx0 root x).
  { intros processed idx [Hi _ _ Hx _ Hs Hr] x b. assert (Hb : forall y, builds_on idx0 root y -> y ∈ processed).
    { intros y. induction 1 as [|y c Hy IHy Hc]; [by destruct Hr as [|?%elem_of_nil]|]. destruct (decide (y ∈ processed)); [done|].
      assert (Hyc : idx !! y = Some c) by (rewrite Hi, decide_False; done). by apply (Hx y c Hyc), elem_of_nil in IHy. }
    rewrite Hi. case_decide as Hd; split; [done| | |]; try naive_solver. }
  induction fuel as [|fuel IH]; intros processed [|id queue] idx R H1 Hfuel; cbn [remove_loop].
  - exists idx. split; [done|]. by eapply Hend.
  - exfalso. assert (id ∈ (dom idx ∪ list_to_set (id :: queue) : gset digest)) by set_solver.
    assert (size (dom idx ∪ list_to_set (id :: queue) : gset digest) = 0%nat) as He%size_empty_inv by lia. set_solver.
  - exists idx. split; [done|]. by eapply Hend.
  - apply IH with ({[id]} ∪ processed).
    + apply removing_step; [done|]. intros E. by specialize (H1 E) as [= _ ->].
    + intros E. exfalso. assert (Hbad : id ∈ (∅ : gset digest)) by (rewrite <- E; by apply elem_of_union; left; apply elem_of_singleton). by apply elem_of_empty in Hbad.
    + pose proof (rm_nodup _ _ _ R) as Hn.
      assert (Hsub : dom (delete id idx) ∪ list_to_set (queue ++ children (delete id idx) id) ⊂@{gset digest} dom idx ∪ list_to_set (id :: queue)).
      { pose proof (fun x => next_children _ _ _ _ x R) as Hc. apply NoDup_cons in Hn as [Hn _]. split.
        - intros x. rewrite !elem_of_union, !elem_of_list_to_set, elem_of_app, elem_of_cons, !elem_of_dom, Hc.
          intros [[b [_ Hb]%lookup_delete_Some]|[?|(_ & b & Hb & _)]]; [by left; exists b|by right; right|by left; exists b].
        - intros Hsub. specialize (Hsub id). rewrite !elem_of_union, !elem_of_list_to_set, elem_of_app, elem_of_cons, !elem_of_dom, Hc in Hsub.
          destruct Hsub as [[b Hb]|[?|[? _]]]; [by right; left|by rewrite lookup_delete_eq in Hb|done|done]. }
      apply subset_size in Hsub. lia.
Qed.
End removal.

(** [remove] deletes the block and all that builds on it, and takes the head anew. *)
Lemma remove_idx idx id : keyed idx ->
  exists idx', remove_loop (S (size idx)) [id] idx = Some idx' /\ forall x b, idx' !! x = Some b <-> idx !! x = Some b /\ ~ builds_on idx id x.
Proof.
  intros K. apply (remove_loop_spec idx id K) with (processed := ∅); [|done|].
  - split; [done|apply NoDup_singleton|by intros ? _ ?%elem_of_empty|by intros x b _ ?%elem_of_empty|by left| |by right; left].
    intros x [?%elem_of_empty| ->%list_elem_of_singleton]; [done|constructor].
  - rewrite size_union_alt, list_to_set_singleton, size_dom. etrans; [apply Nat.add_le_mono_l, subseteq_size, subseteq_difference_l; reflexivity|].
    rewrite size_singleton. lia.
Qed.

(** ** Header states in the index *)

Section trees.
Context (hash : digest * digest -> digest) (header_digest : block_header -> digest) (schedule_hash : producer_schedule_type -> digest).
Context (recover : Z -> digest -> Z).
#[local] Abbreviation next := (next hash header_digest schedule_hash recover).

(** What the fork database needs of a header state: the id is that of the header and carries
    the number, and nothing above the block counts as irreversible. *)
Record formed (s : block_header_state) : Prop := {
  fo_id : bhs_id s = header_id header_digest (hdr (header s));
  fo_num : block_num s = header_block_num (hdr (header s));
  fo_pos : 0 < block_num s < 2^32 - 1;
  fo_prop : 0 <= dpos_proposed_irreversible_blocknum s <= block_num s - Z.of_nat (length (confirm_count s));
  fo_irb p v : producer_to_last_implied_irb s !! p = Some v -> 0 <= v <= dpos_proposed_irreversible_blocknum s;
  fo_lib : 0 <= dpos_irreversible_blocknum s <= dpos_proposed_irreversible_blocknum s
}.

Lemma confirm_run_bound i : forall blocks bn prop cc p' cc', confirm_run i blocks bn prop cc = (p', cc') -> (i <= length cc)%nat ->
  0 <= prop <= bn - Z.of_nat (length cc) -> bn < 2^32 -> prop <= p' <= bn - Z.of_nat (length cc').
Proof.
  induction i as [|i IH]; intros blocks bn prop cc p' cc' H Hi Hp Hb; cbn [confirm_run] in H; [injection H as <- <-; lia|].
  destruct (blocks =? 0); [injection H as <- <-; lia|]. cbv zeta in H. destruct (_ =? 0).
  - injection H as <- <-. rewrite length_drop, !length_insert. unfold u32. rewrite Z.mod_small; lia.
  - apply IH in H; rewrite ?length_insert in *; lia.
Qed.

Lemma formed_next h skip s s' : formed s -> next h skip s = Ok s' -> block_num s + 1 < 2^32 - 1 -> formed s' /\ block_num s' = block_num s + 1.
Proof.
  intros [F1 F2 F3 F4 F5 F6] Hn Hlt. pose proof (next_step _ _ _ _ _ _ _ _ Hn) as B. apply next_header in Hn as [Hp Hid].
  assert (En : block_num s' = block_num s + 1) by (rewrite (bs_num _ _ _ _ B); apply Z.mod_small; lia).
  pose proof (bs_counts _ _ _ _ B) as Hc. cbv zeta in Hc. set (cc := grow_confirms _ _) in Hc.
  assert (Hcc : Z.of_nat (length cc) <= Z.of_nat (length (confirm_count s)) + 1).
  { subst cc. unfold grow_confirms. case_match; rewrite length_app, ?length_drop; cbn [length]; lia. }
  symmetry in Hc. apply confirm_run_bound in Hc; [|lia..].
  set (irb := <[producer (hdr h) := dpos_proposed_irreversible_blocknum s]> (producer_to_last_implied_irb s)).
  assert (Hv : forall p v, irb !! p = Some v -> 0 <= v <= dpos_proposed_irreversible_blocknum s).
  { intros p v. subst irb. rewrite lookup_insert. case_decide; [intros [= <-]; lia|apply F5]. }
  pose proof (lib_bound irb _ Hv ltac:(lia)) as Hl. subst irb. rewrite <- (bs_lib _ _ _ _ B) in Hl.
  split; [|done]. split; [done| |lia|lia| |lia].
  - unfold header_block_num. rewrite Hp, F1, id_carries_num, <- F2, En. symmetry. apply Z.mod_small. lia.
  - intros p v. destruct (bs_schedule _ _ _ _ B) as [(_ & _ & _ & _ & _ & Ei & _)|(_ & _ & _ & Ei & _)]; rewrite Ei; [|intros H%Hv; lia].
    rewrite renew_lookup. case_decide; [|done]. intros [= <-]. destruct (_ !! p) eqn:E; cbn; [apply Hv in E|]; lia.
Qed.

Lemma genesis_formed key time chain_id : formed (genesis_header_state header_digest schedule_hash key time chain_id).
Proof. split; cbn; try done; try lia. Qed.

(** ** The tree *)

(** The blocks hang from [base], which is outside of the index. *)
Record tree (base : digest) (idx : gmap digest block_state) : Prop := {
  tr_block id b : idx !! id = Some b -> bid b = id /\ formed (bs b);
  tr_base : idx !! base = None;
  tr_up id b : idx !! id = Some b -> prev b = base \/ is_Some (idx !! prev b)
}.

Definition fork_tree (d : fork_database) : Prop :=
  (exists base, tree base (findex d)) /\ exists h, fhead d = Some h /\ is_Some (findex d !! h).

(** The number of the lowest blocks. *)
Definition low (base : digest) : Z := u32 (num_from_id base + 1).

Section tree.
Context (base : digest) (idx : gmap digest block_state) (T : tree base idx).

Lemma tree_keyed : keyed idx.
Proof. intros id b H. apply (tr_block _ _ T id b H). Qed.

Lemma tree_prev_num id b : idx !! id = Some b -> bnum b = u32 (num_from_id (prev b) + 1) /\ 0 < bnum b < 2^32 - 1.
Proof. intros [_ F]%(tr_block _ _ T). split; [apply (fo_num _ F)|apply (fo_pos _ F)]. Qed.

Lemma tree_id_num id b : idx !! id = Some b -> num_from_id id = bnum b.
Proof.
  intros [<- F]%(tr_block _ _ T). unfold bid, bnum. rewrite (fo_id _ F), id_carries_num. symmetry. apply (fo_num _ F).
Qed.

Lemma parent_num id b p : idx !! id = Some b -> idx !! prev b = Some p -> bnum b = bnum p + 1.
Proof.
  intros Hb Hp. destruct (tree_prev_num _ _ Hb) as [E Hr]. destruct (tree_prev_num _ _ Hp) as [_ Hr']. rewrite (tree_id_num _ _ Hp) in E.
  unfold u32 in E. destruct (decide (bnum p + 1 = 2^32)) as [E1|]; [rewrite E1, Z_mod_same_full in E; lia|]. rewrite Z.mod_small in E; lia.
Qed.

Lemma low_le id b : idx !! id = Some b -> low base <= bnum b.
Proof.
  intros Hb. assert (H : forall n id b, (Z.to_nat (bnum b) <= n)%nat -> idx !! id = Some b -> low base <= bnum b); [|by eapply H].
  clear id b Hb. induction n as [|n IH]; intros id b Hn Hb; pose proof (tree_prev_num _ _ Hb) as [E Hr]; [lia|].
  destruct (tr_up _ _ T _ _ Hb) as [Eb|[p Hp]]; [unfold low; rewrite <- Eb; lia|].
  pose proof (parent_num _ _ _ Hb Hp). specialize (IH _ p ltac:(lia) Hp). lia.
Qed.

Lemma low_prev id b : idx !! id = Some b -> bnum b <= low base -> prev b = base.
Proof.
  intros Hb Hn. destruct (tr_up _ _ T _ _ Hb) as [?|[p Hp]]; [done|]. pose proof (parent_num _ _ _ Hb Hp). pose proof (low_le _ _ Hp). lia.
Qed.

Lemma above_parent id b : idx !! id = Some b -> low base < bnum b -> exists p, idx !! prev b = Some p /\ bnum b = bnum p + 1.
Proof.
  intros Hb Hn. destruct (tr_up _ _ T _ _ Hb) as [E|[p Hp]].
  - pose proof (tree_prev_num _ _ Hb) as [E' _]. rewrite E in E'. unfold low in Hn. lia.
  - exists p. split; [done|]. by eapply parent_num.
Qed.
End tree.

(** ** Branches *)

(** The blocks from [id] down, the last one built on [p]. *)
Inductive branch (idx : gmap digest block_state) : digest -> list block_state -> digest -> Prop :=
| branch_end p : branch idx p [] p
| branch_block id b l p : idx !! id = Some b -> branch idx (prev b) l p -> branch idx id (b :: l) p.

Lemma branch_app idx l1 : forall id l2 p q, branch idx id l1 p -> branch idx p l2 q -> branch idx id (l1 ++ l2) q.
Proof. induction l1 as [|b l1 IH]; intros id l2 p q H1 H2; inversion H1; subst; [done|]. eapply branch_block; [done|]. by eapply IH. Qed.

Section fetch.
Context (d : fork_database) (base : digest) (T : tree base (findex d)).
#[local] Abbreviation idx := (findex d).

Lemma tree_self id b : idx !! id = Some b -> idx !! bid b = Some b.
Proof. intros H. by rewrite (tree_keyed _ _ T _ _ H). Qed.

Lemma descend_spec fuel : forall b num acc, idx !! bid b = Some b -> low base <= num -> bnum b - num <= Z.of_nat fuel ->
  exists l b', descend fuel d b num acc = Ok (acc ++ l, b') /\ idx !! bid b' = Some b' /\ branch idx (bid b) l (bid b') /\
    bnum b' = Z.min (bnum b) num /\ forall x, x ∈ l -> num < bnum x <= bnum b.
Proof.
  induction fuel as [|fuel IH]; intros b num acc Hb Hl Hf; cbn [descend]; destruct (Z.leb_spec (bnum b) num); try lia.
  1, 2: exists [], b; rewrite app_nil_r; split; [done|]; split; [done|]; split; [constructor|]; split; [lia|by intros x ?%elem_of_nil].
  destruct (above_parent _ _ T _ _ Hb ltac:(lia)) as (p & Hp & Ep). rewrite Hp. cbn.
  pose proof (tree_keyed _ _ T _ _ Hp) as Ebp.
  destruct (IH p num (acc ++ [b]) (tree_self _ _ Hp) Hl ltac:(lia)) as (l & b' & E & Hb' & Br & Hm & Hx).
  exists (b :: l), b'. rewrite E, <- app_assoc. split; [done|]. split; [done|]. split; [eapply branch_block; [exact Hb|by rewrite <- Ebp]|].
  split; [lia|]. intros x [->|Hin]%elem_of_cons; [lia|]. apply Hx in Hin. lia.
Qed.

(** Two branches end where they first have a prior block in common. *)
Definition part_at_end (l1 l2 : list block_state) : Prop :=
  forall x y, x ∈ l1 -> y ∈ l2 -> prev x = prev y -> last l1 = Some x /\ last l2 = Some y.

Lemma same_prev_num id id' b c : idx !! id = Some b -> idx !! id' = Some c -> prev b = prev c -> bnum b = bnum c.
Proof. intros Hb Hc E. destruct (tree_prev_num _ _ T _ _ Hb) as [-> _]. destruct (tree_prev_num _ _ T _ _ Hc) as [-> _]. by rewrite E. Qed.

Lemma branch_in id l p x : branch idx id l p -> x ∈ l -> idx !! bid x = Some x.
Proof. induction 1 as [|id b l p Hb _ IH]; [by intros ?%elem_of_nil|]. intros [->|?]%elem_of_cons; [by eapply tree_self|by apply IH]. Qed.

Lemma last_cons_ne {A} (x : A) l : l <> [] -> last (x :: l) = last l.
Proof. by destruct l. Qed.

Lemma descend_both_spec fuel : forall b c acc1 acc2, idx !! bid b = Some b -> idx !! bid c = Some c -> bnum b = bnum c ->
  bnum b - low base <= Z.of_nat fuel ->
  exists l1 l2 p, descend_both fuel d b c acc1 acc2 = Ok (acc1 ++ l1, acc2 ++ l2) /\ l1 <> [] /\ l2 <> [] /\
    branch idx (bid b) l1 p /\ branch idx (bid c) l2 p /\ part_at_end l1 l2 /\ forall x, x ∈ l1 \/ x ∈ l2 -> bnum x <= bnum b.
Proof.
  induction fuel as [|fuel IH]; intros b c acc1 acc2 Hb Hc En Hf; cbn [descend_both]; destruct (bool_decide_reflect (prev b = prev c)) as [Ep|Ep].
  1, 3: exists [b], [c], (prev b); split; [done|]; do 2 (split; [done|]); split; [eapply branch_block; [done|constructor]|];
    split; [eapply branch_block; [done|rewrite Ep; constructor]|]; split;
    [intros x y ->%list_elem_of_singleton ->%list_elem_of_singleton _; done|intros x [->%list_elem_of_singleton| ->%list_elem_of_singleton]; lia].
  - destruct Ep. rewrite (low_prev _ _ T _ _ Hb ltac:(lia)), (low_prev _ _ T _ _ Hc ltac:(lia)). done.
  - assert (Hlow : low base < bnum b).
    { destruct (decide (low base < bnum b)); [done|]. destruct Ep. rewrite (low_prev _ _ T _ _ Hb ltac:(lia)), (low_prev _ _ T _ _ Hc ltac:(lia)). done. }
    destruct (above_parent _ _ T _ _ Hb ltac:(lia)) as (p & Hp & E1). destruct (above_parent _ _ T _ _ Hc ltac:(lia)) as (q & Hq & E2).
    rewrite Hp, Hq. cbn.
    destruct (IH p q (acc1 ++ [b]) (acc2 ++ [c]) (tree_self _ _ Hp) (tree_self _ _ Hq) ltac:(lia) ltac:(lia))
      as (l1 & l2 & r & E & N1 & N2 & B1 & B2 & Hpart & Hx).
    exists (b :: l1), (c :: l2), r. rewrite E, <- !app_assoc. split; [done|]. do 2 (split; [done|]).
    split; [eapply branch_block; [exact Hb|by rewrite <- (tree_keyed _ _ T _ _ Hp)]|].
    split; [eapply branch_block; [exact Hc|by rewrite <- (tree_keyed _ _ T _ _ Hq)]|]. split.
    + intros x y [->|H1]%elem_of_cons [->|H2]%elem_of_cons Epr.
      * done.
      * pose proof (same_prev_num _ _ _ _ Hb (branch_in _ _ _ _ B2 H2) Epr). specialize (Hx y (or_intror H2)). lia.
      * pose proof (same_prev_num _ _ _ _ (branch_in _ _ _ _ B1 H1) Hc Epr). specialize (Hx x (or_introl H1)). lia.
      * rewrite !last_cons_ne by done. by apply Hpart.
    + intros x [[->|H1]%elem_of_cons|[->|H1]%elem_of_cons]; [lia|specialize (Hx x (or_introl H1)); lia|lia|specialize (Hx x (or_intror H1)); lia].
Qed.

Lemma fetch_spec first second : is_Some (idx !! first) -> is_Some (idx !! second) ->
  exists l1 l2 p, fetch_branch_from first second d = Ok (l1, l2) /\ l1 <> [] /\ l2 <> [] /\ branch idx first l1 p /\ branch idx second l2 p /\ part_at_end l1 l2.
Proof.
  intros [b Hb] [c Hc]. unfold fetch_branch_from. rewrite Hb, Hc. cbn.
  pose proof (low_le _ _ T _ _ Hb) as Lb. pose proof (low_le _ _ T _ _ Hc) as Lc. assert (L0 : 0 <= low base) by (apply Z.mod_pos_bound; lia).
  pose proof (tree_keyed _ _ T _ _ Hb) as Eb. pose proof (tree_keyed _ _ T _ _ Hc) as Ec.
  destruct (descend_spec (Z.to_nat (bnum b)) b (bnum c) [] (tree_self _ _ Hb) Lc ltac:(lia)) as (m1 & b' & E1 & Hb' & B1 & N1 & X1). rewrite E1. cbn.
  destruct (descend_spec (Z.to_nat (bnum c)) c (bnum b') [] (tree_self _ _ Hc) ltac:(lia) ltac:(lia)) as (m2 & c' & E2 & Hc' & B2 & N2 & X2). rewrite E2. cbn.
  destruct (descend_both_spec (Z.to_nat (bnum b')) b' c' m1 m2 Hb' Hc' ltac:(lia) ltac:(lia)) as (l1 & l2 & p & E & Ne1 & Ne2 & B1' & B2' & Hpart & X).
  exists (m1 ++ l1), (m2 ++ l2), p. rewrite E. split; [done|]. split; [by destruct m1|]. split; [by destruct m2|].
  split; [rewrite <- Eb; by eapply branch_app|]. split; [rewrite <- Ec; by eapply branch_app|].
  assert (Hlast : forall (m l : list block_state), l <> [] -> last (m ++ l) = last l).
  { intros m l Hl. rewrite last_app. destruct (last l) eqn:El; [done|]. by apply last_None in El. }
  intros x y [H1|H1]%elem_of_app [H2|H2]%elem_of_app Epr.
  - pose proof (same_prev_num _ _ _ _ (branch_in _ _ _ _ B1 H1) (branch_in _ _ _ _ B2 H2) Epr). apply X1 in H1. apply X2 in H2. lia.
  - pose proof (same_prev_num _ _ _ _ (branch_in _ _ _ _ B1 H1) (branch_in _ _ _ _ B2' H2) Epr). apply X1 in H1. specialize (X y (or_intror H2)). lia.
  - pose proof (same_prev_num _ _ _ _ (branch_in _ _ _ _ B1' H1) (branch_in _ _ _ _ B2 H2) Epr). apply X2 in H2. specialize (X x (or_introl H1)). lia.
  - rewrite !Hlast by done. by apply Hpart.
Qed.
End fetch.
(** ** What keeps the tree *)

(** The part of a block that no mark or confirmation changes. *)
Definition core (b : block_state) : block_header_state := (bs b) <| confirmations := [] |> <| bft_irreversible_blocknum := 0 |>.

(** Indexes with the same blocks, whatever their marks and confirmations. *)
Definition same_tree (idx idx' : gmap digest block_state) : Prop := core <$> idx = core <$> idx'.

#[export] Instance same_tree_equiv : Equivalence same_tree.
Proof. unfold same_tree. split; [done|intros ? ? ->; done|intros ? ? ? -> ->; done]. Qed.

Lemma core_eq b b' : core b = core b' -> bid b = bid b' /\ prev b = prev b' /\ bnum b = bnum b' /\ (formed (bs b) <-> formed (bs b')).
Proof.
  intros E. destruct b as [[] ? ?], b' as [[] ? ?]. cbv in E. injection E. intros. subst. do 3 (split; [done|]).
  split; intros []; by split.
Qed.

Lemma same_tree_lookup idx idx' id b : same_tree idx idx' -> idx !! id = Some b -> exists b', idx' !! id = Some b' /\ core b = core b'.
Proof.
  intros E Hb. assert (H : (core <$> idx') !! id = Some (core b)) by (rewrite <- E, lookup_fmap, Hb; done).
  rewrite lookup_fmap in H. destruct (idx' !! id) as [b'|]; [|done].
  change (Some (core b') = Some (core b)) in H. apply (inj Some) in H. by exists b'.
Qed.

Lemma same_tree_is_Some idx idx' id : same_tree idx idx' -> is_Some (idx !! id) -> is_Some (idx' !! id).
Proof. intros E [b Hb]. destruct (same_tree_lookup _ _ _ _ E Hb) as (b' & H & _). by exists b'. Qed.

#[export] Instance tree_proper base : Proper (same_tree ==> iff) (tree base).
Proof.
  assert (H : forall idx idx', same_tree idx idx' -> tree base idx -> tree base idx').
  { intros idx idx' E [T1 T2 T3]. pose proof (symmetry E) as E'. split.
    - intros id b (c & Hc & (E1 & _ & _ & F)%core_eq)%(same_tree_lookup _ _ _ _ E'). rewrite E1, F. by apply T1.
    - destruct (idx' !! base) eqn:Eb; [|done]. by apply (same_tree_lookup _ _ _ _ E') in Eb as (c & Hc & _); rewrite T2 in Hc.
    - intros id b (c & Hc & (_ & E1 & _)%core_eq)%(same_tree_lookup _ _ _ _ E'). rewrite E1. destruct (T3 _ _ Hc) as [?|Hp]; [by left|right].
      by apply (same_tree_is_Some _ _ _ E). }
  intros idx idx' E. split; apply H; [done|by symmetry].
Qed.

Lemma same_tree_insert idx id b b' : idx !! id = Some b -> core b = core b' -> same_tree idx (<[id := b']> idx).
Proof. intros Hb E. unfold same_tree. rewrite fmap_insert, <- E. symmetry. apply insert_id. by rewrite lookup_fmap, Hb. Qed.

Lemma same_tree_alter idx id f : (forall b, core (f b) = core b) -> same_tree idx (alter f id idx).
Proof.
  intros Hf. apply map_eq. intros x. rewrite !lookup_fmap, lookup_alter. case_decide as E; [subst x|done]. destruct (idx !! id) as [b|]; [|done].
  change (Some (core b) = Some (core (f b))). by rewrite Hf.
Qed.

Lemma tree_remove base idx idx' id : tree base idx -> (forall x b, idx' !! x = Some b <-> idx !! x = Some b /\ ~ builds_on idx id x) -> tree base idx'.
Proof.
  intros [T1 T2 T3] E. split.
  - intros x b [Hb _]%E. by apply T1.
  - destruct (idx' !! base) eqn:Eb; [|done]. apply E in Eb as [Hb _]. by rewrite T2 in Hb.
  - intros x b [Hb Hn]%E. destruct (T3 _ _ Hb) as [?|[p Hp]]; [by left|right]. exists p. apply E. split; [done|].
    intros Hp'. apply Hn. by apply builds_next with b.
Qed.

Lemma tree_insert base idx n : tree base idx -> formed (bs n) -> is_Some (idx !! prev n) -> idx !! bid n = None -> tree base (<[bid n := n]> idx).
Proof.
  intros T F [p Hp] Hn. split.
  - intros id b. rewrite lookup_insert. case_decide as E; [intros [= <-]; done|apply T].
  - rewrite lookup_insert_ne; [apply T|]. intros E. pose proof (low_le _ _ T _ _ Hp) as Hl. unfold low in Hl. rewrite <- E in Hl.
    unfold bid in Hl. rewrite (fo_id _ F), id_carries_num, <- (fo_num _ F) in Hl. pose proof (fo_pos _ F). unfold u32 in Hl. rewrite Z.mod_small in Hl by lia.
    pose proof (fo_num _ F) as En. unfold header_block_num in En. fold (prev n) in En. rewrite (tree_id_num _ _ T _ _ Hp) in En.
    unfold u32 in En. pose proof (tree_prev_num _ _ T _ _ Hp) as [_ Hr]. rewrite Z.mod_small in En; lia.
  - intros id b. destruct (decide (id = bid n)) as [->|Hne].
    + rewrite lookup_insert_eq. intros [= <-]. right. destruct (decide (bid n = prev n)) as [<-|]; [by rewrite lookup_insert_eq|].
      rewrite lookup_insert_ne by done. by exists p.
    + rewrite lookup_insert_ne by done. intros Hb. destruct (tr_up _ _ T _ _ Hb) as [?|[q Hq]]; [by left|right].
      destruct (decide (bid n = prev b)) as [<-|]; [by rewrite lookup_insert_eq|]. rewrite lookup_insert_ne by done. by exists q.
Qed.

(** ** The orders *)

Section orders.
Context (by_lib by_num : list block_state -> list block_state).
Context (L : lawful_order before_lib by_lib) (N : lawful_order before_num by_num).
#[local] Abbreviation remove := (remove by_lib).

(** The head: a block of the index that none precedes. *)
Definition best_head (d : fork_database) : Prop :=
  exists b, fhead d = Some (bid b) /\ findex d !! bid b = Some b /\ forall x c, findex d !! x = Some c -> before_lib c b = false.

Lemma first_spec before order idx b : lawful_order before order -> hd_error (order (blocks idx)) = Some b ->
  (exists id, idx !! id = Some b) /\ forall x c, idx !! x = Some c -> before c b = false \/ c = b.
Proof.
  intros O H. pose proof (lo_perm _ _ O (blocks idx)) as P. pose proof (lo_sorted _ _ O (blocks idx)) as S.
  destruct (order (blocks idx)) as [|b' l]; [done|]. injection H as ->. split.
  - apply blocks_elem. rewrite <- P. left.
  - intros x c Hc. assert (Hin : c ∈ b :: l) by (rewrite P; apply blocks_elem; by exists x).
    apply elem_of_cons in Hin as [->|Hin]; [by right|left]. apply StronglySorted_inv in S as [_ S]. rewrite Forall_forall in S. by apply S.
Qed.

Lemma before_lib_irrefl b : before_lib b b = false.
Proof. unfold before_lib. rewrite !Z.ltb_irrefl, !Z.eqb_refl. done. Qed.

Lemma remove_spec id d d' : keyed (findex d) -> remove id d = Ok d' -> best_head d' /\ irreversible d' = irreversible d /\
  forall x b, findex d' !! x = Some b <-> findex d !! x = Some b /\ ~ builds_on (findex d) id x.
Proof.
  intros K H. unfold ForkDb.remove in H. destruct (remove_idx (findex d) id K) as (idx' & E & Hs). rewrite E in H. cbn in H.
  destruct (hd_error (by_lib (blocks idx'))) as [h|] eqn:Eh; [|done]. injection H as <-. cbn. split; [|done].
  apply (first_spec _ _ _ _ L) in Eh as [[y Hy] Hf]. assert (Ey : bid h = y) by (apply Hs in Hy as [Hy _]; by apply K).
  exists h. cbn. rewrite Ey. split; [done|]. split; [done|]. intros x c Hc. destruct (Hf x c Hc) as [?| ->]; [done|apply before_lib_irrefl].
Qed.

Lemma remove_total id d : keyed (findex d) -> (exists x b, findex d !! x = Some b /\ ~ builds_on (findex d) id x) -> exists d', remove id d = Ok d'.
Proof.
  intros K (x & b & Hb & Hn). unfold ForkDb.remove. destruct (remove_idx (findex d) id K) as (idx' & E & Hs). rewrite E. cbn.
  assert (Hin : b ∈ by_lib (blocks idx')) by (rewrite (lo_perm _ _ L); apply blocks_elem; exists x; by apply Hs).
  destruct (by_lib (blocks idx')) as [|h l]; [by apply elem_of_nil in Hin|]. by eexists.
Qed.

(** ** Pruning *)

Lemma builds_mono idx idx' r x : (forall y b, idx !! y = Some b -> idx' !! y = Some b) -> builds_on idx r x -> builds_on idx' r x.
Proof. intros Hs. induction 1 as [|x b _ IH Hb]; [constructor|]. apply builds_next with b; [done|by apply Hs]. Qed.

Lemma tree_builds base idx id b : tree base idx -> idx !! id = Some b -> builds_on idx base id.
Proof.
  intros T Hb. assert (H : forall n id b, (Z.to_nat (bnum b) <= n)%nat -> idx !! id = Some b -> builds_on idx base id); [|by eapply H].
  clear id b Hb. induction n as [|n IH]; intros id b Hn Hb; pose proof (tree_prev_num _ _ T _ _ Hb) as [_ Hr]; [lia|].
  apply builds_next with b; [|done]. destruct (tr_up _ _ T _ _ Hb) as [->|[p Hp]]; [constructor|].
  apply IH with p; [|done]. pose proof (parent_num _ _ T _ _ _ Hb Hp). lia.
Qed.

Lemma builds_num base idx r rb x : tree base idx -> idx !! r = Some rb -> builds_on idx r x -> x = r \/ exists b, idx !! x = Some b /\ bnum rb < bnum b.
Proof.
  intros T Hr. induction 1 as [|x b Hp IH Hb]; [by left|right]. exists b. split; [done|]. destruct IH as [E|(p & Hpp & Hlt)].
  - rewrite <- E in Hr. pose proof (parent_num _ _ T _ _ _ Hb Hr). lia.
  - pose proof (parent_num _ _ T _ _ _ Hb Hpp). lia.
Qed.

(** A block builds on one block of a number. *)
Lemma builds_one base idx r s rb sb x : tree base idx -> idx !! r = Some rb -> idx !! s = Some sb -> bnum rb = bnum sb ->
  builds_on idx r x -> builds_on idx s x -> r = s.
Proof.
  intros T Hr Hs En. induction 1 as [|x b Hp IH Hb]; intros H.
  - destruct (builds_num _ _ _ _ _ T Hs H) as [?|(b & Hb & Hlt)]; [done|]. rewrite Hr in Hb. injection Hb as <-. lia.
  - inversion H as [E|? b' Hp' Hb']; subst.
    + destruct (builds_num _ _ _ _ _ T Hr (builds_next _ _ _ _ Hp Hb)) as [?|(b' & Hb' & Hlt)]; [done|]. rewrite Hs in Hb'. injection Hb' as <-. lia.
    + rewrite Hb in Hb'. injection Hb' as <-. by apply IH.
Qed.

(** [b] comes first among the blocks of its number: it is alone, or the one of the current
    chain. *)
Definition leads (idx : gmap digest block_state) (b : block_state) : Prop :=
  forall x c, idx !! x = Some c -> bnum c = bnum b -> c <> b -> in_current_chain b = true /\ in_current_chain c = false.

Section pruning.
Context (base : digest) (idx0 : gmap digest block_state) (T : tree base idx0) (h : block_state).
Context (Hh : idx0 !! bid h = Some h) (Hlow : bnum h = low base).

(** [h] is gone; of the others, blocks of its number are going. *)
Record pruning (d : fork_database) : Prop := {
  pr_sub x b : findex d !! x = Some b -> idx0 !! x = Some b /\ x <> bid h;
  pr_keep x b : idx0 !! x = Some b -> x <> bid h -> builds_on idx0 (bid h) x -> findex d !! x = Some b;
  pr_up x b : findex d !! x = Some b -> bnum b = bnum h \/ prev b = bid h \/ is_Some (findex d !! prev b);
  pr_head : best_head d
}.

Lemma pruning_keyed d : pruning d -> keyed (findex d).
Proof. intros P x b [Hb _]%(pr_sub _ P). by apply (tree_keyed _ _ T). Qed.

Lemma pruning_remove b d d' : pruning d -> findex d !! bid b = Some b -> bnum b = bnum h -> remove (bid b) d = Ok d' ->
  pruning d' /\ irreversible d' = irreversible d /\ findex d' !! bid b = None /\
  (forall x c, findex d' !! x = Some c -> findex d !! x = Some c) /\
  forall x c, findex d !! x = Some c -> bnum c = bnum h -> x <> bid b -> findex d' !! x = Some c.
Proof.
  intros P Hb En H. destruct (remove_spec _ _ _ (pruning_keyed _ P) H) as (Hbest & Hirr & Hs).
  pose proof (pr_sub _ P) as Hsub. assert (Hm : forall r x, builds_on (findex d) r x -> builds_on idx0 r x).
  { intros r x. apply builds_mono. intros y c Hc. by apply Hsub. }
  destruct (Hsub _ _ Hb) as [Hb0 Hne]. split; [split|]; [| | |done|].
  - intros x c [Hc _]%Hs. by apply Hsub.
  - intros x c Hc Hx Hbld. apply Hs. split; [by apply (pr_keep _ P)|]. intros Hbad%Hm. apply Hne.
    by apply (builds_one _ _ _ _ _ _ _ T Hb0 Hh En Hbad Hbld).
  - intros x c [Hc Hn]%Hs. destruct (pr_up _ P _ _ Hc) as [?|[?|[p Hp]]]; [by left|by right; left|]. right. right. exists p. apply Hs.
    split; [done|]. intros Hbad. apply Hn. by apply builds_next with c.
  - split; [done|]. split; [destruct (findex d' !! bid b) eqn:E; [|done]; apply Hs in E as [_ []]; constructor|].
    split; [intros x c Hc; by apply Hs|]. intros x c Hc Ec Hx. apply Hs. split; [done|]. intros Hbad%Hm.
    destruct (builds_num _ _ _ _ _ T Hb0 Hbad) as [?|(c' & Hc' & Hlt)]; [done|]. apply Hsub in Hc as [Hc _]. rewrite Hc in Hc'. injection Hc' as <-. lia.
Qed.

Lemma StronglySorted_filter {A} (R : A -> A -> Prop) (Q : A -> Prop) `{forall x, Decision (Q x)} l : StronglySorted R l -> StronglySorted R (filter Q l).
Proof.
  induction 1 as [|a l Hs IH Ha]; [constructor|]. rewrite filter_cons. case_decide; [|done]. constructor; [done|].
  rewrite Forall_forall in *. intros x [_ Hx]%list_elem_of_filter. by apply Ha.
Qed.

(** The list the iterator runs over. *)
Record iterating (nitr : list block_state) (d : fork_database) : Prop := {
  it_sorted : StronglySorted (fun b c => before_num c b = false) nitr;
  it_live b : b ∈ nitr -> findex d !! bid b = Some b /\ bnum h <= bnum b;
  it_all x b : findex d !! x = Some b -> b ∈ nitr;
  it_nodup : NoDup nitr
}.

Lemma iterating_next b rest d d' : pruning d -> iterating (b :: rest) d -> bnum b = bnum h -> remove (bid b) d = Ok d' ->
  iterating (filter (fun c => is_Some (findex d' !! bid c)) rest) d'.
Proof.
  intros P [I1 I2 I3 [_ I4]%NoDup_cons] En H. destruct (pruning_remove b d d' P (proj1 (I2 b ltac:(left))) En H) as (P' & _ & Hb & Hsub & _).
  apply StronglySorted_inv in I1 as [I1 _]. split.
  - by apply StronglySorted_filter.
  - intros c [[e He] Hc]%list_elem_of_filter. destruct (I2 c ltac:(by right)) as [Hc' Hn]. pose proof (Hsub _ _ He) as E. rewrite Hc' in E. injection E as <-. done.
  - intros x c Hc. apply list_elem_of_filter. pose proof (pruning_keyed _ P' _ _ Hc) as E. rewrite E. split; [by exists c|].
    pose proof (I3 x c (Hsub _ _ Hc)) as [->|Hin]%elem_of_cons; [|done]. rewrite E, Hc in Hb. done.
  - by apply NoDup_filter.
Qed.

Lemma remove_level_spec fuel : forall nitr d d', pruning d -> iterating nitr d -> remove_level by_lib fuel (bnum h) nitr d = Ok d' ->
  pruning d' /\ irreversible d' = irreversible d /\ forall x b, findex d' !! x = Some b -> bnum b <> bnum h.
Proof.
  induction fuel as [|fuel IH]; intros [|b rest] d d' P I H; cbn [remove_level] in H.
  1, 3: injection H as <-; split; [done|]; split; [done|]; by intros x b Hb%(it_all _ _ I)%elem_of_nil.
  all: destruct (Z.eqb_spec (bnum b) (bnum h)) as [En|En]; cbn [negb] in H.
  1: done.
  1, 3: injection H as <-; split; [done|]; split; [done|]; intros x c Hc%(it_all _ _ I);
    pose proof (it_live _ _ I b ltac:(left)) as [_ Hb]; apply elem_of_cons in Hc as [->|Hc]; [lia|];
    destruct (StronglySorted_inv (it_sorted _ _ I)) as [_ Hs]; rewrite Forall_forall in Hs; apply Hs in Hc; unfold before_num in Hc; lia.
  apply res_bind_ok in H as (d1 & Hr & H).
  destruct (pruning_remove b d d1 P (proj1 (it_live _ _ I b ltac:(left))) En Hr) as (P1 & Ei & _).
  pose proof (iterating_next b rest d d1 P I En Hr) as I1. destruct rest as [|n rest].
  - injection H as <-. split; [done|]. split; [done|]. by intros x c Hc%(it_all _ _ I1)%elem_of_nil.
  - apply res_bind_ok in H as (? & _ & H). apply IH in H as (P2 & Ei2 & Hn); [|done..]. split; [done|]. split; [by rewrite Ei2|done].
Qed.

(** Some block on top of [h] is first among those of its number: the iterator stays
    valid. *)
Lemma remove_level_total c fuel : idx0 !! bid c = Some c -> prev c = bid h -> leads idx0 c ->
  forall nitr d, (length nitr <= fuel)%nat -> pruning d -> iterating nitr d -> exists d', remove_level by_lib fuel (bnum h) nitr d = Ok d'.
Proof.
  intros Hc Hp Hone. pose proof Hh as Hh'. rewrite <- Hp in Hh'. pose proof (parent_num _ _ T _ _ _ Hc Hh') as Ec.
  assert (Hnc : bid c <> bid h) by (intros E; rewrite E, Hh in Hc; injection Hc as ->; lia).
  assert (Hbc : builds_on idx0 (bid h) (bid c)) by (apply builds_next with c; [rewrite Hp; constructor|done]).
  induction fuel as [|fuel IH]; intros [|b rest] d Hl P I; cbn [remove_level]; [by eexists|cbn in Hl; lia|by eexists|].
  destruct (Z.eqb_spec (bnum b) (bnum h)) as [En|En]; cbn [negb]; [|by eexists].
  pose proof (proj1 (it_live _ _ I b ltac:(left))) as Hb. destruct (pr_sub _ P _ _ Hb) as [Hb0 Hbh].
  destruct (remove_total (bid b) d (pruning_keyed _ P)) as [d1 Hr].
  { exists (bid c), c. split; [by apply (pr_keep _ P)|]. intros Hbad. apply Hbh.
    apply (builds_one _ _ _ _ _ _ (bid c) T Hb0 Hh En); [|done]. eapply builds_mono; [|exact Hbad]. intros y e He. by apply (pr_sub _ P). }
  rewrite Hr. cbn. destruct (pruning_remove b d d1 P Hb En Hr) as (P1 & _ & _ & _ & Hkeep).
  pose proof (iterating_next b rest d d1 P I En Hr) as I1. destruct rest as [|n rest]; [by eexists|].
  assert (Hn : findex d1 !! bid n = Some n).
  { destruct (it_live _ _ I n ltac:(right; left)) as [Hn Hle]. destruct (decide (bnum n = bnum h)) as [E|E].
    - apply Hkeep; [done|done|]. intros E'. rewrite E', Hb in Hn. injection Hn as ->. destruct (NoDup_cons_1_1 _ _ (it_nodup _ _ I)). left.
    - assert (n = c) as ->; [|by apply (pr_keep _ P1)]. pose proof (it_all _ _ I _ _ (pr_keep _ P _ _ Hc Hnc Hbc)) as Hin.
      apply elem_of_cons in Hin as [->|Hin]; [lia|]. apply elem_of_cons in Hin as [->|Hin]; [done|].
      destruct (StronglySorted_inv (it_sorted _ _ I)) as [Hs _]. destruct (StronglySorted_inv Hs) as [_ Hs']. rewrite Forall_forall in Hs'.
      apply Hs' in Hin. unfold before_num in Hin. destruct (decide (bnum n = bnum c)) as [En'|]; [|lia].
      destruct (decide (bid n = bid c)) as [Ei|Ei]; [apply (pr_sub _ P) in Hn as [Hn _]; rewrite Ei, Hc in Hn; by injection Hn as ->|].
      destruct (Hone (bid n) n) as [Hm Hm']; [by apply (pr_sub _ P) in Hn as [? _]|done|congruence|]. rewrite Hm, Hm' in Hin. lia. }
  rewrite Hn. cbn [deref res_bind]. apply IH; [|done|done]. etrans; [apply length_filter|]. cbn in *. lia.
Qed.

(** The state in which the blocks of the number of [h] are removed. *)
Lemma prune_start d : findex d = idx0 -> best_head d -> fhead d <> Some (bid h) ->
  let d1 := d <| irreversible := irreversible d ++ [h] |> <| findex := delete (bid h) idx0 |> in
  pruning d1 /\ iterating (filter (fun b => (bnum h <= bnum b)%Z) (by_num (blocks (findex d1)))) d1.
Proof.
  intros E0 (hb & H1 & H2 & H3) Hne d1. assert (P : pruning d1).
  { split; cbn.
    - intros x b [? ?]%lookup_delete_Some. done.
    - intros x b Hb Hx _. by rewrite lookup_delete_ne.
    - intros x b [_ Hb]%lookup_delete_Some. destruct (tr_up _ _ T _ _ Hb) as [E|[p Hp]].
      + left. rewrite Hlow. unfold low. rewrite <- E. apply (tree_prev_num _ _ T _ _ Hb).
      + right. destruct (decide (prev b = bid h)); [by left|right]. rewrite lookup_delete_ne by done. by exists p.
    - exists hb. cbn. split; [done|]. split; [rewrite lookup_delete_ne, <- E0 by congruence; done|].
      intros x c [_ Hc]%lookup_delete_Some. apply (H3 x). by rewrite E0. }
  split; [done|]. split.
  - apply StronglySorted_filter, (lo_sorted _ _ N).
  - intros b [Hb Hin]%list_elem_of_filter. rewrite (lo_perm _ _ N) in Hin. apply blocks_elem in Hin as [x Hx]. split; [|done].
      by rewrite (pruning_keyed _ P _ _ Hx).
  - intros x b Hb. apply list_elem_of_filter. split; [rewrite Hlow; apply (pr_sub _ P) in Hb as [Hb _]; by eapply low_le|].
      rewrite (lo_perm _ _ N). apply blocks_elem. by exists x.
  - apply NoDup_filter. rewrite (lo_perm _ _ N). apply (NoDup_fmap_1 bid). change (NoDup (map bid (blocks (findex d1)))).
    rewrite keyed_ids by apply (pruning_keyed _ P). apply NoDup_fst_map_to_list.
Qed.

Lemma prune_level_spec d d' : findex d = idx0 -> best_head d -> fhead d <> Some (bid h) -> prune_level by_lib by_num h d = Ok d' ->
  tree (bid h) (findex d') /\ best_head d' /\ irreversible d' = irreversible d ++ [h] /\
  forall x b, findex d' !! x = Some b <-> idx0 !! x = Some b /\ x <> bid h /\ builds_on idx0 (bid h) x.
Proof.
  intros E0 B Hne H. destruct (prune_start d E0 B Hne) as [P I]. unfold prune_level in H. rewrite E0, Hh in H. cbv zeta in H.
  apply remove_level_spec in H as (P' & Ei & Hn); [|done..].
  assert (T' : tree (bid h) (findex d')).
  { split.
    - intros x b [Hb _]%(pr_sub _ P'). by apply (tr_block _ _ T).
    - destruct (findex d' !! bid h) eqn:E; [|done]. by apply (pr_sub _ P') in E as [_ []].
    - intros x b Hb. pose proof (Hn _ _ Hb). destruct (pr_up _ P' _ _ Hb) as [?|?]; [done|done]. }
  split; [done|]. split; [apply P'|]. split; [by rewrite Ei|]. intros x b. split.
  - intros Hb. destruct (pr_sub _ P' _ _ Hb) as [Hb0 Hx]. split; [done|]. split; [done|].
    apply (builds_mono (findex d')); [intros y c Hc; by apply (pr_sub _ P')|]. by eapply tree_builds.
  - intros (Hb & Hx & Hbld). by apply (pr_keep _ P').
Qed.

Lemma prune_level_total c d : findex d = idx0 -> best_head d -> fhead d <> Some (bid h) ->
  idx0 !! bid c = Some c -> prev c = bid h -> leads idx0 c ->
  exists d', prune_level by_lib by_num h d = Ok d'.
Proof.
  intros E0 B Hne Hc Hp Hone. destruct (prune_start d E0 B Hne) as [P I]. unfold prune_level. rewrite E0, Hh. cbv zeta.
  apply (remove_level_total c); [done..| |done|done]. etrans; [apply length_filter|]. rewrite (Permutation_length (lo_perm _ _ N _)).
  unfold blocks. rewrite length_map, length_map_to_list. done.
Qed.
End pruning.

(** ** Adding a block *)

#[local] Abbreviation add_state := (add_state by_lib by_num).

Lemma prune_oldest f o d : hd_error (by_num (blocks (findex d))) = Some o -> prune by_lib by_num (S f) o d = prune_level by_lib by_num o d.
Proof. intros E. cbn [prune prune_below]. rewrite E, Z.ltb_irrefl. done. Qed.

Lemma lib_above b : formed (bs b) -> dpos_irreversible_blocknum (bs b) <= bnum b.
Proof. intros F. pose proof (fo_lib _ F). pose proof (fo_prop _ F). unfold bnum. lia. Qed.

Lemma order_first before order idx id b : lawful_order before order -> idx !! id = Some b -> exists c, hd_error (order (blocks idx)) = Some c.
Proof.
  intros O Hb. assert (Hin : b ∈ order (blocks idx)) by (rewrite (lo_perm _ _ O); apply blocks_elem; by exists id).
  destruct (order (blocks idx)) as [|c l]; [by apply elem_of_nil in Hin|]. by exists c.
Qed.

(** The block with the latest last irreversible block. *)
Definition most_final (idx : gmap digest block_state) (h : block_state) : Prop :=
  idx !! bid h = Some h /\ forall x b, idx !! x = Some b -> dpos_irreversible_blocknum (bs b) <= dpos_irreversible_blocknum (bs h).

(** [add] up to [prune]: the new head is chosen, and the oldest block pruned or not. *)
Lemma add_state_eq base n skip d : tree base (findex d) -> formed (bs n) -> is_Some (findex d !! prev n) -> findex d !! bid n = None -> fhead d <> None ->
  exists o d1 (prunes : bool), findex d1 = <[bid n := n]> (findex d) /\ irreversible d1 = irreversible d /\ tree base (findex d1) /\ best_head d1 /\
    findex d1 !! bid o = Some o /\ bnum o = low base /\ (forall x b, findex d1 !! x = Some b -> before_num b o = false \/ b = o) /\
    (prunes = true -> fhead d1 <> Some (bid o)) /\ add_state n skip d = (if prunes then prune_level by_lib by_num o d1 else Ok d1) /\
    exists h, most_final (findex d1) h /\ prunes = (bnum o <? dpos_irreversible_blocknum (bs h)).
Proof.
  intros T F Hp Hn Hh. pose proof (tree_insert _ _ _ T F Hp Hn) as T1. unfold ForkDb.add_state. destruct (fhead d) as [h0|]; [|done]. clear Hh.
  cbn [deref]. change (Ok h0 ≫= ?f) with (f h0). cbv beta.
  replace (if skip then Ok tt else hs_assert (bool_decide (is_Some (findex d !! prev n))) "unlinkable block") with (Ok tt)
    by (destruct skip; [done|]; by rewrite bool_decide_eq_true_2).
  rewrite (bool_decide_eq_true_2 (findex d !! bid n = None)) by done. cbn [hs_assert]. change (Ok tt ≫= ?f) with (f tt). cbv beta zeta.
  destruct (order_first _ _ (<[bid n := n]> (findex d)) (bid n) n L) as [h Eh]; [by rewrite lookup_insert_eq|].
  destruct (order_first _ _ (<[bid n := n]> (findex d)) (bid n) n N) as [o Eo]; [by rewrite lookup_insert_eq|].
  rewrite Eh, Eo. cbn [deref]. change (Ok h ≫= ?f) with (f h). cbv beta. change (Ok o ≫= ?f) with (f o). cbv beta.
  set (d1 := d <| findex := _ |> <| fhead := _ |>).
  destruct (first_spec _ _ _ _ L Eh) as [[hx Hhx] Hbest]. destruct (first_spec _ _ _ _ N Eo) as [[ox Hox] Hold].
  pose proof (tree_keyed _ _ T1 _ _ Hhx) as <-. pose proof (tree_keyed _ _ T1 _ _ Hox) as <-. exists o, d1, (bnum o <? dpos_irreversible_blocknum (bs h)).
  assert (B : best_head d1). { exists h. cbn. split; [done|]. split; [done|]. intros y c Hc. destruct (Hbest _ _ Hc) as [?| ->]; [done|apply before_lib_irrefl]. }
  assert (Hlow : bnum o = low base).
  { pose proof (low_le _ _ T1 _ _ Hox). destruct (decide (low base < bnum o)) as [Hlt|]; [|lia].
    destruct (above_parent _ _ T1 _ _ Hox Hlt) as (p & Hpp & En). destruct (Hold _ _ Hpp) as [Hb| ->]; [|lia]. unfold before_num in Hb. lia. }
  do 7 (split; [done|]). split; [|split].
  - intros Hlt [= E]. rewrite E, Hox in Hhx. injection Hhx as ->. pose proof (lib_above _ (proj2 (tr_block _ _ T1 _ _ Hox))). lia.
  - destruct (_ <? _); [by apply prune_oldest|done].
  - exists h. split; [|done]. split; [done|]. intros x b Hb. destruct (Hbest _ _ Hb) as [Hf| ->]; [|done]. unfold before_lib in Hf. lia.
Qed.

(** [o] was the oldest block: what builds on it stays. *)
Definition pruned (o : block_state) (idx idx' : gmap digest block_state) : Prop :=
  idx !! bid o = Some o /\ forall x b, idx' !! x = Some b <-> idx !! x = Some b /\ x <> bid o /\ builds_on idx (bid o) x.

Lemma add_state_spec base n skip d d' : tree base (findex d) -> formed (bs n) -> is_Some (findex d !! prev n) -> add_state n skip d = Ok d' ->
  best_head d' /\
  let idx := <[bid n := n]> (findex d) in
  ((findex d' = idx /\ irreversible d' = irreversible d /\ tree base idx) \/
   (exists o, pruned o idx (findex d') /\ prev o = base /\ irreversible d' = irreversible d ++ [o] /\ tree (bid o) (findex d'))).
Proof.
  intros T F Hp H. assert (Hpre : findex d !! bid n = None /\ fhead d <> None).
  { unfold ForkDb.add_state in H. apply res_bind_ok in H as (? & Hh & H). apply res_bind_ok in H as (? & _ & H).
    apply res_bind_ok in H as (? & Hn%hs_assert_Ok%bool_decide_eq_true & _). by destruct (fhead d). }
  destruct (add_state_eq _ n skip _ T F Hp (proj1 Hpre) (proj2 Hpre)) as (o & d1 & prunes & E1 & E2 & T1 & B & Ho & Hlow & _ & Hne & E & _).
  rewrite E in H. destruct prunes; [specialize (Hne eq_refl); rename H into Hprune|injection H as <-].
  - destruct (prune_level_spec _ _ T1 _ Ho Hlow _ _ eq_refl B Hne Hprune) as (T' & B' & Ei & Hs). split; [done|]. right. exists o. rewrite <- E1.
    split; [done|]. split; [by apply (low_prev _ _ T1 _ _ Ho); lia|]. by rewrite Ei, E2.
  - split; [done|left]. by rewrite <- E1.
Qed.

(** ** Confirmations *)

Definition lows (num : Z) (idx : gmap digest block_state) : nat := size (filter (fun kb => (bft_irreversible_blocknum (bs kb.2) < num)%Z) idx).

Lemma set_bft_low num i b idx : idx !! i = Some b -> bft_irreversible_blocknum (bs b) < num -> S (lows num (<[i := set_bft num b]> idx)) = lows num idx.
Proof.
  intros Hi Hlt. unfold lows. rewrite map_filter_insert_False by (cbn; lia). rewrite map_filter_delete.
  rewrite map_size_delete_Some by (exists b; by apply map_lookup_filter_Some). assert (size (filter (fun kb => (bft_irreversible_blocknum (bs kb.2) < num)%Z) idx) <> 0%nat); [|lia].
  intros E%map_size_empty_inv. assert (Hs : filter (fun kb => (bft_irreversible_blocknum (bs kb.2) < num)%Z) idx !! i = Some b) by (by apply map_lookup_filter_Some).
  rewrite E in Hs. done.
Qed.

Lemma bft_children_spec num ids : forall idx upd idx' upd', bft_children num ids idx upd = (idx', upd') ->
  same_tree idx idx' /\ (lows num idx' + length upd' = lows num idx + length upd)%nat.
Proof.
  induction ids as [|i ids IH]; intros idx upd idx' upd' H; cbn [bft_children] in H; [by injection H as <- <-|].
  destruct (idx !! i) as [b|] eqn:Eb; [|by apply IH]. destruct (Z.ltb_spec (bft_irreversible_blocknum (bs b)) num); [|by apply IH].
  apply IH in H as [E1 E2]. rewrite length_app in E2. cbn in E2. pose proof (set_bft_low num i b idx Eb ltac:(lia)). split; [|lia].
  etrans; [|exact E1]. by eapply same_tree_insert.
Qed.

Lemma bft_layer_spec num layer : forall idx upd idx' upd', bft_layer num layer idx upd = (idx', upd') ->
  same_tree idx idx' /\ (lows num idx' + length upd' = lows num idx + length upd)%nat.
Proof.
  induction layer as [|i layer IH]; intros idx upd idx' upd' H; cbn [bft_layer] in H; [by injection H as <- <-|].
  destruct (bft_children _ _ _ _) as [idx1 upd1] eqn:E. apply bft_children_spec in E as [E1 E2]. apply IH in H as [E3 E4].
  split; [by etrans|lia].
Qed.

(** Each layer but the last raises some block, so the layers end. *)
Lemma bft_loop_spec num fuel : forall queue idx, (lows num idx < fuel)%nat \/ queue = [] ->
  exists idx', bft_loop fuel num queue idx = Some idx' /\ same_tree idx idx'.
Proof.
  induction fuel as [|fuel IH]; intros [|q queue] idx H; cbn [bft_loop]; try (by exists idx); [destruct H; [lia|done]|].
  destruct (bft_layer _ _ _ _) as [idx1 upd1] eqn:E. apply bft_layer_spec in E as [E1 E2].
  destruct (IH upd1 idx1) as (idx' & E3 & E4). { destruct upd1 as [|u upd1]; [by right|left]. cbn in E2. destruct H; [lia|done]. }
  exists idx'. split; [done|by etrans].
Qed.

Lemma set_bft_irreversible_spec id d : is_Some (findex d !! id) ->
  exists d', set_bft_irreversible id d = Ok d' /\ same_tree (findex d) (findex d') /\ fhead d' = fhead d /\ irreversible d' = irreversible d.
Proof.
  intros [b Hb]. unfold set_bft_irreversible. rewrite Hb. cbn -[bft_loop].
  assert (Es : same_tree (findex d) (<[id := set_bft (bnum b) b]> (findex d))) by (by eapply same_tree_insert).
  destruct (bft_loop_spec (bnum b) (S (size (findex d))) [id] (<[id := set_bft (bnum b) b]> (findex d))) as (idx' & E & E').
  { left. unfold lows. apply Nat.lt_succ_r. etrans; [apply map_size_filter|]. by rewrite map_size_insert_Some by (by exists b). }
  rewrite E. cbn. eexists. split; [done|]. cbn. split; [by etrans|done].
Qed.

(** ** Every database *)

(** [l] leads from [base] up to [top], each block on the one before. *)
Fixpoint line (base : digest) (l : list block_state) (top : digest) : Prop :=
  match l with [] => top = base | b :: l' => prev b = base /\ line (bid b) l' top end.

Lemma line_snoc base l top b : line base l top -> prev b = top -> line base (l ++ [b]) (bid b).
Proof. revert base. induction l as [|a l IH]; intros base; cbn; [by intros -> ->|]. intros [? ?] ?. split; [done|]. by apply IH. Qed.

(** The operations the controller calls; block numbers are far from 2^32. *)
Inductive fork_step : fork_database -> fork_database -> Prop :=
| step_block b skip d d' : add_block hash header_digest schedule_hash recover by_lib by_num b skip d = Ok d' ->
    (forall p, findex d !! previous (hdr b) = Some p -> bnum p + 1 < 2^32 - 1) -> fork_step d d'
| step_state n skip d d' : add_state n skip d = Ok d' -> formed (bs n) -> is_Some (findex d !! prev n) -> fork_step d d'
| step_validity h valid d d' : set_validity by_lib h valid d = Ok d' -> fork_step d d'
| step_mark h in_chain d d' : mark_in_current_chain h in_chain d = Ok d' -> fork_step d d'
| step_confirm c d d' : add_header_confirmation hash header_digest recover c d = Ok d' -> fork_step d d'.

(** The signals sent lead from the first block to the one all others build on. *)
Definition fork_ok (r : block_state) (d : fork_database) : Prop :=
  fork_tree d /\ exists base, tree base (findex d) /\ line (prev r) (irreversible d) base.

Lemma best_in d : best_head d -> exists h, fhead d = Some h /\ is_Some (findex d !! h).
Proof. intros (b & H1 & H2 & _). exists (bid b). split; [done|by exists b]. Qed.

Lemma fork_ok_same r d d' : fork_ok r d -> same_tree (findex d) (findex d') -> fhead d' = fhead d -> irreversible d' = irreversible d -> fork_ok r d'.
Proof.
  intros [[_ (h & Hh & Hi)] (base & T & Hl)] E E1 E2. rewrite E in T. split; [split; [by exists base|]|exists base; by rewrite E2].
  exists h. rewrite E1. split; [done|]. by eapply same_tree_is_Some.
Qed.

Lemma add_state_ok r n skip d d' : fork_ok r d -> add_state n skip d = Ok d' -> formed (bs n) -> is_Some (findex d !! prev n) -> fork_ok r d'.
Proof.
  intros [_ (base & T & Hl)] H F Hp. destruct (add_state_spec _ _ _ _ _ T F Hp H) as [B%best_in [(E1 & E2 & T')|(o & _ & Ho & Ei & T')]].
  - split; [split; [exists base; by rewrite E1|done]|]. exists base. by rewrite E1, E2.
  - split; [split; [by exists (bid o)|done]|]. exists (bid o). split; [done|]. rewrite Ei. by eapply line_snoc.
Qed.

Lemma add_block_state b skip d d' : add_block hash header_digest schedule_hash recover by_lib by_num b skip d = Ok d' ->
  exists prior s, findex d !! previous (hdr b) = Some prior /\ next b skip (bs prior) = Ok s /\ add_state (mkBlockState s false false) true d = Ok d'.
Proof.
  unfold add_block. intros H. do 2 apply res_bind_ok in H as (? & _ & H). apply res_bind_ok in H as (prior & Hp & H). apply res_bind_ok in H as (s & Hs & H).
  exists prior, s. destruct (findex d !! previous (hdr b)); [|done]. by injection Hp as ->.
Qed.

Lemma fork_step_ok r d d' : fork_ok r d -> fork_step d d' -> fork_ok r d'.
Proof.
  intros K. pose proof K as [_ (base & T & Hl)]. destruct 1 as [b skip d d' H Hnum|n skip d d' H F Hp|h valid d d' H|h v d d' H|c d d' H].
  - apply add_block_state in H as (prior & s & Hp & Hn & H). destruct (tr_block _ _ T _ _ Hp) as [Eid F].
    destruct (formed_next _ _ _ _ F Hn (Hnum _ Hp)) as [F' _]. apply next_header in Hn as [Hprev _].
    eapply add_state_ok; [done|exact H|done|]. exists prior. unfold prev. cbn. rewrite Hprev. fold (bid prior). by rewrite Eid.
  - by eapply add_state_ok.
  - destruct valid; unfold set_validity in H.
    + injection H as <-. eapply fork_ok_same; [done|by apply same_tree_alter|done|done].
    + destruct (remove_spec _ _ _ (tree_keyed _ _ T) H) as (B%best_in & Ei & Hs). pose proof (tree_remove _ _ _ _ T Hs) as T'.
      split; [split; [by exists base|done]|]. exists base. by rewrite Ei.
  - unfold mark_in_current_chain in H. destruct (Bool.eqb _ _); [by injection H as <-|]. apply res_bind_ok in H as (? & _ & [= <-]).
    eapply fork_ok_same; [done|by apply same_tree_alter|done|done].
  - unfold add_header_confirmation in H. apply res_bind_ok in H as (b & Hb & H). apply res_bind_ok in H as (s & Hs & H).
    destruct (findex d !! conf_block_id c) as [b'|] eqn:Eb; [injection Hb as ->|done].
    assert (Es : same_tree (findex d) (<[conf_block_id c := b <| bs := s |>]> (findex d))).
    { eapply same_tree_insert; [done|]. unfold add_confirmation in Hs. do 3 apply res_bind_ok in Hs as (? & _ & Hs). by injection Hs as <-. }
    set (d1 := d <| findex := <[conf_block_id c := b <| bs := s |>]> (findex d) |>) in H.
    assert (K1 : fork_ok r d1) by (by eapply fork_ok_same). destruct (_ && _)%bool; [|by injection H as <-].
    destruct (set_bft_irreversible_spec (conf_block_id c) d1) as (d2 & E & E1 & E2 & E3); [cbn; rewrite lookup_insert_eq; by eexists|].
    rewrite E in H. injection H as <-. by eapply fork_ok_same.
Qed.

Lemma fork_steps_ok r d d' : fork_ok r d -> rtc fork_step d d' -> fork_ok r d'.
Proof. intros K H. induction H as [|d d1 d2 Hs _ IH]; [done|]. apply IH. by eapply fork_step_ok. Qed.

Lemma fork_start_ok r d : formed (bs r) -> set_ header_digest r fork_init = (Ok tt, d) -> fork_ok r d.
Proof.
  intros F H. unfold set_ in H. rewrite (bool_decide_eq_true_2 (findex fork_init !! bid r = None)) in H by done. cbn in H.
  rewrite bool_decide_eq_true_2 in H by apply (fo_id _ F). injection H as <-.
  assert (T : tree (prev r) {[bid r := r]}).
  { split.
    - intros id b [<- <-]%lookup_singleton_Some. done.
    - apply lookup_singleton_ne. intros E. pose proof (fo_num _ F) as En. pose proof (fo_pos _ F) as Hp. unfold header_block_num in En. fold (prev r) in En.
      rewrite <- E in En. unfold bid in En. rewrite (fo_id _ F), id_carries_num, <- (fo_num _ F) in En. unfold u32 in En. rewrite Z.mod_small in En; lia.
    - intros id b [<- <-]%lookup_singleton_Some. by left. }
  split; [split; [by exists (prev r)|exists (bid r); cbn; split; [done|]; by rewrite lookup_insert_eq]|]. by exists (prev r).
Qed.

(** ** Claims *)

(** C17: The fork database stays one tree.  From the block it is set up with, whatever the
    controller calls (blocks and block states added, blocks found valid or
    invalid, marks, confirmations): the blocks of the index hang from one block
    outside of it by their previous ids, ids and numbers agree with the headers and
    go up by one, the head is in the index, and the blocks signalled irreversible
    form one line, each on the one before, from the first block to the one
    everything left builds on. *)
Theorem fork_db_tree r d0 d : formed (bs r) -> set_ header_digest r fork_init = (Ok tt, d0) -> rtc fork_step d0 d ->
  (exists h, fhead d = Some h /\ is_Some (findex d !! h)) /\
  exists base, line (prev r) (irreversible d) base /\ findex d !! base = None /\
    forall id b, findex d !! id = Some b -> bid b = id /\ num_from_id id = bnum b /\ builds_on (findex d) base id /\
      (prev b = base /\ bnum b = low base \/ exists p, findex d !! prev b = Some p /\ bnum b = bnum p + 1).
Proof.
  intros F H0 H. pose proof (fork_steps_ok _ _ _ (fork_start_ok _ _ F H0) H) as K.
  destruct K as [[_ Hh] (base & T & Hl)]. split; [done|]. exists base. split; [done|]. split; [apply T|]. intros id b Hb.
  split; [by apply (tree_keyed _ _ T)|]. split; [by apply (tree_id_num _ _ T)|]. split; [by eapply tree_builds|].
  pose proof (tree_prev_num _ _ T _ _ Hb) as [En _]. destruct (tr_up _ _ T _ _ Hb) as [E|[p Hp]]; [left|right].
  - split; [done|]. unfold low. by rewrite <- E.
  - exists p. split; [done|]. by eapply (parent_num _ _ T).
Qed.

(** C28: [fetch_branch_from] on a tree returns: for any two blocks of the index it gives two
    paths of blocks, each block built on the next one, from these blocks down to
    one common prior block; neither is empty, and the last blocks are the only ones of
    the two branches with a prior block in common. *)
Theorem branches_meet base d first second : tree base (findex d) -> is_Some (findex d !! first) -> is_Some (findex d !! second) ->
  exists l1 l2 p, fetch_branch_from first second d = Ok (l1, l2) /\ l1 <> [] /\ l2 <> [] /\
    branch (findex d) first l1 p /\ branch (findex d) second l2 p /\ part_at_end l1 l2.
Proof. intros T. by apply fetch_spec with base. Qed.

(** C29: Adding a block to a tree returns, and leaves a head that no block precedes.  Let [n]
    be a well formed block, not yet in the database, whose previous block is in it, let [o]
    be the first of its number of the lowest blocks and [c] a block on top of [o] that is
    first of its number.  The last irreversible block is the latest that any block
    of the tree, [n] included, has reached.  If [o] lies below it, [o] is signalled as
    irreversible and exactly the blocks that build on it stay; if not, [n] is added and nothing is
    signalled or removed.  The removal of [o]'s rivals never meets an erased iterator. *)
Theorem add_prunes base o c n skip d : tree base (findex d) -> formed (bs n) -> is_Some (findex d !! prev n) -> findex d !! bid n = None -> fhead d <> None ->
  let idx := <[bid n := n]> (findex d) in
  idx !! bid o = Some o -> prev o = base -> leads idx o -> idx !! bid c = Some c -> prev c = bid o -> leads idx c ->
  exists d' h, add_state n skip d = Ok d' /\ best_head d' /\ most_final idx h /\
    if bnum o <? dpos_irreversible_blocknum (bs h)
    then irreversible d' = irreversible d ++ [o] /\ forall x b, findex d' !! x = Some b <-> idx !! x = Some b /\ x <> bid o /\ builds_on idx (bid o) x
    else findex d' = idx /\ irreversible d' = irreversible d.
Proof.
  intros T F Hp Hn Hh idx Ho Hob Lo Hc Hco Lc.
  destruct (add_state_eq _ n skip _ T F Hp Hn Hh) as (o' & d1 & prunes & E1 & E2 & T1 & B & Ho' & Hlow & Hold & Hne & E & h & Hf & Epr). rewrite E. fold idx in E1.
  assert (o' = o) as ->.
  { rewrite <- E1 in Ho. assert (En : bnum o = low base) by (unfold low; rewrite <- Hob; apply (tree_prev_num _ _ T1 _ _ Ho)).
    destruct (Hold _ _ Ho) as [Hb|?]; [|done]. destruct (decide (bid o' = bid o)) as [Ei|Ei]; [rewrite Ei, Ho in Ho'; by injection Ho'|].
    rewrite E1 in Ho'. destruct (Lo _ _ Ho' ltac:(lia) ltac:(congruence)) as [Hm Hm']. unfold before_num in Hb. rewrite Hm, Hm' in Hb. lia. }
  destruct prunes; [specialize (Hne eq_refl)|].
  - rewrite <- E1 in *. destruct (prune_level_total _ _ T1 o Ho' Hlow c d1 eq_refl B Hne Hc Hco Lc) as [d' E']. exists d', h. rewrite <- Epr. split; [done|].
    destruct (prune_level_spec _ _ T1 _ Ho' Hlow _ _ eq_refl B Hne E') as (_ & B' & Ei & Hs). split; [done|]. split; [done|]. by rewrite Ei, E2.
  - exists d1, h. rewrite <- Epr. split; [done|]. split; [done|]. rewrite <- E1. done.
Qed.
End orders.
End trees.

(** ** Examples *)

(** Sorted by an order, blocks of earlier slots first among equals: as if they had
    arrived in the order of their slots. *)
Definition slot (b : block_state) : Z := timestamp (hdr (header (bs b))).
Definition upto (before : block_state -> block_state -> bool) (b c : block_state) : Prop :=
  Is_true (before b c || (negb (before c b) && (slot b <=? slot c))).
#[export] Instance upto_dec before b c : Decision (upto before b c) := Is_true_dec _.
Definition sorted_by (before : block_state -> block_state -> bool) : list block_state -> list block_state := merge_sort (upto before).

#[export] Instance upto_lib_total : Total (upto before_lib).
Proof. intros b c. unfold upto, before_lib. rewrite !Is_true_true. lia. Qed.
#[export] Instance upto_lib_trans : Transitive (upto before_lib).
Proof. intros b c e. unfold upto, before_lib. rewrite !Is_true_true. lia. Qed.
#[export] Instance upto_num_total : Total (upto before_num).
Proof. intros b c. unfold upto, before_num. rewrite !Is_true_true. destruct (in_current_chain b), (in_current_chain c); lia. Qed.
#[export] Instance upto_num_trans : Transitive (upto before_num).
Proof. intros b c e. unfold upto, before_num. rewrite !Is_true_true. destruct (in_current_chain b), (in_current_chain c), (in_current_chain e); lia. Qed.

Lemma sorted_by_lawful before : Total (upto before) -> Transitive (upto before) -> (forall b c, before b c = true -> before c b = false) ->
  lawful_order before (sorted_by before).
Proof.
  intros Ht Htr Hasym. split; intros l; [apply merge_sort_Permutation|].
  pose proof (StronglySorted_merge_sort (upto before) l) as S. unfold sorted_by. induction S as [|b l' _ IH H]; constructor; [done|].
  eapply Forall_impl; [exact H|]. intros c. unfold upto. rewrite Is_true_true. destruct (before b c) eqn:E; [intros _; by apply Hasym|].
  destruct (before c b); [done|done].
Qed.

Lemma by_lib_lawful : lawful_order before_lib (sorted_by before_lib).
Proof. apply sorted_by_lawful; try apply _. intros b c. unfold before_lib. lia. Qed.
Lemma by_num_lawful : lawful_order before_num (sorted_by before_num).
Proof. apply sorted_by_lawful; try apply _. intros b c. unfold before_num. destruct (in_current_chain b), (in_current_chain c); lia. Qed.

Definition genesis_block : block_state := mkBlockState (genesis_header_state digest_demo hash_schedule_demo 7 12 digest0) false false.
Definition db0 : fork_database := (set_ digest_demo genesis_block fork_init).2.
Definition add_demo (h : signed_block_header) : fork_database -> res fork_database :=
  add_block pair_demo digest_demo hash_schedule_demo recover_demo (sorted_by before_lib) (sorted_by before_num) h false.

(** The block of a slot. *)
Definition at_slot (t : Z) (d : fork_database) : block_state := default genesis_block (head (filter (fun b => slot b = t) (blocks (findex d)))).

(** The header for a slot, on top of the block of another one. *)
Definition header_on (parent t : Z) (np : option producer_schedule_type) (d : fork_database) : signed_block_header :=
  let s := bs (at_slot parent d) in propose s t (honest s t) np.

Fixpoint adds (l : list (Z * Z * option producer_schedule_type)) (d : fork_database) : res fork_database :=
  match l with
  | [] => Ok d
  | (parent, t, np) :: l' => d ← add_demo (header_on parent t np d) d; adds l' d
  end.

Fixpoint chain_of (parent : Z) (l : list Z) : list (Z * Z * option producer_schedule_type) :=
  match l with [] => [] | t :: l' => (parent, t, None) :: chain_of t l' end.

Definition start_ops := [(12, 13, None); (13, 14, Some (keys 1 ["a"; "b"; "c"; "d"])); (14, 15, None)].

(** Producer d makes two blocks that arrive too late for the others, who go on from the
    block of slot 15. *)
Definition fork_ops (l : list Z) := start_ops ++ chain_of 15 [46; 47] ++ chain_of 15 l.
Definition db_of (l : list (Z * Z * option producer_schedule_type)) : fork_database := ok_or db0 (adds l db0).

#[local] Abbreviation step_demo := (fork_step pair_demo digest_demo hash_schedule_demo recover_demo (sorted_by before_lib) (sorted_by before_num)).
#[local] Abbreviation formed_demo := (formed digest_demo).

Fixpoint adds_small (l : list (Z * Z * option producer_schedule_type)) (d : fork_database) : bool :=
  match l with
  | [] => true
  | (parent, t, np) :: l' =>
      match findex d !! previous (hdr (header_on parent t np d)) with Some p => bnum p + 1 <? 2^32 - 1 | None => true end &&
      match add_demo (header_on parent t np d) d with Ok d => adds_small l' d | Err _ => false end
  end.

Lemma adds_steps l : forall d, adds_small l d = true -> exists d', adds l d = Ok d' /\ rtc step_demo d d'.
Proof.
  induction l as [|[[parent t] np] l IH]; intros d H; cbn [adds adds_small] in *; [by exists d|]. apply andb_prop in H as [H1 H2].
  destruct (add_demo _ d) as [d1|e] eqn:E; [|done]. destruct (IH d1 H2) as (d' & E' & Hr). exists d'. split; [exact E'|].
  eapply rtc_l; [|exact Hr]. eapply step_block; [exact E|]. intros p Hp. rewrite Hp in H1. lia.
Qed.

Lemma genesis_block_formed : formed_demo (bs genesis_block).
Proof. apply genesis_formed. Qed.
Lemma db0_set : set_ digest_demo genesis_block fork_init = (Ok tt, db0).
Proof. vm_compute. reflexivity. Qed.

Lemma db_of_steps l : adds_small l db0 = true -> rtc step_demo db0 (db_of l).
Proof. intros H. destruct (adds_steps l db0 H) as (d & E & Hr). unfold db_of. by rewrite E. Qed.

Lemma db_of_ok l : adds_small l db0 = true -> fork_ok digest_demo genesis_block (db_of l).
Proof.
  intros H. pose proof (fork_start_ok digest_demo genesis_block db0 genesis_block_formed db0_set) as K.
  apply (fork_steps_ok pair_demo _ hash_schedule_demo recover_demo _ _ by_lib_lawful by_num_lawful _ _ (db_of l)) in K; [done|by apply db_of_steps].
Qed.

Lemma db_of_tree l : adds_small l db0 = true -> exists base, tree digest_demo base (findex (db_of l)).
Proof. intros H%db_of_ok. apply H. Qed.

Lemma fork_db_tree_witness : let d := db_of (fork_ops [48; 60; 72; 84; 96]) in
  map bnum (irreversible d) = [1; 2; 3] /\ (exists h, fhead d = Some h /\ is_Some (findex d !! h)) /\ exists base, line (prev genesis_block) (irreversible d) base.
Proof.
  cbv zeta. split; [vm_compute; reflexivity|].
  assert (Hs : adds_small (fork_ops [48; 60; 72; 84; 96]) db0 = true) by (vm_compute; reflexivity). apply db_of_steps in Hs.
  set (d := db_of _) in *. clearbody d.
  pose proof (fork_db_tree pair_demo digest_demo hash_schedule_demo recover_demo _ _ by_lib_lawful by_num_lawful genesis_block db0
    d genesis_block_formed db0_set Hs) as [H1 (base & H2 & _)].
  split; [exact H1|]. exists base. exact H2.
Defined.

Definition somes {A} (o : option A) : bool := match o with Some _ => true | None => false end.
Lemma somes_ok {A} (o : option A) : somes o = true -> is_Some o.
Proof. destruct o as [a|]; [by exists a|done]. Qed.

Lemma branches_meet_witness : let d := db_of (fork_ops [48; 60; 72]) in
  exists l1 l2 p, fetch_branch_from (bid (at_slot 47 d)) (bid (at_slot 72 d)) d = Ok (l1, l2) /\ branch (findex d) (bid (at_slot 47 d)) l1 p /\
    branch (findex d) (bid (at_slot 72 d)) l2 p.
Proof.
  cbv zeta. destruct (db_of_tree (fork_ops [48; 60; 72]) ltac:(vm_compute; reflexivity)) as [base T].
  assert (H1 : somes (findex (db_of (fork_ops [48; 60; 72])) !! bid (at_slot 47 (db_of (fork_ops [48; 60; 72])))) = true) by (vm_compute; reflexivity).
  assert (H2 : somes (findex (db_of (fork_ops [48; 60; 72])) !! bid (at_slot 72 (db_of (fork_ops [48; 60; 72])))) = true) by (vm_compute; reflexivity).
  revert T H1 H2. generalize (db_of (fork_ops [48; 60; 72])). intros d T H1 H2.
  destruct (branches_meet digest_demo base d (bid (at_slot 47 d)) (bid (at_slot 72 d)) T (somes_ok _ H1) (somes_ok _ H2)) as (l1 & l2 & p & E & _ & _ & B1 & B2 & _).
  exists l1, l2, p. split; [exact E|]. split; [exact B1|exact B2].
Defined.

Definition leadsb (idx : gmap digest block_state) (b : block_state) : bool :=
  forallb (fun c => negb (bnum c =? bnum b) || bool_decide (bid c = bid b) || (in_current_chain b && negb (in_current_chain c))) (blocks idx).

Lemma leadsb_ok idx b : keyed idx -> idx !! bid b = Some b -> leadsb idx b = true -> leads idx b.
Proof.
  intros K Hb H x c Hc En Hne. unfold leadsb in H. rewrite forallb_forall in H.
  specialize (H c ltac:(apply list_elem_of_In, blocks_elem; by exists x)). rewrite En, Z.eqb_refl in H. cbn in H. apply orb_prop in H as [E%bool_decide_eq_true|H].
  - rewrite <- (K _ _ Hc), E, Hb in Hc. by injection Hc as <-.
  - apply andb_prop in H as [? ?%negb_true_iff]. done.
Qed.

(** The block of slot 48 is in the current chain; block 4 below becomes irreversible. *)
Definition marked_db : fork_database :=
  let d := db_of (fork_ops [48; 60; 72; 84; 96]) in ok_or d (mark_in_current_chain (at_slot 48 d) true d).
Definition next_block : block_state :=
  mkBlockState (ok_or header_state0 (next pair_demo digest_demo hash_schedule_demo recover_demo (header_on 96 108 None marked_db) false (bs (at_slot 96 marked_db)))) false false.

Lemma marked_tree : tree digest_demo (prev (at_slot 15 marked_db)) (findex marked_db).
Proof.
  destruct (db_of_tree (fork_ops [48; 60; 72; 84; 96]) ltac:(vm_compute; reflexivity)) as [base T].
  assert (E : same_tree (findex (db_of (fork_ops [48; 60; 72; 84; 96]))) (findex marked_db)).
  { unfold marked_db. cbv zeta. generalize (db_of (fork_ops [48; 60; 72; 84; 96])). intros d. unfold mark_in_current_chain.
    destruct (Bool.eqb _ _); [reflexivity|]. destruct (findex d !! _); [|reflexivity]. apply same_tree_alter. reflexivity. }
  rewrite E in T.
  assert (H1 : findex marked_db !! bid (at_slot 15 marked_db) = Some (at_slot 15 marked_db)) by (vm_compute; reflexivity).
  assert (H2 : findex marked_db !! prev (at_slot 15 marked_db) = None) by (vm_compute; reflexivity).
  clear E. revert T H1 H2. generalize marked_db. intros d T H1 H2.
  destruct (tr_up _ _ _ T _ _ H1) as [<-|[p Hp]]; [done|]. by rewrite H2 in Hp.
Qed.

Lemma next_block_formed : formed_demo (bs next_block).
Proof.
  assert (T : formed_demo (bs (at_slot 96 marked_db))).
  { apply (tr_block _ _ _ marked_tree (bid (at_slot 96 marked_db))). vm_compute. reflexivity. }
  assert (Hn : block_num (bs (at_slot 96 marked_db)) + 1 < 2^32 - 1) by (vm_compute; reflexivity).
  unfold next_block. cbn [bs]. set (r := next _ _ _ _ _ _ _). assert (Er : match r with Ok _ => true | Err _ => false end = true) by (vm_compute; reflexivity).
  destruct r as [s|e] eqn:E; [|discriminate Er]. subst r. exact (proj1 (formed_next _ _ _ _ _ _ _ _ T E Hn)).
Qed.

Lemma add_prunes_witness : exists d', add_state (sorted_by before_lib) (sorted_by before_num) next_block true marked_db = Ok d' /\ best_head d' /\
  map slot (irreversible d') = [12; 13; 14; 15].
Proof.
  pose proof marked_tree as T. pose proof next_block_formed as F. set (idx := <[bid next_block := next_block]> (findex marked_db)).
  assert (H1 : somes (findex marked_db !! prev next_block) = true) by (vm_compute; reflexivity).
  assert (H2 : findex marked_db !! bid next_block = None) by (vm_compute; reflexivity).
  assert (H3 : somes (fhead marked_db) = true) by (vm_compute; reflexivity).
  assert (H4 : idx !! bid (at_slot 15 marked_db) = Some (at_slot 15 marked_db)) by (vm_compute; reflexivity).
  assert (H5 : idx !! bid (at_slot 48 marked_db) = Some (at_slot 48 marked_db)) by (vm_compute; reflexivity).
  assert (H6 : prev (at_slot 48 marked_db) = bid (at_slot 15 marked_db)) by (vm_compute; reflexivity).
  assert (H7 : leadsb idx (at_slot 15 marked_db) = true) by (vm_compute; reflexivity).
  assert (H8 : leadsb idx (at_slot 48 marked_db) = true) by (vm_compute; reflexivity).
  assert (H9 : map slot (irreversible (ok_or db0 (add_state (sorted_by before_lib) (sorted_by before_num) next_block true marked_db))) = [12; 13; 14; 15]) by (vm_compute; reflexivity).
  assert (K : keyed idx) by (apply (tree_keyed digest_demo (prev (at_slot 15 marked_db))), tree_insert; [exact T|exact F|exact (somes_ok _ H1)|exact H2]).
  destruct (add_prunes digest_demo _ _ by_lib_lawful by_num_lawful (prev (at_slot 15 marked_db)) (at_slot 15 marked_db) (at_slot 48 marked_db) next_block true marked_db
    T F (somes_ok _ H1) H2) as (d' & h & E & B & _); [intros E; rewrite E in H3; discriminate H3|exact H4|reflexivity|exact (leadsb_ok _ _ K H4 H7)|exact H5|exact H6|exact (leadsb_ok _ _ K H5 H8)|].
  exists d'. split; [exact E|]. split; [exact B|]. rewrite E in H9. exact H9.
Defined.

(** [x] does not build on [r]: the way down from it ends without meeting [r]. *)
Fixpoint asideb (fuel : nat) (idx : gmap digest block_state) (r x : digest) : bool :=
  negb (bool_decide (x = r)) &&
  match idx !! x with
  | None => true
  | Some b => match fuel with O => false | S fuel' => asideb fuel' idx r (prev b) end
  end.

Lemma asideb_ok fuel idx r : forall x, asideb fuel idx r x = true -> ~ builds_on idx r x.
Proof.
  induction fuel as [|fuel IH]; intros x H Hb; cbn [asideb] in H; apply andb_prop in H as [H1%negb_true_iff%bool_decide_eq_false H2];
    inversion Hb as [|? b Hp Hx]; try congruence; rewrite Hx in H2; [done|]. by apply (IH (prev b)).
Qed.

(** C39: Without the marks that [maybe_switch_forks] sets, which a node in read mode
    "irreversible" does not set, [add] can signal the wrong block: when the block that
    makes block 5 of its chain irreversible is added, the oldest block of that number is
    a late one of another fork; it is signalled as irreversible, and the chain of
    the head is removed from the database. *)
Theorem stale_block_irreversible : lawful_order before_lib (sorted_by before_lib) /\ lawful_order before_num (sorted_by before_num) /\
  exists l h d' o b, let d := db_of l in
    rtc step_demo db0 d /\ Forall (fun b => in_current_chain b = false) (blocks (findex d)) /\ add_demo h d = Ok d' /\ irreversible d' = irreversible d ++ [o] /\
    fhead d = Some (bid b) /\ findex d !! bid b = Some b /\ previous (hdr h) = bid b /\
    ~ builds_on (findex d) (bid o) (bid b) /\ findex d' !! bid b = None /\ findex d' !! header_id digest_demo (hdr h) = None.
Proof.
  split; [apply by_lib_lawful|]. split; [apply by_num_lawful|].
  set (l := fork_ops [48; 60; 72; 84; 96; 108]). exists l, (header_on 108 120 None (db_of l)), (ok_or db0 (add_demo (header_on 108 120 None (db_of l)) (db_of l))), (at_slot 46 (db_of l)), (at_slot 108 (db_of l)).
  cbv zeta. split; [apply db_of_steps; vm_compute; reflexivity|].
  split.
  { assert (E : forallb (fun b => negb (in_current_chain b)) (blocks (findex (db_of l))) = true) by (vm_compute; reflexivity).
    apply Forall_forall. intros b Hb%list_elem_of_In. rewrite forallb_forall in E. exact (proj1 (negb_true_iff _) (E b Hb)). }
  split; [vm_compute; reflexivity|]. split; [vm_compute; reflexivity|]. split; [vm_compute; reflexivity|]. split; [vm_compute; reflexivity|].
  split; [vm_compute; reflexivity|]. split; [apply (asideb_ok 20); vm_compute; reflexivity|]. split; vm_compute; reflexivity.
Qed.
