(* ===== verification/ForkStore.v ===== *)
(** * The file of the fork database

    libraries/chain/fork_database.cpp: [close] packs the block states into forkdb.dat and the
    constructor reads them back, with the FC_REFLECT lists of block_state.hpp,
    block_header_state.hpp, block.hpp, block_header.hpp, producer_schedule.hpp,
    incremental_merkle.hpp, transaction.hpp and action.hpp.  A node that stops and
    starts again has the same blocks and the same head; [trxs] is not reflected and is
    empty afterwards. *)

From S2P Require Import Prelude Names Raw Merkle HeaderState Dpos ForkDb ForkTree.
#[local] Open Scope Z_scope.

(** ** The reflected types *)

Definition name_codec : codec Z := uint64.

(** [sha256]: the four words of the hash. *)
Definition digest_codec : codec digest :=
  via (pair_codec (pair_codec uint64 uint64) (pair_codec uint64 uint64))
    (fun d => ((word0 d, word1 d), (word2 d, word3 d))) (fun x => mkDigest x.1.1 x.1.2 x.2.1 x.2.2).

Definition producer_key_codec : codec producer_key :=
  via (pair_codec name_codec public_key_codec)
    (fun k => (producer_name k, HeaderState.block_signing_key k)) (fun x => mkProducerKey x.1 x.2).

Definition producer_schedule_codec : codec producer_schedule_type :=
  via (pair_codec uint32 (list_codec producer_key_codec))
    (fun s => (version s, producers s)) (fun x => mkSchedule x.1 x.2).

Definition extensions_codec : codec (list (Z * list Z)) := list_codec (pair_codec uint16 bytes_codec).

Definition block_header_codec : codec block_header :=
  via (pair_codec uint32 (pair_codec name_codec (pair_codec uint16 (pair_codec digest_codec
        (pair_codec digest_codec (pair_codec digest_codec (pair_codec uint32
        (pair_codec (option_codec producer_schedule_codec) extensions_codec))))))))
    (fun h => (timestamp h, (producer h, (confirmed h, (previous h,
        (transaction_mroot h, (action_mroot h, (schedule_version h,
        (new_producers h, header_extensions h)))))))))
    (fun '(t, (p, (c, (b, (tm, (am, (v, (n, e)))))))) => mkHeader t p c b tm am v n e).

Definition signed_block_header_codec : codec signed_block_header :=
  via (pair_codec block_header_codec signature_codec)
    (fun h => (hdr h, producer_signature h)) (fun x => mkSigned x.1 x.2).

Definition header_confirmation_codec : codec header_confirmation :=
  via (pair_codec digest_codec (pair_codec name_codec signature_codec))
    (fun c => (conf_block_id c, (conf_producer c, conf_signature c))) (fun x => mkConfirmation x.1 x.2.1 x.2.2).

Definition incremental_merkle_codec : codec incremental_merkle :=
  via (pair_codec (list_codec digest_codec) uint64)
    (fun m => (_active_nodes m, _node_count m)) (fun x => mkIncremental x.2 x.1).

Definition block_header_state_codec : codec block_header_state :=
  via (pair_codec digest_codec (pair_codec uint32 (pair_codec signed_block_header_codec (pair_codec uint32 (pair_codec uint32 (pair_codec uint32
        (pair_codec uint32 (pair_codec digest_codec
        (pair_codec producer_schedule_codec (pair_codec producer_schedule_codec (pair_codec incremental_merkle_codec
        (pair_codec (flat_map_codec (pair_codec name_codec uint32)) (pair_codec (flat_map_codec (pair_codec name_codec uint32)) (pair_codec public_key_codec
        (pair_codec (list_codec uint8) (list_codec header_confirmation_codec))))))))))))))))
    (fun s => (bhs_id s, (block_num s, (header s, (dpos_proposed_irreversible_blocknum s, (dpos_irreversible_blocknum s, (bft_irreversible_blocknum s,
        (pending_schedule_lib_num s, (pending_schedule_hash s,
        (pending_schedule s, (active_schedule s, (blockroot_merkle s,
        (producer_to_last_produced s, (producer_to_last_implied_irb s, (bhs_signing_key s,
        (confirm_count s, confirmations s))))))))))))))))
    (fun '(i, (n, (h, (dp, (di, (bi, (pl, (ph, (ps, (as_, (m, (lp, (li, (k, (cc, cs))))))))))))))) =>
        mkHeaderState i n h dp di bi pl ph ps as_ m lp li k cc cs).

(** ** Transactions *)

Definition permission_level_codec : codec (Z * Z) := pair_codec name_codec name_codec.

(** account, name, authorization, data *)
Definition action_codec : codec (Z * (Z * (list (Z * Z) * list Z))) :=
  pair_codec name_codec (pair_codec name_codec (pair_codec (list_codec permission_level_codec) bytes_codec)).

(** expiration, ref_block_num, ref_block_prefix, max_net_usage_words, max_cpu_usage_ms, delay_sec *)
Definition transaction_header_codec : codec (Z * (Z * (Z * (Z * (Z * Z))))) :=
  pair_codec uint32 (pair_codec uint16 (pair_codec uint32 (pair_codec unsigned_int (pair_codec uint8 unsigned_int)))).

(** context_free_actions, actions, transaction_extensions *)
Definition transaction_codec :=
  pair_codec transaction_header_codec (pair_codec (list_codec action_codec) (pair_codec (list_codec action_codec) extensions_codec)).

Record packed_transaction := mkPacked {
  signatures : list Z;
  compression : Z;                             (* 0 none, 1 zlib *)
  packed_context_free_data : list Z;
  packed_trx : list Z
}.

Record transaction_receipt := mkReceipt {
  receipt_status : Z;
  cpu_usage_us : Z;
  net_usage_words : Z;
  receipt_trx : digest + packed_transaction
}.

Record signed_block := mkBlock {
  block_signed_header : signed_block_header;
  transactions : list transaction_receipt;
  block_extensions : list (Z * list Z)
}.

Section file.
(** zlib's inflate, limited to a megabyte: [None] when it throws. *)
Context (zlib_decompress : list Z -> option (list Z)).
(** What [trxs] holds, transaction_metadata. *)
Context {transaction_metadata : Type}.
Context (header_digest : block_header -> digest).

Definition unpacks {A} (c : codec A) (data : list Z) : bool :=
  match unpack c data with Some _ => true | None => false end.

Definition unpack_context_free_data (data : list Z) : bool :=
  match data with [] => true | _ => unpacks (list_codec bytes_codec) data end.

(** [reflector_init] unpacks the transaction of a packed transaction and its context free
    data into a cache and throws when it cannot: whether it returns. *)
Definition reflector_init (p : packed_transaction) : bool :=
  if compression p =? 0 then
    unpacks transaction_codec (packed_trx p) && unpack_context_free_data (packed_context_free_data p)
  else if compression p =? 1 then
    match zlib_decompress (packed_trx p) with Some out => unpacks transaction_codec out | None => false end &&
    match packed_context_free_data p with
    | [] => true
    | data => match zlib_decompress data with Some out => unpack_context_free_data out | None => false end
    end
  else false.

Definition packed_transaction_codec : codec packed_transaction :=
  checked reflector_init (via (pair_codec (list_codec signature_codec) (pair_codec uint8 (pair_codec bytes_codec bytes_codec)))
    (fun p => (signatures p, (compression p, (packed_context_free_data p, packed_trx p))))
    (fun x => mkPacked x.1 x.2.1 x.2.2.1 x.2.2.2)).

Definition transaction_receipt_codec : codec transaction_receipt :=
  via (pair_codec (pair_codec uint8 (pair_codec uint32 unsigned_int)) (variant_codec digest_codec packed_transaction_codec))
    (fun r => ((receipt_status r, (cpu_usage_us r, net_usage_words r)), receipt_trx r))
    (fun x => mkReceipt x.1.1 x.1.2.1 x.1.2.2 x.2).

Definition signed_block_codec : codec signed_block :=
  via (pair_codec signed_block_header_codec (pair_codec (list_codec transaction_receipt_codec) extensions_codec))
    (fun b => (block_signed_header b, (transactions b, block_extensions b))) (fun x => mkBlock x.1 x.2.1 x.2.2).

(** ** Block states, as they are in memory *)

(** A [block_state] with the block and the transactions it holds; the functions of the fork
    database look at the rest only. *)
Record block_object := mkObject {
  ob_state : block_state;
  ob_block : option signed_block;
  ob_trxs : list transaction_metadata
}.

Definition block_state_codec : codec block_object :=
  via (pair_codec block_header_state_codec (pair_codec (option_codec signed_block_codec) (pair_codec bool_codec bool_codec)))
    (fun o => (bs (ob_state o), (ob_block o, (validated (ob_state o), in_current_chain (ob_state o)))))
    (fun x => mkObject (mkBlockState x.1 x.2.2.1 x.2.2.2) x.2.1 []).

(** ** The file *)

(** The first part of [close]: what is written, for the objects of the index in the order of a
    hashed index and the id of the head.  [Some None]: no file; [None]: packing throws. *)
Definition save (objects : list block_object) (head : option digest) : option (option (list Z)) :=
  match objects with
  | [] => Some None
  | _ => match pack unsigned_int (u32 (Z.of_nat (length objects))), pack_all block_state_codec objects,
               pack digest_codec (default digest0 head) with
         | Some b1, Some b2, Some b3 => Some (Some (b1 ++ b2 ++ b3))
         | _, _, _ => None
         end
  end.

(** The loop of the constructor: the objects, the database and the rest of the stream. *)
Fixpoint load (n : nat) (ds : list Z) (d : fork_database) : res (list block_object * fork_database * list Z) :=
  match n with
  | O => Ok ([], d, ds)
  | S n' =>
      match unpack block_state_codec ds with
      | None => Err (ChainError "unpack")
      | Some (s, ds) =>
          match set_ header_digest (ob_state s) d with
          | (Ok _, d) => '(l, d, ds) ← load n' ds d; Ok (s :: l, d, ds)
          | (Err e, _) => Err e
          end
      end
  end.

(** The constructor, with the content of the file if there is one. *)
Definition open_file (content : option (list Z)) : res (list block_object * fork_database) :=
  match content with
  | None => Ok ([], fork_init)
  | Some ds =>
      match unpack unsigned_int ds with
      | None => Err (ChainError "unpack")
      | Some (size, ds) =>
          '(l, d, ds) ← load (Z.to_nat size) ds fork_init;
          match unpack digest_codec ds with
          | None => Err (ChainError "unpack")
          | Some (head_id, _) => Ok (l, d <| fhead := bid <$> (findex d !! head_id) |>)
          end
      end
  end.

(** ** Reading the file back *)

#[local] Arguments bid : simpl never.
#[local] Arguments bnum : simpl never.

#[local] Instance digest_roundtrips : Roundtrips digest_codec.
Proof. apply via_roundtrips; [by intros []|apply _]. Qed.
#[local] Instance producer_key_roundtrips : Roundtrips producer_key_codec.
Proof. apply via_roundtrips; [by intros []|apply _]. Qed.
#[local] Instance producer_schedule_roundtrips : Roundtrips producer_schedule_codec.
Proof. apply via_roundtrips; [by intros []|apply _]. Qed.
#[local] Instance block_header_roundtrips : Roundtrips block_header_codec.
Proof. apply via_roundtrips; [by intros []|apply _]. Qed.
#[local] Instance signed_block_header_roundtrips : Roundtrips signed_block_header_codec.
Proof. apply via_roundtrips; [by intros []|apply _]. Qed.
#[local] Instance header_confirmation_roundtrips : Roundtrips header_confirmation_codec.
Proof. apply via_roundtrips; [by intros []|apply _]. Qed.
#[local] Instance incremental_merkle_roundtrips : Roundtrips incremental_merkle_codec.
Proof. apply via_roundtrips; [by intros []|apply _]. Qed.
#[local] Instance block_header_state_roundtrips : Roundtrips block_header_state_codec.
Proof. apply via_roundtrips; [by intros []|apply _]. Qed.
#[local] Instance packed_transaction_roundtrips : Roundtrips packed_transaction_codec.
Proof. apply checked_roundtrips, via_roundtrips; [by intros []|apply _]. Qed.
#[local] Instance transaction_receipt_roundtrips : Roundtrips transaction_receipt_codec.
Proof. apply via_roundtrips; [by intros []|apply _]. Qed.
#[local] Instance signed_block_roundtrips : Roundtrips signed_block_codec.
Proof. apply via_roundtrips; [by intros []|apply _]. Qed.

(** What is left of an object in the file. *)
Definition forget_trxs (o : block_object) : block_object := mkObject (ob_state o) (ob_block o) [].

Lemma block_state_unpacks o : fits block_state_codec o = true ->
  exists bs, pack block_state_codec o = Some bs /\ forall rest, unpack block_state_codec (bs ++ rest) = Some (forget_trxs o, rest).
Proof.
  intros H. destruct (roundtrips (c := pair_codec block_header_state_codec (pair_codec (option_codec signed_block_codec) (pair_codec bool_codec bool_codec))) _ H) as (bs & E & U).
  exists bs. split; [exact E|]. intros rest. cbn [unpack block_state_codec via]. rewrite U. by destruct o as [[] ? ?].
Qed.

Fixpoint set_all (l : list block_state) (d : fork_database) : res unit * fork_database :=
  match l with
  | [] => (Ok tt, d)
  | s :: l' => match set_ header_digest s d with (Ok _, d) => set_all l' d | (Err e, d) => (Err e, d) end
  end.

(** The loop sets the states it unpacks, one after the other. *)
Lemma load_all objects : forallb (fits block_state_codec) objects = true ->
  exists bs, pack_all block_state_codec objects = Some bs /\ forall rest d d', set_all (map ob_state objects) d = (Ok tt, d') ->
    load (length objects) (bs ++ rest) d = Ok (map forget_trxs objects, d', rest).
Proof.
  induction objects as [|o l IH]; intros H.
  { exists []. split; [done|]. intros rest d d' [= <-]. done. }
  apply andb_prop in H as [H1 H2]. destruct (block_state_unpacks o H1) as (b1 & E1 & U1), (IH H2) as (b2 & E2 & U2).
  exists (b1 ++ b2). cbn [pack_all]. rewrite E1, E2. split; [done|]. intros rest d d' Hs. cbn [map set_all] in Hs. cbn [length load map].
  rewrite <- app_assoc, U1. cbn [ob_state forget_trxs]. destruct (set_ header_digest (ob_state o) d) as [[[]|e] d1]; [|discriminate Hs].
  rewrite (U2 rest d1 d' Hs). done.
Qed.

(** Setting blocks with different ids puts them all into the index. *)
Lemma set_all_spec l : forall d, (forall b, b ∈ l -> formed header_digest (bs b) /\ findex d !! bid b = None) -> NoDup (map bid l) ->
  (fhead d = None -> findex d = ∅) -> (forall h, fhead d = Some h -> is_Some (findex d !! h)) ->
  exists d', set_all l d = (Ok tt, d') /\ irreversible d' = irreversible d /\ findex d' = list_to_map (map (fun b => (bid b, b)) l) ∪ findex d.
Proof.
  induction l as [|b l IH]; intros d Hl Hn Hh1 Hh2; cbn [set_all].
  { exists d. cbn. by rewrite (left_id_L ∅ (∪)). }
  apply NoDup_cons in Hn as [Hb Hn]. destruct (Hl b ltac:(left)) as [F Hd].
  assert (E : exists h, set_ header_digest b d = (Ok tt, mkForkDb (<[bid b := b]> (findex d)) (Some h) (irreversible d)) /\ is_Some (<[bid b := b]> (findex d) !! h)).
  { unfold set_. rewrite (bool_decide_eq_true_2 (findex d !! bid b = None)) by done. rewrite (bool_decide_eq_true_2 (bid b = _)) by apply (fo_id _ _ F).
    destruct d as [idx [h|] irr]; cbn in *; [|exists (bid b); by rewrite lookup_insert_eq]. destruct (Hh2 h eq_refl) as [hb Hhb].
    assert (Hne : bid b <> h) by congruence. rewrite lookup_insert_ne, Hhb by done. destruct (bnum hb <? bnum b).
    - exists (bid b). by rewrite lookup_insert_eq.
    - exists h. by rewrite lookup_insert_ne, Hhb. }
  destruct E as (h & -> & Hs). destruct (IH (mkForkDb (<[bid b := b]> (findex d)) (Some h) (irreversible d))) as (d' & E & Ei & Ed); cbn; [|done|done|by intros ? [= <-]|].
  { intros a Ha. destruct (Hl a ltac:(by right)) as [Fa Hda]. split; [done|]. rewrite lookup_insert_ne; [done|]. intros Eq. apply Hb.
    apply list_elem_of_fmap. exists a. split; [exact Eq|done]. }
  exists d'. split; [exact E|]. split; [done|]. rewrite Ed. cbn. rewrite <- insert_union_l, <- insert_union_r; [done|].
  apply not_elem_of_list_to_map_1. rewrite <- list_fmap_compose. exact Hb.
Qed.


(** The states of a tree, set in any order. *)
Lemma set_all_tree d l : fork_tree header_digest d -> Permutation l (blocks (findex d)) ->
  exists d', set_all l fork_init = (Ok tt, d') /\ findex d' = findex d.
Proof.
  intros [(base & T) _] P. pose proof (tree_keyed _ _ _ T) as K.
  assert (Hnd : NoDup (map bid l)) by (rewrite P, keyed_ids by done; apply NoDup_fst_map_to_list).
  assert (Hmap : list_to_map (map (fun b => (bid b, b)) l) = findex d).
  { rewrite <- (list_to_map_to_list (findex d)). apply list_to_map_proper.
    - rewrite <- list_fmap_compose. exact Hnd.
    - rewrite P. unfold blocks. rewrite map_map. apply Permutation_refl'. etrans; [|apply map_id]. apply map_ext_in.
      intros [x b] Hx%list_elem_of_In%elem_of_map_to_list. cbn. by rewrite (K _ _ Hx). }
  destruct (set_all_spec l fork_init) as (d1 & E1 & _ & Ed); [|done|done|done|].
  { intros b Hb. rewrite P in Hb. apply blocks_elem in Hb as [x Hx]. split; [by apply (tr_block _ _ _ T _ _ Hx)|done]. }
  exists d1. split; [exact E1|]. rewrite Ed, Hmap. apply (right_id_L ∅ (∪)).
Qed.

(** The id in an object that fits is one of 256 bits. *)
Lemma object_id_fits o : fits block_state_codec o = true -> fits digest_codec (bid (ob_state o)) = true.
Proof. intros H. cbn [fits block_state_codec via pair_codec block_header_state_codec] in H. by do 2 apply andb_prop in H as [H _]. Qed.

(** C34: A node that stops and starts again has the same fork database.  Take the objects of the
    index, in whatever order the hashed index lists them, when the fields are within
    the widths of their types, no list is longer than can be packed, the packed transactions of
    the blocks unpack and there are fewer than 2^32 objects.  Then [close] writes a
    file; the constructor reads from its bytes the same objects, with every reflected field, the
    block, [validated] and [in_current_chain] included and with [trxs] empty, which is not
    reflected; and the index and the head are the same again. *)
Theorem reopen_same d objects : fork_tree header_digest d -> Permutation (map ob_state objects) (blocks (findex d)) ->
  forallb (fits block_state_codec) objects = true -> Z.of_nat (length objects) < 2 ^ 32 ->
  exists content d', save objects (fhead d) = Some (Some content) /\
    open_file (Some content) = Ok (map forget_trxs objects, d') /\ findex d' = findex d /\ fhead d' = fhead d.
Proof.
  intros F P Hf Hlen. destruct (set_all_tree d _ F P) as (d1 & E1 & Ed). destruct F as [(base & T) (h & Eh & hb & Hh)].
  pose proof (tree_keyed _ _ _ T _ _ Hh) as Ek.
  assert (Ho : exists o, o ∈ objects /\ ob_state o = hb).
  { assert (Hb : hb ∈ map ob_state objects) by (rewrite P; apply blocks_elem; by exists h). apply list_elem_of_fmap in Hb as (o & -> & Hin). by exists o. }
  destruct Ho as (o & Ho & Eo). destruct (roundtrips (c := digest_codec) h) as (b3 & E3 & U3).
  { rewrite <- Ek, <- Eo. apply object_id_fits. rewrite forallb_forall in Hf. by apply Hf, list_elem_of_In. }
  destruct (size_roundtrips (length objects) (2 ^ 32 - 1)) as (b1 & E0 & U1); [lia|lia|].
  destruct (load_all objects Hf) as (b2 & E2 & U2).
  exists (b1 ++ b2 ++ b3), (d1 <| fhead := Some h |>). unfold save, open_file, u32. rewrite Z.mod_small by lia. rewrite E0, E2, Eh. change (default digest0 (Some h)) with h.
  rewrite E3. split; [by destruct objects; [apply elem_of_nil in Ho|]|]. rewrite U1, Nat2Z.id, (U2 b3 fork_init d1 E1).
  cbn [mbind res_bind]. rewrite <- (app_nil_r b3), U3, Ed, Hh. cbn. rewrite Ek. done.
Qed.
End file.
Arguments mkObject {transaction_metadata}.
Arguments ob_state {transaction_metadata}.
Arguments ob_block {transaction_metadata}.
Arguments ob_trxs {transaction_metadata}.

(** ** A concrete file *)

Definition demo_trx (c : Z) : packed_transaction :=
  mkPacked [256 ^ 65 + 77] c [] (default [] (pack transaction_codec ((1546300800, (7, (99, (0, (20, 0))))),
    ([], ([(string_to_name "eosio", (string_to_name "buyram", ([(string_to_name "alice", string_to_name "active")], [1; 2; 3])))], [(5, [4])]))))).

Definition demo_object (b : block_state) : block_object (transaction_metadata := Z) :=
  mkObject b (Some (mkBlock (header (bs b)) [mkReceipt 0 150 16 (inr (demo_trx 0)); mkReceipt 1 150 300 (inr (demo_trx 1)); mkReceipt 4 0 0 (inl (bid b))] [(1, [9])])) [11].

Lemma reopen_same_witness :
  let d := db_of (fork_ops [48; 60; 72]) in let objects := map demo_object (reverse (blocks (findex d))) in
  exists content d', save Some objects (fhead d) = Some (Some content) /\
    open_file Some digest_demo (Some content) = Ok (map forget_trxs objects, d') /\ findex d' = findex d /\ fhead d' = fhead d.
Proof.
  cbv zeta. assert (F : fork_tree digest_demo (db_of (fork_ops [48; 60; 72]))) by (apply db_of_ok; vm_compute; reflexivity).
  assert (S : forallb (fits (block_state_codec Some)) (map demo_object (reverse (blocks (findex (db_of (fork_ops [48; 60; 72])))))) = true) by (vm_compute; reflexivity).
  assert (L : (Z.of_nat (length (map demo_object (reverse (blocks (findex (db_of (fork_ops [48; 60; 72]))))))) <? 2 ^ 32) = true) by (vm_compute; reflexivity).
  apply Z.ltb_lt in L. revert F S L. generalize (db_of (fork_ops [48; 60; 72])). intros d F S L. apply (reopen_same Some digest_demo d _ F); [|exact S|exact L].
  rewrite map_map. etrans; [|apply reverse_Permutation]. apply Permutation_refl'. apply map_id.
Defined.
