(* ===== verification/ForkSwitch.v ===== *)
(** * Switching forks

    libraries/chain/controller.cpp: [pop_block], [apply_block], [commit_block], [push_block]
    and [maybe_switch_forks], which moves the applied state to the branch of the
    fork database's head, and back when a block of that branch fails.

    The state database is chainbase, which is given by what the controller uses of it: a
    stack of undo sessions.  What executing a block does to the state
    ([start_block] to [finalize_block] with the transactions) is the parameter
    [execute].  Functions return the controller with their result: an exception
    leaves the changes made before it.  Blocks are applied with undo sessions, as they
    are outside of the replay of irreversible blocks; the list of unapplied
    transactions of a speculating node is not kept. *)

From stdpp Require Import sorting.
From S2P Require Import Prelude Names Chain Merkle HeaderState Dpos ForkDb ForkTree.
#[local] Open Scope Z_scope.

(** chainbase: [push] keeps what a session did, [undo] takes the last session back. *)
Class UndoDb (Db St : Type) := {
  current : Db -> St;
  revision : Db -> Z;
  push : St -> Db -> Db;
  undo : Db -> Db;
  current_push st db : current (push st db) = st;
  revision_push st db : revision (push st db) = revision db + 1;
  undo_push st db : undo (push st db) = db
}.

Inductive block_status := validated_block | complete_block.

Record controller (Db : Type) := mkController {
  fork_db : fork_database;
  chead : block_state;
  state_db : Db;
  reversible_blocks : gmap Z digest               (* by number *)
}.
Arguments mkController {Db}. Arguments fork_db {Db}. Arguments chead {Db}. Arguments state_db {Db}. Arguments reversible_blocks {Db}.
#[export] Instance eta_controller Db : Eta (controller Db) := fun c => mkController (fork_db c) (chead c) (state_db c) (reversible_blocks c).

Section controller.
Context {Db St : Type} `{UndoDb Db St}.
Context (hash : digest * digest -> digest) (header_digest : block_header -> digest) (schedule_hash : producer_schedule_type -> digest).
Context (recover : Z -> digest -> Z) (by_lib by_num : list block_state -> list block_state).
Context (execute : St -> digest -> block_status -> res St) (replaying : bool).

(** Code that may throw. *)
Definition CM (A : Type) : Type := controller Db -> controller Db * res A.
#[export] Instance c_ret : MRet CM := fun A a c => (c, Ok a).
#[export] Instance c_bind : MBind CM := fun A B f m c => match m c with (c, Ok a) => f a c | (c, Err e) => (c, Err e) end.
Definition c_throw {A} (e : error) : CM A := fun c => (c, Err e).
Definition c_catch (m : CM unit) (h : error -> CM unit) : CM unit := fun c =>
  match m c with (c, Ok a) => (c, Ok a) | (c, Err e) => h e c end.
Definition c_lift {A} (f : controller Db -> res A) : CM A := fun c => (c, f c).
Definition c_upd (f : controller Db -> controller Db) : CM unit := fun c => (f c, Ok tt).
Definition on_db (f : fork_database -> res fork_database) : CM unit := fun c =>
  match f (fork_db c) with Ok d => (c <| fork_db := d |>, Ok tt) | Err e => (c, Err e) end.

Definition pop_block : CM unit := fun c =>
  match findex (fork_db c) !! prev (chead c) with
  | None => (c, Err (ChainError "attempt to pop beyond last irreversible block"))
  | Some p =>
      (c <| reversible_blocks := delete (bnum (chead c)) (reversible_blocks c) |> <| chead := p |> <| state_db := undo (state_db c) |>, Ok tt)
  end.

(** A produced block is added to the fork database; a block that came from there is
    not.  The row of the block is written and the session kept. *)
Definition commit_block (add_to_fork_db : bool) (b : block_state) (st : St) : CM unit :=
  (if add_to_fork_db then
     on_db (add_state by_lib by_num (b <| validated := true |>) true);;
     h ← c_lift (fun c => deref (fhead (fork_db c) ≫= fun h => findex (fork_db c) !! h) "head");
     c_upd (fun c => c <| chead := h |>);;
     c_lift (fun c => hs_assert (bool_decide (bid b = bid h)) "committed block did not become the new head in fork database")
   else mret tt);;
  (if replaying then mret tt
   else fun c => match reversible_blocks c !! bnum b with
                 | Some _ => (c, Err (ChainError "could not insert object"))
                 | None => (c <| reversible_blocks := <[bnum b := bid b]> (reversible_blocks c) |>, Ok tt)
                 end);;
  c_upd (fun c => c <| state_db := push st (state_db c) |>).

Definition apply_block (b : block_state) (s : block_status) : CM unit :=
  st ← c_lift (fun c =>
    _ ← hs_assert (revision (state_db c) =? bnum (chead c)) "db revision is not on par with head block";
    execute (current (state_db c)) (bid b) s);
  commit_block false b st.

Definition set_head (b : block_state) : CM unit := c_upd (fun c => c <| chead := b |>).
Definition mark (b : block_state) (v : bool) : CM unit := on_db (mark_in_current_chain b v).
Definition check_sync (second : list block_state) (msg : string) : CM unit :=
  c_lift (fun c => hs_assert (bool_decide (Some (bid (chead c)) = prev <$> last second)) msg).

(** The blocks of a branch are popped, from its head down. *)
Fixpoint unwind (l : list block_state) : CM unit :=
  match l with [] => mret tt | b :: l' => mark b false;; pop_block;; unwind l' end.

(** The good blocks are applied again, from the lowest up. *)
Fixpoint reapply (l : list block_state) : CM unit :=
  match l with [] => mret tt | b :: l' => apply_block b validated_block;; set_head b;; mark b true;; reapply l' end.

Definition status_of (b : block_state) : CM block_status :=
  c_lift (fun c => Ok (if validated (now (fork_db c) b) then validated_block else complete_block)).

(** One block of the new branch. *)
Definition try_block (b : block_state) : CM unit :=
  s ← status_of b; apply_block b s;; set_head b;; mark b true;; on_db (set_validity by_lib b true).

(** A block failed: it goes, the ones applied before it are popped, and the old branch is
    applied again. *)
Definition back_out (b : block_state) (applied second : list block_state) (e : error) : CM unit :=
  on_db (set_validity by_lib b false);; unwind applied;;
  check_sync second "loss of sync between fork_db and chainbase during fork switch reversal";;
  reapply (reverse second);; c_throw e.

(** The new branch, from the lowest block up. *)
Fixpoint advance (todo applied second : list block_state) : CM unit :=
  match todo with
  | [] => mret tt
  | b :: todo' => fun c =>
      match try_block b c with
      | (c, Ok _) => advance todo' (b :: applied) second c
      | (c, Err e) => back_out b applied second e c
      end
  end.

Definition maybe_switch_forks (s : block_status) : CM unit := fun c =>
  match fhead (fork_db c) ≫= fun h => findex (fork_db c) !! h with
  | None => (c, Err (ChainError "no head block set"))
  | Some new_head =>
      if bool_decide (prev new_head = bid (chead c)) then
        c_catch (apply_block new_head s;; mark new_head true;; on_db (set_validity by_lib new_head true);; set_head new_head)
          (fun e => on_db (set_validity by_lib new_head false);; c_throw e) c
      else if negb (bool_decide (bid new_head = bid (chead c))) then
        ('(first, second) ← c_lift (fun c => fetch_branch_from (bid new_head) (bid (chead c)) (fork_db c));
         unwind second;; check_sync second "loss of sync between fork_db and chainbase during fork switch";;
         advance (reverse first) [] second) c
      else (c, Ok tt)
  end.

(** [push_block] of a block whose header state was made on top of its parent. *)
Definition push_block (b : signed_block_header) : CM unit :=
  n ← c_lift (fun c => _ ← hs_assert (bool_decide (findex (fork_db c) !! header_id header_digest (hdr b) = None)) "we already know about this block";
                       prior ← deref (findex (fork_db c) !! previous (hdr b)) "unlinkable block";
                       s ← next hash header_digest schedule_hash recover b false (bs prior);
                       Ok (mkBlockState s false false));
  on_db (add_state by_lib by_num n false);; maybe_switch_forks complete_block.
End controller.

(** ** Paths *)

Section paths.
Context (header_digest : block_header -> digest).
#[local] Abbreviation tree := (tree header_digest).

(** The ids from [x] down, the last one right above [p]. *)
Inductive path (idx : gmap digest block_state) : digest -> list digest -> digest -> Prop :=
| path_end p : path idx p [] p
| path_block x b l p : idx !! x = Some b -> path idx (prev b) l p -> path idx x (x :: l) p.

Lemma path_app idx l1 : forall x l2 q, path idx x (l1 ++ l2) q <-> exists p, path idx x l1 p /\ path idx p l2 q.
Proof.
  induction l1 as [|y l1 IH]; intros x l2 q; cbn.
  - split; [intros H; exists x; split; [constructor|done]|]. intros (p & H1 & H2). by inversion H1; subst.
  - split.
    + intros H. inversion H as [|? b ? ? Hb Hp]; subst. apply IH in Hp as (p & H1 & H2). exists p. split; [by econstructor|done].
    + intros (p & H1 & H2). inversion H1 as [|? b ? ? Hb Hp]; subst. econstructor; [done|]. apply IH. by exists p.
Qed.

Lemma branch_path base idx x l p : tree base idx -> branch idx x l p -> path idx x (map bid l) p.
Proof.
  intros T. induction 1 as [|x b l p Hb _ IH]; [constructor|]. cbn. rewrite (tree_keyed _ _ _ T _ _ Hb). by econstructor.
Qed.

Lemma path_same idx idx' x l p : same_tree idx idx' -> path idx x l p -> path idx' x l p.
Proof.
  intros E. induction 1 as [|x b l p Hb _ IH]; [constructor|]. destruct (same_tree_lookup _ _ _ _ E Hb) as (b' & Hb' & Ec).
  apply (core_eq header_digest) in Ec as (_ & Ep & _). econstructor; [done|]. by rewrite <- Ep.
Qed.

Lemma builds_same idx idx' r x : same_tree idx idx' -> builds_on idx r x -> builds_on idx' r x.
Proof.
  intros E. induction 1 as [|x b _ IH Hb]; [constructor|]. destruct (same_tree_lookup _ _ _ _ E Hb) as (b' & Hb' & Ec).
  apply (core_eq header_digest) in Ec as (_ & Ep & _). rewrite Ep in IH. by econstructor.
Qed.

Lemma id_num_range x : 0 <= num_from_id x < 2^32.
Proof. apply endian_reverse_twice. apply Z.mod_pos_bound. lia. Qed.

Section tree.
Context (base : digest) (idx : gmap digest block_state) (T : tree base idx).

Lemma prev_id_num x b : idx !! x = Some b -> num_from_id x = num_from_id (prev b) + 1.
Proof.
  intros Hb. rewrite (tree_id_num _ _ _ T _ _ Hb). destruct (tree_prev_num _ _ _ T _ _ Hb) as [E Hr]. pose proof (id_num_range (prev b)) as Hp.
  rewrite E in *. unfold u32 in *. destruct (decide (num_from_id (prev b) + 1 = 2^32)) as [E1|]; [rewrite E1, Z_mod_same_full in Hr; lia|].
  apply Z.mod_small. lia.
Qed.

Lemma path_num x l p : path idx x l p -> num_from_id x = num_from_id p + Z.of_nat (length l).
Proof. induction 1 as [|x b l p Hb _ IH]; cbn [length]; [lia|]. pose proof (prev_id_num _ _ Hb). lia. Qed.

Lemma path_in x l p y : path idx x l p -> y ∈ l -> num_from_id p < num_from_id y <= num_from_id x /\ is_Some (idx !! y).
Proof.
  intros H. induction H as [|x b l p Hb Hp IH]; [by intros ?%elem_of_nil|]. pose proof (path_num _ _ _ Hp). pose proof (prev_id_num _ _ Hb).
  intros [->|Hy]%elem_of_cons; [split; [lia|by exists b]|]. destruct (IH Hy). split; [lia|done].
Qed.

Lemma path_NoDup x l p : path idx x l p -> NoDup l.
Proof.
  induction 1 as [|x b l p Hb Hp IH]; [constructor|]. apply NoDup_cons. split; [|done]. intros Hx.
  pose proof (path_in _ _ _ _ Hp Hx). pose proof (prev_id_num _ _ Hb). lia.
Qed.

(** Of two paths from one block, the one that ends higher is the start of the other. *)
Lemma path_prefix x l1 p l2 q : path idx x l1 p -> path idx x l2 q -> num_from_id q <= num_from_id p -> exists l, l2 = l1 ++ l /\ path idx p l q.
Proof.
  intros H1. revert l2. induction H1 as [p|x b l1 p Hb Hp IH]; intros l2 H2 Hn; [by exists l2|].
  inversion H2 as [|? b' l2' ? Hb' Hp']; subst.
  - pose proof (path_num _ _ _ Hp). pose proof (prev_id_num _ _ Hb). lia.
  - rewrite Hb in Hb'. injection Hb' as <-. destruct (IH _ Hp' Hn) as (l & -> & Hl). by exists l.
Qed.

(** Above the end of a path, what a block of it builds on is in the path. *)
Lemma path_builds x l p f z : path idx x l p -> z ∈ l -> builds_on idx f z -> num_from_id p < num_from_id f -> f ∈ l.
Proof.
  intros H. revert z. induction H as [|x b l p Hb Hp IH]; intros z Hz Hf Hn; [by apply elem_of_nil in Hz|].
  apply elem_of_cons in Hz as [->|Hz]; [|right; by eapply IH]. inversion Hf as [|? b' Hf' Hb']; subst; [left|].
  rewrite Hb in Hb'. injection Hb' as <-. inversion Hp as [|? b' l' ? Hb' Hp']; subst.
  - exfalso. assert (Hle : forall y, builds_on idx f y -> num_from_id f <= num_from_id y); [|specialize (Hle _ Hf'); lia].
    intros y. induction 1 as [|y c _ IHy Hc]; [lia|]. pose proof (prev_id_num _ _ Hc). lia.
  - right. apply IH with (prev b); [left|done|done].
Qed.
End tree.
End paths.

(** ** Marks *)

Definition setm (v : bool) (b : block_state) : block_state := b <| in_current_chain := v |>.
Definition setv (b : block_state) : block_state := b <| validated := true |>.
Definition marks (v : bool) (l : list digest) (idx : gmap digest block_state) : gmap digest block_state := foldl (fun m x => alter (setm v) x m) idx l.
Definition adopt (l : list digest) (idx : gmap digest block_state) : gmap digest block_state :=
  foldl (fun m x => alter setv x (alter (setm true) x m)) idx l.

Lemma marks_lookup v l : forall idx x, marks v l idx !! x = (fun b => if decide (x ∈ l) then setm v b else b) <$> idx !! x.
Proof.
  induction l as [|y l IH]; intros idx x; cbn [marks foldl].
  - by destruct (idx !! x).
  - fold (marks v l (alter (setm v) y idx)). rewrite IH, lookup_alter. destruct (decide (y = x)) as [->|Hne].
    + destruct (idx !! x) as [b|]; [|done]. cbn. rewrite (decide_True (P := x ∈ x :: l)) by left. by case_decide.
    + destruct (idx !! x) as [b|]; [|done]. cbn. destruct (decide (x ∈ l)); [by rewrite decide_True by (by right)|].
      rewrite decide_False; [done|]. by intros [?|?]%elem_of_cons.
Qed.

Lemma adopt_lookup l : forall idx x, adopt l idx !! x = (fun b => if decide (x ∈ l) then setv (setm true b) else b) <$> idx !! x.
Proof.
  induction l as [|y l IH]; intros idx x; cbn [adopt foldl].
  - by destruct (idx !! x).
  - fold (adopt l (alter setv y (alter (setm true) y idx))). rewrite IH. destruct (decide (y = x)) as [->|Hne]; [rewrite !lookup_alter_eq|rewrite !lookup_alter_ne by done].
    + destruct (idx !! x) as [b|]; [|done]. cbn. rewrite (decide_True (P := x ∈ x :: l)) by left. by case_decide.
    + destruct (idx !! x) as [b|]; [|done]. cbn. destruct (decide (x ∈ l)); [by rewrite decide_True by (by right)|].
      rewrite decide_False; [done|]. by intros [?|?]%elem_of_cons.
Qed.

Lemma same_tree_pointwise idx idx' (f : digest -> block_state -> block_state) : (forall x, idx' !! x = f x <$> idx !! x) -> (forall x b, core (f x b) = core b) -> same_tree idx idx'.
Proof.
  intros E Hf. apply map_eq. intros x. rewrite !lookup_fmap, E. destruct (idx !! x) as [b|]; [|done]. cbn [fmap option_fmap option_map]. by rewrite Hf.
Qed.

Lemma marks_same v l idx : same_tree idx (marks v l idx).
Proof. apply (same_tree_pointwise _ _ (fun x b => if decide (x ∈ l) then setm v b else b)); [apply marks_lookup|]. intros x b. by case_decide. Qed.
Lemma adopt_same l idx : same_tree idx (adopt l idx).
Proof. apply (same_tree_pointwise _ _ (fun x b => if decide (x ∈ l) then setv (setm true b) else b)); [apply adopt_lookup|]. intros x b. by case_decide. Qed.

Lemma mark_eq b v d : is_Some (findex d !! bid b) -> mark_in_current_chain b v d = Ok (d <| findex := alter (setm v) (bid b) (findex d) |>).
Proof.
  intros [b' Hb]. unfold mark_in_current_chain, now. rewrite Hb. cbn. destruct (Bool.eqb_spec (in_current_chain b') v) as [E|]; [|done].
  f_equal. destruct d as [idx h i]. cbn in *. f_equal. symmetry. apply map_eq. intros x. rewrite lookup_alter. case_decide; [subst|done].
  rewrite Hb. cbn. by destruct b'.
Qed.

(** ** The state along a path *)

Section switch.
Context {Db St : Type} `{UndoDb Db St}.
Context (header_digest : block_header -> digest) (by_lib by_num : list block_state -> list block_state) (L : lawful_order before_lib by_lib).
Context (execute : St -> digest -> block_status -> res St) (replaying : bool).
#[local] Abbreviation tree := (tree header_digest).
#[local] Abbreviation apply_b := (apply_block by_lib by_num execute replaying).
#[local] Abbreviation reapply_b := (reapply by_lib by_num execute replaying).
#[local] Abbreviation try_b := (try_block by_lib by_num execute replaying).
#[local] Abbreviation back_out_b := (back_out by_lib by_num execute replaying).
#[local] Abbreviation advance_b := (advance by_lib by_num execute replaying).

Definition row (x : digest) (rows : gmap Z digest) : gmap Z digest := if replaying then rows else <[num_from_id x := x]> rows.
Definition state (c : controller Db) : Db * gmap Z digest := (state_db c, reversible_blocks c).

(** Executing the blocks of [l], the last one first, leads from [s] to [s']. *)
Fixpoint runs (l : list digest) (s s' : Db * gmap Z digest) : Prop :=
  match l with
  | [] => s' = s
  | x :: l' => exists s1 st, runs l' s s1 /\ execute (current s1.1) x validated_block = Ok st /\ s' = (push st s1.1, row x s1.2)
  end.

Lemma runs_app l1 : forall l2 s s', runs (l1 ++ l2) s s' <-> exists s1, runs l2 s s1 /\ runs l1 s1 s'.
Proof.
  induction l1 as [|x l1 IH]; intros l2 s s'; cbn.
  - split; [intros Hr; by exists s'|]. intros (s1 & Hr & ->). done.
  - split.
    + intros (s1 & st & Hr & He & ->). apply IH in Hr as (s2 & H1 & H2). exists s2. split; [done|]. by exists s1, st.
    + intros (s2 & H1 & s1 & st & H2 & He & ->). exists s1, st. split; [|done]. apply IH. by exists s2.
Qed.

(** The revision is the number of the block, and there are rows up to it only. *)
Definition level (x : digest) (s : Db * gmap Z digest) : Prop := revision s.1 = num_from_id x /\ forall n, num_from_id x < n -> s.2 !! n = None.

Lemma runs_level base idx x l p s s' : tree base idx -> path idx x l p -> level p s -> runs l s s' -> level x s'.
Proof.
  intros T Hp Hl. revert s'. induction Hp as [|x b l p Hb Hp IH]; intros s' Hr; cbn in Hr; [by subst|].
  destruct Hr as (s1 & st & Hr & _ & ->). destruct (IH Hl _ Hr) as [E1 E2]. pose proof (prev_id_num _ _ _ T _ _ Hb) as En.
  split; cbn; [rewrite revision_push; lia|]. intros n Hn. unfold row. destruct replaying; [|rewrite lookup_insert_ne by lia]; apply E2; lia.
Qed.

(** The controller's head is the block of the index. *)
Definition head_ok (c : controller Db) : Prop := exists b, findex (fork_db c) !! bid (chead c) = Some b /\ core b = core (chead c).

Definition standing (base : digest) (c : controller Db) (x : digest) (s : Db * gmap Z digest) : Prop :=
  tree base (findex (fork_db c)) /\ head_ok c /\ bid (chead c) = x /\ state c = s.

Definition with_index (c : controller Db) (f : gmap digest block_state -> gmap digest block_state) (d : fork_database) : Prop :=
  d = (fork_db c) <| findex := f (findex (fork_db c)) |>.

Lemma standing_block base c x s : standing base c x s -> exists b, findex (fork_db c) !! x = Some b /\ prev b = prev (chead c) /\ bnum (chead c) = num_from_id x.
Proof.
  intros (T & (b & Hb & Ec) & <- & _). exists b. split; [done|]. apply (core_eq header_digest) in Ec as (_ & Ep & En & _). split; [done|].
  rewrite <- En. symmetry. by apply (tree_id_num _ _ _ T).
Qed.

(** ** Popping *)

Lemma pop_spec base c x s st p db rows : standing base c x s -> s = (push st db, row x rows) -> rows !! num_from_id x = None ->
  findex (fork_db c) !! prev (chead c) = Some p ->
  exists c', pop_block c = (c', Ok tt) /\ standing base c' (prev (chead c)) (db, rows) /\ fork_db c' = fork_db c.
Proof.
  intros Hs -> Hr Hp. destruct (standing_block _ _ _ _ Hs) as (b & Hb & Ep & En). destruct Hs as (T & Hh & Hx & Es). injection Es as Ed Er.
  unfold pop_block. rewrite Hp. eexists. split; [done|]. pose proof (tree_keyed _ _ _ T _ _ Hp) as Ei. split; [|done]. split; [done|]. split; [exists p; cbn; by rewrite Ei|]. split; [done|].
  unfold state. cbn. rewrite Ed, undo_push, Er, En. f_equal. unfold row. destruct replaying; [by apply delete_id|by apply delete_insert_id].
Qed.

Lemma standing_marked base c x s d : standing base c x s -> same_tree (findex (fork_db c)) (findex d) -> standing base (c <| fork_db := d |>) x s.
Proof.
  intros (T & (b & Hb & Ec) & Hx & Es) E. split; [cbn; by rewrite <- E|]. split; [|done]. destruct (same_tree_lookup _ _ _ _ E Hb) as (b' & Hb' & Ec').
  exists b'. split; [done|]. cbn. by rewrite <- Ec', Ec.
Qed.

Lemma unwind_spec base l : forall c x s y s0, standing base c x s -> path (findex (fork_db c)) x (map bid l) y -> is_Some (findex (fork_db c) !! y) ->
  runs (map bid l) s0 s -> level y s0 ->
  exists c', unwind l c = (c', Ok tt) /\ standing base c' y s0 /\ with_index c (marks false (map bid l)) (fork_db c').
Proof.
  induction l as [|b l IH]; intros c x s y s0 Hs Hp Hy Hr Hl.
  - inversion Hp; subst. cbn in Hr. subst s. exists c. split; [done|]. split; [done|]. unfold with_index. cbn. by destruct (fork_db c).
  - cbn [map] in *. inversion Hp as [|? b' ? ? Hb Hp']; subst x. subst. destruct Hr as (s1 & st & Hr & He & Es).
    set (d1 := (fork_db c) <| findex := alter (setm false) (bid b) (findex (fork_db c)) |>).
    assert (E1 : same_tree (findex (fork_db c)) (findex d1)) by (by apply same_tree_alter).
    pose proof (standing_marked _ _ _ _ d1 Hs E1) as Hs1. destruct (standing_block _ _ _ _ Hs) as (b1 & Hb1 & Ep & _). rewrite Hb in Hb1. injection Hb1 as <-.
    pose proof (path_same header_digest _ _ _ _ _ E1 Hp') as Hp1. pose proof (same_tree_is_Some _ _ _ E1 Hy) as Hy1.
    assert (Hpar : is_Some (findex d1 !! prev b')).
    { inversion Hp1 as [|? ? ? ? Hb2 _]; subst; [done|by eexists]. }
    destruct Hpar as [p Hpar]. destruct s1 as [db1 rows1]. cbn in Es, He.
    pose proof (runs_level _ _ _ _ _ _ _ (proj1 Hs) Hp' Hl Hr) as [_ Hrows]. pose proof (prev_id_num _ _ _ (proj1 Hs) _ _ Hb) as En.
    destruct (pop_spec _ _ _ _ st p db1 rows1 Hs1 Es) as (c2 & E2 & Hs2 & Ef); [apply Hrows; lia|cbn; by rewrite <- Ep|].
    cbn in Hs2, Ef. rewrite <- Ep in Hs2. destruct (IH c2 _ _ y s0 Hs2) as (c' & E & Hs' & Ew); [by rewrite Ef|by rewrite Ef|done|done|].
    exists c'. split; [|split; [done|]].
    + cbn [unwind]. unfold mbind, c_bind, mark, on_db. rewrite mark_eq by (by exists b'). fold d1. rewrite E2. exact E.
    + unfold with_index in *. rewrite Ew, Ef. cbn. done.
Qed.

(** ** Applying *)

(** A pointer to a block of the index. *)
Definition known (c : controller Db) (b : block_state) : Prop := exists b', findex (fork_db c) !! bid b = Some b' /\ core b' = core b.

Lemma known_same c c' b : same_tree (findex (fork_db c)) (findex (fork_db c')) -> known c b -> known c' b.
Proof. intros E (b' & Hb & Ec). destruct (same_tree_lookup _ _ _ _ E Hb) as (b2 & Hb2 & Ec2). exists b2. split; [done|]. by rewrite <- Ec2. Qed.

Lemma known_num base c b : tree base (findex (fork_db c)) -> known c b -> bnum b = num_from_id (bid b).
Proof. intros T (b' & Hb & Ec). apply (core_eq header_digest) in Ec as (_ & _ & <- & _). symmetry. by apply (tree_id_num _ _ _ T). Qed.

Lemma apply_run base c x s b status : standing base c x s -> level x s -> known c b -> prev b = x ->
  match execute (current s.1) (bid b) status with
  | Ok st => exists c', apply_b b status c = (c', Ok tt) /\ fork_db c' = fork_db c /\ chead c' = chead c /\ state c' = (push st s.1, row (bid b) s.2)
  | Err e => apply_b b status c = (c, Err e)
  end.
Proof.
  intros Hs [Hv Hr] Hk Hp. destruct (standing_block _ _ _ _ Hs) as (hb & _ & _ & En). pose proof (known_num _ _ _ (proj1 Hs) Hk) as Eb.
  destruct Hk as (b' & Hb & Ec). pose proof (prev_id_num _ _ _ (proj1 Hs) _ _ Hb) as Ep. apply (core_eq header_digest) in Ec as (_ & Epp & _). rewrite Epp, Hp in Ep.
  destruct Hs as (T & _ & Hx & Es). unfold state in Es. rewrite <- Es in *. cbn in Hv, Hr |- *.
  unfold apply_block, mbind, c_bind, c_lift. rewrite En, Hv, Z.eqb_refl. cbn. destruct (execute _ _ _) as [st|e]; [|done].
  unfold commit_block, mbind, c_bind, c_upd, mret, c_ret. unfold row. destruct replaying.
  - eexists. done.
  - rewrite Eb, Hr by lia. eexists. done.
Qed.

(** The block is applied and becomes the head. *)
Lemma standing_up base c c' x s b s' : standing base c x s -> known c b -> fork_db c' = fork_db c -> state c' = s' ->
  standing base (c' <| chead := b |>) (bid b) s'.
Proof.
  intros (T & _) (b' & Hb & Ec) Ef Es. split; [cbn; by rewrite Ef|]. split; [|split; [done|by rewrite <- Es]]. exists b'. cbn. by rewrite Ef.
Qed.

Lemma marks_step v x l c c1 d : with_index c (alter (setm v) x) (fork_db c1) -> with_index c1 (marks v l) d -> with_index c (marks v (x :: l)) d.
Proof. unfold with_index. intros -> ->. done. Qed.

Lemma reapply_spec base l : forall c x s y s', standing base c y s -> level y s -> path (findex (fork_db c)) x (map bid (reverse l)) y ->
  runs (map bid (reverse l)) s s' -> Forall (known c) l ->
  exists c', reapply_b l c = (c', Ok tt) /\ standing base c' x s' /\ with_index c (marks true (map bid l)) (fork_db c').
Proof.
  induction l as [|b l IH]; intros c x s y s' Hs Hl Hp Hr Hk.
  - cbn in *. inversion Hp; subst. exists c. split; [done|]. split; [done|]. unfold with_index. cbn. by destruct (fork_db c).
  - rewrite reverse_cons, map_app in Hp, Hr. apply Forall_cons in Hk as [Hb Hk]. apply path_app in Hp as (z & Hp1 & Hp2).
    inversion Hp2 as [|? b1 ? ? Hb1 Hp3]; subst. inversion Hp3; subst.
    apply runs_app in Hr as (s1 & Hr1 & Hr2). destruct Hr1 as (s2 & st & -> & He & ->).
    assert (Epb : prev b = prev b1). { destruct Hb as (b2 & Hb2 & Ec). rewrite Hb1 in Hb2. injection Hb2 as <-. by apply (core_eq header_digest) in Ec as (_ & -> & _). }
    pose proof (apply_run _ _ _ _ b validated_block Hs Hl Hb Epb) as Ha. rewrite He in Ha. destruct Ha as (c1 & Ea & Ef & _ & Est).
    pose proof (standing_up _ _ _ _ _ _ _ Hs Hb Ef Est) as Hs1.
    set (d2 := (fork_db c) <| findex := alter (setm true) (bid b) (findex (fork_db c)) |>).
    assert (E2 : same_tree (findex (fork_db c)) (findex d2)) by (by apply same_tree_alter).
    pose proof (standing_marked _ _ _ _ d2 Hs1) as Hs2. cbn in Hs2. rewrite Ef in Hs2. specialize (Hs2 E2).
    destruct (IH (c1 <| chead := b |> <| fork_db := d2 |>) x _ (bid b) s' Hs2) as (c' & E & Hs' & Ew).
    + apply (runs_level base _ (bid b) [bid b] (prev b1) s _ (proj1 Hs) Hp2 Hl). by exists s, st.
    + by apply (path_same header_digest (findex (fork_db c))).
    + done.
    + eapply Forall_impl; [exact Hk|]. intros k Hk'. by apply (known_same c).
    + exists c'. split; [|split; [done|by eapply marks_step; [|exact Ew]]].
      cbn [reapply]. unfold mbind, c_bind. rewrite Ea. unfold set_head, c_upd, mark, on_db. cbn. rewrite Ef, mark_eq by (by exists b1). exact E.
Qed.

(** The status a block of the new branch is applied with. *)
Definition status (c : controller Db) (b : block_state) : block_status := if validated (now (fork_db c) b) then validated_block else complete_block.

Lemma try_run base c x s b : standing base c x s -> level x s -> known c b -> prev b = x ->
  match execute (current s.1) (bid b) (status c b) with
  | Ok st => exists c', try_b b c = (c', Ok tt) /\ standing base c' (bid b) (push st s.1, row (bid b) s.2) /\ with_index c (adopt [bid b]) (fork_db c')
  | Err e => try_b b c = (c, Err e)
  end.
Proof.
  intros Hs Hl Hk Hp. pose proof (apply_run _ _ _ _ b (status c b) Hs Hl Hk Hp) as Ha. unfold try_block, mbind, c_bind, status_of, c_lift. fold (status c b).
  destruct (execute _ _ _) as [st|e]; [|by rewrite Ha]. destruct Ha as (c1 & Ea & Ef & _ & Est). rewrite Ea.
  pose proof (standing_up _ _ _ _ _ _ _ Hs Hk Ef Est) as Hs1. destruct Hk as (b' & Hb & _).
  set (d2 := (fork_db c) <| findex := alter setv (bid b) (alter (setm true) (bid b) (findex (fork_db c))) |>).
  assert (E2 : same_tree (findex (fork_db c)) (findex d2)) by apply (adopt_same [bid b]).
  pose proof (standing_marked _ _ _ _ d2 Hs1) as Hs2. cbn in Hs2. rewrite Ef in Hs2. specialize (Hs2 E2).
  exists (c1 <| chead := b |> <| fork_db := d2 |>). split; [|by split].
  unfold set_head, c_upd, mark, on_db. cbn. rewrite Ef, mark_eq by (by exists b'). done.
Qed.

(** ** The new branch *)

Context (Hrep : forall st x s st', execute st x s = Ok st' -> execute st x validated_block = Ok st').

Lemma adopt_step x l c c1 d : with_index c (adopt [x]) (fork_db c1) -> with_index c1 (adopt l) d -> with_index c (adopt (x :: l)) d.
Proof. unfold with_index. intros -> ->. done. Qed.

Lemma adopt_nil c : with_index c (adopt []) (fork_db c).
Proof. unfold with_index. cbn. by destruct (fork_db c). Qed.

Lemma with_adopt_same c l d : with_index c (adopt l) d -> same_tree (findex (fork_db c)) (findex d).
Proof. unfold with_index. intros ->. apply adopt_same. Qed.

Lemma advance_spec base second p sp nh : level p sp -> forall todo appl c x s, standing base c x s ->
  path (findex (fork_db c)) x (map bid appl) p -> path (findex (fork_db c)) nh (map bid (reverse todo)) x -> runs (map bid appl) sp s -> Forall (known c) todo ->
  (exists c' s', advance_b todo appl second c = (c', Ok tt) /\ standing base c' nh s' /\ runs (map bid (reverse todo) ++ map bid appl) sp s' /\
     with_index c (adopt (map bid todo)) (fork_db c')) \/
  (exists pre b post e c1 x1 s1, todo = pre ++ b :: post /\ advance_b todo appl second c = back_out_b b (reverse pre ++ appl) second e c1 /\
     standing base c1 x1 s1 /\ prev b = x1 /\ path (findex (fork_db c)) x1 (map bid (reverse pre ++ appl)) p /\ runs (map bid (reverse pre ++ appl)) sp s1 /\
     with_index c (adopt (map bid pre)) (fork_db c1) /\ execute (current s1.1) (bid b) (status c1 b) = Err e).
Proof.
  intros Hl. induction todo as [|b todo IH]; intros appl c x s Hs Hpa Hpt Hr Hk.
  - left. cbn in *. inversion Hpt; subst. exists c, s. split; [done|]. split; [done|]. split; [done|apply adopt_nil].
  - apply Forall_cons in Hk as [Hb Hk]. rewrite reverse_cons, map_app in Hpt. apply path_app in Hpt as (z & Hp1 & Hp2).
    inversion Hp2 as [|? b1 ? ? Hb1 Hp3]; subst. inversion Hp3; subst.
    assert (Epb : prev b = prev b1). { destruct Hb as (b2 & Hb2 & Ec). rewrite Hb1 in Hb2. injection Hb2 as <-. by apply (core_eq header_digest) in Ec as (_ & -> & _). }
    pose proof (runs_level _ _ _ _ _ _ _ (proj1 Hs) Hpa Hl Hr) as Hlx.
    pose proof (try_run _ _ _ _ b Hs Hlx Hb Epb) as Ht. destruct (execute _ _ _) as [st|e] eqn:He; cbn [advance].
    + destruct Ht as (c1 & Et & Hs1 & Ew1). pose proof (with_adopt_same _ _ _ Ew1) as E1. rewrite Et.
      destruct (IH (b :: appl) c1 (bid b) _ Hs1) as [(c' & s' & E & Hs' & Hr' & Ew)|(pre & b2 & post & e & c2 & x2 & s2 & -> & E & Hs2 & Hx2 & Hp2' & Hr2 & Ew & He2)].
      * apply (path_same header_digest _ _ _ _ _ E1). by econstructor.
      * by apply (path_same header_digest _ _ _ _ _ E1).
      * exists s, st. split; [done|]. split; [by eapply Hrep|done].
      * eapply Forall_impl; [exact Hk|]. intros k. by apply known_same.
      * left. exists c', s'. split; [exact E|]. split; [done|]. split; [|by eapply adopt_step]. rewrite reverse_cons, map_app, <- app_assoc. exact Hr'.
      * right. exists (b :: pre), b2, post, e, c2, x2, s2. rewrite reverse_cons, <- app_assoc. split; [done|]. split; [exact E|]. split; [done|].
        split; [done|]. split; [by apply (path_same header_digest _ _ _ _ _ (symmetry E1))|]. split; [done|]. split; [by eapply adopt_step|done].
    + right. exists [], b, todo, e, c, (prev b1), s. split; [done|]. split; [by rewrite Ht|]. split; [done|]. split; [done|]. split; [done|]. split; [done|].
      split; [apply adopt_nil|done].
Qed.

(** ** The way back *)

Lemma path_keep (idx idx' : gmap digest block_state) f x l p : (forall y b, idx' !! y = Some b <-> idx !! y = Some b /\ ~ builds_on idx f y) ->
  path idx x l p -> (forall z, z ∈ l -> ~ builds_on idx f z) -> path idx' x l p.
Proof.
  intros E. induction 1 as [|x b l p Hb _ IH]; intros Hn; [constructor|]. econstructor; [apply E; split; [exact Hb|apply Hn; left]|].
  apply IH. intros z Hz. apply Hn. by right.
Qed.

Lemma below_aside base idx f z : tree base idx -> is_Some (idx !! f) -> num_from_id z < num_from_id f -> ~ builds_on idx f z.
Proof.
  intros T [b Hb] Hn H1. pose proof (tree_id_num _ _ _ T _ _ Hb) as E. destruct (builds_num _ _ _ _ _ _ T Hb H1) as [->|(c & Hc & Hlt)]; [lia|].
  rewrite (tree_id_num _ _ _ T _ _ Hc) in Hn. lia.
Qed.

Lemma back_out_spec base c x s f done second e p sp hd s' : standing base c x s -> known c f -> prev f = x ->
  path (findex (fork_db c)) x (map bid done) p -> runs (map bid done) sp s -> level p sp -> is_Some (findex (fork_db c) !! p) ->
  path (findex (fork_db c)) hd (map bid second) p -> runs (map bid second) sp s' -> bid f ∉ map bid second -> Forall (known c) second ->
  prev <$> last second = Some p ->
  exists c' idx', back_out_b f done second e c = (c', Err e) /\ standing base c' hd s' /\
    (forall y b, idx' !! y = Some b <-> findex (fork_db c) !! y = Some b /\ ~ builds_on (findex (fork_db c)) (bid f) y) /\
    findex (fork_db c') = marks true (map bid (reverse second)) (marks false (map bid done) idx').
Proof.
  intros Hs Hk Hx Hpd Hrd Hl Hp Hps Hrs Hnf Hks Hlast. pose proof (proj1 Hs) as T. destruct Hk as (fb & Hfb & Ecf).
  apply (core_eq header_digest) in Ecf as (_ & Epf & _). rewrite Hx in Epf. pose proof (prev_id_num _ _ _ T _ _ Hfb) as Enf. rewrite Epf in Enf.
  set (idx := findex (fork_db c)) in *. assert (Hbelow : forall z, num_from_id z <= num_from_id x -> ~ builds_on idx (bid f) z).
  { intros z Hz. eapply below_aside; [exact T|by exists fb|lia]. }
  pose proof (path_num _ _ _ T _ _ _ Hpd) as Epx.
  assert (Hsec : forall z, z ∈ map bid second -> ~ builds_on idx (bid f) z).
  { intros z Hz Hbad. apply Hnf. apply (path_builds _ _ _ T _ _ _ _ _ Hps Hz Hbad). lia. }
  destruct (remove_total by_lib L (bid f) (fork_db c) (tree_keyed _ _ _ T)) as [d1 Ed1].
  { destruct Hp as [pb Hp]. exists p, pb. split; [done|]. apply Hbelow. lia. }
  destruct (remove_spec _ L _ _ _ (tree_keyed _ _ _ T) Ed1) as (_ & _ & Hd1). pose proof (tree_remove _ _ _ _ _ T Hd1) as T1. fold idx in Hd1.
  set (c1 := c <| fork_db := d1 |>).
  assert (Hs1 : standing base c1 x s).
  { destruct Hs as (_ & (hb & Hhb & Ech) & Hhx & Est). split; [done|]. split; [|done]. exists hb. split; [|done]. apply Hd1. split; [done|]. cbn.
    rewrite Hhx. apply Hbelow. lia. }
  assert (Hkeep : forall b, known c b -> bid b ∈ map bid second -> known c1 b).
  { intros b (b' & Hb & Ec) Hin. exists b'. split; [|done]. apply Hd1. split; [done|by apply Hsec]. }
  assert (Hp1 : is_Some (findex d1 !! p)). { destruct Hp as [pb Hp]. exists pb. apply Hd1. split; [done|]. apply Hbelow. lia. }
  destruct (unwind_spec base done c1 x s p sp Hs1) as (c2 & E2 & Hs2 & Ew2); [|done|done|done|].
  { apply (path_keep idx _ (bid f)); [exact Hd1|done|]. intros z Hz. apply Hbelow. by destruct (path_in _ _ _ T _ _ _ _ Hpd Hz) as [[_ ?] _]. }
  unfold with_index in Ew2. cbn in Ew2. assert (Es2 : same_tree (findex d1) (findex (fork_db c2))) by (rewrite Ew2; apply marks_same).
  destruct (reapply_spec base (reverse second) c2 hd sp p s' Hs2 Hl) as (c3 & E3 & Hs3 & Ew3); rewrite ?reverse_involutive.
  { apply (path_same header_digest (findex d1)); [done|]. by apply (path_keep idx _ (bid f)). }
  { done. }
  { apply Forall_forall. intros b Hb. rewrite elem_of_reverse in Hb. rewrite Forall_forall in Hks. apply (known_same c1); [done|]. apply Hkeep; [by apply Hks|].
    apply list_elem_of_fmap. by exists b. }
  exists c3, (findex d1). split; [|split; [done|split; [done|]]].
  - unfold back_out, mbind, c_bind, on_db, set_validity. rewrite Ed1. fold c1. rewrite E2. unfold check_sync, c_lift.
    rewrite Hlast. destruct Hs2 as (_ & _ & Eh & _). rewrite Eh, bool_decide_eq_true_2 by done. cbn. rewrite E3. done.
  - unfold with_index in Ew3. rewrite Ew3, Ew2. done.
Qed.

(** ** The switch *)

(** The controller stands at its head: from the state [s0] at [root], the blocks above it up
    to the head were executed; they, and above [root] no others, are marked, and
    they were validated. *)
Record applied (base root : digest) (l : list digest) (s0 : Db * gmap Z digest) (c : controller Db) : Prop := {
  ap_stand : standing base c (bid (chead c)) (state c);
  ap_path : path (findex (fork_db c)) (bid (chead c)) l root;
  ap_root : is_Some (findex (fork_db c) !! root);
  ap_runs : runs l s0 (state c);
  ap_level : level root s0;
  ap_marks x b : findex (fork_db c) !! x = Some b -> num_from_id root < num_from_id x -> in_current_chain b = true <-> x ∈ l;
  ap_valid x b : findex (fork_db c) !! x = Some b -> x ∈ l -> validated b = true
}.

Lemma builds_path base idx r x : tree base idx -> builds_on idx r x -> exists l, path idx x l r.
Proof. intros T. induction 1 as [|x b _ (l & Hl) Hb]; [exists []; constructor|]. exists (x :: l). by econstructor. Qed.

Lemma branch_known c l x p : branch (findex (fork_db c)) x l p -> (exists base, tree base (findex (fork_db c))) -> Forall (known c) l.
Proof.
  intros B [base T]. apply Forall_forall. intros b Hb. exists b. split; [|done]. by eapply branch_in.
Qed.

Lemma branch_last idx x l p : branch idx x l p -> l <> [] -> prev <$> last l = Some p.
Proof.
  induction 1 as [|x b l p Hb Hl IH]; [done|]. intros _. destruct l as [|b2 l]; [by inversion Hl; subst|]. by apply IH.
Qed.

Lemma path_last (idx : gmap digest block_state) x l p : path idx x l p -> l <> [] -> exists l' y b, l = l' ++ [y] /\ idx !! y = Some b /\ prev b = p.
Proof.
  induction 1 as [|x b l p Hb Hl IH]; [done|]. intros _. destruct l as [|z l]; [inversion Hl; subst; by exists [], x, b|].
  destruct (IH ltac:(done)) as (l' & y & c & -> & Hc & Ep). by exists (x :: l'), y, c.
Qed.

(** A branch that goes below [root] has the block right above it. *)
Lemma branch_through base idx x l p k root : tree base idx -> branch idx x l p -> path idx x k root -> k <> [] -> num_from_id p < num_from_id root ->
  exists b, b ∈ l /\ prev b = root /\ last l <> Some b.
Proof.
  intros T B Hk Hne Hn. pose proof (branch_path _ _ _ _ _ _ T B) as Hp. destruct (path_prefix _ _ _ T _ _ _ _ _ Hk Hp ltac:(lia)) as (k' & El & Hk').
  destruct (path_last _ _ _ _ Hk Hne) as (k0 & y & b & -> & Hb & Eb). pose proof (tree_keyed _ _ _ T _ _ Hb) as Ey.
  assert (Hin : y ∈ map bid l) by (rewrite El, !elem_of_app; left; right; left). apply list_elem_of_fmap in Hin as (b' & Eb' & Hb').
  pose proof (branch_in _ (mkForkDb idx None []) _ T _ _ _ _ B Hb') as Hb2. cbn in Hb2. rewrite <- Eb', Hb in Hb2. injection Hb2 as <-. exists b. split; [done|]. split; [done|].
  intros Hlast. assert (Hl2 : last (map bid l) = Some (bid b)) by (rewrite fmap_last, Hlast; done). rewrite El, last_app in Hl2.
  pose proof (path_num _ _ _ T _ _ _ Hk') as En. destruct (last k') as [z|] eqn:Ez; [|apply last_None in Ez; subst; cbn in En; lia].
  injection Hl2 as ->. apply last_Some_elem_of in Ez. destruct (path_in _ _ _ T _ _ _ _ Hk' Ez) as [[_ Hle] _].
  pose proof (prev_id_num _ _ _ T _ _ Hb). rewrite Eb, Ey in *. lia.
Qed.

Lemma pivot_above base idx root k1 k2 x1 x2 l1 l2 p : tree base idx -> path idx x1 k1 root -> path idx x2 k2 root -> k1 <> [] -> k2 <> [] ->
  branch idx x1 l1 p -> branch idx x2 l2 p -> part_at_end l1 l2 -> num_from_id root <= num_from_id p.
Proof.
  intros T P1 P2 N1 N2 B1 B2 Hpart. destruct (decide (num_from_id root <= num_from_id p)) as [|Hn]; [done|].
  destruct (branch_through _ _ _ _ _ _ _ T B1 P1 N1 ltac:(lia)) as (b & Hb & Eb & Nb). destruct (branch_through _ _ _ _ _ _ _ T B2 P2 N2 ltac:(lia)) as (c & Hc & Ec & _).
  destruct (Hpart b c Hb Hc) as [? _]; [congruence|done].
Qed.

(** What is left of the index after a switch that failed. *)
Lemma applied_kept base root l s0 c c' : applied base root l s0 c -> standing base c' (bid (chead c)) (state c) ->
  path (findex (fork_db c')) (bid (chead c)) l root -> is_Some (findex (fork_db c') !! root) ->
  (forall y b', findex (fork_db c') !! y = Some b' -> exists b, findex (fork_db c) !! y = Some b /\
     (num_from_id root < num_from_id y -> (in_current_chain b' = true <-> in_current_chain b = true)) /\ (validated b = true -> validated b' = true)) ->
  applied base root l s0 c' /\ bid (chead c') = bid (chead c) /\ state c' = state c.
Proof.
  intros A Hs Hp Hr Hi. pose proof Hs as (T & Hh & Ei & Es). split; [|done]. split.
  - by rewrite Ei, Es.
  - by rewrite Ei.
  - done.
  - rewrite Es. apply A.
  - apply A.
  - intros x b' Hb' Hn. destruct (Hi _ _ Hb') as (b & Hb & Hm & _). rewrite (Hm Hn). by apply (ap_marks _ _ _ _ _ A).
  - intros x b' Hb' Hx. destruct (Hi _ _ Hb') as (b & Hb & _ & Hv). apply Hv. by eapply (ap_valid _ _ _ _ _ A).
Qed.

Section cases.
Context (base root : digest) (l : list digest) (s0 : Db * gmap Z digest) (c : controller Db) (A : applied base root l s0 c) (nh : block_state).
#[local] Abbreviation idx := (findex (fork_db c)).
Context (Hnh : idx !! bid nh = Some nh) (Hb : builds_on idx root (bid nh)) (Hne : bid nh <> root).

(** The controller after a switch that failed: where it was, without [f] and what builds
    on it. *)
Definition restored (f : digest) (c' : controller Db) : Prop :=
  applied base root l s0 c' /\ bid (chead c') = bid (chead c) /\ state c' = state c /\ builds_on idx f (bid nh) /\ f <> root /\
  forall x, is_Some (findex (fork_db c') !! x) <-> is_Some (idx !! x) /\ ~ builds_on idx f x.

(** The controller after a switch: at the head of the fork database. *)
Definition switched (c' : controller Db) : Prop :=
  (exists l', applied base root l' s0 c') /\ bid (chead c') = bid nh /\ same_tree idx (findex (fork_db c')).

Lemma root_num : num_from_id root < num_from_id (bid nh).
Proof.
  destruct (ap_root _ _ _ _ _ A) as [rb Hrb]. pose proof (proj1 (ap_stand _ _ _ _ _ A)) as T.
  destruct (builds_num _ _ _ _ _ _ T Hrb Hb) as [?|(b & Hb' & Hlt)]; [done|]. by rewrite (tree_id_num _ _ _ T _ _ Hrb), (tree_id_num _ _ _ T _ _ Hb').
Qed.

(** A block on top of the head. *)
Lemma next_block_case st c1 : prev nh = bid (chead c) -> fork_db c1 = (fork_db c) <| findex := adopt [bid nh] idx |> -> bid (chead c1) = bid nh -> head_ok c1 ->
  execute (current (state_db c)) (bid nh) validated_block = Ok st -> state c1 = (push st (state_db c), row (bid nh) (reversible_blocks c)) -> switched c1.
Proof.
  intros Hp Ef Ei Hh He Es. pose proof (adopt_same [bid nh] idx) as E. assert (E' : same_tree idx (findex (fork_db c1))) by (by rewrite Ef).
  assert (Hlk : forall x, findex (fork_db c1) !! x = (fun b => if decide (x ∈ [bid nh]) then setv (setm true b) else b) <$> idx !! x) by (intros x; rewrite Ef; apply adopt_lookup).
  split; [|done]. exists (bid nh :: l). pose proof (ap_stand _ _ _ _ _ A) as (T & _). split.
  - split; [by rewrite <- E'|]. by rewrite Ei.
  - apply (path_same header_digest idx); [done|]. rewrite Ei. econstructor; [exact Hnh|]. rewrite Hp. apply A.
  - apply (same_tree_is_Some idx); [done|apply A].
  - cbn. exists (state c), st. split; [apply A|]. split; [done|]. exact Es.
  - apply A.
  - intros x b. rewrite Hlk. destruct (idx !! x) as [b0|] eqn:E0; [|done]. cbn. intros [= <-] Hn. destruct (decide (x ∈ [bid nh])) as [->%list_elem_of_singleton|Hx].
    + split; [intros _; left|done].
    + rewrite (ap_marks _ _ _ _ _ A _ _ E0 Hn). split; [by right|]. intros [->|?]%elem_of_cons; [|done]. destruct Hx. left.
  - intros x b. rewrite Hlk. destruct (idx !! x) as [b0|] eqn:E0; [|done]. cbn. intros [= <-] Hx. destruct (decide (x ∈ [bid nh])) as [Hx'|Hx']; [done|].
    apply (ap_valid _ _ _ _ _ A _ _ E0). apply elem_of_cons in Hx as [->|?]; [|done]. destruct Hx'. left.
Qed.

Lemma next_block_fails d1 : prev nh = bid (chead c) -> remove by_lib (bid nh) (fork_db c) = Ok d1 -> restored (bid nh) (c <| fork_db := d1 |>).
Proof.
  intros Hp Hr. pose proof (ap_stand _ _ _ _ _ A) as (T & (hb & Hhb & Ech) & _). destruct (remove_spec _ L _ _ _ (tree_keyed _ _ _ T) Hr) as (_ & _ & Hs).
  pose proof (prev_id_num _ _ _ T _ _ Hnh) as En. rewrite Hp in En.
  assert (Hlow : forall z, num_from_id z <= num_from_id (bid (chead c)) -> ~ builds_on idx (bid nh) z).
  { intros z Hz. eapply below_aside; [exact T|by exists nh|lia]. }
  assert (Hroot : num_from_id root <= num_from_id (bid (chead c))) by (pose proof root_num; lia).
  enough (K : applied base root l s0 (c <| fork_db := d1 |>) /\ bid (chead (c <| fork_db := d1 |>)) = bid (chead c) /\ state (c <| fork_db := d1 |>) = state c).
  { destruct K as (K1 & K2 & K3). split; [done|]. split; [done|]. split; [done|]. split; [constructor|]. split; [done|].
    intros x. cbn. split; [intros [b [H1 H2]%Hs]; split; [by exists b|done]|intros [[b H1] H2]; exists b; by apply Hs]. }
  apply applied_kept; [done| | | |].
  - split; [by apply (tree_remove _ _ idx _ (bid nh))|]. split; [|done]. exists hb. split; [|done]. apply Hs. split; [done|]. apply Hlow. cbn. lia.
  - apply (path_keep idx _ (bid nh)); [done|apply A|]. intros z Hz. apply Hlow. by destruct (path_in _ _ _ T _ _ _ _ (ap_path _ _ _ _ _ A) Hz) as [[_ ?] _].
  - destruct (ap_root _ _ _ _ _ A) as [rb Hrb]. exists rb. apply Hs. split; [done|]. by apply Hlow.
  - intros y b [Hy _]%Hs. by exists b.
Qed.

(** Another branch. *)
Section fork.
Context (l1 l2 : list block_state) (p : digest) (B1 : branch idx (bid nh) l1 p) (B2 : branch idx (bid (chead c)) l2 p).
Context (Hpart : part_at_end l1 l2) (Hl2 : l2 <> []) (Hhr : bid (chead c) <> root).
#[local] Abbreviation ids1 := (map bid l1).
#[local] Abbreviation ids2 := (map bid l2).

Lemma fork_tree_idx : tree base idx.
Proof. apply (ap_stand _ _ _ _ _ A). Qed.

(** The old branch is the upper part of the applied path. *)
Lemma fork_split : exists l0 sp, l = ids2 ++ l0 /\ path idx p l0 root /\ runs l0 s0 sp /\ runs ids2 sp (state c) /\ level p sp /\ is_Some (idx !! p) /\
  num_from_id root <= num_from_id p.
Proof.
  pose proof fork_tree_idx as T. pose proof (ap_path _ _ _ _ _ A) as Hp. destruct (builds_path _ _ _ _ T Hb) as [k Hk].
  assert (Hn : num_from_id root <= num_from_id p).
  { apply (pivot_above base idx root k l (bid nh) (bid (chead c)) l1 l2 p T Hk Hp); [intros ->; by inversion Hk|intros E; rewrite E in Hp; by inversion Hp|exact B1|exact B2|exact Hpart]. }
  destruct (path_prefix _ _ _ T _ _ _ _ _ (branch_path _ _ _ _ _ _ T B2) Hp Hn) as (l0 & El & Hl0). pose proof (ap_runs _ _ _ _ _ A) as Hr.
  rewrite El in Hr. apply runs_app in Hr as (sp & Hr1 & Hr2). exists l0, sp. split; [done|]. split; [done|]. split; [done|]. split; [done|].
  split; [by eapply runs_level; [exact T|exact Hl0|apply A|]|]. split; [|done].
  inversion Hl0 as [|? b ? ? Hpb _]; subst; [apply A|by exists b].
Qed.

Lemma fork_done l0 sp c' s' : l = ids2 ++ l0 -> path idx p l0 root -> runs l0 s0 sp -> num_from_id root <= num_from_id p ->
  standing base c' (bid nh) s' -> runs ids1 sp s' -> findex (fork_db c') = adopt (map bid (reverse l1)) (marks false ids2 idx) -> switched c'.
Proof.
  intros El Hl0 Hr0 Hn (T' & Hh & Ei & Es) Hr1 Ef. pose proof fork_tree_idx as T.
  assert (E : same_tree idx (findex (fork_db c'))) by (rewrite Ef; etrans; [apply marks_same|apply adopt_same]).
  pose proof (branch_path _ _ _ _ _ _ T B1) as P1. pose proof (branch_path _ _ _ _ _ _ T B2) as P2.
  assert (Hin : forall x, x ∈ map bid (reverse l1) <-> x ∈ ids1).
  { intros x. rewrite !list_elem_of_fmap. by setoid_rewrite elem_of_reverse. }
  assert (Hlk : forall x, findex (fork_db c') !! x =
    (fun b => if decide (x ∈ map bid (reverse l1)) then setv (setm true b) else if decide (x ∈ ids2) then setm false b else b) <$> idx !! x).
  { intros x. rewrite Ef, adopt_lookup, marks_lookup. destruct (idx !! x); [|done]. cbn. f_equal. by destruct (decide (x ∈ ids2)). }
  split; [|done]. exists (ids1 ++ l0). split.
  - by rewrite Ei, Es.
  - rewrite Ei. apply (path_same header_digest idx); [done|]. apply path_app. by exists p.
  - apply (same_tree_is_Some idx); [done|apply A].
  - rewrite Es. apply runs_app. by exists sp.
  - apply A.
  - intros x b. rewrite Hlk. destruct (idx !! x) as [b0|] eqn:E0; [|done]. cbn. intros [= <-] Hx. pose proof (ap_marks _ _ _ _ _ A _ _ E0 Hx) as Hm. rewrite El in Hm.
    destruct (decide (x ∈ map bid (reverse l1))) as [H1|H1]; rewrite Hin in H1; rewrite elem_of_app; [split; [by left|done]|].
    destruct (decide (x ∈ ids2)) as [H2|H2]; cbn.
    + split; [done|]. intros [?|H3]; [done|]. destruct (path_in _ _ _ T _ _ _ _ P2 H2) as [[? _] _]. destruct (path_in _ _ _ T _ _ _ _ Hl0 H3) as [[_ ?] _]. lia.
    + rewrite Hm, elem_of_app. split; [intros [?|?]; [done|by right]|intros [?|?]; [done|by right]].
  - intros x b. rewrite Hlk. destruct (idx !! x) as [b0|] eqn:E0; [|done]. cbn. intros [= <-] Hx.
    destruct (decide (x ∈ map bid (reverse l1))) as [H1|H1]; [done|]. rewrite Hin in H1. apply elem_of_app in Hx as [?|Hx]; [done|].
    assert (Hv : validated b0 = true) by (apply (ap_valid _ _ _ _ _ A _ _ E0); rewrite El; apply elem_of_app; by right). by destruct (decide _).
Qed.

(** A block that fails is not of the old branch. *)
Lemma fork_failed_new pre b post c1 x1 s1 sp e : reverse l1 = pre ++ b :: post -> runs ids2 sp (state c) -> l = ids2 ++ drop (length ids2) l ->
  path idx x1 (map bid (reverse pre)) p -> runs (map bid (reverse pre)) sp s1 ->
  findex (fork_db c1) = adopt (map bid pre) (marks false ids2 idx) -> execute (current s1.1) (bid b) (status c1 b) = Err e -> bid b ∉ ids2.
Proof.
  intros El Hr2 El2 Hp1 Hr1 Ef He Hin. pose proof fork_tree_idx as T. apply list_elem_of_fmap in Hin as (b2 & Eb & Hb2).
  assert (Hb1 : b ∈ l1) by (rewrite <- (reverse_involutive l1), El, elem_of_reverse, elem_of_app; right; left).
  pose proof (branch_in _ _ _ T _ _ _ _ B1 Hb1) as L1. pose proof (branch_in _ _ _ T _ _ _ _ B2 Hb2) as L2. rewrite Eb, L2 in L1. injection L1 as ->.
  destruct (Hpart b b Hb1 Hb2 eq_refl) as [La1 La2].
  assert (pre = []) as ->.
  { destruct pre as [|a pre]; [done|]. exfalso. apply last_Some in La1 as [k Ek]. pose proof (path_NoDup _ _ _ T _ _ _ (branch_path _ _ _ _ _ _ T B1)) as Hnd.
    rewrite Ek in El, Hnd. rewrite reverse_snoc in El. injection El as <- El. rewrite map_app in Hnd. apply NoDup_app in Hnd as (_ & Hnd & _).
    apply (Hnd (bid b)); [|left]. apply list_elem_of_fmap. exists b. split; [done|]. rewrite <- (reverse_involutive k), El, elem_of_reverse, elem_of_app. right. left. }
  cbn in Hr1. subst s1. apply last_Some in La2 as [k Ek]. rewrite Ek, map_app in Hr2. apply runs_app in Hr2 as (s2 & (s3 & st & -> & He' & _) & _).
  assert (Hv : status c1 b = validated_block).
  { unfold status, now. rewrite Ef. cbn [adopt map foldl]. rewrite marks_lookup, L2. cbn.
    assert (Hv : validated b = true). { apply (ap_valid _ _ _ _ _ A _ _ L2). rewrite El2. apply elem_of_app. left. apply list_elem_of_fmap. by exists b. }
    destruct (decide _); cbn; by rewrite Hv. }
  rewrite Hv, He' in He. done.
Qed.

Lemma path_builds_on (i : gmap digest block_state) x k q y : path i x k q -> y ∈ k -> builds_on i y x.
Proof.
  induction 1 as [|x b k q Hx _ IH]; [by intros ?%elem_of_nil|]. intros [->|Hy]%elem_of_cons; [constructor|]. by apply builds_next with b; [apply IH|].
Qed.

(** The switch failed at [b]: [pre] was applied before it, and the index is [idx2] with the
    old branch marked again. *)
Section back.
Context (l0 : list digest) (pre : list block_state) (b : block_state) (post : list block_state) (c1 c' : controller Db) (idx2 : gmap digest block_state).
Context (El : l = ids2 ++ l0) (Hl0 : path idx p l0 root) (Hn : num_from_id root <= num_from_id p) (E1 : reverse l1 = pre ++ b :: post) (Hnf : bid b ∉ ids2).
Context (Ef : findex (fork_db c1) = adopt (map bid pre) (marks false ids2 idx)).
Context (Hi2 : forall y b', idx2 !! y = Some b' <-> findex (fork_db c1) !! y = Some b' /\ ~ builds_on (findex (fork_db c1)) (bid b) y).
Context (Ef' : findex (fork_db c') = marks true (map bid (reverse l2)) (marks false (map bid (reverse pre)) idx2)).

Lemma reverse_ids (k : list block_state) x : x ∈ map bid (reverse k) <-> x ∈ map bid k.
Proof. rewrite !list_elem_of_fmap. by setoid_rewrite elem_of_reverse. Qed.

Lemma back_same : same_tree idx (findex (fork_db c1)).
Proof. rewrite Ef. etrans; [apply marks_same|apply adopt_same]. Qed.

Lemma back_builds x : builds_on (findex (fork_db c1)) (bid b) x <-> builds_on idx (bid b) x.
Proof. pose proof back_same. split; by apply (builds_same header_digest). Qed.

Lemma back_in a : a ∈ pre \/ a = b -> bid a ∈ ids1.
Proof.
  intros Ha. apply list_elem_of_fmap. exists a. split; [done|]. rewrite <- (reverse_involutive l1), E1, elem_of_reverse, elem_of_app, elem_of_cons. tauto.
Qed.

Lemma back_above a : a ∈ pre \/ a = b -> num_from_id p < num_from_id (bid a).
Proof. intros Ha. pose proof fork_tree_idx as T. apply (path_in _ _ _ T _ _ _ _ (branch_path _ _ _ _ _ _ T B1) (back_in _ Ha)). Qed.

(** The marks are as before. *)
Lemma back_lookup y b' : findex (fork_db c') !! y = Some b' -> exists b0, idx !! y = Some b0 /\ ~ builds_on idx (bid b) y /\
  (num_from_id root < num_from_id y -> (in_current_chain b' = true <-> in_current_chain b0 = true)) /\ (validated b0 = true -> validated b' = true).
Proof.
  intros Hy. rewrite Ef', !marks_lookup in Hy. destruct (idx2 !! y) as [b2|] eqn:E2; [|done]. apply Hi2 in E2 as [E2 Hn2]. rewrite back_builds in Hn2.
  rewrite Ef, adopt_lookup, marks_lookup in E2. destruct (idx !! y) as [b0|] eqn:E0; [|done]. exists b0. split; [done|]. split; [done|].
  cbn in E2, Hy. injection E2 as E2. injection Hy as Hy. pose proof (ap_marks _ _ _ _ _ A _ _ E0) as Hm. rewrite El in Hm.
  destruct (decide (y ∈ map bid (reverse l2))) as [D1|D1]; rewrite reverse_ids in D1; [|destruct (decide (y ∈ map bid (reverse pre))) as [D2|D2]; rewrite reverse_ids in D2].
  - rewrite <- Hy, <- E2. split; [intros Hr; rewrite (Hm Hr), elem_of_app; split; [by left|done]|]. repeat case_decide; done.
  - rewrite <- Hy, <- E2. split; [|by repeat case_decide]. intros Hr. rewrite (Hm Hr), elem_of_app. split; [by repeat case_decide|]. intros [?|H0]; [done|].
    apply list_elem_of_fmap in D2 as (a & -> & Ha). pose proof (back_above a (or_introl Ha)). pose proof fork_tree_idx as T.
    destruct (path_in _ _ _ T _ _ _ _ Hl0 H0) as [[_ ?] _]. lia.
  - rewrite (decide_False (P := y ∈ map bid pre)), (decide_False (P := y ∈ ids2)) in E2 by done. subst. done.
Qed.

Lemma back_aside z : z ∈ l \/ z = root -> ~ builds_on idx (bid b) z.
Proof.
  pose proof fork_tree_idx as T. pose proof (branch_path _ _ _ _ _ _ T B1) as P1. pose proof (branch_path _ _ _ _ _ _ T B2) as P2.
  pose proof (back_above b (or_intror eq_refl)) as Hb'. destruct (path_in _ _ _ T _ _ _ _ P1 (back_in b (or_intror eq_refl))) as [_ Hs].
  assert (Hlow : num_from_id z <= num_from_id p -> ~ builds_on idx (bid b) z) by (intros Hz; eapply below_aside; [exact T|done|lia]).
  rewrite El, elem_of_app. intros [[Hz|Hz]| ->]; [|apply Hlow; by destruct (path_in _ _ _ T _ _ _ _ Hl0 Hz) as [[_ ?] _]|by apply Hlow].
  intros Hbad. apply Hnf. by apply (path_builds _ _ _ T _ _ _ _ _ P2 Hz Hbad).
Qed.

Lemma fork_back : standing base c' (bid (chead c)) (state c) -> restored (bid b) c'.
Proof.
  intros Hs'. pose proof fork_tree_idx as T. pose proof (branch_path _ _ _ _ _ _ T B1) as P1.
  assert (Hkeep : forall y, is_Some (idx !! y) -> ~ builds_on idx (bid b) y -> is_Some (findex (fork_db c') !! y)).
  { intros y Hy Hny. rewrite Ef', !marks_lookup, !fmap_is_Some. apply (same_tree_is_Some _ _ _ back_same) in Hy as [b1 Hy]. exists b1. apply Hi2. by rewrite back_builds. }
  destruct (applied_kept _ _ _ _ _ c' A Hs') as (K1 & K2 & K3).
  - rewrite Ef'. apply (path_same header_digest idx2); [etrans; apply marks_same|]. apply (path_keep (findex (fork_db c1)) _ (bid b)); [done| |].
    + apply (path_same header_digest idx); [apply back_same|apply A].
    + intros z Hz. rewrite back_builds. apply back_aside. by left.
  - apply Hkeep; [apply A|]. apply back_aside. by right.
  - intros y b' Hy. destruct (back_lookup _ _ Hy) as (b0 & H0 & _ & Hm & Hv). by exists b0.
  - split; [done|]. split; [done|]. split; [done|]. split; [by apply (path_builds_on _ _ _ _ _ P1), back_in; right|].
    split; [intros E; pose proof (back_above b (or_intror eq_refl)); rewrite E in *; lia|]. intros y. split; [|intros [? ?]; by apply Hkeep].
    intros [b' Hy]. destruct (back_lookup _ _ Hy) as (b0 & H0 & Hny & _). split; [by exists b0|done].
Qed.
End back.

Lemma fork_case msg c' r : (unwind l2;; check_sync l2 msg;; advance_b (reverse l1) [] l2) c = (c', r) ->
  match r with Ok _ => switched c' | Err _ => exists f, restored f c' end.
Proof.
  intros Hrun. pose proof fork_tree_idx as T. destruct fork_split as (l0 & sp & El & Hl0 & Hr0 & Hr2 & Hlv & Hpi & Hn).
  destruct (unwind_spec base l2 c (bid (chead c)) (state c) p sp (ap_stand _ _ _ _ _ A)) as (c1 & E1 & Hs1 & Ew1);
    [by apply (branch_path _ _ _ _ _ _ T)|done|done|done|]. unfold with_index in Ew1.
  assert (S1 : same_tree idx (findex (fork_db c1))) by (rewrite Ew1; apply marks_same).
  assert (Hk : forall k x, branch idx x k p -> Forall (known c1) k).
  { intros k x B. eapply Forall_impl; [eapply branch_known; [exact B|by exists base]|]. intros b. by apply known_same. }
  unfold mbind, c_bind in Hrun. rewrite E1 in Hrun. unfold check_sync, c_lift in Hrun. pose proof Hs1 as (_ & _ & Eh & _).
  rewrite Eh, (branch_last _ _ _ _ B2 Hl2), bool_decide_eq_true_2 in Hrun by done. cbn [hs_assert] in Hrun.
  destruct (advance_spec base l2 p sp (bid nh) Hlv (reverse l1) [] c1 p sp Hs1) as
    [(c2 & s2 & E & Hs2 & Hrs & Ew)|(pre & b & post & e & c2 & x2 & s2 & El1 & E & Hs2 & Hx2 & Hp2 & Hrs & Ew & He)]; rewrite ?reverse_involutive.
  - constructor.
  - apply (path_same header_digest idx); [done|]. by apply (branch_path _ _ _ _ _ _ T).
  - done.
  - apply Forall_reverse. by eapply Hk.
  - rewrite E in Hrun. injection Hrun as <- <-. rewrite reverse_involutive, app_nil_r in Hrs. eapply fork_done; [exact El|exact Hl0|exact Hr0|exact Hn|exact Hs2|exact Hrs|].
    unfold with_index in Ew. rewrite Ew, Ew1. done.
  - rewrite E, app_nil_r in Hrun. rewrite app_nil_r in Hp2, Hrs. unfold with_index in Ew.
    assert (Ef2 : findex (fork_db c2) = adopt (map bid pre) (marks false ids2 idx)) by (rewrite Ew, Ew1; done).
    assert (S2 : same_tree (findex (fork_db c1)) (findex (fork_db c2))) by (rewrite Ew; apply adopt_same).
    assert (Hnf : bid b ∉ ids2).
    { eapply fork_failed_new; [exact El1|exact Hr2| |by apply (path_same header_digest _ _ _ _ _ (symmetry S1))|exact Hrs|exact Ef2|exact He].
      rewrite El at 2. by rewrite drop_app_length. }
    destruct (back_out_spec base c2 x2 s2 b (reverse pre) l2 e p sp (bid (chead c)) (state c) Hs2) as (c3 & idx2 & E3 & Hs3 & Hi2 & Ef3).
    + apply (known_same c1); [done|]. refine (proj1 (Forall_forall _ _) (Hk l1 _ B1) b _). rewrite <- (reverse_involutive l1), El1, elem_of_reverse, elem_of_app. right. left.
    + done.
    + by apply (path_same header_digest _ _ _ _ _ S2).
    + done.
    + done.
    + by do 2 eapply same_tree_is_Some in Hpi.
    + apply (path_same header_digest idx); [by etrans|]. by apply (branch_path _ _ _ _ _ _ T).
    + done.
    + done.
    + eapply Forall_impl; [by eapply Hk|]. intros k. by apply known_same.
    + by eapply branch_last.
    + rewrite E3 in Hrun. injection Hrun as <- <-. exists (bid b). by eapply fork_back.
Qed.
End fork.
End cases.

(** C15: A switch of forks happens as a whole or not at all.  The controller stands at a block
    above [root], its state executed from there; the head of the fork database builds
    on [root] too.  If [maybe_switch_forks] returns, the controller stands at that
    head: its state is what executing the blocks from [root] up to it gives, they are
    the ones marked as the current chain, and the fork database has the same blocks.  If it
    throws, the controller is back where it was, with the same state database, the
    same rows of reversible blocks and the same marks, and the fork database has
    lost one block of the new branch with exactly what builds on it.  The parameter
    [execute] is any execution for which a block that was executed once is executed
    again with the same result. *)
Theorem switch_forks base root l s0 c nh s c' r : applied base root l s0 c -> fhead (fork_db c) = Some (bid nh) ->
  findex (fork_db c) !! bid nh = Some nh -> builds_on (findex (fork_db c)) root (bid nh) -> bid nh <> root ->
  (bid (chead c) = root -> prev nh = root) -> maybe_switch_forks by_lib by_num execute replaying s c = (c', r) ->
  match r with
  | Ok _ => (exists l', applied base root l' s0 c') /\ bid (chead c') = bid nh /\ same_tree (findex (fork_db c)) (findex (fork_db c'))
  | Err _ => applied base root l s0 c' /\ bid (chead c') = bid (chead c) /\ state c' = state c /\
      exists f, builds_on (findex (fork_db c)) f (bid nh) /\ f <> root /\
        forall x, is_Some (findex (fork_db c') !! x) <-> is_Some (findex (fork_db c) !! x) /\ ~ builds_on (findex (fork_db c)) f x
  end.
Proof.
  intros A Eh Hnh Hb Hne Hroot Hrun. pose proof (ap_stand _ _ _ _ _ A) as Hs. pose proof (proj1 Hs) as T.
  enough (K : match r with Ok _ => switched base root s0 c nh c' | Err _ => exists f, restored base root l s0 c nh f c' end).
  { destruct r; [done|]. destruct K as (f & K1 & K2 & K3 & K4 & K5 & K6). do 3 (split; [done|]). by exists f. }
  unfold maybe_switch_forks in Hrun. rewrite Eh in Hrun. cbn [mbind option_bind] in Hrun. rewrite Hnh in Hrun.
  destruct (bool_decide_reflect (prev nh = bid (chead c))) as [Ep|Ep]; [|destruct (bool_decide_reflect (bid nh = bid (chead c))) as [Ei|Ei]]; cbn [negb] in Hrun.
  - assert (Hk : known c nh) by (by exists nh). pose proof (runs_level _ _ _ _ _ _ _ T (ap_path _ _ _ _ _ A) (ap_level _ _ _ _ _ A) (ap_runs _ _ _ _ _ A)) as Hl.
    pose proof (apply_run _ _ _ _ nh s Hs Hl Hk Ep) as Ha. unfold c_catch, mbind, c_bind in Hrun. cbn [state fst snd] in Ha.
    destruct (execute (current (state_db c)) (bid nh) s) as [st|e] eqn:He.
    + destruct Ha as (c1 & Ea & Ef & _ & Es). rewrite Ea in Hrun. unfold mark, on_db, set_head, c_upd in Hrun.
      rewrite Ef, mark_eq in Hrun by (by exists nh). injection Hrun as <- <-. eapply (next_block_case base root l s0 c A nh Hnh st); [done|reflexivity|done| |by eapply Hrep|exact Es].
      destruct (same_tree_lookup _ _ _ _ (adopt_same [bid nh] (findex (fork_db c))) Hnh) as (b' & Hb' & Ec). exists b'. split; [exact Hb'|by rewrite <- Ec].
    + rewrite Ha in Hrun. unfold on_db, set_validity, c_throw in Hrun.
      destruct (remove_total by_lib L (bid nh) (fork_db c) (tree_keyed _ _ _ T)) as [d1 Ed1].
      { destruct (ap_root _ _ _ _ _ A) as [rb Hrb]. exists root, rb. split; [done|]. eapply below_aside; [exact T|by exists nh|]. by eapply root_num. }
      rewrite Ed1 in Hrun. injection Hrun as <- <-. exists (bid nh). by eapply next_block_fails.
  - injection Hrun as <- <-. split; [by exists l|]. by split.
  - destruct (fetch_spec _ _ _ T (bid nh) (bid (chead c))) as (l1 & l2 & p & E & _ & Hl2 & B1 & B2 & Hpart); [by exists nh|destruct (proj1 (proj2 Hs)) as (hb & ? & _); by exists hb|].
    unfold mbind at 1 in Hrun. unfold c_bind at 1 in Hrun. unfold c_lift at 1 in Hrun. rewrite E in Hrun. eapply (fork_case base root l s0 c A nh Hb Hne l1 l2 p B1 B2 Hpart Hl2); [|exact Hrun].
    intros Er. apply Ep. rewrite Er. by apply Hroot.
Qed.
End switch.

(** ** Example *)

(** A stack of states as the state database. *)
Record stack (St : Type) := mkStack { bottom : Z; top : St; below : list St }.
Arguments mkStack {St}. Arguments bottom {St}. Arguments top {St}. Arguments below {St}.

#[export] Program Instance stack_undo St : UndoDb (stack St) St := {
  current := top;
  revision s := bottom s + Z.of_nat (length (below s));
  push st s := mkStack (bottom s) st (top s :: below s);
  undo s := match below s with st :: l => mkStack (bottom s) st l | [] => s end
}.
Next Obligation. done. Qed.
Next Obligation. intros. cbn [bottom below length]. lia. Qed.
Next Obligation. by intros St st []. Qed.

(** Executing a block appends its id to the state, but for one block that fails. *)
Definition execute_demo (bad : digest) (st : list digest) (x : digest) (s : block_status) : res (list digest) :=
  if bool_decide (x = bad) then Err (ChainError "bad block") else Ok (st ++ [x]).

(** The controller applied the two late blocks, when the longer branch arrives. *)
Definition late_db : fork_database := db_of (fork_ops [48; 60; 72]).
Definition id_of (t : Z) : digest := bid (at_slot t late_db).
Definition ctl : controller (stack (list digest)) :=
  mkController (late_db <| findex := adopt [id_of 46; id_of 47] (findex late_db) |>) (at_slot 47 late_db)
    (mkStack 4 [id_of 46; id_of 47] [[id_of 46]; []]) (<[6 := id_of 47]> {[5 := id_of 46]}).
Definition switch_demo (bad : digest) : controller (stack (list digest)) * res unit :=
  maybe_switch_forks (sorted_by before_lib) (sorted_by before_num) (execute_demo bad) false complete_block ctl.

Lemma execute_demo_repeats bad st x s st' : execute_demo bad st x s = Ok st' -> execute_demo bad st x validated_block = Ok st'.
Proof. done. Qed.

Definition marksb (idx : gmap digest block_state) (root : digest) (l : list digest) : bool :=
  forallb (fun b => (num_from_id (bid b) <=? num_from_id root) || Bool.eqb (in_current_chain b) (bool_decide (bid b ∈ l))) (blocks idx) &&
  forallb (fun b => negb (bool_decide (bid b ∈ l)) || validated b) (blocks idx).

Lemma marksb_ok idx root l x b : keyed idx -> marksb idx root l = true -> idx !! x = Some b ->
  (num_from_id root < num_from_id x -> in_current_chain b = true <-> x ∈ l) /\ (x ∈ l -> validated b = true).
Proof.
  intros K H Hb. apply andb_prop in H as [H1 H2]. rewrite forallb_forall in H1, H2. assert (Hin : In b (blocks idx)) by (apply list_elem_of_In, blocks_elem; by exists x).
  specialize (H1 b Hin). specialize (H2 b Hin). rewrite (K _ _ Hb) in *. split.
  - intros Hn. destruct (Z.leb_spec (num_from_id x) (num_from_id root)); [lia|]. apply Bool.eqb_prop in H1. rewrite H1. apply bool_decide_eq_true.
  - intros Hl. by rewrite bool_decide_eq_true_2 in H2.
Qed.

Lemma ctl_applied bad : bool_decide (id_of 46 = bad) = false -> bool_decide (id_of 47 = bad) = false ->
  exists base, applied digest_demo (execute_demo bad) false base (id_of 15) [id_of 47; id_of 46] (mkStack 4 [] [], ∅) ctl.
Proof.
  intros B1 B2. destruct (db_of_tree (fork_ops [48; 60; 72]) ltac:(vm_compute; reflexivity)) as [base T]. exists base.
  rewrite (adopt_same [id_of 46; id_of 47]) in T. change (tree digest_demo base (findex (fork_db ctl))) in T.
  assert (M : marksb (findex (fork_db ctl)) (id_of 15) [id_of 47; id_of 46] = true) by (vm_compute; reflexivity).
  split.
  - split; [exact T|]. split; [|split; reflexivity]. exists (setv (setm true (at_slot 47 late_db))). split; vm_compute; reflexivity.
  - assert (E : bid (chead ctl) = id_of 47) by reflexivity. rewrite E. clear E.
    apply (path_block _ (id_of 47) (setv (setm true (at_slot 47 late_db)))); [vm_compute; reflexivity|].
    assert (E : prev (setv (setm true (at_slot 47 late_db))) = id_of 46) by (vm_compute; reflexivity). rewrite E. clear E.
    apply (path_block _ (id_of 46) (setv (setm true (at_slot 46 late_db)))); [vm_compute; reflexivity|].
    assert (E : prev (setv (setm true (at_slot 46 late_db))) = id_of 15) by (vm_compute; reflexivity). rewrite E. constructor.
  - apply somes_ok. vm_compute. reflexivity.
  - cbn [runs]. exists (mkStack 4 [id_of 46] [[]], {[5 := id_of 46]}), [id_of 46; id_of 47]. split.
    + exists (mkStack 4 [] [], ∅), [id_of 46]. split; [reflexivity|]. split; [unfold execute_demo; rewrite B1; reflexivity|].
      assert (E : num_from_id (id_of 46) = 5) by (vm_compute; reflexivity). unfold row. rewrite E. reflexivity.
    + split; [unfold execute_demo; rewrite B2; reflexivity|]. assert (E : num_from_id (id_of 47) = 6) by (vm_compute; reflexivity). unfold row. rewrite E. reflexivity.
  - split; [vm_compute; reflexivity|]. intros n _. apply lookup_empty.
  - intros x b Hx. exact (proj1 (marksb_ok _ _ _ _ _ (tree_keyed _ _ _ T) M Hx)).
  - intros x b Hx. exact (proj2 (marksb_ok _ _ _ _ _ (tree_keyed _ _ _ T) M Hx)).
Qed.

Lemma switch_forks_witness :
  (snd (switch_demo digest0) = Ok tt /\ bid (chead (switch_demo digest0).1) = id_of 72 /\ top (state_db (switch_demo digest0).1) = [id_of 48; id_of 60; id_of 72] /\
   same_tree (findex (fork_db ctl)) (findex (fork_db (switch_demo digest0).1))) /\
  (snd (switch_demo (id_of 60)) = Err (ChainError "bad block") /\ bid (chead (switch_demo (id_of 60)).1) = id_of 47 /\ state (switch_demo (id_of 60)).1 = state ctl).
Proof.
  set (nh := at_slot 72 (fork_db ctl)).
  assert (H1 : fhead (fork_db ctl) = Some (bid nh)) by (vm_compute; reflexivity).
  assert (H2 : findex (fork_db ctl) !! bid nh = Some nh) by (vm_compute; reflexivity).
  assert (H3 : builds_on (findex (fork_db ctl)) (id_of 15) (bid nh)).
  { apply builds_next with nh; [|exact H2]. apply builds_next with (at_slot 60 (fork_db ctl)); [|vm_compute; reflexivity].
    apply builds_next with (at_slot 48 (fork_db ctl)); [|vm_compute; reflexivity].
    assert (E : prev (at_slot 48 (fork_db ctl)) = id_of 15) by (vm_compute; reflexivity). rewrite E. constructor. }
  assert (H4 : bool_decide (bid nh = id_of 15) = false) by (vm_compute; reflexivity). apply bool_decide_eq_false in H4.
  assert (H5 : bool_decide (bid (chead ctl) = id_of 15) = false) by (vm_compute; reflexivity). apply bool_decide_eq_false in H5.
  split.
  - destruct (ctl_applied digest0) as [base A]; [vm_compute; reflexivity|vm_compute; reflexivity|].
    assert (R : snd (switch_demo digest0) = Ok tt) by (vm_compute; reflexivity).
    assert (S1 : top (state_db (switch_demo digest0).1) = [id_of 48; id_of 60; id_of 72]) by (vm_compute; reflexivity).
    assert (N : bid nh = id_of 72) by (vm_compute; reflexivity).
    pose proof (switch_forks digest_demo _ (sorted_by before_num) by_lib_lawful (execute_demo digest0) false (execute_demo_repeats digest0) base _ _ _ ctl nh complete_block
      (switch_demo digest0).1 (switch_demo digest0).2 A H1 H2 H3 H4 (fun E => match H5 E with end) (surjective_pairing _)) as K.
    rewrite R in K. destruct K as (_ & K2 & K3). split; [exact R|]. split; [rewrite <- N; exact K2|]. split; [exact S1|exact K3].
  - destruct (ctl_applied (id_of 60)) as [base A]; [vm_compute; reflexivity|vm_compute; reflexivity|].
    assert (R : snd (switch_demo (id_of 60)) = Err (ChainError "bad block")) by (vm_compute; reflexivity).
    pose proof (switch_forks digest_demo _ (sorted_by before_num) by_lib_lawful (execute_demo (id_of 60)) false (execute_demo_repeats (id_of 60)) base _ _ _ ctl nh complete_block
      (switch_demo (id_of 60)).1 (switch_demo (id_of 60)).2 A H1 H2 H3 H4 (fun E => match H5 E with end) (surjective_pairing _)) as K.
    rewrite R in K. destruct K as (_ & K2 & K3 & _). split; [exact R|]. split; [exact K2|exact K3].
Defined.

#[local] Abbreviation step_demo := (fork_step pair_demo digest_demo hash_schedule_demo recover_demo (sorted_by before_lib) (sorted_by before_num)).

(** The chain of four producers hands over to two; then slot 252 is the turn of one of them. *)
Definition handover_ops := start_ops ++ chain_of 15 [60; 72; 84; 108; 120; 132] ++ [(132, 156, Some (keys 2 ["a"; "e"]))] ++ chain_of 156 [168; 180; 204; 216; 228].
Definition handover_db : fork_database := db_of handover_ops.
Definition handover_block : block_state :=
  let s := bs (at_slot 228 handover_db) in
  mkBlockState (ok_or header_state0 (next pair_demo digest_demo hash_schedule_demo recover_demo (header_on 228 252 None handover_db) false s)) false true.
Definition handover_ctl : controller (stack (list digest)) := mkController handover_db (at_slot 228 handover_db) (mkStack (bnum (at_slot 228 handover_db)) [] []) ∅.

Definition refused : controller (stack (list digest)) * res unit :=
  commit_block (sorted_by before_lib) (sorted_by before_num) false true handover_block [] handover_ctl.

(** C40: A producer can be refused its own block.  When the schedule shrinks to producers that
    have not produced for long, the last irreversible block number of the next header
    falls below that of its parent; the fork database then still prefers the
    parent, and [commit_block] throws "committed block did not become the new head",
    although the header is valid on top of the head; the block stays in the fork database. *)
Theorem produced_block_refused : rtc step_demo db0 (fork_db handover_ctl) /\ fhead (fork_db handover_ctl) = Some (bid (chead handover_ctl)) /\
  next pair_demo digest_demo hash_schedule_demo recover_demo (header_on 228 252 None handover_db) false (bs (chead handover_ctl)) = Ok (bs handover_block) /\
  dpos_irreversible_blocknum (bs handover_block) = 3 /\ dpos_irreversible_blocknum (bs (chead handover_ctl)) = 11 /\
  refused.2 = Err (ChainError "committed block did not become the new head in fork database") /\
  bid (chead refused.1) = bid (chead handover_ctl) /\ findex (fork_db refused.1) !! bid handover_block <> None.
Proof.
  split; [apply db_of_steps; vm_compute; reflexivity|]. split; [vm_compute; reflexivity|]. split; [vm_compute; reflexivity|].
  split; [vm_compute; reflexivity|]. split; [vm_compute; reflexivity|]. split; [vm_compute; reflexivity|]. split; [vm_compute; reflexivity|].
  assert (E : somes (findex (fork_db refused.1) !! bid handover_block) = true) by (vm_compute; reflexivity).
  destruct (somes_ok _ E) as [b Hb]. rewrite Hb. discriminate.
Qed.
