(* ===== verification/Frame.v ===== *)
(** * What a handler may do

    [within R m]: every successful run of [m] takes tables and queues to related ones.  For
    a preorder [R] it is enough to look at the single writes and sends of a handler:
    the lemmas follow its structure, [frame_with tac] applies them and leaves the writes to
    [tac].  Most often [R] says that the part [f] of the state is the same ([kept f]),
    and a write is outside [f] by computation. *)

From S2P Require Import Prelude Names Asset Chain.
#[local] Open Scope Z_scope.

Definition within {S A} (R : relation (S * out)) (m : M S A) : Prop :=
  forall c s o a s' o', m c s o = Ok (a, s', o') -> R (s, o) (s', o').

Definition kept {S X} (f : S -> out -> X) : relation (S * out) := fun x y => f (fst y) (snd y) = f (fst x) (snd x).

#[export] Instance kept_preorder {S X} (f : S -> out -> X) : PreOrder (kept f).
Proof. split; [done|]. intros x y z Hxy Hyz. unfold kept in *. congruence. Qed.

Section within.
Context {S : Type} (R : relation (S * out)) {HR : PreOrder R}.

Lemma within_bind {A B} (m : M S A) (k : A -> M S B) : within R m -> (forall a, within R (k a)) -> within R (m ≫= k).
Proof. intros H1 H2 c s o b s' o' (a & s1 & o1 & E1 & E2)%bind_Ok. etrans; [by eapply H1|by eapply H2]. Qed.

(** A computation that only reads. *)
Lemma within_same {A} (m : M S A) : (forall c s o a s' o', m c s o = Ok (a, s', o') -> s' = s /\ o' = o) -> within R m.
Proof. intros H c s o a s' o' (-> & ->)%H. done. Qed.

Lemma within_ret {A} (a : A) : within R (mret a).
Proof. apply within_same. by intros * (_ & -> & ->)%ret_Ok. Qed.
Lemma within_fail {A} e : within R (fail (A:=A) e).
Proof. by apply within_same. Qed.
Lemma within_lift {A} (r : res A) : within R (lift r).
Proof. apply within_same. by intros * (_ & -> & ->)%lift_Ok. Qed.
Lemma within_ask {A} (g : ctx -> A) : within R (ask g).
Proof. apply within_same. by intros * (_ & -> & ->)%ask_Ok. Qed.
Lemma within_gets {A} (g : S -> A) : within R (gets g).
Proof. apply within_same. by intros * (_ & -> & ->)%gets_Ok. Qed.
Lemma within_assert b msg : within R (eosio_assert b msg).
Proof. apply within_lift. Qed.
Lemma within_auth a : within R (require_auth a).
Proof. apply within_same. by intros * (_ & -> & ->)%require_auth_Ok. Qed.
Lemma within_when b m : within R m -> within R (when b m).
Proof. intros H. destruct b; [done|apply within_ret]. Qed.

Lemma within_recipient a : (forall s o, R (s, o) (s, o <| notified := notified o ++ [a] |>)) -> within R (require_recipient a).
Proof. intros H c s o b s' o' (-> & ->)%require_recipient_Ok. destruct (has_recipient o a); [done|apply H]. Qed.
Lemma within_send a : (forall s o, R (s, o) (s, o <| inlines := inlines o ++ [a] |>)) -> within R (send a).
Proof. intros H c s o b s' o' (_ & -> & ->)%send_Ok. apply H. Qed.
Lemma within_send_deferred d : (forall s o, R (s, o) (s, o <| deferreds := deferreds o ++ [d] |>)) -> within R (send_deferred d).
Proof. intros H c s o b s' o' (-> & ->)%send_deferred_Ok. apply H. Qed.
Lemma within_print v : (forall s o, R (s, o) (s, o <| console := console o ++ v |>)) -> within R (print v).
Proof. intros H c s o b s' o' (-> & ->)%print_Ok. apply H. Qed.

Section table.
Context {K V : Type} `{Countable K} (tbl : S -> gmap K V) `{!Setter tbl}.

Lemma within_find k : within R (find tbl k).
Proof. apply within_gets. Qed.
Lemma within_get k msg : within R (get tbl k msg).
Proof. apply within_same. by intros * (_ & -> & ->)%get_Ok. Qed.
Lemma within_emplace k v :
  (forall s o, tbl s !! k = None -> R (s, o) (setf tbl (<[k := v]> (tbl s)) s, o)) -> within R (emplace tbl k v).
Proof. intros Hf c s o a s' o' (Hk & -> & ->)%emplace_Ok. by apply Hf. Qed.
Lemma within_modify_ret {B} k (g : V -> res (B * V)) :
  (forall s o v b w, tbl s !! k = Some v -> g v = Ok (b, w) -> R (s, o) (setf tbl (<[k := w]> (tbl s)) s, o)) ->
  within R (modify_ret tbl k g).
Proof. intros Hf c s o a s' o' (v & w & Hk & Hg & -> & ->)%modify_ret_Ok. by eapply Hf. Qed.
Lemma within_modify k (g : V -> res V) :
  (forall s o v w, tbl s !! k = Some v -> g v = Ok w -> R (s, o) (setf tbl (<[k := w]> (tbl s)) s, o)) -> within R (modify tbl k g).
Proof. intros Hf c s o a s' o' (v & w & Hk & Hg & -> & ->)%modify_Ok. by eapply Hf. Qed.
Lemma within_erase k : (forall s o v, tbl s !! k = Some v -> R (s, o) (setf tbl (delete k (tbl s)) s, o)) -> within R (erase tbl k).
Proof. intros Hf c s o a s' o' (v & Hk & -> & ->)%erase_Ok. by eapply Hf. Qed.
End table.

Lemma within_sget {V} (g : S -> option V) : within R (sget g).
Proof. apply within_gets. Qed.
Lemma within_sset {V} (g : S -> option V) `{!Setter g} v : (forall s o, R (s, o) (setf g (Some v) s, o)) -> within R (sset g v).
Proof. intros Hf c s o a s' o' (-> & ->)%sset_Ok. apply Hf. Qed.
Lemma within_assign {V} (g : S -> V) `{!Setter g} v : (forall s o, R (s, o) (setf g v s, o)) -> within R (assign g v).
Proof. intros Hf c s o a s' o' (-> & ->)%assign_Ok. apply Hf. Qed.
End within.

Create HintDb frame.
#[export] Hint Resolve within_ret within_fail within_lift within_ask within_gets within_assert within_auth within_find within_get
  within_sget : frame.

(** One step along the structure of a handler; [tac] is to prove the effect of a write. *)
Ltac frame_step tac :=
  first
    [ solve [eauto 3 with frame typeclass_instances nocore]
    | match goal with |- within _ (_ ≫= _) => apply within_bind; [apply _| |intros ?] end
    | apply within_when; [apply _|]
    | apply within_recipient; [apply _|]; intros; tac
    | apply within_send; intros; tac
    | apply within_send_deferred; intros; tac
    | apply within_print; intros; tac
    | apply within_emplace; intros; tac
    | apply within_modify; intros; tac
    | apply within_modify_ret; intros; tac
    | apply within_erase; intros; tac
    | apply within_sset; intros; tac
    | apply within_assign; intros; tac
    | match goal with
      | |- within _ (match ?x with _ => _ end) => destruct x
      | |- within _ (let _ := _ in _) => cbv zeta
      end ].
Ltac frame_with tac := repeat frame_step tac.
