(* ===== verification/SystemTables.v ===== *)
(** * eosio.system: tables, privileged calls and the RAM market

    contracts/eosio.system: the rows of the tables (eosio.system.hpp,
    delegate_bandwidth.cpp, exchange_state.hpp), the calls by which the system
    contract changes the node (libraries/chain/wasm_interface.cpp, privileged_api,
    and controller::set_proposed_producers), the exchange RAM is traded on, and the
    construction of the contract object.

    The primary key of a row is the key of the map and is not repeated in the row.
    The reserved members of [voter_info] are left out. *)

From stdpp Require Import sorting.
From S2P Require Import Prelude Float64 Names Asset Chain Views ResourceLimits HeaderState.
#[local] Open Scope Z_scope.

(** ** Rows *)

(** A negative [high_bid] is a closed auction waiting to be claimed. *)
Record name_bid := mkBid { high_bidder : name; high_bid : Z; last_bid_time : Z }.
#[export] Instance eta_bid : Eta name_bid := fun b => mkBid (high_bidder b) (high_bid b) (last_bid_time b).

Definition by_high_bid (b : name_bid) : Z := u64 (- high_bid b).

(** eosiolib/privileged.hpp, without the two members that are not serialized. *)
Record blockchain_parameters := mkParams {
  max_block_net_usage : Z;
  target_block_net_usage_pct : Z;
  max_transaction_net_usage : Z;
  base_per_transaction_net_usage : Z;
  net_usage_leeway : Z;
  context_free_discount_net_usage_num : Z;
  context_free_discount_net_usage_den : Z;
  max_block_cpu_usage : Z;
  target_block_cpu_usage_pct : Z;
  max_transaction_cpu_usage : Z;
  min_transaction_cpu_usage : Z;
  max_transaction_lifetime : Z;
  deferred_trx_expiration_window : Z;
  max_transaction_delay : Z;
  max_inline_action_size : Z;
  max_inline_action_depth : Z;
  max_authority_depth : Z
}.

(** Time stamps of blocks are slots. *)
Record eosio_global_state := mkGlobal {
  gs_params : blockchain_parameters;
  max_ram_size : Z;
  total_ram_bytes_reserved : Z;
  total_ram_stake : Z;
  last_producer_schedule_update : Z;
  last_pervote_bucket_fill : Z;
  pervote_bucket : Z;
  perblock_bucket : Z;
  total_unpaid_blocks : Z;
  total_activated_stake : Z;
  thresh_activated_stake_time : Z;
  last_producer_schedule_size : Z;
  total_producer_vote_weight : f64;
  last_name_close : Z
}.
#[export] Instance eta_global : Eta eosio_global_state := fun g =>
  mkGlobal (gs_params g) (max_ram_size g) (total_ram_bytes_reserved g) (total_ram_stake g) (last_producer_schedule_update g)
    (last_pervote_bucket_fill g) (pervote_bucket g) (perblock_bucket g) (total_unpaid_blocks g) (total_activated_stake g)
    (thresh_activated_stake_time g) (last_producer_schedule_size g) (total_producer_vote_weight g) (last_name_close g).

Definition free_ram (g : eosio_global_state) : Z := u64 (max_ram_size g - total_ram_bytes_reserved g).

Record eosio_global_state2 := mkGlobal2 { perbase_bucket : Z; total_unpaid_base_cnt : Z; gs_last_claim_time : Z }.
#[export] Instance eta_global2 : Eta eosio_global_state2 := fun g =>
  mkGlobal2 (perbase_bucket g) (total_unpaid_base_cnt g) (gs_last_claim_time g).
Definition global2_0 : eosio_global_state2 := mkGlobal2 0 0 0.

(** The member of [eosio_global_count]; one account exists from the start. *)
Definition total_accounts0 : Z := 1.

Record eosio_global_state3 := mkGlobal3 { is_schedule : bool; min_l1 : Z; max_l2 : Z }.
Definition global3_0 : eosio_global_state3 := mkGlobal3 false 15 0.

(** Public keys are numbers, the default key is 0. *)
Record producer_info := mkProducer {
  total_votes : f64;
  pi_key : Z;
  pi_active : bool;
  url : string;
  unpaid_blocks : Z;
  last_claim_time : Z;
  location : Z
}.
#[export] Instance eta_producer : Eta producer_info := fun p =>
  mkProducer (total_votes p) (pi_key p) (pi_active p) (url p) (unpaid_blocks p) (last_claim_time p) (location p).

Definition by_votes (p : producer_info) : f64 := if pi_active p then f64_neg (total_votes p) else total_votes p.
Definition deactivate (p : producer_info) : producer_info := p <| pi_key := 0 |> <| pi_active := false |>.

Record producer_info_ext := mkProducerExt { seq_num : Z; level : Z; unpaid_base_cnt : Z; unpaid_amount : Z; shadow : name }.
#[export] Instance eta_producer_ext : Eta producer_info_ext := fun p =>
  mkProducerExt (seq_num p) (level p) (unpaid_base_cnt p) (unpaid_amount p) (shadow p).

Record yta_prod_info := mkYtaProd {
  yp_owner : name;
  yp_votes : f64;
  yp_key : Z;
  yp_active : bool;
  yp_location : Z;
  is_in_grace : bool;
  grace_start_time : Z
}.
#[export] Instance eta_yta_prod : Eta yta_prod_info := fun p =>
  mkYtaProd (yp_owner p) (yp_votes p) (yp_key p) (yp_active p) (yp_location p) (is_in_grace p) (grace_start_time p).

Record all_prods_level := mkLevels { prods_l1 : list yta_prod_info; prods_l2 : list yta_prod_info }.
#[export] Instance eta_levels : Eta all_prods_level := fun l => mkLevels (prods_l1 l) (prods_l2 l).
Definition levels0 : all_prods_level := mkLevels [] [].

Record voter_info := mkVoter {
  proxy : name;
  voted : list name;             (* producers *)
  staked : Z;
  last_vote_weight : f64;
  proxied_vote_weight : f64;
  is_proxy : bool
}.
#[export] Instance eta_voter : Eta voter_info := fun v =>
  mkVoter (proxy v) (voted v) (staked v) (last_vote_weight v) (proxied_vote_weight v) (is_proxy v).
Definition voter0 : voter_info := mkVoter 0 [] 0 (fl 0) (fl 0) false.

Record user_resources := mkUserRes { ur_net : asset; ur_cpu : asset; ur_ram : Z }.
#[export] Instance eta_userres : Eta user_resources := fun r => mkUserRes (ur_net r) (ur_cpu r) (ur_ram r).
Definition userres0 : user_resources := mkUserRes (core 0) (core 0) 0.

Record delegated_bandwidth := mkDelband { db_net : asset; db_cpu : asset }.
#[export] Instance eta_delband : Eta delegated_bandwidth := fun r => mkDelband (db_net r) (db_cpu r).

Record refund_request := mkRefund { request_time : Z; net_amount : asset; cpu_amount : asset }.
#[export] Instance eta_refund : Eta refund_request := fun r => mkRefund (request_time r) (net_amount r) (cpu_amount r).

Record connector := mkConnector { balance : asset; weight : f64 }.
#[export] Instance eta_connector : Eta connector := fun c => mkConnector (balance c) (weight c).

Record exchange_state := mkExchange { es_supply : asset; base : connector; quote : connector }.
#[export] Instance eta_exchange : Eta exchange_state := fun e => mkExchange (es_supply e) (base e) (quote e).

(** ** The node

    What the privileged calls of the contract read and write: the resource manager
    and the accounts whose RAM the transaction has to check at its end, the privileged
    accounts, the configuration, and the schedules of the block in progress. *)

Record node := mkNode {
  resources : resource_limits_manager;
  validate_ram_usage : gset name;
  privileged : gmap name bool;
  configuration : blockchain_parameters;
  head_block_num : Z;
  proposed_schedule_block_num : option Z;
  proposed_schedule : producer_schedule_type;
  nd_pending_schedule : producer_schedule_type;
  nd_active_schedule : producer_schedule_type
}.
#[export] Instance eta_node : Eta node := fun n =>
  mkNode (resources n) (validate_ram_usage n) (privileged n) (configuration n) (head_block_num n) (proposed_schedule_block_num n)
    (proposed_schedule n) (nd_pending_schedule n) (nd_active_schedule n).

(** ** The contract

    [userres] and [refunds] have the owner both as scope and as key, [delband] has the
    account that delegates as scope and the receiver as key.  [gstate] and [gstateex]
    are the members [_gstate] and [_gstateex] of the contract object, loaded from
    [global] and [globalex] when it is constructed. *)

Record system := mkSystem {
  voters : gmap name voter_info;
  producer_infos : gmap name producer_info;
  producersext : gmap name producer_info_ext;
  global : option eosio_global_state;
  globalex : option eosio_global_state2;
  globalext3 : option eosio_global_state3;
  gcount : option Z;
  prodslevel : option all_prods_level;
  rammarket : gmap Z exchange_state;
  userres : gmap name user_resources;
  delband : gmap (name * name) delegated_bandwidth;
  refunds : gmap name refund_request;
  namebids : gmap name name_bid;
  gstate : eosio_global_state;
  gstateex : eosio_global_state2;
  chain_node : node
}.
#[export] Instance eta_system : Eta system := fun s =>
  mkSystem (voters s) (producer_infos s) (producersext s) (global s) (globalex s) (globalext3 s) (gcount s) (prodslevel s)
    (rammarket s) (userres s) (delband s) (refunds s) (namebids s) (gstate s) (gstateex s) (chain_node s).

(** What the contract takes from elsewhere: [std::pow]; the order [std::sort] gives to
    producers by descending votes, which it leaves open for equal votes; and what the
    memory holds outside the table of yearly rewards. *)
Class SystemEnv := {
  std_pow : f64 -> f64 -> f64;
  sort_by_votes : list yta_prod_info -> list yta_prod_info;
  seo_outside : Z -> Z
}.

Definition more_votes (a b : yta_prod_info) : bool := f64_lt (yp_votes b) (yp_votes a).

(** [std::sort] permutes, and sorts by a comparison that is a strict weak order; on
    doubles that hold integers it is one. *)
Class SystemEnvOk (E : SystemEnv) : Prop := {
  sort_permutes l : sort_by_votes l ≡ₚ l;
  sort_sorts l : Forall (fun p => exists z, int53 z /\ yp_votes p = fl z) l ->
    StronglySorted (fun a b => more_votes b a = false) (sort_by_votes l)
}.

(** ** Time and state *)

Definition sys_now : M system Z := ask (fun c => u32 (current_time c / 1000000)).

(** Assigning members of [_gstate] and [_gstateex]. *)
Definition on_gstate (f : eosio_global_state -> eosio_global_state) : M system unit := fun _ s o =>
  Ok (tt, s <| gstate := f (gstate s) |>, o).
Definition on_gstateex (f : eosio_global_state2 -> eosio_global_state2) : M system unit := fun _ s o =>
  Ok (tt, s <| gstateex := f (gstateex s) |>, o).

(** INLINE_ACTION_SENDER(eosio::token, transfer)(N(eosio.token), {from, N(active)}, {from, to, quantity, memo}). *)
Definition transfer_act (from to : name) (quantity : asset) (memo : string) : action :=
  mk_action from (N "active") (N "eosio.token") (N "transfer") [VInt from; VInt to; VAsset quantity; VStr memo].
Arguments transfer_act : simpl never.
Definition inline_transfer (from to : name) (quantity : asset) (memo : string) : M system unit :=
  send (transfer_act from to quantity memo).

(** Comparisons of assets, which demand one symbol. *)
Definition asset_eq (a b : asset) : res bool :=
  _ ← guard_ (symbol a =? symbol b) "comparison of assets with different symbols is not allowed";
  Ok (amount a =? amount b).

Definition asset_le (a b : asset) : res bool :=
  _ ← guard_ (symbol a =? symbol b) "comparison of assets with different symbols is not allowed";
  Ok (amount a <=? amount b).

Definition asset_neg (a : asset) : asset := mkAsset (i64 (- amount a)) (symbol a).

Definition assert_le (a b : asset) (msg : string) : M system unit := r ← lift (asset_le a b); eosio_assert r msg.
Definition assert_lt (a b : asset) (msg : string) : M system unit := r ← lift (asset_lt a b); eosio_assert r msg.

(** ** Privileged calls *)

Definition wasm_assert (b : bool) (msg : string) : res unit := if b then Ok tt else Err (ChainError msg).

(** A call that changes the node. *)
Definition on_node {A} (f : ctx -> node -> res (A * node)) : M system A := fun c s o =>
  match f c (chain_node s) with
  | Ok (a, n) => Ok (a, s <| chain_node := n |>, o)
  | Err e => Err e
  end.

Definition node_set_resource_limits (account : name) (ram net cpu : Z) (n : node) : res (unit * node) :=
  _ ← wasm_assert (-1 <=? ram) "invalid value for ram resource limit expected [-1,INT64_MAX]";
  _ ← wasm_assert (-1 <=? net) "invalid value for net resource weight expected [-1,INT64_MAX]";
  _ ← wasm_assert (-1 <=? cpu) "invalid value for cpu resource weight expected [-1,INT64_MAX]";
  r ← set_account_limits account ram net cpu (resources n);
  Ok (tt, n <| resources := snd r |>
            <| validate_ram_usage := if fst r : bool then {[account]} ∪ validate_ram_usage n else validate_ram_usage n |>).

Definition set_resource_limits (account : name) (ram net cpu : Z) : M system unit :=
  on_node (fun _ => node_set_resource_limits account ram net cpu).

(** controller::set_proposed_producers; -1 means that nothing was proposed. *)
Definition controller_set_proposed_producers (prods : list producer_key) (n : node) : Z * node :=
  let cur_block_num := u32 (head_block_num n + 1) in
  if match proposed_schedule_block_num n with
     | Some b => negb (b =? cur_block_num) || bool_decide (prods = producers (proposed_schedule n))
     | None => false
     end
  then (-1, n) else
  let current := if (length (producers (nd_pending_schedule n)) =? 0)%nat then nd_active_schedule n else nd_pending_schedule n in
  if bool_decide (prods = producers current) then (-1, n) else
  let sch := mkSchedule (u32 (version current + 1)) prods in
  (version sch, n <| proposed_schedule_block_num := Some cur_block_num |> <| proposed_schedule := sch |>).

Fixpoint check_schedule (c : ctx) (prods : list producer_key) : res unit :=
  match prods with
  | [] => Ok tt
  | p :: l =>
      _ ← wasm_assert (is_account c (producer_name p)) "producer schedule includes a nonexisting account";
      _ ← wasm_assert (negb (block_signing_key p =? 0)) "producer schedule includes an invalid key";
      check_schedule c l
  end.

Definition node_set_proposed_producers (prods : list producer_key) (c : ctx) (n : node) : res (Z * node) :=
  _ ← wasm_assert (Z.of_nat (length prods) <=? max_producers) "Producer schedule exceeds the maximum producer count for this chain";
  _ ← check_schedule c prods;
  _ ← wasm_assert (length prods =? size (list_to_set (map producer_name prods) : gset name))%nat
        "duplicate producer name in producer schedule";
  Ok (controller_set_proposed_producers prods n).

Definition set_proposed_producers (prods : list producer_key) : M system Z := on_node (node_set_proposed_producers prods).

Definition node_set_privileged (account : name) (is_priv : bool) (c : ctx) (n : node) : res (unit * node) :=
  _ ← wasm_assert (is_account c account) "unknown key";
  Ok (tt, n <| privileged := <[account := is_priv]> (privileged n) |>).

Definition set_privileged (account : name) (is_priv : bool) : M system unit := on_node (node_set_privileged account is_priv).

(** chain_config::validate *)
Definition params_validate (p : blockchain_parameters) : res unit :=
  _ ← wasm_assert (target_block_net_usage_pct p <=? 10000) "target block net usage percentage cannot exceed 100%";
  _ ← wasm_assert (10 <=? target_block_net_usage_pct p) "target block net usage percentage must be at least 0.1%";
  _ ← wasm_assert (target_block_cpu_usage_pct p <=? 10000) "target block cpu usage percentage cannot exceed 100%";
  _ ← wasm_assert (10 <=? target_block_cpu_usage_pct p) "target block cpu usage percentage must be at least 0.1%";
  _ ← wasm_assert (max_transaction_net_usage p <? max_block_net_usage p) "max transaction net usage must be less than max block net usage";
  _ ← wasm_assert (max_transaction_cpu_usage p <? max_block_cpu_usage p) "max transaction cpu usage must be less than max block cpu usage";
  _ ← wasm_assert (base_per_transaction_net_usage p <? max_transaction_net_usage p)
        "base net usage per transaction must be less than the max transaction net usage";
  _ ← wasm_assert (10 * 1024 <=? max_transaction_net_usage p - base_per_transaction_net_usage p)
        "max transaction net usage must be at least ${delta} bytes larger than base net usage per transaction";
  _ ← wasm_assert (0 <? context_free_discount_net_usage_den p)
        "net usage discount ratio for context free data cannot have a 0 denominator";
  _ ← wasm_assert (context_free_discount_net_usage_num p <=? context_free_discount_net_usage_den p)
        "net usage discount ratio for context free data cannot exceed 1";
  _ ← wasm_assert (min_transaction_cpu_usage p <=? max_transaction_cpu_usage p)
        "min transaction cpu usage cannot exceed max transaction cpu usage";
  _ ← wasm_assert (max_transaction_cpu_usage p <? u32 (max_block_cpu_usage p - min_transaction_cpu_usage p))
        "max transaction cpu usage must be at less than the difference between the max block cpu usage and the min transaction cpu usage";
  wasm_assert (1 <=? max_authority_depth p) "max authority depth should be at least 1".

Definition node_set_blockchain_parameters (p : blockchain_parameters) (c : ctx) (n : node) : res (unit * node) :=
  _ ← params_validate p; Ok (tt, n <| configuration := p |>).

Definition set_blockchain_parameters (p : blockchain_parameters) : M system unit := on_node (node_set_blockchain_parameters p).

(** [cancel_deferred(id)], and [transaction::send] that replaces a pending one. *)
Definition cancel_deferred (sender_id : Z) : M system unit := fun c s o =>
  Ok (tt, s, o <| deferreds := filter (fun d => ~ (d_sender d = self c /\ d_sender_id d = sender_id)) (deferreds o) |>).

Definition send_deferred_replace (d : deferred) : M system unit :=
  _ ← cancel_deferred (d_sender_id d);
  send_deferred d.

(** ** The RAM market: exchange_state.cpp *)

Definition RAMCORE : symbol_name := Eval vm_compute in string_to_symbol 4 "RAMCORE".
Definition RAM : symbol_name := Eval vm_compute in string_to_symbol 0 "RAM".

Section exchange.
Context {E : SystemEnv}.

(** The two conversions return the asset and the changed supply and connector. *)
Definition convert_to_exchange (supply : asset) (c : connector) (input : asset) : res (asset * asset * connector) :=
  let R := fl (amount supply) in
  let C := fl (i64 (amount (balance c) + amount input)) in
  let F := (weight c / fl 1000)%f64 in
  let T := fl (amount input) in
  let ONE := fl 1 in
  let x := (f64_neg R * (ONE - std_pow (ONE + T / C) F))%f64 in
  issued ← f64_trunc_i64s x;
  let supply := mkAsset (i64 (amount supply + issued)) (symbol supply) in
  let c := c <| balance := mkAsset (i64 (amount (balance c) + amount input)) (symbol (balance c)) |> in
  r ← asset_make issued (symbol supply);
  Ok (r, supply, c).

Definition convert_from_exchange (supply : asset) (c : connector) (input : asset) : res (asset * asset * connector) :=
  _ ← guard_ (symbol input =? symbol supply) "unexpected asset symbol input";
  let R := fl (i64 (amount supply - amount input)) in
  let C := fl (amount (balance c)) in
  let F := (fl 1000 / weight c)%f64 in
  let x := fl (amount input) in
  let ONE := fl 1 in
  let T := (C * (std_pow (ONE + x / R) F - ONE))%f64 in
  out ← f64_trunc_i64s T;
  let supply := mkAsset (i64 (amount supply - amount input)) (symbol supply) in
  let c := c <| balance := mkAsset (i64 (amount (balance c) - out)) (symbol (balance c)) |> in
  r ← asset_make out (symbol (balance c));
  Ok (r, supply, c).

(** One turn of [convert]; it calls itself at most once (see [convert_fuel]). *)
Definition convert_step (es : exchange_state) (from : asset) (to : symbol_name) : res (asset * exchange_state) :=
  let sell_symbol := symbol from in
  let base_symbol := symbol (balance (base es)) in
  let quote_symbol := symbol (balance (quote es)) in
  if negb (sell_symbol =? symbol (es_supply es)) then
    if sell_symbol =? base_symbol then
      '(r, supply, c) ← convert_to_exchange (es_supply es) (base es) from;
      Ok (r, es <| es_supply := supply |> <| base := c |>)
    else if sell_symbol =? quote_symbol then
      '(r, supply, c) ← convert_to_exchange (es_supply es) (quote es) from;
      Ok (r, es <| es_supply := supply |> <| quote := c |>)
    else Err (AssertFail "invalid sell")
  else
    if to =? base_symbol then
      '(r, supply, c) ← convert_from_exchange (es_supply es) (base es) from;
      Ok (r, es <| es_supply := supply |> <| base := c |>)
    else if to =? quote_symbol then
      '(r, supply, c) ← convert_from_exchange (es_supply es) (quote es) from;
      Ok (r, es <| es_supply := supply |> <| quote := c |>)
    else Err (AssertFail "invalid conversion").

Fixpoint convert_go (fuel : nat) (es : exchange_state) (from : asset) (to : symbol_name) : res (asset * exchange_state) :=
  match fuel with
  | O => Err (WasmTrap "out of fuel")
  | S fuel' =>
      '(r, es) ← convert_step es from to;
      if negb (to =? symbol r) then convert_go fuel' es r to else Ok (r, es)
  end.

Definition convert (es : exchange_state) (from : asset) (to : symbol_name) : res (asset * exchange_state) :=
  convert_go 2 es from to.
End exchange.

(** ** The contract object *)

Section object.
Context {TV : TokenView}.

Definition default_global (p : blockchain_parameters) : eosio_global_state :=
  mkGlobal p (64 * 1024 * 1024 * 1024) 0 0 0 0 0 0 0 0 0 0 (fl 0) 0.

(** get_blockchain_parameters reads the configuration of the node. *)
Definition get_default_parameters (s : system) : eosio_global_state := default_global (configuration (chain_node s)).

(** The constructor; the RAM market is opened once there are tokens. *)
Definition sys_ctor : M system unit :=
  g ← gets (fun s => default (get_default_parameters s) (global s));
  _ ← assign gstate g;
  g2 ← gets (fun s => default global2_0 (globalex s));
  _ ← assign gstateex g2;
  itr ← find rammarket RAMCORE;
  match itr with
  | Some _ => mret tt
  | None =>
      a ← lift (get_supply (symbol_code CORE_SYMBOL));
      let system_token_supply := amount a in
      when (0 <? system_token_supply)
        (emplace rammarket RAMCORE
           (mkExchange (mkAsset 100000000000000 RAMCORE)
              (mkConnector (mkAsset (i64 (free_ram g)) RAM) (f64_lit 1 2))
              (mkConnector (mkAsset (Z.quot system_token_supply 1000) CORE_SYMBOL) (f64_lit 1 2))))
  end.

Definition sys_dtor : M system unit :=
  g ← gets gstate;
  _ ← sset global g;
  g2 ← gets gstateex;
  sset globalex g2.

Definition in_system (m : M system unit) : M system unit := _ ← sys_ctor; _ ← m; sys_dtor.
End object.

(** ** What other contracts read *)

Definition sys_isActiveVoter (s : system) (owner : name) : bool :=
  match voters s !! owner with
  | None => false
  | Some voter => negb (length (voted voter) =? 0)%nat
  end.

(** The sequence number, and what the reference [shadow] holds afterwards: it keeps
    [old] when the producer has no row. *)
Definition sys_getProducerSeq (s : system) (old : name) (producer : name) : Z * name :=
  match producersext s !! producer with
  | Some p => (seq_num p, shadow p)
  | None => (0, old)
  end.

(** eosiolib/types.hpp, name_suffix: the loop over the twelve first characters. *)
Fixpoint suffix_scan (k : nat) (remaining_bits n tmp last_dot : Z) : Z * Z :=
  match k with
  | O => (tmp, last_dot)
  | S k' =>
      let c := Z.land (Z.shiftr n remaining_bits) 31 in
      if c =? 0 then suffix_scan k' (remaining_bits - 5) n remaining_bits last_dot
      else suffix_scan k' (remaining_bits - 5) n tmp tmp
  end.

Definition name_suffix (n : name) : name :=
  let '(tmp, last_dot) := suffix_scan 12 59 n 0 0 in
  let thirteenth_character := Z.land n 15 in
  let last_dot := if thirteenth_character =? 0 then last_dot else tmp in
  if last_dot =? 0 then n else
  let mask := u64 (Z.shiftl 1 last_dot - 16) in
  let shift := 64 - last_dot in
  u64 (u64 (Z.shiftl (Z.land n mask) shift) + u64 (Z.shiftl thirteenth_character (shift - 1))).
