(* ===== verification/Bios.v ===== *)
(** * The contract eosio.bios

    contracts/eosio.bios/eosio.bios.hpp: the contract a new chain starts with.  It only passes
    the privileged calls of SystemTables.v on to the node, so that its state is the node's. *)

From S2P Require Import Prelude Names Chain ResourceLimits HeaderState SystemTables.
#[local] Open Scope Z_scope.

Definition call {A} (f : ctx -> node -> res (A * node)) : M node A := fun c n o =>
  match f c n with Ok (a, n') => Ok (a, n', o) | Err e => Err e end.

(** [require_auth(_self)]. *)
Definition require_self : M node unit := me ← ask self; require_auth me.

Definition setpriv (account : name) (ispriv : Z) : M node unit :=
  _ ← require_self;
  call (node_set_privileged account (negb (ispriv =? 0))).

Definition setalimits (account : name) (ram_bytes net_weight cpu_weight : Z) : M node unit :=
  _ ← require_self;
  call (fun _ => node_set_resource_limits account ram_bytes net_weight cpu_weight).

Definition setglimits (ram net cpu : Z) : M node unit := require_self.

Definition setprods (schedule : list producer_key) : M node unit :=
  _ ← require_self;
  _ ← call (node_set_proposed_producers schedule);
  mret tt.

Definition setparams (params : blockchain_parameters) : M node unit :=
  _ ← require_self;
  call (node_set_blockchain_parameters params).

Definition reqauth (from : name) : M node unit := require_auth from.

Inductive bios_action :=
| BSetpriv (account : name) (ispriv : Z)
| BSetalimits (account : name) (ram_bytes net_weight cpu_weight : Z)
| BSetglimits (ram net cpu : Z)
| BSetprods (schedule : list producer_key)
| BSetparams (params : blockchain_parameters)
| BReqauth (from : name).

Definition bios_apply (a : bios_action) : M node unit :=
  match a with
  | BSetpriv account ispriv => setpriv account ispriv
  | BSetalimits account ram net cpu => setalimits account ram net cpu
  | BSetglimits ram net cpu => setglimits ram net cpu
  | BSetprods schedule => setprods schedule
  | BSetparams params => setparams params
  | BReqauth from => reqauth from
  end.

(** Nobody but the contract's own account changes the node through it. *)
Theorem bios_authority a c n o u n' o' : bios_apply a c n o = Ok (u, n', o') -> n' <> n -> has_auth c (self c) = true.
Proof.
  intros H Hne. assert (Hs : forall (m : M node unit), (_ ← require_self; m) c n o = Ok (u, n', o') -> has_auth c (self c) = true).
  { intros m (v & n1 & o1 & H1 & _)%bind_Ok. unfold require_self in H1. by minv. }
  destruct a; cbn [bios_apply] in H; [by eapply Hs..| |by eapply Hs|by eapply Hs|].
  - unfold setglimits, require_self in H. by minv.
  - apply require_auth_Ok in H as (_ & -> & _). done.
Qed.

Lemma wasm_assert_Ok b msg u : wasm_assert b msg = Ok u -> b = true.
Proof. unfold wasm_assert. by destruct b. Qed.

Lemma check_schedule_Ok c prods : check_schedule c prods = Ok tt ->
  Forall (fun p => is_account c (producer_name p) = true /\ block_signing_key p <> 0) prods.
Proof.
  induction prods as [|p prods IH]; cbn; [constructor|]. intros H. apply res_bind_ok in H as (? & H1%wasm_assert_Ok & H).
  apply res_bind_ok in H as (? & H2%wasm_assert_Ok & H). constructor; [|by apply IH]. split; [done|]. by apply negb_true_iff, Z.eqb_neq in H2.
Qed.

Lemma NoDup_size (l : list name) : length l = size (list_to_set l : gset name) -> NoDup l.
Proof.
  induction l as [|x l IH]; [constructor|]. cbn [length list_to_set foldr]. intros H.
  assert (Hle : forall m : list name, (size (list_to_set m : gset name) <= length m)%nat).
  { induction m as [|y m IHm]; cbn; [by rewrite size_empty|]. rewrite size_union_alt, size_singleton.
    pose proof (subseteq_size (list_to_set m ∖ {[y]} : gset name) (list_to_set m) ltac:(set_solver)). lia. }
  destruct (decide (x ∈ l)) as [Hin|Hn].
  - exfalso. rewrite (subseteq_union_1_L {[x]} (list_to_set l : gset name)) in H; [specialize (Hle l); lia|]. set_solver.
  - constructor; [done|]. apply IH. rewrite size_union, size_singleton in H; [lia|]. set_solver.
Qed.

(** A schedule it proposes is one the node can go on with: accounts, valid keys, nobody twice. *)
Theorem setprods_spec prods c n o u n' o' : setprods prods c n o = Ok (u, n', o') ->
  NoDup (map producer_name prods) /\ (length prods <= Z.to_nat max_producers)%nat /\
  Forall (fun p => is_account c (producer_name p) = true /\ block_signing_key p <> 0) prods /\
  (proposed_schedule n' = proposed_schedule n \/ producers (proposed_schedule n') = prods).
Proof.
  unfold setprods, call, node_set_proposed_producers, require_self. intros H. minv.
  match goal with H : (match ?r with _ => _ end) = Ok _ |- _ => destruct r as [[v m]|e] eqn:E in H; [|done]; injection H as -> -> -> end.
  apply res_bind_ok in E as (? & H1%wasm_assert_Ok%Z.leb_le & E). apply res_bind_ok in E as ([] & H2%check_schedule_Ok & E).
  apply res_bind_ok in E as (? & H3%wasm_assert_Ok%Nat.eqb_eq & E). split; [|split; [lia|split; [done|]]].
  - apply NoDup_size. by rewrite length_map.
  - injection E as E. unfold controller_set_proposed_producers in E. cbv zeta in E.
    do 2 (match type of E with (if ?b then _ else _) = _ => destruct b; [injection E as _ <-; by left|] end). injection E as _ <-. by right.
Qed.
