(* ===== verification/SystemVoting.v ===== *)
(** * eosio.system: producers, their levels and votes

    contracts/eosio.system/voting.cpp.  Producers registered by the administrator are
    put into one of two levels, which the elected schedule is made from; a voter gives
    the weight of the own stake and free deposit to one producer.  Proxies are part of the
    code, but no account can become one ([regproxy] always fails). *)

From stdpp Require Import sorting.
From S2P Require Import Prelude Float64 Names Asset Chain Views ResourceLimits HeaderState SystemTables.
#[local] Open Scope Z_scope.

Definition useconds_per_day_v : Z := 24 * 3600 * 1000000.
Definition LEVEL_ONE_MAX : nat := 21.
Definition LEVEL_TWO_MAX : nat := 105.
Definition min_activated_stake : Z := 0.

(** ** Levels *)

(** The first producer of that name in a list, replaced. *)
Fixpoint on_first (producer : name) (f : yta_prod_info -> list yta_prod_info) (l : list yta_prod_info) : option (list yta_prod_info) :=
  match l with
  | [] => None
  | p :: l' => if yp_owner p =? producer then Some (f p ++ l') else cons p <$> on_first producer f l'
  end.

(** The search through level one and, if it finds nothing, level two, common to
    [rm_producer_yta], [change_producer_yta_info] and [update_producers_yta_totalvotes]. *)
Definition search_levels (producer : name) (f : yta_prod_info -> list yta_prod_info) : M system unit :=
  all_prods ← sget prodslevel;
  match all_prods with
  | None => mret tt
  | Some st =>
      match on_first producer f (prods_l1 st) with
      | Some l1 => sset prodslevel (st <| prods_l1 := l1 |>)
      | None =>
          match on_first producer f (prods_l2 st) with
          | Some l2 => sset prodslevel (st <| prods_l2 := l2 |>)
          | None => mret tt
          end
      end
  end.

Definition rm_producer_yta (producer : name) : M system unit := search_levels producer (fun _ => []).

Definition add_producer_yta (producer : name) (level : Z) : M system unit :=
  prod ← get producer_infos producer "producer not found";
  let prodyta := mkYtaProd producer (total_votes prod) (pi_key prod) (pi_active prod) (location prod) false 0 in
  all_prods ← sget prodslevel;
  let st := default levels0 all_prods in
  if level =? 1 then
    _ ← eosio_assert (length (prods_l1 st) <? LEVEL_ONE_MAX)%nat "too many level one bp";
    sset prodslevel (st <| prods_l1 := prods_l1 st ++ [prodyta] |>)
  else if level =? 2 then
    _ ← eosio_assert (length (prods_l2 st) <? LEVEL_TWO_MAX)%nat "too many level two bp";
    sset prodslevel (st <| prods_l2 := prods_l2 st ++ [prodyta] |>)
  else sset prodslevel st.

Definition delproducer (producer : name) : M system unit :=
  itp ← find producer_infos producer;
  _ ← match itp with
      | Some p =>
          _ ← on_gstate (fun g => g <| total_unpaid_blocks := u32 (total_unpaid_blocks g - unpaid_blocks p) |>);
          _ ← on_gstate (fun g => g <| total_producer_vote_weight := (total_producer_vote_weight g - total_votes p)%f64 |>);
          erase producer_infos producer
      | None => mret tt
      end;
  itpex ← find producersext producer;
  match itpex with
  | Some p =>
      _ ← on_gstateex (fun g => g <| total_unpaid_base_cnt := u32 (total_unpaid_base_cnt g - unpaid_base_cnt p) |>);
      _ ← erase producersext producer;
      rm_producer_yta producer
  | None => mret tt
  end.

Definition change_producer_yta_info (producer : name) (producer_key : Z) (isactive : bool) : M system unit :=
  if negb isactive then delproducer producer
  else search_levels producer (fun p => [p <| yp_active := isactive |> <| yp_key := producer_key |>]).

Definition update_producers_yta_totalvotes (owner : name) (total_votes : f64) : M system unit :=
  search_levels owner (fun p => [p <| yp_votes := total_votes |>]).

(** ** Registration *)

Definition regproducer (producer : name) (producer_key : Z) (url_ : string) (location_ : Z) : M system unit :=
  _ ← eosio_assert (String.length url_ <? 512)%nat "url too long";
  _ ← eosio_assert (negb (producer_key =? 0)) "public key should not be the default value";
  _ ← require_auth (N "ytaadminuser");
  prod ← find producer_infos producer;
  match prod with
  | Some _ =>
      _ ← modify producer_infos producer (fun info =>
            Ok (info <| pi_key := producer_key |> <| pi_active := true |> <| url := url_ |> <| location := location_ |>));
      change_producer_yta_info producer producer_key true
  | None => emplace producer_infos producer (mkProducer (fl 0) producer_key true url_ 0 0 location_)
  end.

Definition unregprod (producer : name) : M system unit := eosio_assert false "unregprod is disabled".

Definition seqproducer (producer shadow_ : name) (seq level_ : Z) : M system unit :=
  _ ← require_auth (N "ytaadminuser");
  itp ← find producer_infos producer;
  _ ← eosio_assert (bool_decide (is_Some itp)) "producer not found";
  _ ← eosio_assert ((1 <=? seq) && (seq <=? 21)) "invalidate seq number";
  _ ← eosio_assert ((1 <=? level_) && (level_ <=? 3)) "invalidate level number";
  it ← find producersext producer;
  match it with
  | None =>
      _ ← emplace producersext producer (mkProducerExt seq level_ 0 0 shadow_);
      add_producer_yta producer level_
  | Some _ =>
      _ ← modify producersext producer (fun row => Ok (row <| seq_num := seq |> <| level := level_ |> <| shadow := shadow_ |>));
      _ ← rm_producer_yta producer;
      add_producer_yta producer level_
  end.

(** ** Promotion and removal by votes *)

(** The pass over one level: a producer below the threshold gets a day of grace. *)
Fixpoint level_pass (threshold ct : Z) (l : list yta_prod_info) : res (list yta_prod_info * bool) :=
  match l with
  | [] => Ok ([], false)
  | it :: l' =>
      v ← f64_trunc_i64s (yp_votes it);
      let '(it, is_remove, changed) :=
        if v <? threshold then
          if is_in_grace it then
            if useconds_per_day_v <? u64 (ct - grace_start_time it) then (it <| is_in_grace := false |>, true, true)
            else (it, negb (yp_active it), false)
          else (it <| is_in_grace := true |> <| grace_start_time := ct |>, negb (yp_active it), true)
        else if is_in_grace it then (it <| is_in_grace := false |>, negb (yp_active it), true)
        else (it, negb (yp_active it), false) in
      '(l', changed') ← level_pass threshold ct l';
      if is_remove : bool then Ok (l', true) else Ok (it :: l', changed || changed')
  end.

(** The loop that fills level one from level two; [kept] is what it went past. *)
Fixpoint promote (l1 kept l2 : list yta_prod_info) (changed : bool) : res (list yta_prod_info * list yta_prod_info * bool) :=
  match l2 with
  | [] => Ok (l1, kept, changed)
  | it :: l2' =>
      v ← f64_trunc_i64s (yp_votes it);
      if 50000000000 <=? v then
        if (length l1 <? LEVEL_ONE_MAX)%nat then promote (l1 ++ [it]) kept l2' true
        else Ok (l1, kept ++ it :: l2', changed)
      else promote l1 (kept ++ [it]) l2' changed
  end.

Section handlers.
Context {E : SystemEnv} {DV : DepositView}.

Definition update_producer_level : M system unit :=
  all_prods ← sget prodslevel;
  match all_prods with
  | None => mret tt
  | Some st =>
      ct ← ask current_time;
      '(l1, changed1) ← lift (level_pass 50000000000 ct (prods_l1 st));
      '(l2, changed2) ← lift (level_pass 20000000000 ct (prods_l2 st));
      '(l1, l2, ischanged) ← lift (if (length l1 <? LEVEL_ONE_MAX)%nat then promote l1 [] (sort_by_votes l2) (changed1 || changed2)
                                   else Ok (l1, l2, changed1 || changed2));
      when ischanged (sset prodslevel (mkLevels l1 l2))
  end.

Definition reprodlevel : M system unit :=
  _ ← require_auth (N "ytarewardusr");
  g ← gets gstate;
  if last_pervote_bucket_fill g =? 0 then mret tt else update_producer_level.

Definition setautosche (auto_sche : bool) (min_l1_ max_l2_ : Z) : M system unit :=
  _ ← require_auth (N "ytaadminuser");
  sset globalext3 (mkGlobal3 auto_sche min_l1_ max_l2_).

(** ** The elected schedule *)

(** The order of [std::pair<producer_key, uint16_t>], where keys compare by name. *)
Definition top_le (a b : producer_key * Z) : Prop :=
  producer_name (fst a) < producer_name (fst b) \/ producer_name (fst a) = producer_name (fst b) /\ snd a <= snd b.
#[export] Instance top_le_dec : RelDecision top_le.
Proof. intros a b. unfold top_le. apply _. Defined.

Definition top_of (p : yta_prod_info) : producer_key * Z := (mkProducerKey (yp_owner p) (yp_key p), yp_location p).

(** The producers of level one and, where allowed, of level two up to 21 in all. *)
Definition top_producers (max_l2 : Z) (st : all_prods_level) : list (producer_key * Z) :=
  let top := map top_of (prods_l1 st) in
  if (0 <? max_l2) && (length top <? 21)%nat
  then top ++ map top_of (take (Z.to_nat (Z.min (21 - Z.of_nat (length top)) max_l2)) (sort_by_votes (prods_l2 st)))
  else top.

Definition update_elected_producers_yta (block_time : Z) : M system unit :=
  _ ← on_gstate (fun g => g <| last_producer_schedule_update := block_time |>);
  g3 ← gets (fun s => default global3_0 (globalext3 s));
  if negb (is_schedule g3) then mret tt else
  all_prods ← sget prodslevel;
  match all_prods with
  | None => mret tt
  | Some st =>
      if Z.of_nat (length (prods_l1 st)) <? min_l1 g3 then mret tt else
      let top := merge_sort top_le (top_producers (max_l2 g3) st) in
      r ← set_proposed_producers (map fst top);
      when (0 <=? r) (on_gstate (fun g => g <| last_producer_schedule_size := u16 (Z.of_nat (length top)) |>))
  end.

(** ** Votes *)

Definition stake2vote (staked : Z) : f64 := fl staked.

(** [boost::container::flat_map<account_name, pair<double, bool>>]: sorted by key, a
    missing entry is created as (0, false). *)
Fixpoint delta_upd (k : name) (f : f64 * bool -> f64 * bool) (m : list (name * (f64 * bool))) : list (name * (f64 * bool)) :=
  match m with
  | [] => [(k, f (fl 0, false))]
  | (k', d) :: m' =>
      if k <? k' then (k, f (fl 0, false)) :: m
      else if k =? k' then (k', f d) :: m'
      else (k', d) :: delta_upd k f m'
  end.

(** The votes of one producer of [propagate_weight_change]. *)
Fixpoint propagate_votes (delta : f64) (l : list name) : M system unit :=
  match l with
  | [] => mret tt
  | acnt :: l' =>
      _ ← modify producer_infos acnt (fun p => Ok (p <| total_votes := (total_votes p + delta)%f64 |>));
      _ ← on_gstate (fun g => g <| total_producer_vote_weight := (total_producer_vote_weight g + delta)%f64 |>);
      propagate_votes delta l'
  end.

(** The recursion follows proxies; there are none in a reachable state. *)
Fixpoint propagate_weight_change (fuel : nat) (voter_name : name) : M system unit :=
  voter ← get voters voter_name "unable to find key";
  _ ← eosio_assert ((proxy voter =? 0) || negb (is_proxy voter)) "account registered as a proxy is not allowed to use a proxy";
  let new_weight := if is_proxy voter then (stake2vote (staked voter) + proxied_vote_weight voter)%f64 else stake2vote (staked voter) in
  let delta := (new_weight - last_vote_weight voter)%f64 in
  _ ← (if f64_lt (fl 1) (f64_abs delta) then
         if negb (proxy voter =? 0) then
           _ ← modify voters (proxy voter) (fun p => Ok (p <| proxied_vote_weight := (proxied_vote_weight p + delta)%f64 |>));
           match fuel with
           | O => fail (WasmTrap "out of fuel")
           | S fuel' => propagate_weight_change fuel' (proxy voter)
           end
         else propagate_votes delta (voted voter)
       else mret tt);
  modify voters voter_name (fun v => Ok (v <| last_vote_weight := new_weight |>)).

Definition propagate (voter_name : name) : M system unit :=
  n ← gets (fun s => size (voters s));
  propagate_weight_change n voter_name.

(** Giving the change of a producer's votes to the tables; the result is the producer
    that was not found, or [not_found]. *)
Definition apply_delta (voting : bool) (p : name) (delta : f64) (is_new : bool) (not_found : name) : M system name :=
  pitr ← find producer_infos p;
  '(total, not_found) ← match pitr with
    | Some info =>
        _ ← eosio_assert (negb voting || pi_active info || negb is_new) "producer is not currently registered";
        let t := (total_votes info + delta)%f64 in
        let t := if f64_lt t (fl 0) then fl 0 else t in
        _ ← modify producer_infos p (fun r => Ok (r <| total_votes := t |>));
        _ ← on_gstate (fun g => g <| total_producer_vote_weight := (total_producer_vote_weight g + delta)%f64 |>);
        mret (t, not_found)
    | None =>
        _ ← when voting (eosio_assert (negb is_new) "producer is not registered");
        mret (fl 0, p)
    end;
  pitr2 ← find producersext p;
  _ ← match pitr2 with
      | Some _ => update_producers_yta_totalvotes p total
      | None => when voting (eosio_assert (negb is_new) "producer is not registered")
      end;
  mret not_found.

Fixpoint apply_deltas (voting : bool) (m : list (name * (f64 * bool))) (not_found : name) : M system name :=
  match m with
  | [] => mret not_found
  | (p, (delta, is_new)) :: m' =>
      not_found ← apply_delta voting p delta is_new not_found;
      apply_deltas voting m' not_found
  end.

(** Erasing the first occurrence of a name. *)
Fixpoint erase_first (p : name) (l : list name) : list name :=
  match l with
  | [] => []
  | q :: l' => if q =? p then l' else q :: erase_first p l'
  end.

Fixpoint sorted_votes (l : list name) : bool :=
  match l with
  | p :: (q :: _) as l' => (p <? q) && sorted_votes l'
  | _ => true
  end.

Definition check_votes (voter_name proxy_ : name) (prods : list name) : M system unit :=
  if negb (proxy_ =? 0) then
    _ ← eosio_assert (length prods =? 0)%nat "cannot vote for producers and proxy at same time";
    _ ← eosio_assert (negb (voter_name =? proxy_)) "cannot proxy to self";
    require_recipient proxy_
  else
    _ ← eosio_assert (length prods <=? 1)%nat "attempt to vote for too many producers";
    eosio_assert (sorted_votes prods) "producer votes must be unique and sorted".

(** The weight a voter has now. *)
Definition vote_weight (voter_name : name) (v : voter_info) : res f64 :=
  a ← get_depositfree voter_name;
  let w := (stake2vote (staked v) + fl (amount a))%f64 in
  Ok (if is_proxy v then (w + proxied_vote_weight v)%f64 else w).

(** The deltas: the old weight is taken back, the new one given. *)
Definition take_back (w : f64) (l : list name) (m : list (name * (f64 * bool))) : list (name * (f64 * bool)) :=
  foldl (fun m p => delta_upd p (fun d => ((fst d - w)%f64, false)) m) m l.
Definition give (w : f64) (l : list name) (m : list (name * (f64 * bool))) : list (name * (f64 * bool)) :=
  foldl (fun m p => delta_upd p (fun d => ((fst d + w)%f64, true)) m) m l.

Definition update_votes (voter_name proxy_ : name) (prods : list name) (voting : bool) : M system unit :=
  _ ← check_votes voter_name proxy_ prods;
  voter ← get voters voter_name "user must stake before they can vote";
  _ ← eosio_assert ((proxy_ =? 0) || negb (is_proxy voter)) "account registered as a proxy is not allowed to use a proxy";
  ct ← ask current_time;
  _ ← when (f64_le (last_vote_weight voter) (fl 0))
        (on_gstate (fun g =>
           let g := g <| total_activated_stake := i64 (total_activated_stake g + staked voter) |> in
           if (min_activated_stake <=? total_activated_stake g) && (thresh_activated_stake_time g =? 0)
           then g <| thresh_activated_stake_time := ct |> else g));
  new_vote_weight ← lift (vote_weight voter_name voter);
  deltas ← (if f64_lt (fl 0) (last_vote_weight voter) then
              if negb (proxy voter =? 0) then
                _ ← get voters (proxy voter) "old proxy not found";
                _ ← modify voters (proxy voter) (fun vp => Ok (vp <| proxied_vote_weight := (proxied_vote_weight vp - last_vote_weight voter)%f64 |>));
                _ ← propagate (proxy voter);
                mret []
              else mret (take_back (last_vote_weight voter) (voted voter) [])
            else mret []);
  deltas ← (if negb (proxy_ =? 0) then
              new_proxy ← get voters proxy_ "invalid proxy specified";
              _ ← eosio_assert (negb voting || is_proxy new_proxy) "proxy not found";
              _ ← when (f64_le (fl 0) new_vote_weight)
                    (_ ← modify voters proxy_ (fun vp => Ok (vp <| proxied_vote_weight := (proxied_vote_weight vp + new_vote_weight)%f64 |>));
                     propagate proxy_);
              mret deltas
            else mret (if f64_le (fl 0) new_vote_weight then give new_vote_weight prods deltas else deltas));
  not_found ← apply_deltas voting deltas 0;
  modify voters voter_name (fun av =>
    Ok (av <| last_vote_weight := new_vote_weight |>
           <| voted := if negb (not_found =? 0) then erase_first not_found prods else prods |>
           <| proxy := proxy_ |>)).

Definition voteproducer (voter_name proxy_ : name) (prods : list name) : M system unit :=
  _ ← require_auth voter_name;
  update_votes voter_name proxy_ prods true.

Definition changevotes (voter_name : name) : M system unit :=
  _ ← require_auth voter_name;
  from_voter ← find voters voter_name;
  match from_voter with
  | None => mret tt
  | Some v =>
      when (negb (length (voted v) =? 0)%nat || negb (proxy v =? 0)) (update_votes voter_name (proxy v) (voted v) false)
  end.

Definition regproxy (proxy_ : name) (isproxy : bool) : M system unit := eosio_assert false "proxy not supported.".
End handlers.
