(* ===== verification/SystemStake.v ===== *)
(** * eosio.system: RAM, staked bandwidth and refunds

    contracts/eosio.system/delegate_bandwidth.cpp. *)

From S2P Require Import Prelude Float64 Names Asset Chain Views ResourceLimits HeaderState SystemTables SystemVoting.
#[local] Open Scope Z_scope.

Definition refund_delay : Z := 3 * 24 * 3600.

(** No bandwidth or RAM for the accounts of the storage contracts. *)
Definition check_yta_account (user : name) : M system unit :=
  when ((user =? N "hddpool12345") || (user =? N "hdddeposit12") || (user =? N "hddlock12345") || (user =? N "fund.sys")
        || (user =? N "channel.sys"))
    (eosio_assert false "can not delegatebe and buy ram for this user").

(** ** RAM *)

(** .5% of an amount, rounded up. *)
Definition ram_fee (a : Z) : Z := Z.quot (i64 (a + 199)) 200.

(** The totals of an account become its limits in the node. *)
Definition limits_of_row (receiver : name) : M system unit :=
  res ← get userres receiver "unable to find key";
  set_resource_limits receiver (ur_ram res) (amount (ur_net res)) (amount (ur_cpu res)).

Section ram.
Context {E : SystemEnv}.

Definition buyram (payer receiver : name) (quant : asset) : M system unit :=
  _ ← require_auth payer;
  _ ← eosio_assert (0 <? amount quant) "must purchase a positive amount";
  _ ← check_yta_account receiver;
  let fee := mkAsset (ram_fee (amount quant)) (symbol quant) in
  let quant_after_fee := mkAsset (i64 (amount quant - amount fee)) (symbol quant) in
  _ ← inline_transfer payer (N "eosio.ram") quant_after_fee "buy ram";
  _ ← when (0 <? amount fee) (inline_transfer payer (N "eosio.ramfee") fee "ram fee");
  _ ← get rammarket RAMCORE "ram market does not exist";
  out ← modify_ret rammarket RAMCORE (fun es => convert es quant_after_fee RAM);
  let bytes_out := amount out in
  _ ← eosio_assert (0 <? bytes_out) "must reserve a positive amount";
  _ ← on_gstate (fun g => g <| total_ram_bytes_reserved := u64 (total_ram_bytes_reserved g + bytes_out) |>);
  _ ← on_gstate (fun g => g <| total_ram_stake := i64 (total_ram_stake g + amount quant_after_fee) |>);
  res_itr ← find userres receiver;
  _ ← match res_itr with
      | None => emplace userres receiver (userres0 <| ur_ram := bytes_out |>)
      | Some _ => modify userres receiver (fun res => Ok (res <| ur_ram := i64 (ur_ram res + bytes_out) |>))
      end;
  limits_of_row receiver.

(** The price of [bytes] is asked on a copy of the market. *)
Definition buyrambytes (payer receiver : name) (bytes : Z) : M system unit :=
  itr ← find rammarket RAMCORE;
  match itr with
  | None => fail (WasmTrap "end iterator dereferenced")
  | Some tmp =>
      a ← lift (asset_make bytes RAM);
      eosout ← lift (convert tmp a CORE_SYMBOL);
      buyram payer receiver (fst eosout)
  end.

Definition sellram (account : name) (bytes : Z) : M system unit :=
  _ ← require_auth account;
  _ ← eosio_assert (0 <? bytes) "cannot sell negative byte";
  _ ← check_yta_account account;
  res ← get userres account "no resource row";
  _ ← eosio_assert (bytes <=? ur_ram res) "insufficient quota";
  tokens_out ← modify_ret rammarket RAMCORE (fun es => a ← asset_make bytes RAM; convert es a CORE_SYMBOL);
  _ ← eosio_assert (1 <? amount tokens_out) "token amount received from selling ram is too low";
  _ ← on_gstate (fun g => g <| total_ram_bytes_reserved := u64 (total_ram_bytes_reserved g - bytes) |>);
  _ ← on_gstate (fun g => g <| total_ram_stake := i64 (total_ram_stake g - amount tokens_out) |>);
  g ← gets gstate;
  _ ← eosio_assert (0 <=? total_ram_stake g) "error, attempt to unstake more tokens than previously staked";
  _ ← modify userres account (fun res => Ok (res <| ur_ram := i64 (ur_ram res - bytes) |>));
  _ ← limits_of_row account;
  _ ← inline_transfer (N "eosio.ram") account tokens_out "sell ram";
  let fee := ram_fee (amount tokens_out) in
  when (0 <? fee)
    (a ← lift (asset_make fee CORE_SYMBOL);
     inline_transfer account (N "eosio.ramfee") a "sell ram fee").
End ram.

(** ** Bandwidth *)

(** [net_weight == asset(0) && cpu_weight == asset(0)], which stops at the first that is not. *)
Definition both_zero (net cpu : asset) : res bool :=
  z ← asset_eq net (core 0);
  if z : bool then asset_eq cpu (core 0) else Ok false.

Definition any_negative (net cpu : asset) : res bool :=
  z ← asset_lt net (core 0);
  if z : bool then Ok true else asset_lt cpu (core 0).

(** The stake delegated from [from] to [receiver]. *)
Definition change_delband (from receiver : name) (net cpu : asset) : M system unit :=
  itr ← find delband (from, receiver);
  _ ← match itr with
      | None => emplace delband (from, receiver) (mkDelband net cpu)
      | Some _ => modify delband (from, receiver) (fun dbo =>
          n ← asset_add (db_net dbo) net;
          c ← asset_add (db_cpu dbo) cpu;
          Ok (mkDelband n c))
      end;
  row ← get delband (from, receiver) "unable to find key";
  _ ← assert_le (core 0) (db_net row) "insufficient staked net bandwidth";
  _ ← assert_le (core 0) (db_cpu row) "insufficient staked cpu bandwidth";
  z ← lift (both_zero (db_net row) (db_cpu row));
  when z (erase delband (from, receiver)).

(** The totals of [receiver]. *)
Definition change_totals (receiver : name) (net cpu : asset) : M system unit :=
  tot_itr ← find userres receiver;
  _ ← match tot_itr with
      | None => emplace userres receiver (mkUserRes net cpu 0)
      | Some _ => modify userres receiver (fun tot =>
          n ← asset_add (ur_net tot) net;
          c ← asset_add (ur_cpu tot) cpu;
          Ok (tot <| ur_net := n |> <| ur_cpu := c |>))
      end;
  row ← get userres receiver "unable to find key";
  _ ← assert_le (core 0) (ur_net row) "insufficient staked total net bandwidth";
  _ ← assert_le (core 0) (ur_cpu row) "insufficient staked total cpu bandwidth";
  _ ← set_resource_limits receiver (ur_ram row) (amount (ur_net row)) (amount (ur_cpu row));
  z ← lift (both_zero (ur_net row) (ur_cpu row));
  when (z && (ur_ram row =? 0)) (erase userres receiver).

(** One amount of a refund request: what remains requested, and what remains to be
    transferred of [balance]. *)
Definition refund_part (requested balance : asset) : res (asset * asset) :=
  r ← asset_sub requested balance;
  neg ← asset_lt r (core 0);
  Ok (if neg : bool then (core 0, asset_neg r) else (r, core 0)).

(** A new refund request for a negative change. *)
Definition new_refund_part (balance : asset) : res (asset * asset) :=
  neg ← asset_lt balance (core 0);
  Ok (if neg : bool then (asset_neg balance, core 0) else (core 0, balance)).

(** An existing request, changed. *)
Definition reduce_refund (now : Z) (net_balance cpu_balance : asset) (r : refund_request) : res (asset * asset * refund_request) :=
  neg ← any_negative net_balance cpu_balance;
  '(n, net_rest) ← refund_part (net_amount r) net_balance;
  '(c, cpu_rest) ← refund_part (cpu_amount r) cpu_balance;
  Ok ((net_rest, cpu_rest), mkRefund (if neg : bool then now else request_time r) n c).

(** Creates, updates or deletes the refund request of [from]; returns whether a deferred
    refund is needed and what remains to be transferred. *)
Definition change_refund (from : name) (net_balance cpu_balance : asset) : M system (bool * asset * asset) :=
  req ← find refunds from;
  match req with
  | Some _ =>
      t ← sys_now;
      rest ← modify_ret refunds from (reduce_refund t net_balance cpu_balance);
      row ← get refunds from "unable to find key";
      _ ← assert_le (core 0) (net_amount row) "negative net refund amount";
      _ ← assert_le (core 0) (cpu_amount row) "negative cpu refund amount";
      z ← lift (both_zero (net_amount row) (cpu_amount row));
      _ ← when z (erase refunds from);
      mret (negb z, fst rest, snd rest)
  | None =>
      neg ← lift (any_negative net_balance cpu_balance);
      if neg : bool then
        t ← sys_now;
        '(n, net_rest) ← lift (new_refund_part net_balance);
        '(c, cpu_rest) ← lift (new_refund_part cpu_balance);
        _ ← emplace refunds from (mkRefund t n c);
        mret (true, net_rest, cpu_rest)
      else mret (false, net_balance, cpu_balance)
  end.

(** The refund and the transfer of the stake. *)
Definition move_stake (source from receiver : name) (net cpu : asset) (transfer : bool) : M system unit :=
  let is_undelegating := i64 (amount net + amount cpu) <? 0 in
  let is_delegating_to_self := negb transfer && (from =? receiver) in
  '(need_deferred_trx, net_balance, cpu_balance) ←
    (if is_delegating_to_self || is_undelegating then change_refund from net cpu else mret (false, net, cpu));
  me ← ask self;
  _ ← (if need_deferred_trx : bool then
         _ ← cancel_deferred from;
         send_deferred_replace (mkDeferred me from from refund_delay [mk_action from (N "active") me (N "refund") [VInt from]])
       else cancel_deferred from);
  transfer_amount ← lift (asset_add net_balance cpu_balance);
  pos ← lift (asset_lt (core 0) transfer_amount);
  when pos (inline_transfer source (N "eosio.stake") transfer_amount "stake bandwidth").

Section bandwidth.
Context {TV : TokenView} {LV : LockView} {DV : DepositView}.

(** The voting power. *)
Definition change_voter (from : name) (total_update : asset) : M system unit :=
  from_voter ← find voters from;
  _ ← match from_voter with
      | None => emplace voters from (voter0 <| staked := amount total_update |>)
      | Some _ => modify voters from (fun v => Ok (v <| staked := i64 (staked v + amount total_update) |>))
      end;
  v ← get voters from "unable to find key";
  _ ← eosio_assert (0 <=? staked v) "stake for voting cannot be negative";
  when (negb (length (voted v) =? 0)%nat || negb (proxy v =? 0)) (update_votes from (proxy v) (voted v) false).

Definition changebw (from receiver : name) (stake_net_delta stake_cpu_delta : asset) (transfer : bool) : M system unit :=
  _ ← require_auth from;
  z ← lift (both_zero stake_net_delta stake_cpu_delta);
  _ ← eosio_assert (negb z) "should stake non-zero amount";
  total ← lift (asset_add stake_net_delta stake_cpu_delta);
  _ ← eosio_assert (Z.max (i64 (Z.abs (amount stake_net_delta))) (i64 (Z.abs (amount stake_cpu_delta))) <=? i64 (Z.abs (amount total)))
        "net and cpu deltas cannot be opposite signs";
  _ ← check_yta_account receiver;
  let source_stake_from := from in
  let from := if transfer then receiver else from in
  _ ← change_delband from receiver stake_net_delta stake_cpu_delta;
  _ ← change_totals receiver stake_net_delta stake_cpu_delta;
  _ ← when (negb (source_stake_from =? N "eosio.stake"))
        (move_stake source_stake_from from receiver stake_net_delta stake_cpu_delta transfer);
  total_update ← lift (asset_add stake_net_delta stake_cpu_delta);
  change_voter from total_update.

Definition delegatebw (from receiver : name) (stake_net_quantity stake_cpu_quantity : asset) (transfer : bool) : M system unit :=
  _ ← assert_le (core 0) stake_cpu_quantity "must stake a positive amount";
  _ ← assert_le (core 0) stake_net_quantity "must stake a positive amount";
  sum ← lift (asset_add stake_net_quantity stake_cpu_quantity);
  _ ← assert_lt (core 0) sum "must stake a positive amount";
  _ ← eosio_assert (negb transfer || negb (from =? receiver)) "cannot use transfer flag if delegating to self";
  _ ← when transfer
        (balance ← lift (get_balance from (symbol_code CORE_SYMBOL));
         frozen_asset ← lift (get_deposit from);
         t ← ask current_time;
         lock_asset ← lift (get_lock_asset t from);
         _ ← eosio_assert (symbol frozen_asset =? symbol lock_asset) "deposit and lock symbol precision mismatch";
         frozen_asset ← lift (asset_add frozen_asset lock_asset);
         _ ← eosio_assert (symbol frozen_asset =? CORE_SYMBOL) "deposit symbol not core symbol";
         free ← lift (asset_sub balance frozen_asset);
         ok ← lift (asset_ge free sum);
         eosio_assert ok "overdrawn balance for transfer bw");
  changebw from receiver stake_net_quantity stake_cpu_quantity transfer.

Definition undelegatebw (from receiver : name) (unstake_net_quantity unstake_cpu_quantity : asset) : M system unit :=
  _ ← assert_le (core 0) unstake_cpu_quantity "must unstake a positive amount";
  _ ← assert_le (core 0) unstake_net_quantity "must unstake a positive amount";
  sum ← lift (asset_add unstake_cpu_quantity unstake_net_quantity);
  _ ← assert_lt (core 0) sum "must unstake a positive amount";
  g ← gets gstate;
  _ ← eosio_assert (min_activated_stake <=? total_activated_stake g)
        "cannot undelegate bandwidth until the chain is activated (at least 15% of all tokens participate in voting)";
  changebw from receiver (asset_neg unstake_net_quantity) (asset_neg unstake_cpu_quantity) false.
End bandwidth.

Definition refund (owner : name) : M system unit :=
  _ ← require_auth owner;
  req ← get refunds owner "refund request not found";
  t ← sys_now;
  _ ← eosio_assert (u32 (request_time req + refund_delay) <=? t) "refund is not available yet";
  sum ← lift (asset_add (net_amount req) (cpu_amount req));
  _ ← inline_transfer (N "eosio.stake") owner sum "unstake";
  erase refunds owner.
