(* ===== verification/SystemPay.v ===== *)
(** * eosio.system: blocks and the pay of producers

    contracts/eosio.system/producer_pay.cpp.  [onblock] runs at the start of every block:
    every two minutes it proposes the elected schedule and may close a name auction, in
    the blocks between it drives the rewards of the storage pool. *)

From stdpp Require Import sorting.
From S2P Require Import Prelude Float64 Names Asset Chain Views ResourceLimits HeaderState SystemTables SystemVoting.
#[local] Open Scope Z_scope.

Definition blocks_per_day : Z := 2 * 24 * 3600.
Definition seconds_per_year : Z := 52 * 7 * 24 * 3600.
Definition useconds_per_day : Z := 24 * 3600 * 1000000.
Definition useconds_per_year : Z := seconds_per_year * 1000000.
Definition block_initial_timestamp : Z := 1578621600.
Definition YTA_SEO_BASE : Z := 100000.
Definition YTA_PRECISION : f64 := fl 10000.
Definition yta_seo_year : list Z := [1000; 300; 300; 300; 300; 300; 300; 300; 300; 300; 300; 300].

(** ** Blocks *)

(** The index [highbid]: by the bid, then by the name. *)
Definition bid_le (a b : name * name_bid) : Prop :=
  by_high_bid (snd a) < by_high_bid (snd b) \/ by_high_bid (snd a) = by_high_bid (snd b) /\ fst a <= fst b.
#[export] Instance bid_le_dec : RelDecision bid_le.
Proof. intros a b. unfold bid_le. apply _. Defined.

Definition highest_bid (m : gmap name name_bid) : option (name * name_bid) := head (merge_sort bid_le (map_to_list m)).

Definition close_auction (slot : Z) : M system unit :=
  highest ← gets (fun s => highest_bid (namebids s));
  g ← gets gstate;
  ct ← ask current_time;
  match highest with
  | None => mret tt
  | Some (newname, b) =>
      when ((0 <? high_bid b) && (last_bid_time b <? u64 (ct - useconds_per_day)) && (0 <? thresh_activated_stake_time g)
            && (14 * useconds_per_day <? u64 (ct - thresh_activated_stake_time g)))
        (_ ← on_gstate (fun g => g <| last_name_close := slot |>);
         modify namebids newname (fun b => Ok (b <| high_bid := i64 (- high_bid b) |>)))
  end.

Definition hddpool_account : name := N "hddpool12345".

Section blocks.
Context {E : SystemEnv} {PV : PoolView}.

Definition onblock (slot : Z) (producer : name) : M system unit :=
  _ ← require_auth (N "eosio");
  g ← gets gstate;
  if 240 <? u32 (slot - last_producer_schedule_update g) then
    _ ← update_elected_producers_yta slot;
    g ← gets gstate;
    when (blocks_per_day <? u32 (slot - last_name_close g)) (close_auction slot)
  else if get_next_reward_slot <=? slot then
    send (mk_action hddpool_account (N "active") hddpool_account (N "onreward") [VU32 slot])
  else when (get_next_build_slot <=? slot)
    (send (mk_action hddpool_account (N "active") hddpool_account (N "onbuild") [VU32 slot])).

(** ** Pay *)

Definition claimrewards (owner : name) : M system unit := eosio_assert false "can not claimrewards by self".

Definition startreward : M system unit :=
  _ ← require_auth (N "ytarewardusr");
  g ← gets gstate;
  _ ← eosio_assert (last_pervote_bucket_fill g =? 0) "already start reward";
  all_prods ← sget prodslevel;
  match all_prods with
  | None => eosio_assert false "can not start reward"
  | Some st =>
      _ ← eosio_assert (21 <=? length (prods_l1 st))%nat "main susper producers not enough";
      _ ← eosio_assert (42 <=? length (prods_l2 st))%nat "super producers not enouth";
      ct ← ask current_time;
      on_gstate (fun g => g <| last_pervote_bucket_fill := ct |>)
  end.

(** yta_seo_year[idx_year] * YTA_SEO_BASE *)
Definition seo_token (now : Z) : Z :=
  let idx_year := Z.quot (now - block_initial_timestamp) seconds_per_year in
  let a := match (if 0 <=? idx_year then yta_seo_year !! Z.to_nat idx_year else None) with
           | Some a => a
           | None => seo_outside idx_year
           end in
  u32 (a * YTA_SEO_BASE).

(** The tokens issued for [usecs] microseconds. *)
Definition seo_tokens (token usecs : Z) : res Z :=
  f64_trunc_i64s (fl token * YTA_PRECISION * fl usecs / fl useconds_per_year)%f64.

(** Filling the buckets. *)
Definition fill_buckets (now ct : Z) : M system unit :=
  g ← gets gstate;
  let usecs_since_last_fill := u64 (ct - last_pervote_bucket_fill g) in
  when ((0 <? usecs_since_last_fill) && (0 <? last_pervote_bucket_fill g))
    (new_tokens ← lift (seo_tokens (seo_token now) usecs_since_last_fill);
     _ ← print [VStr "new_token: "; VInt new_tokens];
     let to_per_base_pay := Z.quot (i64 (new_tokens * 3)) 5 in
     let to_producers := i64 (new_tokens - to_per_base_pay) in
     let to_per_block_pay := Z.quot to_producers 2 in
     let to_per_vote_pay := i64 (to_producers - to_per_block_pay) in
     a ← lift (asset_make new_tokens CORE_SYMBOL);
     _ ← send (mk_action (N "eosio") (N "active") (N "eosio.token") (N "issue")
                 [VInt (N "eosio"); VAsset a; VStr "issue tokens for producer pay"]);
     _ ← inline_transfer (N "eosio") (N "hddbasefound") a "fund total bucket";
     _ ← on_gstateex (fun g => g <| perbase_bucket := i64 (perbase_bucket g + to_per_base_pay) |>);
     _ ← on_gstate (fun g => g <| pervote_bucket := i64 (pervote_bucket g + to_per_vote_pay) |>);
     _ ← on_gstate (fun g => g <| perblock_bucket := i64 (perblock_bucket g + to_per_block_pay) |>);
     on_gstate (fun g => g <| last_pervote_bucket_fill := ct |>)).

(** What has been paid so far. *)
Record paid := mkPaid { pd_total : Z; pd_base : Z; pd_block : Z; pd_vote : Z }.

(** The pay from the votes bucket. *)
Definition vote_pay (bucket : Z) (votes total_vote_weight : f64) : res Z :=
  if f64_lt (fl 0) total_vote_weight then f64_trunc_i64s (fl bucket * votes / total_vote_weight)%f64 else Ok 0.

(** The loop over one level; level two gets nothing from the block bucket. *)
Fixpoint pay_level (memo : string) (base_pay block_pay vote_bucket total_pay : Z) (total_vote_weight : f64)
    (l : list yta_prod_info) (p : paid) : M system paid :=
  match l with
  | [] => mret p
  | it :: l' =>
      v ← lift (vote_pay vote_bucket (yp_votes it) total_vote_weight);
      _ ← print [VStr "producer_per_base_pay -- "; VInt base_pay; VStr "producer_per_block_pay -- "; VInt block_pay;
                 VStr "producer_per_vote_pay -- "; VInt v];
      let per_total := i64 (i64 (base_pay + block_pay) + v) in
      if (0 <? per_total) && (i64 (per_total + pd_total p) <=? total_pay) then
        a ← lift (asset_make per_total CORE_SYMBOL);
        _ ← inline_transfer (N "hddbasefound") (yp_owner it) a memo;
        pay_level memo base_pay block_pay vote_bucket total_pay total_vote_weight l'
          (mkPaid (i64 (pd_total p + per_total)) (i64 (pd_base p + base_pay)) (i64 (pd_block p + block_pay)) (i64 (pd_vote p + v)))
      else pay_level memo base_pay block_pay vote_bucket total_pay total_vote_weight l' p
  end.

Definition sum_votes (l : list yta_prod_info) (w : f64) : f64 := foldl (fun w it => (w + yp_votes it)%f64) w l.

Definition pay_producers (st : all_prods_level) : M system unit :=
  let num_main_producers := Z.of_nat (length (prods_l1 st)) in
  let num_producers := Z.of_nat (length (prods_l1 st) + length (prods_l2 st)) in
  g ← gets gstate;
  gx ← gets gstateex;
  let total_pay := i64 (i64 (perbase_bucket gx + perblock_bucket g) + pervote_bucket g) in
  _ ← print [VStr "producer_total_base_pay -- "; VInt (perbase_bucket gx); VStr "producer_total_block_pay -- ";
             VInt (perblock_bucket g); VStr "producer_total_vote_pay -- "; VInt (pervote_bucket g)];
  let total_vote_weight := sum_votes (prods_l2 st) (sum_votes (prods_l1 st) (fl 0)) in
  base_pay ← lift (i64_div (perbase_bucket gx) num_producers);
  block_pay ← lift (i64_div (perblock_bucket g) num_main_producers);
  p ← pay_level "main producer daily pay" base_pay block_pay (pervote_bucket g) total_pay total_vote_weight (prods_l1 st) (mkPaid 0 0 0 0);
  p ← pay_level "producer daily pay" base_pay 0 (pervote_bucket g) total_pay total_vote_weight (prods_l2 st) p;
  _ ← on_gstateex (fun g => g <| perbase_bucket := i64 (perbase_bucket g - pd_base p) |>);
  _ ← on_gstate (fun g => g <| pervote_bucket := i64 (pervote_bucket g - pd_vote p) |>);
  _ ← on_gstate (fun g => g <| perblock_bucket := i64 (perblock_bucket g - pd_block p) |>);
  _ ← on_gstateex (fun g => if perbase_bucket g <? 0 then g <| perbase_bucket := 0 |> else g);
  _ ← on_gstate (fun g => if pervote_bucket g <? 0 then g <| pervote_bucket := 0 |> else g);
  on_gstate (fun g => if perblock_bucket g <? 0 then g <| perblock_bucket := 0 |> else g).

Definition rewardprods : M system unit :=
  _ ← require_auth (N "ytarewardusr");
  g ← gets gstate;
  if last_pervote_bucket_fill g =? 0 then mret tt else
  all_prods ← sget prodslevel;
  match all_prods with
  | None => mret tt
  | Some st =>
      if (length (prods_l1 st) <? 1)%nat then mret tt else
      ct ← ask current_time;
      now ← sys_now;
      _ ← on_gstateex (fun g => g <| gs_last_claim_time := ct |>);
      _ ← fill_buckets now ct;
      pay_producers st
  end.
End blocks.
