(* ===== verification/EosioSystem.v ===== *)
(** * eosio.system: accounts, names, parameters and the dispatcher

    contracts/eosio.system/eosio.system.cpp: the actions that are not in one of the other
    files of the contract, and EOSIO_ABI over all of them, each run between the
    constructor and the destructor of the contract object. *)

From S2P Require Import Prelude Float64 Names Asset Chain Views ResourceLimits HeaderState SystemTables SystemVoting SystemStake SystemPay.
#[local] Open Scope Z_scope.

Definition setram (max_ram_size_ : Z) : M system unit :=
  me ← ask self;
  _ ← require_auth me;
  g ← gets gstate;
  _ ← eosio_assert (max_ram_size g <? max_ram_size_) "ram may only be increased";
  _ ← eosio_assert (max_ram_size_ <? 1024 * 1024 * 1024 * 1024 * 1024) "ram size is unrealistic";
  _ ← eosio_assert (total_ram_bytes_reserved g <? max_ram_size_) "attempt to set max below reserved";
  let delta := i64 (i64 max_ram_size_ - i64 (max_ram_size g)) in
  _ ← modify rammarket RAMCORE (fun m =>
        Ok (m <| base := (base m) <| balance := mkAsset (i64 (amount (balance (base m)) + delta)) (symbol (balance (base m))) |> |>));
  _ ← on_gstate (fun g => g <| max_ram_size := max_ram_size_ |>);
  g ← gets gstate;
  sset global g.

Definition setparams (params : blockchain_parameters) : M system unit :=
  _ ← require_auth (N "eosio");
  _ ← on_gstate (fun g => g <| gs_params := params |>);
  _ ← eosio_assert (3 <=? max_authority_depth params) "max_authority_depth should be at least 3";
  set_blockchain_parameters params.

Definition setpriv (account : name) (ispriv : Z) : M system unit :=
  me ← ask self;
  _ ← require_auth me;
  set_privileged account (negb (ispriv =? 0)).

Definition rmvproducer (producer : name) : M system unit :=
  _ ← require_auth (N "ytaadminuser");
  prod ← find producer_infos producer;
  _ ← eosio_assert (bool_decide (is_Some prod)) "producer not found";
  _ ← modify producer_infos producer (fun p => Ok (deactivate p));
  change_producer_yta_info producer 0 false.

(** ** Names *)

Definition bidname (bidder newname : name) (bid : asset) : M system unit :=
  _ ← require_auth bidder;
  _ ← eosio_assert (name_suffix newname =? newname) "you can only bid on top-level suffix";
  _ ← eosio_assert (negb (newname =? 0)) "the empty name is not a valid account name to bid on";
  _ ← eosio_assert (Z.land newname 0xF =? 0) "13 character names are not valid account names to bid on";
  _ ← eosio_assert (Z.land newname 0x1F0 =? 0) "accounts with 12 character names and no dots can be created without bidding required";
  exists_ ← ask (fun c => is_account c newname);
  _ ← eosio_assert (negb exists_) "account already exists";
  _ ← eosio_assert (symbol bid =? CORE_SYMBOL) "asset must be system token";
  _ ← eosio_assert (0 <? amount bid) "insufficient bid";
  _ ← inline_transfer bidder (N "eosio.names") bid ("bid name " +:+ name_to_string newname)%string;
  _ ← print [VInt bidder; VStr " bid "; VAsset bid; VStr " on "; VInt newname];
  ct ← ask current_time;
  current ← find namebids newname;
  match current with
  | None => emplace namebids newname (mkBid bidder (amount bid) ct)
  | Some b =>
      _ ← eosio_assert (0 <? high_bid b) "this auction has already closed";
      _ ← eosio_assert (Z.quot (high_bid b) 10 <? i64 (amount bid - high_bid b)) "must increase bid by 10%";
      _ ← eosio_assert (negb (high_bidder b =? bidder)) "account is already highest bidder";
      a ← lift (asset_make (high_bid b) CORE_SYMBOL);
      _ ← inline_transfer (N "eosio.names") (high_bidder b) a ("refund bid on name " +:+ name_to_string newname)%string;
      modify namebids newname (fun _ => Ok (mkBid bidder (amount bid) ct))
  end.

(** The loop over the twelve first characters. *)
Fixpoint has_dot (k : nat) (tmp : Z) : bool :=
  match k with
  | O => false
  | S k' => (Z.land tmp 31 =? 0) || has_dot k' (Z.shiftr tmp 5)
  end.

(** Who may create an account of that name. *)
Definition check_new_name (creator newact : name) : M system unit :=
  when (has_dot 12 (Z.shiftr newact 4))
    (let suffix := name_suffix newact in
     if suffix =? newact then
       current ← get namebids newact "no active bid for name";
       _ ← eosio_assert (high_bidder current =? creator) "only highest bidder can claim";
       _ ← eosio_assert (high_bid current <? 0) "auction for name is not closed yet";
       erase namebids newact
     else eosio_assert (creator =? suffix) "only suffix may create this account").

Definition newaccount (creator newact : name) : M system unit :=
  me ← ask self;
  _ ← when (negb (creator =? me)) (check_new_name creator newact);
  _ ← emplace userres newact userres0;
  _ ← set_resource_limits newact 0 0 0;
  n ← gets (fun s => default total_accounts0 (gcount s));
  sset gcount (u64 (n + 1)).

(** ** The dispatcher *)

Inductive system_action :=
| SNewaccount (creator newact : name)
| SNative                                (* updateauth, deleteauth, linkauth, unlinkauth, canceldelay, onerror *)
| SSetram (max_ram_size : Z)
| SSetparams (params : blockchain_parameters)
| SSetpriv (account : name) (ispriv : Z)
| SRmvproducer (producer : name)
| SBidname (bidder newname : name) (bid : asset)
| SBuyrambytes (payer receiver : name) (bytes : Z)
| SBuyram (payer receiver : name) (quant : asset)
| SSellram (account : name) (bytes : Z)
| SDelegatebw (from receiver : name) (net cpu : asset) (transfer : bool)
| SUndelegatebw (from receiver : name) (net cpu : asset)
| SRefund (owner : name)
| SRegproducer (producer : name) (producer_key : Z) (url : string) (location : Z)
| SUnregprod (producer : name)
| SVoteproducer (voter proxy : name) (producers : list name)
| SChangevotes (voter : name)
| SRegproxy (proxy : name) (isproxy : bool)
| SSeqproducer (producer shadow : name) (seq level : Z)
| SReprodlevel
| SSetautosche (auto_sche : bool) (min_l1 max_l2 : Z)
| SOnblock (slot : Z) (producer : name)
| SClaimrewards (owner : name)
| SRewardprods
| SStartreward.

(** The contracts an action reads from. *)
Record other_contracts := mkOthers { oc_token : TokenView; oc_lock : LockView; oc_deposit : DepositView; oc_pool : PoolView }.

Section dispatch.
Context {E : SystemEnv}.

Definition system_handler (v : other_contracts) (a : system_action) : M system unit :=
  let TV := oc_token v in let LV := oc_lock v in let DV := oc_deposit v in let PV := oc_pool v in
  match a with
  | SNewaccount creator newact => newaccount creator newact
  | SNative => mret tt
  | SSetram m => setram m
  | SSetparams p => setparams p
  | SSetpriv account ispriv => setpriv account ispriv
  | SRmvproducer p => rmvproducer p
  | SBidname bidder newname bid => bidname bidder newname bid
  | SBuyrambytes payer receiver bytes => buyrambytes payer receiver bytes
  | SBuyram payer receiver quant => buyram payer receiver quant
  | SSellram account bytes => sellram account bytes
  | SDelegatebw from receiver net cpu transfer => delegatebw from receiver net cpu transfer
  | SUndelegatebw from receiver net cpu => undelegatebw from receiver net cpu
  | SRefund owner => refund owner
  | SRegproducer p key u loc => regproducer p key u loc
  | SUnregprod p => unregprod p
  | SVoteproducer voter px prods => voteproducer voter px prods
  | SChangevotes voter => changevotes voter
  | SRegproxy px b => regproxy px b
  | SSeqproducer p sh seq lvl => seqproducer p sh seq lvl
  | SReprodlevel => reprodlevel
  | SSetautosche b m1 m2 => setautosche b m1 m2
  | SOnblock slot p => onblock slot p
  | SClaimrewards owner => claimrewards owner
  | SRewardprods => rewardprods
  | SStartreward => startreward
  end.

Definition system_apply (v : other_contracts) (a : system_action) : M system unit :=
  let TV := oc_token v in in_system (system_handler v a).
End dispatch.
