(* ===== verification/SystemBooks.v ===== *)
(** * eosio.system: stakes, limits and refunds

    What the tables of delegated bandwidth book: the totals of an account are what is
    delegated to it, the stake of a voter is what that voter delegates, and the limits the node
    enforces are the totals.  The first part frames the actions on producers and votes:
    they touch none of it. *)

From S2P Require Import Prelude Float64 Names Asset Chain Views Frame ResourceLimits HeaderState.
From S2P Require Import SystemTables SystemVoting SystemStake SystemPay EosioSystem.
#[local] Open Scope Z_scope.

(** ** Frames *)

Section frames.
Context (R : relation (system * out)) {HR : PreOrder R}.

Lemma within_on_gstate g : (forall s o, R (s, o) (s <| gstate := g (gstate s) |>, o)) -> within R (on_gstate g).
Proof. intros H c s o a s' o' [= _ <- <-]. apply H. Qed.
Lemma within_on_gstateex g : (forall s o, R (s, o) (s <| gstateex := g (gstateex s) |>, o)) -> within R (on_gstateex g).
Proof. intros H c s o a s' o' [= _ <- <-]. apply H. Qed.
Lemma within_on_node {A} (g : ctx -> node -> res (A * node)) :
  (forall c s o a n, g c (chain_node s) = Ok (a, n) -> R (s, o) (s <| chain_node := n |>, o)) -> within R (on_node g).
Proof.
  intros H c s o a s' o' E. unfold on_node in E. destruct (g c (chain_node s)) as [[b n]|] eqn:En; [|done].
  injection E as _ <- <-. by eapply H.
Qed.
Lemma within_cancel id : (forall s o l, R (s, o) (s, o <| deferreds := l |>)) -> within R (cancel_deferred id).
Proof. intros H c s o a s' o' [= _ <- <-]. apply H. Qed.
Lemma within_now : within R sys_now.
Proof. by apply within_ask. Qed.
End frames.
#[export] Hint Resolve within_now : frame.

Ltac sframe_step tac :=
  first
    [ frame_step tac
    | apply within_on_gstate; intros; tac
    | apply within_on_gstateex; intros; tac
    | apply within_on_node; intros; tac
    | apply within_cancel; intros; tac
    | unfold inline_transfer ].
Ltac sframe_with tac := repeat sframe_step tac.

(** Rewriting a row without changing what [g] reads of it. *)
Lemma fmap_insert_same {K V W} `{Countable K} (g : V -> W) (m : gmap K V) k v w :
  m !! k = Some v -> g w = g v -> g <$> <[k := w]> m = g <$> m.
Proof. intros Hk Hg. rewrite fmap_insert, Hg. apply insert_id. by rewrite lookup_fmap, Hk. Qed.

(** What the actions on producers and votes leave alone: the stakes, the RAM market, the
    auctions, the limits of accounts, and the token transfers queued. *)
Definition money (s : system) (o : out) :=
  (delband s, userres s, refunds s, staked <$> voters s, rammarket s, namebids s, resources (chain_node s),
   (max_ram_size (gstate s), total_ram_bytes_reserved (gstate s), total_ram_stake (gstate s)), inlines o).

Lemma money_voters k g : (forall v w, g v = Ok w -> staked w = staked v) -> within (kept money) (modify voters k g).
Proof.
  intros Hg. apply within_modify. intros s o v w Hk Hw. unfold kept, money. cbn.
  by rewrite (fmap_insert_same _ _ _ v w Hk (Hg _ _ Hw)).
Qed.

Ltac mframe :=
  sframe_with ltac:(solve [reflexivity | unfold kept, money; cbn; repeat case_match; reflexivity]);
  try (apply money_voters; by intros ? ? [= <-]).

Section votes.
Context {E : SystemEnv}.

Lemma money_search p g : within (kept money) (search_levels p g).
Proof. unfold search_levels. mframe. Qed.
#[local] Hint Resolve money_search : frame.

Lemma money_delta voting p d b nf : within (kept money) (apply_delta voting p d b nf).
Proof. unfold apply_delta, update_producers_yta_totalvotes. mframe. Qed.

Lemma money_deltas voting m : forall nf, within (kept money) (apply_deltas voting m nf).
Proof.
  induction m as [|[p [d b]] m IH]; intros nf; cbn [apply_deltas]; [apply within_ret, _|].
  apply within_bind; [apply _|apply money_delta|apply IH].
Qed.

Lemma money_propagate_votes d l : within (kept money) (propagate_votes d l).
Proof. induction l as [|a l IH]; cbn [propagate_votes]; mframe. Qed.

Lemma money_propagate_change n : forall v, within (kept money) (propagate_weight_change n v).
Proof.
  induction n as [|n IH]; intros v; cbn [propagate_weight_change]; mframe; apply money_propagate_votes.
Qed.

Lemma money_propagate v : within (kept money) (propagate v).
Proof. unfold propagate. mframe. apply money_propagate_change. Qed.
#[local] Hint Resolve money_deltas money_propagate : frame.

Lemma money_update_votes {DV : DepositView} v p l b : within (kept money) (update_votes v p l b).
Proof. unfold update_votes, check_votes. mframe. Qed.

Lemma money_elected slot : within (kept money) (update_elected_producers_yta slot).
Proof.
  unfold update_elected_producers_yta, set_proposed_producers. mframe. apply within_on_node.
  intros c s o r n H. unfold node_set_proposed_producers in H. repeat (apply res_bind_ok in H as (? & _ & H)).
  injection H as H. unfold kept, money. cbn. do 3 f_equal. unfold controller_set_proposed_producers in H.
  destruct (match proposed_schedule_block_num (chain_node s) with Some _ => _ | None => _ end); [by injection H as <- <-|].
  destruct (bool_decide _); by injection H as <- <-.
Qed.
End votes.

(** ** Stakes *)

(** A change of a stake as [delegatebw] and [undelegatebw] pass it on: core tokens, of one
    sign. *)
Definition stake_delta (net cpu : asset) : Prop :=
  symbol net = CORE_SYMBOL /\ symbol cpu = CORE_SYMBOL /\
  (0 <= amount net /\ 0 <= amount cpu /\ 0 < amount net + amount cpu \/ amount net <= 0 /\ amount cpu <= 0 /\ amount net + amount cpu < 0) /\
  - max_amount <= amount net + amount cpu <= max_amount.

Lemma stake_delta_range net cpu : stake_delta net cpu -> in_range net /\ in_range cpu.
Proof. unfold stake_delta, in_range. lia. Qed.

Lemma asset_lt_Ok a b r : asset_lt a b = Ok r -> r = (amount a <? amount b) /\ symbol a = symbol b.
Proof. unfold asset_lt. intros H. apply res_bind_ok in H as (? & Hg%guard_Ok & H). injection H as <-. split; [done|lia]. Qed.
Lemma asset_le_Ok a b r : asset_le a b = Ok r -> r = (amount a <=? amount b) /\ symbol a = symbol b.
Proof. unfold asset_le. intros H. apply res_bind_ok in H as (? & Hg%guard_Ok & H). injection H as <-. split; [done|lia]. Qed.
Lemma asset_eq_Ok a b r : asset_eq a b = Ok r -> r = (amount a =? amount b) /\ symbol a = symbol b.
Proof. unfold asset_eq. intros H. apply res_bind_ok in H as (? & Hg%guard_Ok & H). injection H as <-. split; [done|lia]. Qed.

Lemma assert_le_Ok a b msg u c s o s' o' : assert_le a b msg c s o = Ok (u, s', o') -> amount a <= amount b /\ symbol a = symbol b /\ s' = s /\ o' = o.
Proof. unfold assert_le. intros H. minv. apply asset_le_Ok in H as [E ?]. symmetry in E. zb. done. Qed.
Lemma assert_lt_Ok a b msg u c s o s' o' : assert_lt a b msg c s o = Ok (u, s', o') -> amount a < amount b /\ symbol a = symbol b /\ s' = s /\ o' = o.
Proof. unfold assert_lt. intros H. minv. apply asset_lt_Ok in H as [E ?]. symmetry in E. zb. done. Qed.

Lemma both_zero_core net cpu r : both_zero net cpu = Ok r -> is_core net -> is_core cpu ->
  r = (amount net =? 0) && (amount cpu =? 0).
Proof.
  unfold both_zero. intros H _ _. apply res_bind_ok in H as (z & [-> _]%asset_eq_Ok & H). cbn in *.
  destruct (amount net =? 0); [apply asset_eq_Ok in H as [-> _]|injection H as <-]; done.
Qed.

(** A stake of core tokens, changed and found not negative. *)
Lemma core_changed x d r : is_core x -> in_range d -> symbol d = CORE_SYMBOL -> asset_add x d = Ok r -> 0 <= amount r ->
  is_core r /\ amount r = amount x + amount d.
Proof.
  intros Hx Hd _ H H0. apply asset_add_Ok in H as (_ & -> & Hr); [|by apply core_in_range|by apply in_range_i64].
  unfold in_range in Hr. cbn in *. split; [|done]. split; [apply Hx|]. cbn. lia.
Qed.

(** The sum of the stakes, with a weight for each of the two parts. *)
Definition del_sum (w : name * name -> Z * Z) (m : gmap (name * name) delegated_bandwidth) : Z :=
  map_sum (fun k r => fst (w k) * amount (db_net r) + snd (w k) * amount (db_cpu r)) m.

Definition delband_ok : gmap (name * name) delegated_bandwidth -> Prop :=
  map_Forall (fun _ r => is_core (db_net r) /\ is_core (db_cpu r)).

Lemma change_delband_spec from receiver net cpu c s o u s' o' :
  delband_ok (delband s) -> stake_delta net cpu -> change_delband from receiver net cpu c s o = Ok (u, s', o') ->
  exists m, s' = s <| delband := m |> /\ o' = o /\ delband_ok m /\
    forall w, del_sum w m = del_sum w (delband s) + fst (w (from, receiver)) * amount net + snd (w (from, receiver)) * amount cpu.
Proof.
  intros Hok Hd H. pose proof (stake_delta_range _ _ Hd) as [Hn Hc]. destruct Hd as (Sn & Sc & _). set (k := (from, receiver)) in *.
  unfold change_delband in H. fold k in H. apply bind_Ok in H as (itr & s1 & o1 & (-> & -> & ->)%find_Ok & H).
  apply bind_Ok in H as ([] & s1 & o1 & H1 & H).
  assert (Hrow : exists row, s1 = s <| delband := <[k := row]> (delband s) |> /\ o1 = o /\
    (0 <= amount (db_net row) -> 0 <= amount (db_cpu row) -> is_core (db_net row) /\ is_core (db_cpu row)) /\
    forall w, del_sum w (<[k := row]> (delband s)) = del_sum w (delband s) + fst (w k) * amount net + snd (w k) * amount cpu).
  { destruct (delband s !! k) as [old|] eqn:Eo.
    - apply modify_Ok in H1 as (v & row & Hv & Hrow & -> & ->). replace v with old in * by congruence.
      apply res_bind_ok in Hrow as (n & En & Hrow). apply res_bind_ok in Hrow as (cp & Ec & Hrow). injection Hrow as <-.
      destruct (Hok _ _ Eo) as [Kn Kc]. exists (mkDelband n cp). split; [done|]. split; [done|].
      apply asset_add_Ok in En as (_ & -> & Rn); [|by apply core_in_range|by apply in_range_i64].
      apply asset_add_Ok in Ec as (_ & -> & Rc); [|by apply core_in_range|by apply in_range_i64]. cbn.
      split; [|intros w; unfold del_sum; rewrite (map_sum_insert _ _ _ old) by done; cbn; lia].
      unfold in_range in *. destruct Kn, Kc. cbn in *. repeat split; cbn; (done || lia).
    - apply emplace_Ok in H1 as (_ & -> & ->). exists (mkDelband net cpu). split; [done|]. split; [done|]. unfold in_range in *.
      split; [intros; repeat split; cbn in *; (done || lia)|]. intros w. unfold del_sum. rewrite map_sum_insert_new by done. cbn. lia. }
  destruct Hrow as (row & -> & -> & Hcore & Hsum).
  apply bind_Ok in H as (row' & s1 & o1 & (Hrow' & -> & ->)%get_Ok & H). cbn in Hrow'. rewrite lookup_insert_eq in Hrow'. injection Hrow' as <-.
  apply bind_Ok in H as (? & s1 & o1 & (P1 & _ & -> & ->)%assert_le_Ok & H).
  apply bind_Ok in H as (? & s1 & o1 & (P2 & _ & -> & ->)%assert_le_Ok & H). cbn in P1, P2. destruct (Hcore P1 P2) as [Kn Kc].
  apply bind_Ok in H as (z & s1 & o1 & (Hz & -> & ->)%lift_Ok & H). apply both_zero_core in Hz; [|done..].
  assert (Hok' : delband_ok (<[k := row]> (delband s))) by (by apply map_Forall_insert_2).
  unfold when in H. destruct z.
  - apply erase_Ok in H as (row2 & E2 & -> & ->). cbn in E2. rewrite lookup_insert_eq in E2. injection E2 as <-.
    exists (delete k (<[k := row]> (delband s))). split; [done|]. split; [done|].
    split; [by apply map_Forall_delete|].
    intros w. unfold del_sum in *. rewrite (map_sum_delete _ _ _ row), Hsum by apply lookup_insert_eq. nia.
  - injection H as _ <- <-. exists (<[k := row]> (delband s)). done.
Qed.

(** The limits an account has in the node. *)
Definition limits_of (n : node) (a : name) : res resource_limits_object := get_account_limits a (resources n).

Lemma node_limits_spec account ram net cpu n u n' : node_set_resource_limits account ram net cpu n = Ok (u, n') ->
  limits_of n' account = Ok (mkLimits net cpu ram) /\ forall a, a <> account -> limits_of n' a = limits_of n a.
Proof.
  unfold node_set_resource_limits. intros H. do 3 apply res_bind_ok in H as (? & _ & H).
  apply res_bind_ok in H as ([b r] & Hr & H). injection H as _ <-. unfold set_account_limits in Hr.
  apply res_bind_ok in Hr as (l & _ & Hr). injection Hr as _ <-. unfold limits_of, get_account_limits. cbn.
  rewrite lookup_insert_eq. split; [done|]. intros a Ha. by rewrite !lookup_insert_ne by congruence.
Qed.

Lemma set_limits_spec account ram net cpu c s o u s' o' : set_resource_limits account ram net cpu c s o = Ok (u, s', o') ->
  exists n, s' = s <| chain_node := n |> /\ o' = o /\ limits_of n account = Ok (mkLimits net cpu ram) /\
    forall a, a <> account -> limits_of n a = limits_of (chain_node s) a.
Proof.
  unfold set_resource_limits, on_node. intros H.
  destruct (node_set_resource_limits account ram net cpu (chain_node s)) as [[v n]|] eqn:En; [|done].
  injection H as _ <- <-. exists n. apply node_limits_spec in En. done.
Qed.

Definition userres_ok : gmap name user_resources -> Prop := map_Forall (fun _ r => is_core (ur_net r) /\ is_core (ur_cpu r)).

(** What an account has; an account without a row has nothing. *)
Definition res_of (m : gmap name user_resources) (a : name) : user_resources := default userres0 (m !! a).
Definition net_of (m : gmap name user_resources) (a : name) : Z := amount (ur_net (res_of m a)).
Definition cpu_of (m : gmap name user_resources) (a : name) : Z := amount (ur_cpu (res_of m a)).
Definition ram_of (m : gmap name user_resources) (a : name) : Z := ur_ram (res_of m a).

Definition ram_sum (m : gmap name user_resources) : Z := map_sum (fun _ r => ur_ram r) m.

Lemma res_of_insert m a r b : res_of (<[a := r]> m) b = if decide (a = b) then r else res_of m b.
Proof. unfold res_of. rewrite lookup_insert. by case_decide. Qed.

Lemma res_of_delete m a b : res_of (delete a m) b = if decide (a = b) then userres0 else res_of m b.
Proof. unfold res_of. rewrite lookup_delete. by case_decide. Qed.

Lemma ram_sum_insert m a r : ram_sum (<[a := r]> m) = ram_sum m - ram_of m a + ur_ram r.
Proof.
  unfold ram_sum, ram_of, res_of. destruct (m !! a) as [old|] eqn:Ea; cbn.
  - by rewrite (map_sum_insert _ _ _ old).
  - rewrite map_sum_insert_new by done. lia.
Qed.

Lemma ram_sum_delete m a : ram_sum (delete a m) = ram_sum m - ram_of m a.
Proof.
  unfold ram_sum, ram_of, res_of. destruct (m !! a) as [old|] eqn:Ea; cbn.
  - by rewrite (map_sum_delete _ _ _ old).
  - rewrite map_sum_delete_none by done. lia.
Qed.

Lemma res_of_core m a : userres_ok m -> is_core (ur_net (res_of m a)) /\ is_core (ur_cpu (res_of m a)).
Proof. intros H. unfold res_of. destruct (m !! a) eqn:E; cbn; [by eapply H|]. split; by apply core_is_core. Qed.

Lemma totals_put receiver net cpu c s o u s1 o1 :
  userres_ok (userres s) -> in_range net -> in_range cpu -> symbol net = CORE_SYMBOL -> symbol cpu = CORE_SYMBOL ->
  match userres s !! receiver with
  | None => emplace userres receiver (mkUserRes net cpu 0)
  | Some _ => modify userres receiver (fun tot =>
      n ← asset_add (ur_net tot) net; c ← asset_add (ur_cpu tot) cpu; Ok (tot <| ur_net := n |> <| ur_cpu := c |>))
  end c s o = Ok (u, s1, o1) ->
  exists row, s1 = s <| userres := <[receiver := row]> (userres s) |> /\ o1 = o /\
    amount (ur_net row) = net_of (userres s) receiver + amount net /\ amount (ur_cpu row) = cpu_of (userres s) receiver + amount cpu /\
    ur_ram row = ram_of (userres s) receiver /\
    (0 <= amount (ur_net row) -> 0 <= amount (ur_cpu row) -> is_core (ur_net row) /\ is_core (ur_cpu row)).
Proof.
  intros Hok Hn Hc Sn Sc H. unfold net_of, cpu_of, ram_of, res_of. destruct (userres s !! receiver) as [old|] eqn:Eo.
  - apply modify_Ok in H as (v & row & Hv & Hrow & -> & ->). replace v with old in * by congruence.
    apply res_bind_ok in Hrow as (n & En & Hrow). apply res_bind_ok in Hrow as (cp & Ec & Hrow). injection Hrow as <-.
    destruct (Hok _ _ Eo) as [Kn Kc]. eexists. split; [done|]. split; [done|].
    apply asset_add_Ok in En as (_ & -> & Rn); [|by apply core_in_range|by apply in_range_i64].
    apply asset_add_Ok in Ec as (_ & -> & Rc); [|by apply core_in_range|by apply in_range_i64]. cbn.
    unfold in_range in *. destruct Kn, Kc. cbn in *. repeat split; cbn; (done || lia).
  - apply emplace_Ok in H as (_ & -> & ->). eexists. split; [done|]. split; [done|]. unfold in_range in *. cbn.
    repeat split; cbn; (done || lia).
Qed.

(** One account's amounts changed by [net] and [cpu], RAM as before. *)
Definition totals_step (receiver : name) (net cpu : Z) (m m' : gmap name user_resources) : Prop :=
  (forall a, net_of m' a = net_of m a + if decide (receiver = a) then net else 0) /\
  (forall a, cpu_of m' a = cpu_of m a + if decide (receiver = a) then cpu else 0) /\
  (forall a, ram_of m' a = ram_of m a) /\ ram_sum m' = ram_sum m /\ forall a, a <> receiver -> m' !! a = m !! a.

Lemma change_totals_spec receiver net cpu c s o u s' o' :
  userres_ok (userres s) -> stake_delta net cpu -> change_totals receiver net cpu c s o = Ok (u, s', o') ->
  exists m n, s' = s <| userres := m |> <| chain_node := n |> /\ o' = o /\ userres_ok m /\
    totals_step receiver (amount net) (amount cpu) (userres s) m /\
    limits_of n receiver = Ok (mkLimits (net_of m receiver) (cpu_of m receiver) (ram_of m receiver)) /\
    forall a, a <> receiver -> limits_of n a = limits_of (chain_node s) a.
Proof.
  intros Hok Hd H. pose proof (stake_delta_range _ _ Hd) as [Hn Hc]. destruct Hd as (Sn & Sc & _).
  unfold change_totals in H. apply bind_Ok in H as (itr & s1 & o1 & (-> & -> & ->)%find_Ok & H).
  apply bind_Ok in H as ([] & s1 & o1 & H1 & H).
  apply totals_put in H1 as (row & -> & -> & Rn & Rc & Rr & Hcore); [|done..].
  apply bind_Ok in H as (row' & s1 & o1 & (Hrow' & -> & ->)%get_Ok & H). cbn in Hrow'. rewrite lookup_insert_eq in Hrow'. injection Hrow' as <-.
  apply bind_Ok in H as (? & s1 & o1 & (P1 & _ & -> & ->)%assert_le_Ok & H).
  apply bind_Ok in H as (? & s1 & o1 & (P2 & _ & -> & ->)%assert_le_Ok & H). cbn in P1, P2. destruct (Hcore P1 P2) as [Kn Kc].
  apply bind_Ok in H as (? & s1 & o1 & (n & -> & -> & Ln & Lo)%set_limits_spec & H). cbn in Lo.
  apply bind_Ok in H as (z & s1 & o1 & (Hz & -> & ->)%lift_Ok & H). apply both_zero_core in Hz; [|done..].
  assert (Hok' : userres_ok (<[receiver := row]> (userres s))) by (by apply map_Forall_insert_2).
  assert (Hstep : totals_step receiver (amount net) (amount cpu) (userres s) (<[receiver := row]> (userres s))).
  { unfold totals_step, net_of, cpu_of, ram_of in *. rewrite ram_sum_insert. unfold ram_of.
    repeat split; [intros a; rewrite res_of_insert; case_decide; subst; lia..|lia|]. intros a Ha. by rewrite lookup_insert_ne. }
  unfold when in H. destruct (z && (ur_ram row =? 0)) eqn:Ez.
  - apply erase_Ok in H as (row2 & E2 & -> & ->). cbn in E2. rewrite lookup_insert_eq in E2. injection E2 as <-. rewrite Hz in Ez. zb.
    exists (delete receiver (userres s)), n. cbn. rewrite delete_insert_eq. split; [done|]. split; [done|].
    split; [by apply map_Forall_delete|]. unfold totals_step, net_of, cpu_of, ram_of in *. rewrite ram_sum_delete. unfold ram_of.
    split; [repeat split; [intros a; rewrite res_of_delete; case_decide; subst; cbn; lia..|lia|intros a Ha; by rewrite lookup_delete_ne]|]. split; [|done].
    rewrite Ln, res_of_delete, decide_True by done. cbn. f_equal. f_equal; lia.
  - injection H as _ <- <-. exists (<[receiver := row]> (userres s)), n. split; [done|]. split; [done|]. split; [done|]. split; [done|].
    split; [|done]. unfold net_of, cpu_of, ram_of. by rewrite res_of_insert, decide_True by done.
Qed.

(** ** Refunds *)

Definition refunds_ok : gmap name refund_request -> Prop := map_Forall (fun _ r => is_core (net_amount r) /\ is_core (cpu_amount r)).
Definition refund_sum (m : gmap name refund_request) : Z := map_sum (fun _ r => amount (net_amount r) + amount (cpu_amount r)) m.

Lemma any_negative_Ok net cpu r : any_negative net cpu = Ok r -> r = (amount net <? 0) || (amount cpu <? 0).
Proof.
  unfold any_negative. intros H. apply res_bind_ok in H as (z & [-> _]%asset_lt_Ok & H). cbn in *.
  destruct (amount net <? 0); [by injection H as <-|]. by apply asset_lt_Ok in H as [-> _].
Qed.

Lemma asset_neg_core a : symbol a = CORE_SYMBOL -> - max_amount <= amount a <= 0 -> asset_neg a = core (- amount a).
Proof. intros Hs Ha. unfold asset_neg, max_amount in *. rewrite Hs, i64_id by (unfold is_i64; lia). done. Qed.

Lemma refund_part_spec requested balance r rest : is_core requested -> in_range balance -> refund_part requested balance = Ok (r, rest) ->
  is_core r /\ is_core rest /\ amount r - amount requested = amount rest - amount balance.
Proof.
  intros Hq Hb H. unfold refund_part in H. apply res_bind_ok in H as (x & Hx & H).
  apply asset_sub_Ok in Hx as (_ & -> & Hx); [|by apply core_in_range|by apply in_range_i64].
  apply res_bind_ok in H as (neg & [-> _]%asset_lt_Ok & H). cbn in H. unfold in_range in Hx. cbn in Hx. rewrite (proj1 Hq) in *.
  destruct (Z.ltb_spec (amount requested - amount balance) 0); injection H as <- <-.
  - rewrite asset_neg_core by (cbn; (done || lia)). unfold is_core. cbn. lia.
  - unfold is_core, max_amount in *. cbn. lia.
Qed.

Lemma new_refund_part_spec balance r rest : in_range balance -> symbol balance = CORE_SYMBOL -> new_refund_part balance = Ok (r, rest) ->
  is_core r /\ is_core rest /\ amount r = amount rest - amount balance.
Proof.
  intros Hb Hs H. unfold new_refund_part in H. apply res_bind_ok in H as (neg & [-> _]%asset_lt_Ok & H). cbn in H. unfold in_range in Hb.
  destruct (Z.ltb_spec (amount balance) 0); injection H as <- <-.
  - rewrite asset_neg_core by (done || lia). unfold is_core. cbn. lia.
  - unfold is_core. cbn. rewrite Hs. unfold max_amount in *. lia.
Qed.

(** What of the change was taken from the request, or added to it, is not transferred. *)
Definition refund_step (net cpu rest : Z) (m m' : gmap name refund_request) : Prop :=
  refund_sum m' - refund_sum m = rest - (net + cpu).

Definition row_sum (r : refund_request) : Z := amount (net_amount r) + amount (cpu_amount r).

Lemma reduce_refund_spec now net cpu old nr cr row : is_core (net_amount old) -> is_core (cpu_amount old) -> in_range net -> in_range cpu ->
  reduce_refund now net cpu old = Ok ((nr, cr), row) ->
  (is_core (net_amount row) /\ is_core (cpu_amount row)) /\ is_core nr /\ is_core cr /\
  row_sum row - row_sum old = amount nr + amount cr - (amount net + amount cpu).
Proof.
  intros Kn Kc Hn Hc H. unfold reduce_refund in H. apply res_bind_ok in H as (neg & _ & H).
  apply res_bind_ok in H as ([n1 r1] & E1 & H). apply res_bind_ok in H as ([n2 r2] & E2 & H). injection H as <- <- <-.
  apply refund_part_spec in E1 as (? & ? & ?); [|done..]. apply refund_part_spec in E2 as (? & ? & ?); [|done..].
  unfold row_sum. cbn. do 3 (split; [done|]). lia.
Qed.

(** The end of a change: a request of nothing is erased. *)
Lemma refund_tail from row (rest : asset * asset) c s o b nr cr s' o' :
  is_core (net_amount row) /\ is_core (cpu_amount row) -> refunds s !! from = Some row ->
  (row ← get refunds from "unable to find key";
   _ ← assert_le (core 0) (net_amount row) "negative net refund amount";
   _ ← assert_le (core 0) (cpu_amount row) "negative cpu refund amount";
   z ← lift (both_zero (net_amount row) (cpu_amount row));
   _ ← when z (erase refunds from);
   mret (negb z, fst rest, snd rest)) c s o = Ok ((b, nr, cr), s', o') ->
  exists m, s' = s <| refunds := m |> /\ o' = o /\ rest = (nr, cr) /\ refund_sum m = refund_sum (refunds s) /\
    (refunds_ok (refunds s) -> refunds_ok m).
Proof.
  intros [Kn Kc] Er H. destruct rest as [nr' cr'].
  apply bind_Ok in H as (row' & s1 & o1 & (Hrow' & -> & ->)%get_Ok & H). replace row' with row in * by congruence.
  apply bind_Ok in H as (? & s1 & o1 & (_ & _ & -> & ->)%assert_le_Ok & H).
  apply bind_Ok in H as (? & s1 & o1 & (_ & _ & -> & ->)%assert_le_Ok & H).
  apply bind_Ok in H as (z & s1 & o1 & (Hz & -> & ->)%lift_Ok & H). apply both_zero_core in Hz; [|done..].
  apply bind_Ok in H as (? & s1 & o1 & H1 & H). injection H as <- <- <- <- <-. unfold when in H1. destruct z.
  - apply erase_Ok in H1 as (row2 & E2 & -> & ->). exists (delete from (refunds s)). do 3 (split; [done|]).
    split; [|intros; by apply map_Forall_delete]. unfold refund_sum. rewrite (map_sum_delete _ _ _ row) by done. lia.
  - injection H1 as _ <- <-. exists (refunds s). by destruct s.
Qed.

Lemma change_refund_spec from net cpu c s o b nr cr s' o' :
  refunds_ok (refunds s) -> stake_delta net cpu -> change_refund from net cpu c s o = Ok ((b, nr, cr), s', o') ->
  exists m, s' = s <| refunds := m |> /\ o' = o /\ refunds_ok m /\ is_core nr /\ is_core cr /\
    refund_step (amount net) (amount cpu) (amount nr + amount cr) (refunds s) m.
Proof.
  intros Hok Hd H. pose proof (stake_delta_range _ _ Hd) as [Hn Hc]. destruct Hd as (Sn & Sc & Hs & _). unfold refund_step, change_refund in *.
  apply bind_Ok in H as (itr & s1 & o1 & (-> & -> & ->)%find_Ok & H). destruct (refunds s !! from) as [old|] eqn:Eo.
  - apply bind_Ok in H as (t & s1 & o1 & (-> & -> & ->)%ask_Ok & H). apply bind_Ok in H as (rest & s1 & o1 & H1 & H).
    apply modify_ret_Ok in H1 as (v & row & Hv & Hrow & -> & ->). replace v with old in * by congruence. destruct (Hok _ _ Eo) as [Kn Kc].
    destruct rest as [nr' cr']. apply reduce_refund_spec in Hrow as (Krow & K1 & K2 & Hsum); [|done..].
    apply (refund_tail _ row) in H as (m & -> & -> & [= -> ->] & Hm & Hm'); [|done|cbn; apply lookup_insert_eq]. cbn in Hm, Hm'.
    exists m. split; [done|]. split; [done|]. split; [apply Hm'; by apply map_Forall_insert_2|]. split; [done|]. split; [done|].
    rewrite Hm. unfold refund_sum. rewrite (map_sum_insert _ _ _ old) by done. unfold row_sum in Hsum. lia.
  - apply bind_Ok in H as (neg & s1 & o1 & (Hneg & -> & ->)%lift_Ok & H). apply any_negative_Ok in Hneg as ->.
    destruct ((amount net <? 0) || (amount cpu <? 0)) eqn:Eneg.
    + apply bind_Ok in H as (t & s1 & o1 & (-> & -> & ->)%ask_Ok & H).
      apply bind_Ok in H as ([n1 r1] & s1 & o1 & (E1 & -> & ->)%lift_Ok & H).
      apply bind_Ok in H as ([n2 r2] & s1 & o1 & (E2 & -> & ->)%lift_Ok & H).
      apply bind_Ok in H as (? & s1 & o1 & (_ & -> & ->)%emplace_Ok & H). injection H as <- <- <- <- <-.
      apply new_refund_part_spec in E1 as (A1 & A2 & A3); [|done..]. apply new_refund_part_spec in E2 as (B1 & B2 & B3); [|done..].
      eexists. split; [done|]. split; [done|]. split; [by apply map_Forall_insert_2|]. split; [done|]. split; [done|].
      unfold refund_sum. rewrite map_sum_insert_new by done. cbn. lia.
    + injection H as <- <- <- <- <-. exists (refunds s). zb. unfold in_range in *. split; [by destruct s|]. split; [done|]. split; [done|].
      split; [split; [done|lia]|]. split; [split; [done|lia]|]. lia.
Qed.

(** ** Token transfers *)

(** What an action brings to the token account of [acct], and what it takes. *)
Definition act_flow (acct : name) (a : action) : Z :=
  if (act_account a =? N "eosio.token") && (act_name a =? N "transfer") then
    match act_data a with
    | [VInt from; VInt to; VAsset q; VStr _] =>
        if symbol q =? CORE_SYMBOL then (if to =? acct then amount q else 0) - (if from =? acct then amount q else 0) else 0
    | _ => 0
    end
  else 0.
Definition flow (acct : name) (l : list action) : Z := foldr (fun a z => act_flow acct a + z) 0 l.

Arguments act_flow : simpl never.
Arguments flow : simpl never.

Lemma flow_app acct l l' : flow acct (l ++ l') = flow acct l + flow acct l'.
Proof. unfold flow. induction l as [|a l IH]; cbn; [done|]. rewrite IH. lia. Qed.

Lemma act_flow_transfer acct from to q memo : symbol q = CORE_SYMBOL ->
  act_flow acct (transfer_act from to q memo) = (if to =? acct then amount q else 0) - (if from =? acct then amount q else 0).
Proof. intros Hs. unfold act_flow, transfer_act. cbn. by rewrite !Z.eqb_refl, Hs. Qed.

Lemma flow_transfer acct l from to q memo : symbol q = CORE_SYMBOL ->
  flow acct (l ++ [transfer_act from to q memo]) = flow acct l + (if to =? acct then amount q else 0) - (if from =? acct then amount q else 0).
Proof. intros Hs. rewrite flow_app. unfold flow at 2. cbn [foldr]. rewrite act_flow_transfer by done. lia. Qed.

Lemma move_stake_spec source from receiver net cpu transfer c s o u s' o' :
  refunds_ok (refunds s) -> stake_delta net cpu -> move_stake source from receiver net cpu transfer c s o = Ok (u, s', o') ->
  exists m t, s' = s <| refunds := m |> /\ refunds_ok m /\ 0 <= t <= max_amount /\ refund_step (amount net) (amount cpu) t (refunds s) m /\
    inlines o' = inlines o ++ (if 0 <? t then [transfer_act source (N "eosio.stake") (core t) "stake bandwidth"] else []).
Proof.
  intros Hok Hd H. unfold move_stake in H. apply bind_Ok in H as ([[b nr] cr] & s1 & o1 & H1 & H).
  assert (Hm : exists m, s1 = s <| refunds := m |> /\ o1 = o /\ refunds_ok m /\ is_core nr /\ is_core cr /\
    refund_step (amount net) (amount cpu) (amount nr + amount cr) (refunds s) m).
  { destruct ((negb transfer && (from =? receiver)) || (i64 (amount net + amount cpu) <? 0)) eqn:Eb; [by apply change_refund_spec in H1|].
    injection H1 as <- <- <- <- <-. pose proof (stake_delta_range _ _ Hd) as [Hn Hc]. destruct Hd as (Sn & Sc & Hs & Hr). zb.
    rewrite i64_id in * by (unfold is_i64, max_amount in *; lia). unfold in_range in *. exists (refunds s). split; [by destruct s|].
    split; [done|]. split; [done|]. split; [split; [done|lia]|]. split; [split; [done|lia]|]. unfold refund_step. lia. }
  destruct Hm as (m & -> & -> & Hok' & Kn & Kc & Hstep). clear H1.
  apply bind_Ok in H as (me & s1 & o1 & (-> & -> & ->)%ask_Ok & H). apply bind_Ok in H as (? & s1 & o1 & H1 & H).
  assert (Hq : s1 = s <| refunds := m |> /\ inlines o1 = inlines o).
  { destruct b; [|by injection H1 as _ <- <-]. apply bind_Ok in H1 as (? & s2 & o2 & [= _ <- <-] & H1).
    apply bind_Ok in H1 as (? & s2 & o2 & [= _ <- <-] & H1). apply send_deferred_Ok in H1 as (-> & ->). done. }
  destruct Hq as (-> & Hin).
  apply bind_Ok in H as (ta & s1 & o2 & (Hta & -> & ->)%lift_Ok & H). apply core_add_Ok in Hta as (_ & -> & Hle); [|done|apply in_range_i64, core_in_range, Kc].
  apply bind_Ok in H as (pos & s1 & o2 & ((-> & _)%asset_lt_Ok & -> & ->)%lift_Ok & H). cbn in H. destruct Kn as [_ Kn], Kc as [_ Kc].
  exists m, (amount nr + amount cr). rewrite <- Hin. unfold when in H.
  destruct (Z.ltb_spec 0 (amount nr + amount cr)) as [Hp|Hp].
  - apply send_Ok in H as (_ & -> & ->). cbn. split; [done|]. split; [done|]. split; [lia|]. done.
  - injection H as _ <- <-. rewrite app_nil_r. split; [done|]. split; [done|]. split; [lia|]. done.
Qed.

(** ** Voting power *)

Definition staked_of (m : gmap name Z) (a : name) : Z := default 0 (m !! a).

Lemma change_voter_spec {DV : DepositView} from total c s o u s' o' : is_i64 (amount total) ->
  change_voter from total c s o = Ok (u, s', o') ->
  exists m, money s' o' = money (s <| voters := m |>) o /\
    forall a, staked_of (staked <$> m) a = if decide (from = a) then i64 (staked_of (staked <$> voters s) a + amount total) else staked_of (staked <$> voters s) a.
Proof.
  intros Ht H. unfold change_voter in H. apply bind_Ok in H as (fv & s1 & o1 & (-> & -> & ->)%find_Ok & H).
  apply bind_Ok in H as (? & s1 & o1 & H1 & H).
  assert (Hm : exists m, s1 = s <| voters := m |> /\ o1 = o /\
    forall a, staked_of (staked <$> m) a = if decide (from = a) then i64 (staked_of (staked <$> voters s) a + amount total) else staked_of (staked <$> voters s) a).
  { destruct (voters s !! from) as [v|] eqn:Ev.
    - apply modify_Ok in H1 as (v' & w & Hv & [= <-] & -> & ->). eexists. split; [done|]. split; [done|]. intros a.
      unfold staked_of. rewrite !lookup_fmap, lookup_insert. case_decide; [subst|done]. rewrite Hv. cbn. congruence.
    - apply emplace_Ok in H1 as (_ & -> & ->). eexists. split; [done|]. split; [done|]. intros a.
      unfold staked_of. rewrite !lookup_fmap, lookup_insert. case_decide; [subst|done]. rewrite Ev. cbn. by rewrite i64_id. }
  destruct Hm as (m & -> & -> & Hm). exists m. split; [|done].
  apply bind_Ok in H as (v & s1 & o1 & (Hv & -> & ->)%get_Ok & H). apply bind_Ok in H as (? & s1 & o1 & (_ & -> & ->)%eosio_assert_Ok & H).
  unfold when in H. destruct (_ || _); [by apply money_update_votes in H|by injection H as _ <- <-].
Qed.

(** ** The books *)

Definition to_net (a : name) (k : name * name) : Z * Z := (if snd k =? a then 1 else 0, 0).
Definition to_cpu (a : name) (k : name * name) : Z * Z := (0, if snd k =? a then 1 else 0).
Definition from_both (a : name) (k : name * name) : Z * Z := let w := if fst k =? a then 1 else 0 in (w, w).

(** The totals of an account are the sums of what is delegated to it, the stake of a voter
    is the sum of what that voter delegates, and the node's limits are the totals. *)
Record books (s : system) : Prop := mkBooks {
  bk_delband : delband_ok (delband s);
  bk_userres : userres_ok (userres s);
  bk_refunds : refunds_ok (refunds s);
  bk_net : forall a, net_of (userres s) a = del_sum (to_net a) (delband s);
  bk_cpu : forall a, cpu_of (userres s) a = del_sum (to_cpu a) (delband s);
  bk_staked : forall a, staked_of (staked <$> voters s) a = i64 (del_sum (from_both a) (delband s));
  bk_limits : forall a r, userres s !! a = Some r ->
    limits_of (chain_node s) a = Ok (mkLimits (amount (ur_net r)) (amount (ur_cpu r)) (ur_ram r))
}.

Lemma books_money s s' o o' : money s' o' = money s o -> books s -> books s'.
Proof.
  unfold money. intros [= E1 E2 E3 E4 _ _ E5 _ _ _ _] [B1 B2 B3 B4 B5 B6 B7]. unfold limits_of in *.
  split; unfold limits_of; rewrite ?E1, ?E2, ?E3, ?E4, ?E5; done.
Qed.

Lemma changebw_spec {DV : DepositView} src receiver net cpu transfer c s o u s' o' :
  delband_ok (delband s) -> userres_ok (userres s) -> refunds_ok (refunds s) -> stake_delta net cpu ->
  changebw src receiver net cpu transfer c s o = Ok (u, s', o') ->
  let from := if transfer then receiver else src in
  exists md mu n mr mv t o1,
    money s' o' = money (s <| delband := md |> <| userres := mu |> <| chain_node := n |> <| refunds := mr |> <| voters := mv |>) o1 /\
    (delband_ok md /\ forall w, del_sum w md = del_sum w (delband s) + fst (w (from, receiver)) * amount net + snd (w (from, receiver)) * amount cpu) /\
    (userres_ok mu /\ totals_step receiver (amount net) (amount cpu) (userres s) mu) /\
    (limits_of n receiver = Ok (mkLimits (net_of mu receiver) (cpu_of mu receiver) (ram_of mu receiver)) /\
     forall a, a <> receiver -> limits_of n a = limits_of (chain_node s) a) /\
    (refunds_ok mr /\ 0 <= t <= max_amount /\ inlines o1 = inlines o ++ (if 0 <? t then [transfer_act src (N "eosio.stake") (core t) "stake bandwidth"] else []) /\
     if src =? N "eosio.stake" then t = 0 /\ mr = refunds s else refund_step (amount net) (amount cpu) t (refunds s) mr) /\
    (forall a, staked_of (staked <$> mv) a =
       if decide (from = a) then i64 (staked_of (staked <$> voters s) a + (amount net + amount cpu)) else staked_of (staked <$> voters s) a) /\
    has_auth c src = true.
Proof.
  intros Hd Hu Hr HD H. unfold changebw in H.
  apply bind_Ok in H as (? & s1 & o1 & (Ha & -> & ->)%require_auth_Ok & H).
  apply bind_Ok in H as (z & s1 & o1 & (_ & -> & ->)%lift_Ok & H). apply bind_Ok in H as (? & s1 & o1 & (_ & -> & ->)%eosio_assert_Ok & H).
  apply bind_Ok in H as (tot & s1 & o1 & (_ & -> & ->)%lift_Ok & H). apply bind_Ok in H as (? & s1 & o1 & (_ & -> & ->)%eosio_assert_Ok & H).
  apply bind_Ok in H as (? & s1 & o1 & H1 & H). assert (s1 = s /\ o1 = o) as [-> ->].
  { unfold check_yta_account, when in H1. destruct (_ || _) in H1; [done|by injection H1 as _ <- <-]. }
  clear H1. cbv zeta in H. set (from := if transfer then receiver else src) in *.
  apply bind_Ok in H as (? & s1 & o1 & (md & -> & -> & Dok & Dsum)%change_delband_spec & H); [|done..].
  apply bind_Ok in H as (? & s1 & o1 & (mu & n & -> & -> & Uok & Ustep & Ln & Lo)%change_totals_spec & H); [|done..]. cbn in Ustep, Lo.
  apply bind_Ok in H as (? & s1 & o1 & H1 & H).
  assert (Hmove : exists mr t, s1 = s <| delband := md |> <| userres := mu |> <| chain_node := n |> <| refunds := mr |> /\ refunds_ok mr /\
    0 <= t <= max_amount /\ inlines o1 = inlines o ++ (if 0 <? t then [transfer_act src (N "eosio.stake") (core t) "stake bandwidth"] else []) /\
    if src =? N "eosio.stake" then t = 0 /\ mr = refunds s else refund_step (amount net) (amount cpu) t (refunds s) mr).
  { unfold when in H1. destruct (src =? N "eosio.stake"); cbn [negb] in H1.
    - injection H1 as _ <- <-. exists (refunds s), 0. cbn. rewrite app_nil_r. done.
    - apply move_stake_spec in H1 as (mr & t & -> & Rok & Ht & Hst & Hin); [|done..]. exists mr, t. done. }
  destruct Hmove as (mr & t & -> & Rok & Ht & Hin & Hst).
  apply bind_Ok in H as (tu & s1 & o2 & (Htu & -> & ->)%lift_Ok & H). pose proof (stake_delta_range _ _ HD) as [Hn Hc].
  apply asset_add_Ok in Htu as (_ & -> & Htr); [|done|by apply in_range_i64].
  apply change_voter_spec in H as (mv & Hm & Hst'); [|by apply in_range_i64]. cbn in Hst'.
  exists md, mu, n, mr, mv, t, o1. done.
Qed.

(** What the contract owes to the users for the tokens its accounts hold. *)
Definition stake_due (s : system) : Z := del_sum (fun _ => (1, 1)) (delband s) + refund_sum (refunds s).
Definition names_sum (m : gmap name name_bid) : Z := map_sum (fun _ b => Z.abs (high_bid b)) m.

Lemma changebw_books {DV : DepositView} src receiver net cpu transfer c s o u s' o' :
  books s -> stake_delta net cpu -> changebw src receiver net cpu transfer c s o = Ok (u, s', o') -> books s'.
Proof.
  intros [B1 B2 B3 B4 B5 B6 B7] HD H. apply changebw_spec in H; [|done..]. cbv zeta in H. set (from := if transfer then receiver else src) in *.
  destruct H as (md & mu & n & mr & mv & t & o1 & Hm & (D1 & D2) & (U1 & U2 & U3 & U4 & U5 & U6) & (L1 & L2) & (R1 & _) & V & _).
  apply (books_money _ _ _ _ Hm). split; cbn; [done|done|done|..].
  - intros a. rewrite U2, B4, D2. cbn. destruct (Z.eqb_spec receiver a), (decide (receiver = a)); (done || lia).
  - intros a. rewrite U3, B5, D2. cbn. destruct (Z.eqb_spec receiver a), (decide (receiver = a)); (done || lia).
  - intros a. rewrite V, B6, D2. cbn. destruct (Z.eqb_spec from a), (decide (from = a)); try done; [rewrite i64_add_l|]; f_equal; lia.
  - intros a r Hr. destruct (decide (a = receiver)) as [->|Ha].
    + rewrite L1. unfold net_of, cpu_of, ram_of, res_of. by rewrite Hr.
    + rewrite L2 by done. apply B7. by rewrite <- U6.
Qed.

(** The deltas that [delegatebw] and [undelegatebw] pass on. *)
Lemma delegate_delta net cpu sum : is_i64 (amount net) -> is_i64 (amount cpu) -> symbol net = CORE_SYMBOL -> symbol cpu = CORE_SYMBOL ->
  0 <= amount net -> 0 <= amount cpu -> asset_add net cpu = Ok sum -> 0 < amount sum -> stake_delta net cpu /\ amount sum = amount net + amount cpu.
Proof.
  unfold asset_add, is_i64. intros In Ic Sn Sc Hn Hc H Hp. repeat (apply res_bind_ok in H as (? & ?%guard_Ok & H)). injection H as <-. cbn in *. zb.
  assert (E : i64 (amount net + amount cpu) = amount net + amount cpu).
  { destruct (Z_lt_le_dec (amount net + amount cpu) (2^63)); [apply i64_id; unfold is_i64; lia|].
    assert (i64 (amount net + amount cpu) = amount net + amount cpu - 2^64); [|lia].
    unfold i64. replace (amount net + amount cpu + 2^63) with (amount net + amount cpu - 2^63 + 1 * 2^64) by lia.
    rewrite Z.mod_add, Z.mod_small by lia. lia. }
  rewrite E in *. unfold stake_delta, max_amount in *. lia.
Qed.

Lemma undelegate_delta net cpu : stake_delta net cpu -> 0 <= amount net -> 0 <= amount cpu -> stake_delta (asset_neg net) (asset_neg cpu).
Proof.
  intros Hd Hn Hc. destruct (stake_delta_range _ _ Hd) as [Rn Rc]. destruct Hd as (Sn & Sc & Hd). unfold in_range, stake_delta, asset_neg, max_amount in *. cbn.
  rewrite !i64_id by (unfold is_i64; lia). lia.
Qed.

Section delegate.
Context {TV : TokenView} {LV : LockView} {DV : DepositView}.

(** Both actions come down to a change of the stake. *)
Lemma delegatebw_changes src receiver net cpu transfer c s o u s' o' : is_i64 (amount net) -> is_i64 (amount cpu) ->
  delegatebw src receiver net cpu transfer c s o = Ok (u, s', o') ->
  stake_delta net cpu /\ changebw src receiver net cpu transfer c s o = Ok (u, s', o').
Proof.
  intros In Ic H. unfold delegatebw in H.
  apply bind_Ok in H as (? & s1 & o1 & (P1 & E1 & -> & ->)%assert_le_Ok & H). apply bind_Ok in H as (? & s1 & o1 & (P2 & E2 & -> & ->)%assert_le_Ok & H).
  apply bind_Ok in H as (sum & s1 & o1 & (Hs & -> & ->)%lift_Ok & H). apply bind_Ok in H as (? & s1 & o1 & (P3 & _ & -> & ->)%assert_lt_Ok & H).
  apply bind_Ok in H as (? & s1 & o1 & (_ & -> & ->)%eosio_assert_Ok & H). apply bind_Ok in H as (? & s1 & o1 & H1 & H).
  assert (s1 = s /\ o1 = o) as [-> ->]; [|split; [|done]; by apply (delegate_delta _ _ sum)].
  destruct transfer; [|by injection H1 as _ <- <-]. unfold when in H1. by minv.
Qed.

Lemma undelegatebw_changes src receiver net cpu c s o u s' o' : is_i64 (amount net) -> is_i64 (amount cpu) ->
  undelegatebw src receiver net cpu c s o = Ok (u, s', o') ->
  stake_delta (asset_neg net) (asset_neg cpu) /\ changebw src receiver (asset_neg net) (asset_neg cpu) false c s o = Ok (u, s', o').
Proof.
  intros In Ic H. unfold undelegatebw in H.
  apply bind_Ok in H as (? & s1 & o1 & (P1 & E1 & -> & ->)%assert_le_Ok & H). apply bind_Ok in H as (? & s1 & o1 & (P2 & E2 & -> & ->)%assert_le_Ok & H).
  apply bind_Ok in H as (sum & s1 & o1 & (Hs & -> & ->)%lift_Ok & H). apply bind_Ok in H as (? & s1 & o1 & (P3 & _ & -> & ->)%assert_lt_Ok & H).
  apply bind_Ok in H as (? & s1 & o1 & (_ & -> & ->)%gets_Ok & H). apply bind_Ok in H as (? & s1 & o1 & (_ & -> & ->)%eosio_assert_Ok & H).
  split; [|done]. apply (delegate_delta cpu net sum) in Hs as [Hs _]; [|done..].
  apply undelegate_delta; [|done..]. unfold stake_delta in *. lia.
Qed.
End delegate.
