(* ===== verification/SystemRam.v ===== *)
(** * eosio.system: the RAM market

    The exchange never calls itself more than twice, the bytes it offers are those not
    reserved, and the bytes reserved are those of the accounts. *)

From S2P Require Import Prelude Float64 Names Asset Chain Views Frame ResourceLimits HeaderState.
From S2P Require Import SystemTables SystemVoting SystemStake SystemPay EosioSystem SystemBooks.
#[local] Open Scope Z_scope.

(** ** The RAM market *)

Section exchange.
Context {E : SystemEnv}.

Definition market_ok (es : exchange_state) : Prop :=
  symbol (es_supply es) = RAMCORE /\ symbol (balance (base es)) = RAM /\ symbol (balance (quote es)) = CORE_SYMBOL.

Definition base_amount (es : exchange_state) : Z := amount (balance (base es)).
Definition quote_amount (es : exchange_state) : Z := amount (balance (quote es)).

Lemma to_exchange_spec supply c a r supply' c' : convert_to_exchange supply c a = Ok (r, supply', c') ->
  symbol r = symbol supply /\ symbol supply' = symbol supply /\
  balance c' = mkAsset (i64 (amount (balance c) + amount a)) (symbol (balance c)).
Proof.
  unfold convert_to_exchange. cbv zeta. intros H. apply res_bind_ok in H as (i & _ & H). apply res_bind_ok in H as (x & Hx & H).
  injection H as <- <- <-. apply asset_make_Ok in Hx as [-> _]. done.
Qed.

Lemma from_exchange_spec supply c a r supply' c' : convert_from_exchange supply c a = Ok (r, supply', c') ->
  symbol r = symbol (balance c) /\ symbol supply' = symbol supply /\ in_range r /\
  balance c' = mkAsset (i64 (amount (balance c) - amount r)) (symbol (balance c)).
Proof.
  unfold convert_from_exchange. cbv zeta. intros H. apply res_bind_ok in H as (? & _ & H). apply res_bind_ok in H as (i & _ & H).
  apply res_bind_ok in H as (y & Hy & H). injection H as <- <- <-. apply asset_make_Ok in Hy as [-> Hy]. done.
Qed.

(** What one turn returns decides whether there is another: never a third. *)
Lemma convert_step_symbol es from to r es' : convert_step es from to = Ok (r, es') ->
  symbol (es_supply es') = symbol (es_supply es) /\
  (symbol from = symbol (es_supply es) /\ symbol r = to \/ symbol from <> symbol (es_supply es) /\ symbol r = symbol (es_supply es)).
Proof.
  unfold convert_step. destruct (Z.eqb_spec (symbol from) (symbol (es_supply es))) as [Ef|Ef]; cbn [negb].
  - destruct (Z.eqb_spec to (symbol (balance (base es)))); [|destruct (Z.eqb_spec to (symbol (balance (quote es)))); [|done]];
      intros H; apply res_bind_ok in H as ([[x sup] c] & (E1 & E2 & _)%from_exchange_spec & H); injection H as <- <-; (split; [done|left; split; congruence]).
  - destruct (symbol from =? symbol (balance (base es))); [|destruct (symbol from =? symbol (balance (quote es))); [|done]];
      intros H; apply res_bind_ok in H as ([[x sup] c] & (E1 & E2 & _)%to_exchange_spec & H); injection H as <- <-; (split; [done|by right]).
Qed.

(** The recursion of [convert] is at most two calls deep: more fuel changes nothing. *)
Lemma convert_fuel n es from to : convert_go (2 + n) es from to = convert es from to.
Proof.
  unfold convert. cbn [convert_go Nat.add]. destruct (convert_step es from to) as [[r es1]|] eqn:H1; [|done]. cbn [mbind res_bind].
  destruct (Z.eqb_spec to (symbol r)) as [|Hr]; [done|]. cbn [negb].
  destruct (convert_step es1 r to) as [[r2 es2]|] eqn:H2; [|done]. cbn [mbind res_bind].
  apply convert_step_symbol in H1 as (E1 & [[_ ?]|[Hf Er]]); [congruence|].
  apply convert_step_symbol in H2 as (_ & [[_ ->]|[? _]]); [by rewrite Z.eqb_refl|congruence].
Qed.

Lemma convert_buy es q out es' : market_ok es -> symbol q = CORE_SYMBOL -> convert es q RAM = Ok (out, es') ->
  market_ok es' /\ in_range out /\ base_amount es' = i64 (base_amount es - amount out) /\ quote_amount es' = i64 (quote_amount es + amount q).
Proof.
  intros (S1 & S2 & S3) Sq H. unfold convert in H. cbn [convert_go] in H. unfold convert_step in H. rewrite Sq, S1, S2, S3 in H. cbn -[convert_to_exchange convert_from_exchange] in H.
  apply res_bind_ok in H as ([r es1] & H1 & H). apply res_bind_ok in H1 as ([[x sup] c] & Hx & H1). injection H1 as <- <-.
  apply to_exchange_spec in Hx as (Ex & Es & Eb). rewrite S1 in Ex, Es. rewrite Ex in H.
  cbn -[convert_to_exchange convert_from_exchange] in H. rewrite Es, S2 in H. cbn -[convert_to_exchange convert_from_exchange] in H.
  apply res_bind_ok in H as ([r es1] & H1 & H). apply res_bind_ok in H1 as ([[y sup2] c2] & Hy & H1). injection H1 as <- <-.
  apply from_exchange_spec in Hy as (Ey & Es2 & Hr & Eb2). rewrite Ey, S2 in H. cbn in H. injection H as <- <-.
  unfold market_ok, base_amount, quote_amount. cbn. rewrite Eb, Eb2. cbn. repeat split; (congruence || apply Hr || done).
Qed.

Lemma convert_sell es a out es' : market_ok es -> symbol a = RAM -> convert es a CORE_SYMBOL = Ok (out, es') ->
  market_ok es' /\ symbol out = CORE_SYMBOL /\ in_range out /\ base_amount es' = i64 (base_amount es + amount a) /\
  quote_amount es' = i64 (quote_amount es - amount out).
Proof.
  intros (S1 & S2 & S3) Sq H. unfold convert in H. cbn [convert_go] in H. unfold convert_step in H. rewrite Sq, S1, S2 in H. cbn -[convert_to_exchange convert_from_exchange] in H.
  apply res_bind_ok in H as ([r es1] & H1 & H). apply res_bind_ok in H1 as ([[x sup] c] & Hx & H1). injection H1 as <- <-.
  apply to_exchange_spec in Hx as (Ex & Es & Eb). rewrite S1 in Ex, Es. rewrite Ex in H.
  cbn -[convert_to_exchange convert_from_exchange] in H. rewrite Es, Eb, S3 in H. cbn -[convert_to_exchange convert_from_exchange] in H. rewrite S2 in H. cbn -[convert_to_exchange convert_from_exchange] in H.
  apply res_bind_ok in H as ([r es1] & H1 & H). apply res_bind_ok in H1 as ([[y sup2] c2] & Hy & H1). injection H1 as <- <-.
  apply from_exchange_spec in Hy as (Ey & Es2 & Hr & Eb2). rewrite Ey, S3 in H. cbn in H. injection H as <- <-.
  unfold market_ok, base_amount, quote_amount. cbn. rewrite Eb, Eb2. cbn. repeat split; (congruence || apply Hr || done).
Qed.
End exchange.

(** The bytes reserved are the sum of the bytes of the accounts, and the market offers the
    rest. *)
Record ram_books (s : system) : Prop := mkRamBooks {
  rb_rows : map_Forall (fun _ r => 0 <= ur_ram r < 2^63) (userres s);
  rb_reserved : total_ram_bytes_reserved (gstate s) = u64 (ram_sum (userres s));
  rb_market : forall es, rammarket s !! RAMCORE = Some es ->
    market_ok es /\ base_amount es = i64 (max_ram_size (gstate s) - ram_sum (userres s))
}.

Lemma ram_books_money s s' o o' : money s' o' = money s o -> ram_books s -> ram_books s'.
Proof.
  unfold money. intros [= _ E2 _ _ E4 _ _ E5 E6 E7 _] [B1 B2 B3]. split; rewrite ?E2, ?E4, ?E5, ?E6, ?E7; done.
Qed.

(** An account gets the RAM [ram], and its limit in the node with it. *)
Definition ram_row_step (a : name) (ram : Z) (s : system) (mu : gmap name user_resources) (n : node) : Prop :=
  mu = <[a := (res_of (userres s) a) <| ur_ram := ram |>]> (userres s) /\ -1 <= ram /\
  limits_of n a = Ok (mkLimits (net_of (userres s) a) (cpu_of (userres s) a) ram) /\
  forall b, b <> a -> limits_of n b = limits_of (chain_node s) b.

Lemma limits_of_row_spec a ram c s o u s' o' : userres s !! a = Some ((res_of (userres s) a) <| ur_ram := ram |>) ->
  limits_of_row a c s o = Ok (u, s', o') ->
  exists n, s' = s <| chain_node := n |> /\ o' = o /\ -1 <= ram /\
    limits_of n a = Ok (mkLimits (net_of (userres s) a) (cpu_of (userres s) a) ram) /\ forall b, b <> a -> limits_of n b = limits_of (chain_node s) b.
Proof.
  intros Hr H. unfold limits_of_row in H. apply bind_Ok in H as (r & s1 & o1 & (Hr' & -> & ->)%get_Ok & H).
  rewrite Hr in Hr'. injection Hr' as <-. pose proof H as H'. unfold set_resource_limits, on_node in H'.
  destruct (node_set_resource_limits _ _ _ _ _) as [[v n]|] eqn:En in H'; [|done]. unfold node_set_resource_limits in En.
  apply res_bind_ok in En as (? & Hg & _). apply set_limits_spec in H as (n' & -> & -> & L1 & L2). exists n'. split; [done|]. split; [done|].
  split; [|done]. unfold wasm_assert in Hg. cbn in Hg. destruct (Z.leb_spec (-1) ram); done.
Qed.

Lemma row_books a ram s mu n rest : books s -> ram_row_step a ram s mu n -> userres rest = mu -> chain_node rest = n ->
  delband rest = delband s -> refunds rest = refunds s -> voters rest = voters s -> books rest.
Proof.
  intros [B1 B2 B3 B4 B5 B6 B7] (-> & _ & L1 & L2) Eu En Ed Er Ev. split; rewrite ?Eu, ?En, ?Ed, ?Er, ?Ev; try done.
  - destruct (res_of_core (userres s) a B2). by apply map_Forall_insert_2.
  - intros b. rewrite <- B4. unfold net_of. rewrite res_of_insert. by case_decide; subst.
  - intros b. rewrite <- B5. unfold cpu_of. rewrite res_of_insert. by case_decide; subst.
  - intros b r. rewrite lookup_insert. case_decide as Eab; [subst; intros [= <-]; by rewrite L1|]. intros Hr. rewrite L2 by done. by apply B7.
Qed.

Section ram.
Context {E : SystemEnv}.

Lemma buyram_spec payer receiver quant c s o u s' o' : symbol quant = CORE_SYMBOL -> map_Forall (fun _ r => 0 <= ur_ram r < 2^63) (userres s) ->
  (forall es, rammarket s !! RAMCORE = Some es -> market_ok es) ->
  buyram payer receiver quant c s o = Ok (u, s', o') ->
  let fee := core (ram_fee (amount quant)) in let q := i64 (amount quant - ram_fee (amount quant)) in
  exists es es' b mu n,
    rammarket s !! RAMCORE = Some es /\ market_ok es /\ market_ok es' /\ 0 < b <= max_amount /\
    base_amount es' = i64 (base_amount es - b) /\ quote_amount es' = i64 (quote_amount es + q) /\
    ram_row_step receiver (i64 (ram_of (userres s) receiver + b)) s mu n /\
    s' = s <| rammarket := <[RAMCORE := es']> (rammarket s) |>
           <| gstate := (gstate s) <| total_ram_bytes_reserved := u64 (total_ram_bytes_reserved (gstate s) + b) |>
                                   <| total_ram_stake := i64 (total_ram_stake (gstate s) + q) |> |>
           <| userres := mu |> <| chain_node := n |> /\
    inlines o' = inlines o ++ [transfer_act payer (N "eosio.ram") (core q) "buy ram"]
                           ++ (if 0 <? ram_fee (amount quant) then [transfer_act payer (N "eosio.ramfee") fee "ram fee"] else []).
Proof.
  intros Sq Hrows Hmk H. cbv zeta. unfold buyram in H. cbv zeta in H. rewrite Sq in H.
  apply bind_Ok in H as (? & s1 & o1 & (_ & -> & ->)%require_auth_Ok & H). apply bind_Ok in H as (? & s1 & o1 & (_ & -> & ->)%eosio_assert_Ok & H).
  apply bind_Ok in H as (? & s1 & o1 & H1 & H). assert (s1 = s /\ o1 = o) as [-> ->].
  { unfold check_yta_account, when in H1. destruct (_ || _) in H1; [done|by injection H1 as _ <- <-]. }
  clear H1. apply bind_Ok in H as (? & s1 & o1 & (_ & -> & ->)%send_Ok & H). apply bind_Ok in H as (? & s1 & o2 & H1 & H).
  assert (Hfee : s1 = s /\ inlines o2 = inlines o ++ [transfer_act payer (N "eosio.ram") (core (i64 (amount quant - ram_fee (amount quant)))) "buy ram"]
    ++ (if 0 <? ram_fee (amount quant) then [transfer_act payer (N "eosio.ramfee") (core (ram_fee (amount quant))) "ram fee"] else [])).
  { unfold when in H1. cbn [amount] in H1. destruct (0 <? ram_fee (amount quant)).
    - apply send_Ok in H1 as (_ & -> & ->). cbn. by rewrite <- app_assoc.
    - injection H1 as _ <- <-. done. }
  destruct Hfee as [-> Hin]. clear H1.
  apply bind_Ok in H as (es & s1 & o3 & (Hes & -> & ->)%get_Ok & H). apply bind_Ok in H as (out & s1 & o3 & H1 & H).
  apply modify_ret_Ok in H1 as (es0 & es' & Hes0 & Hc & -> & ->). replace es0 with es in * by congruence.
  pose proof (Hmk _ Hes) as Mes. apply convert_buy in Hc as (Mes' & Hout & Hb & Hq); [|done..].
  apply bind_Ok in H as (? & s1 & o3 & (Hpos & -> & ->)%eosio_assert_Ok & H). zb.
  apply bind_Ok in H as (? & s1 & o3 & [= _ <- <-] & H). apply bind_Ok in H as (? & s1 & o3 & [= _ <- <-] & H). cbn in H.
  apply bind_Ok in H as (ri & s1 & o3 & (-> & -> & ->)%find_Ok & H). apply bind_Ok in H as (? & s1 & o3 & H1 & H). cbn in H1.
  assert (Hput : exists r, r = (res_of (userres s) receiver) <| ur_ram := i64 (ram_of (userres s) receiver + amount out) |> /\ o3 = o2 /\
    s1 = s <| rammarket := <[RAMCORE := es']> (rammarket s) |>
           <| gstate := (gstate s) <| total_ram_bytes_reserved := u64 (total_ram_bytes_reserved (gstate s) + amount out) |>
                <| total_ram_stake := i64 (total_ram_stake (gstate s) + i64 (amount quant - ram_fee (amount quant))) |> |>
           <| userres := <[receiver := r]> (userres s) |>).
  { unfold ram_of, res_of. destruct (userres s !! receiver) as [r|] eqn:Er; cbn [default].
    - apply modify_Ok in H1 as (r' & w & Hr' & [= <-] & -> & ->). cbn in Hr'. replace r' with r in * by congruence. eexists. done.
    - apply emplace_Ok in H1 as (_ & -> & ->). eexists. split; [done|]. split; [done|]. cbn. do 3 f_equal. unfold userres0.
      f_equal. rewrite i64_id; [done|]. apply in_range_i64, Hout. }
  destruct Hput as (r & Hr & -> & ->). clear H1.
  apply (limits_of_row_spec receiver (i64 (ram_of (userres s) receiver + amount out))) in H as (n & -> & -> & Hge & L1 & L2);
    [|cbn; rewrite lookup_insert_eq, res_of_insert, decide_True by done; by subst r].
  exists es, es', (amount out), (<[receiver := r]> (userres s)), n. cbn in L1, L2.
  split; [done|]. split; [done|]. split; [done|]. split; [unfold in_range in Hout; lia|]. split; [done|]. split; [done|].
  split; [|done]. split; [by subst r|]. split; [done|]. split; [|done].
  rewrite L1. unfold net_of, cpu_of. rewrite !res_of_insert, decide_True by done. by subst r.
Qed.
End ram.

Section ram_steps.
Context {E : SystemEnv}.

Lemma sellram_spec account bytes c s o u s' o' : (forall es, rammarket s !! RAMCORE = Some es -> market_ok es) ->
  sellram account bytes c s o = Ok (u, s', o') ->
  exists es es' t mu n,
    rammarket s !! RAMCORE = Some es /\ market_ok es' /\ 0 < bytes <= ram_of (userres s) account /\ 1 < t <= max_amount /\
    base_amount es' = i64 (base_amount es + bytes) /\ quote_amount es' = i64 (quote_amount es - t) /\
    ram_row_step account (i64 (ram_of (userres s) account - bytes)) s mu n /\ is_Some (userres s !! account) /\
    s' = s <| rammarket := <[RAMCORE := es']> (rammarket s) |>
           <| gstate := (gstate s) <| total_ram_bytes_reserved := u64 (total_ram_bytes_reserved (gstate s) - bytes) |>
                                   <| total_ram_stake := i64 (total_ram_stake (gstate s) - t) |> |>
           <| userres := mu |> <| chain_node := n |> /\
    inlines o' = inlines o ++ [transfer_act (N "eosio.ram") account (core t) "sell ram"]
                           ++ (if 0 <? ram_fee t then [transfer_act account (N "eosio.ramfee") (core (ram_fee t)) "sell ram fee"] else []).
Proof.
  intros Hmk H. unfold sellram in H.
  apply bind_Ok in H as (? & s1 & o1 & (_ & -> & ->)%require_auth_Ok & H). apply bind_Ok in H as (? & s1 & o1 & (Hb & -> & ->)%eosio_assert_Ok & H).
  apply bind_Ok in H as (? & s1 & o1 & H1 & H). assert (s1 = s /\ o1 = o) as [-> ->].
  { unfold check_yta_account, when in H1. destruct (_ || _) in H1; [done|by injection H1 as _ <- <-]. }
  clear H1. apply bind_Ok in H as (r & s1 & o1 & (Hr & -> & ->)%get_Ok & H). apply bind_Ok in H as (? & s1 & o1 & (Hq & -> & ->)%eosio_assert_Ok & H). zb.
  apply bind_Ok in H as (out & s1 & o1 & H1 & H). apply modify_ret_Ok in H1 as (es & es' & Hes & Hc & -> & ->).
  apply res_bind_ok in Hc as (a & [-> _]%asset_make_Ok & Hc). apply convert_sell in Hc as (Mes' & So & Hout & Hbase & Hquote); [|by apply Hmk|done].
  destruct out as [t sy]. cbn in So. subst sy. cbn [amount] in *.
  apply bind_Ok in H as (? & s1 & o1 & (Hpos & -> & ->)%eosio_assert_Ok & H). zb.
  apply bind_Ok in H as (? & s1 & o1 & [= _ <- <-] & H). apply bind_Ok in H as (? & s1 & o1 & [= _ <- <-] & H). cbn in H.
  apply bind_Ok in H as (g & s1 & o1 & (_ & -> & ->)%gets_Ok & H). apply bind_Ok in H as (? & s1 & o1 & (_ & -> & ->)%eosio_assert_Ok & H).
  apply bind_Ok in H as (? & s1 & o1 & (r' & w & Hr' & [= <-] & -> & ->)%modify_Ok & H). cbn in Hr'. replace r' with r in * by congruence. cbn in H.
  assert (Er : r = res_of (userres s) account) by (unfold res_of; by rewrite Hr).
  apply bind_Ok in H as (? & s1 & o1 & H1 & H).
  apply (limits_of_row_spec account (i64 (ur_ram r - bytes))) in H1 as (n & -> & -> & Hge & L1 & L2);
    [|cbn; by rewrite lookup_insert_eq, res_of_insert, decide_True by done]. cbn in L1, L2.
  apply bind_Ok in H as (? & s1 & o1 & (_ & -> & ->)%send_Ok & H).
  exists es, es', t, (<[account := r <| ur_ram := i64 (ur_ram r - bytes) |>]> (userres s)), n. unfold ram_of. rewrite <- Er.
  split; [done|]. split; [done|]. split; [lia|]. split; [unfold in_range in Hout; cbn in Hout; lia|]. split; [done|]. split; [done|]. split.
  { split; [by rewrite <- Er|]. split; [done|]. split; [|done]. rewrite L1. unfold net_of, cpu_of. rewrite !res_of_insert, decide_True by done. by rewrite <- Er. }
  split; [by eexists|]. unfold when in H. destruct (0 <? ram_fee t).
  - apply bind_Ok in H as (a & s1 & o1 & ([-> _]%asset_make_Ok & -> & ->)%lift_Ok & H). apply send_Ok in H as (_ & -> & ->). cbn. by rewrite <- app_assoc.
  - injection H as _ <- <-. done.
Qed.

(** RAM that is bought stays within 63 bits: the node refuses a negative limit. *)
Lemma ram_bought x b : 0 <= x < 2^63 -> 0 < b <= max_amount -> -1 <= i64 (x + b) -> i64 (x + b) = x + b /\ x + b < 2^63.
Proof.
  intros Hx Hb H. unfold max_amount in Hb. destruct (Z_lt_le_dec (x + b) (2^63)); [by rewrite i64_id by (unfold is_i64; lia)|].
  exfalso. rewrite <- (i64_shift _ (-1)), i64_id in H by (unfold is_i64; lia). lia.
Qed.

(** One account's bytes changed by [b], the market and the reserve with it. *)
Lemma ram_row_books a b s s' mu n es es' : ram_books s -> rammarket s !! RAMCORE = Some es -> market_ok es' ->
  base_amount es' = i64 (base_amount es - b) -> ram_row_step a (ram_of (userres s) a + b) s mu n -> 0 <= ram_of (userres s) a + b < 2^63 ->
  userres s' = mu -> rammarket s' = <[RAMCORE := es']> (rammarket s) -> max_ram_size (gstate s') = max_ram_size (gstate s) ->
  total_ram_bytes_reserved (gstate s') = u64 (total_ram_bytes_reserved (gstate s) + b) -> ram_books s'.
Proof.
  intros [R1 R2 R3] Hes Mes' Hb (-> & _) Hrange Eu Em Ex Er.
  assert (Hsum : ram_sum (userres s') = ram_sum (userres s) + b) by (rewrite Eu, ram_sum_insert; cbn; unfold ram_of; lia).
  split.
  - rewrite Eu. by apply map_Forall_insert_2.
  - rewrite Er, R2, Hsum. apply u64_add_l.
  - rewrite Em, lookup_insert_eq. intros es0 [= <-]. split; [done|]. destruct (R3 _ Hes) as [_ Hbase].
    rewrite Hb, Hbase, Hsum, Ex, <- Z.add_opp_r, i64_add_l. f_equal. lia.
Qed.

Lemma ram_of_range s a : ram_books s -> 0 <= ram_of (userres s) a < 2^63.
Proof. intros [R1 _ _]. unfold ram_of, res_of. destruct (userres s !! a) as [r|] eqn:Er; cbn; [exact (R1 _ _ Er)|done]. Qed.

Lemma buyram_ok payer receiver quant c s o u s' o' : books s -> ram_books s -> symbol quant = CORE_SYMBOL ->
  buyram payer receiver quant c s o = Ok (u, s', o') -> books s' /\ ram_books s'.
Proof.
  intros B R Sq H. apply buyram_spec in H as (es & es' & b & mu & n & Hes & Mes & Mes' & Hb & Hbase & _ & Hrow & -> & _);
    [|done|apply R|intros es Hes; by apply (rb_market _ R)].
  split; [by apply (row_books receiver (i64 (ram_of (userres s) receiver + b)) s mu n)|].
  pose proof (ram_of_range s receiver R) as Hr. destruct (ram_bought _ _ Hr Hb) as [E63 Hlt]; [apply Hrow|]. rewrite E63 in Hrow.
  apply (ram_row_books receiver b s _ mu n es es'); try done. lia.
Qed.

Lemma sellram_ok account bytes c s o u s' o' : books s -> ram_books s ->
  sellram account bytes c s o = Ok (u, s', o') -> books s' /\ ram_books s'.
Proof.
  intros B R H. apply sellram_spec in H as (es & es' & t & mu & n & Hes & Mes' & Hb & _ & Hbase & _ & Hrow & _ & -> & _);
    [|intros es Hes; by apply (rb_market _ R)].
  split; [by apply (row_books account (i64 (ram_of (userres s) account - bytes)) s mu n)|].
  pose proof (ram_of_range s account R) as Hr. rewrite i64_id in Hrow by (unfold is_i64; lia).
  apply (ram_row_books account (- bytes) s _ mu n es es'); try done; [by rewrite Z.sub_opp_r|lia].
Qed.
End ram_steps.
