(* ===== verification/SystemFunds.v ===== *)
(** * eosio.system: the tokens held for the users

    Every action of the contract keeps the books of SystemBooks and SystemRam, and none of
    the three accounts that hold tokens for the users comes to owe more than was
    transferred to it.  The last part runs the actions between the construction and the
    destruction of the contract object, and with what the node does in between. *)

From stdpp Require Import sorting.
From S2P Require Import Prelude Float64 Names Asset Chain Views Frame ResourceLimits HeaderState.
From S2P Require Import SystemTables SystemVoting SystemStake SystemPay EosioSystem SystemBooks SystemRam.
#[local] Open Scope Z_scope.

(** ** Actions that move no tokens *)

Definition quiet (a : system_action) : bool :=
  match a with
  | SNative | SSetparams _ | SSetpriv _ _ | SRmvproducer _ | SRegproducer _ _ _ _ | SUnregprod _ | SVoteproducer _ _ _ | SChangevotes _
  | SRegproxy _ _ | SSeqproducer _ _ _ _ | SReprodlevel | SSetautosche _ _ _ | SClaimrewards _ | SStartreward => true
  | _ => false
  end.

Section quiet.
Context {E : SystemEnv}.

Lemma money_quiet v a : quiet a = true -> within (kept money) (system_handler v a).
Proof.
  intros Ha. pose proof (fun p => money_search p) as Hs. pose proof (@money_update_votes) as Hu.
  destruct a; try done; cbn [system_handler];
    unfold setparams, set_blockchain_parameters, setpriv, set_privileged, rmvproducer, regproducer, unregprod, voteproducer, changevotes, regproxy,
      seqproducer, reprodlevel, update_producer_level, setautosche, claimrewards, startreward, change_producer_yta_info, delproducer, rm_producer_yta, add_producer_yta;
    mframe; try (apply Hs || apply Hu);
    apply within_on_node; intros c s o x n H; repeat (apply res_bind_ok in H as (? & _ & H)); by injection H as <- <-.
Qed.
End quiet.

(** ** Funds

    Three accounts hold tokens of the users: [eosio.stake] what is staked and what waits
    for its refund, [eosio.ram] what was paid for RAM, [eosio.names] the bids for names. *)

Inductive fund := FStake | FRam | FNames.
#[export] Instance fund_eq_dec : EqDecision fund.
Proof. solve_decision. Defined.

Definition fund_account (f : fund) : name :=
  match f with FStake => N "eosio.stake" | FRam => N "eosio.ram" | FNames => N "eosio.names" end.

Definition fund_due (f : fund) (s : system) : Z :=
  match f with FStake => stake_due s | FRam => total_ram_stake (gstate s) | FNames => names_sum (namebids s) end.

(** The account whose tokens an action takes. *)
Definition payer_of (a : system_action) : option name :=
  match a with
  | SBidname p _ _ | SBuyrambytes p _ _ | SBuyram p _ _ | SSellram p _ | SDelegatebw p _ _ _ _ | SUndelegatebw p _ _ _ => Some p
  | _ => None
  end.

(** Amounts have the width of their type; the price of RAM is in the range of an asset. *)
Definition args_ok (a : system_action) : Prop :=
  match a with
  | SBuyram _ _ q => in_range q
  | SDelegatebw _ _ n c _ | SUndelegatebw _ _ n c => is_i64 (amount n) /\ is_i64 (amount c)
  | SBidname _ _ b => is_i64 (amount b)
  | _ => True
  end.

(** RAM is paid in core tokens.  [buyram] does not look at the symbol; it leaves it to
    eosio.token to refuse the transfer (see [buyram_takes_any_symbol]). *)
Definition core_paid (a : system_action) : Prop := match a with SBuyram _ _ q => symbol q = CORE_SYMBOL | _ => True end.

Definition outsider (a : system_action) : Prop := forall p f, payer_of a = Some p -> p <> fund_account f.

(** The price of RAM and the tokens paid for it move together. *)
Definition market_step (s s' : system) : Prop :=
  forall es, rammarket s !! RAMCORE = Some es -> exists es', rammarket s' !! RAMCORE = Some es' /\
    i64 (quote_amount es' - total_ram_stake (gstate s')) = i64 (quote_amount es - total_ram_stake (gstate s)).

(** No fund comes to owe more than it receives. *)
Definition funds_step (s : system) (o : out) (s' : system) (o' : out) : Prop :=
  0 <= total_ram_stake (gstate s) -> 0 <= total_ram_stake (gstate s') ->
  forall f, fund_due f s' - fund_due f s <= flow (fund_account f) (inlines o') - flow (fund_account f) (inlines o).

Record step_ok (a : system_action) (s : system) (o : out) (s' : system) (o' : out) : Prop := mkStepOk {
  so_books : books s';
  so_ram : ram_books s';
  so_market : market_step s s';
  so_funds : outsider a -> funds_step s o s' o'
}.

(** What the books read, without the transfers. *)
Definition holdings (s : system) (_ : out) :=
  (delband s, userres s, refunds s, staked <$> voters s, rammarket s, namebids s, resources (chain_node s),
   (max_ram_size (gstate s), total_ram_bytes_reserved (gstate s), total_ram_stake (gstate s))).

Lemma fund_due_holdings f s s' o o' : holdings s' o' = holdings s o -> fund_due f s' = fund_due f s.
Proof. unfold holdings. intros [= E1 _ E3 _ _ E6 _ _ _ E9]. destruct f; cbn; unfold stake_due; congruence. Qed.

Lemma holdings_ok a s o s' o' : books s -> ram_books s -> holdings s' o' = holdings s o ->
  (outsider a -> forall f, flow (fund_account f) (inlines o) <= flow (fund_account f) (inlines o')) -> step_ok a s o s' o'.
Proof.
  intros B R Hh Hf. assert (Hm : money s' o = money s o) by (unfold money, holdings in *; congruence). split.
  - by apply (books_money s s' o o).
  - by apply (ram_books_money s s' o o).
  - intros es Hes. unfold holdings in Hh. injection Hh as _ _ _ _ E5 _ _ _ _ E8. exists es. rewrite E5, E8. done.
  - intros Ha _ _ f. rewrite (fund_due_holdings f s s' o o' Hh). specialize (Hf Ha f). lia.
Qed.

Lemma money_ok a s o s' o' : books s -> ram_books s -> money s' o' = money s o -> step_ok a s o s' o'.
Proof.
  intros B R Hm. apply holdings_ok; [done|done|unfold money, holdings in *; congruence|].
  intros _ f. unfold money in Hm. injection Hm as _ _ _ _ _ _ _ _ _ _ ->. done.
Qed.

(** ** Rewards *)

(** Nothing booked changes, and the funds lose nothing. *)
Definition gives : relation (system * out) := fun x y =>
  holdings (fst y) (snd y) = holdings (fst x) (snd x) /\
  forall f, flow (fund_account f) (inlines (snd x)) <= flow (fund_account f) (inlines (snd y)).

#[export] Instance gives_preorder : PreOrder gives.
Proof.
  split; [done|]. intros x y z [H1 F1] [H2 F2]. split; [congruence|]. intros f. specialize (F1 f). specialize (F2 f). lia.
Qed.

Lemma gives_transfer from to q memo : (forall f, from <> fund_account f) -> symbol q = CORE_SYMBOL -> 0 <= amount q ->
  within gives (inline_transfer from to q memo).
Proof.
  intros Hf Hs Hq. apply within_send. intros s o. split; [done|]. intros f. cbn. rewrite flow_transfer by done.
  destruct (Z.eqb_spec from (fund_account f)); [by destruct (Hf f)|]. destruct (to =? fund_account f); lia.
Qed.

(** Different account names, by evaluating them. *)
Ltac names_differ := cbn [fund_account]; apply Z.eqb_neq; vm_compute; reflexivity.

Lemma flow_other acct l a : act_account a <> N "eosio.token" \/ act_name a <> N "transfer" -> flow acct (l ++ [a]) = flow acct l.
Proof.
  intros Ha. rewrite flow_app. unfold flow at 2. cbn [foldr]. unfold act_flow.
  destruct (Z.eqb_spec (act_account a) (N "eosio.token")), (Z.eqb_spec (act_name a) (N "transfer")); cbn; (lia || naive_solver).
Qed.

(** A transfer between others. *)
Lemma flow_others acct l from to q memo : from <> acct -> to <> acct -> flow acct (l ++ [transfer_act from to q memo]) = flow acct l.
Proof.
  intros Hf%Z.eqb_neq Ht%Z.eqb_neq. rewrite flow_app. unfold flow at 2. cbn [foldr]. unfold act_flow, transfer_act. cbn.
  rewrite Hf, Ht. repeat case_match; lia.
Qed.

(** Queueing an action that is no transfer. *)
Lemma gives_send a : act_account a <> N "eosio.token" \/ act_name a <> N "transfer" -> within gives (send a).
Proof. intros Ha. apply within_send. intros s o. split; [done|]. intros f. cbn. by rewrite flow_other. Qed.

Ltac gframe := sframe_with ltac:(solve [split; [solve [reflexivity | unfold holdings; cbn; repeat case_match; reflexivity]|intros; apply Z.le_refl]]).

Section rewards.
Context {E : SystemEnv}.

Lemma pay_level_gives memo bp kp vb tp w l : forall p, within gives (pay_level memo bp kp vb tp w l p).
Proof.
  induction l as [|it l IH]; intros p; cbn [pay_level]; [apply within_ret, _|].
  apply within_bind; [apply _|apply within_lift, _|intros v]. apply within_bind; [apply _|gframe|intros []]. cbv zeta.
  destruct ((0 <? i64 (i64 (bp + kp) + v)) && _) eqn:Ep; [|apply IH]. apply andb_prop in Ep as [Ep%Z.ltb_lt _].
  intros c s o a s' o' H. apply bind_Ok in H as (q & s1 & o1 & ([-> _]%asset_make_Ok & -> & ->)%lift_Ok & H).
  apply bind_Ok in H as (? & s1 & o1 & H1 & H). etrans; [|by eapply IH].
  revert H1. apply gives_transfer; [intros []; names_differ|done|cbn; lia].
Qed.

Lemma rewardprods_gives : within gives rewardprods.
Proof.
  unfold rewardprods, fill_buckets, pay_producers. gframe; try apply pay_level_gives.
  - apply gives_send. right. names_differ.
  - intros c s o x s' o' (_ & -> & ->)%send_Ok. split; [done|]. intros f. cbn. rewrite flow_others; [done|destruct f; names_differ..].
Qed.
End rewards.

(** ** One action *)

Lemma ram_books_same s s' : ram_books s -> (forall a, ram_of (userres s') a = ram_of (userres s) a) -> ram_sum (userres s') = ram_sum (userres s) ->
  rammarket s' = rammarket s -> max_ram_size (gstate s') = max_ram_size (gstate s) ->
  total_ram_bytes_reserved (gstate s') = total_ram_bytes_reserved (gstate s) -> ram_books s'.
Proof.
  intros R Hof Hsum Em Ex Er. pose proof R as [R1 R2 R3]. split.
  - intros a r Hr. pose proof (ram_of_range s a R) as Ha. rewrite <- Hof in Ha. unfold ram_of, res_of in Ha. by rewrite Hr in Ha.
  - by rewrite Er, Hsum.
  - by rewrite Em, Ex, Hsum.
Qed.

Lemma changebw_ok {DV : DepositView} a src receiver net cpu transfer c s o u s' o' : books s -> ram_books s -> payer_of a = Some src ->
  stake_delta net cpu -> changebw src receiver net cpu transfer c s o = Ok (u, s', o') -> step_ok a s o s' o'.
Proof.
  intros B R Hp HD H. pose proof (changebw_books _ _ _ _ _ _ _ _ _ _ _ B HD H) as B'. apply changebw_spec in H; [|apply B|apply B|apply B|done].
  destruct H as (md & mu & n & mr & mv & t & o1 & Hm & (D1 & D2) & (U1 & U2 & U3 & U4 & U5 & U6) & _ & (R1 & Ht & Hin & Hst) & _).
  unfold money in Hm. injection Hm as E1 E2 E3 _ E5 E6 _ E8 E9 E10 E11. cbn in *. split.
  - done.
  - apply (ram_books_same s); try done; by rewrite E2.
  - intros es Hes. exists es. by rewrite E5, E10.
  - intros Ho _ _ f. pose proof (Ho src) as Hs. rewrite E11, Hin.
    assert (Hst' : refund_step (amount net) (amount cpu) t (refunds s) mr).
    { specialize (Hs FStake Hp). cbn in Hs. by destruct (Z.eqb_spec src (N "eosio.stake")). }
    assert (Hflow : flow (fund_account f) (inlines o ++ (if 0 <? t then [transfer_act src (N "eosio.stake") (core t) "stake bandwidth"] else []))
      = flow (fund_account f) (inlines o) + if bool_decide (f = FStake) then t else 0).
    { destruct (Z.ltb_spec 0 t); [|rewrite app_nil_r; case_bool_decide; lia]. rewrite flow_transfer by done.
      destruct (Z.eqb_spec src (fund_account f)); [by destruct (Hs f Hp)|]. cbn [amount core]. case_bool_decide as Ef.
      - subst f. cbn [fund_account]. rewrite Z.eqb_refl. lia.
      - destruct (Z.eqb_spec (N "eosio.stake") (fund_account f)) as [En|]; [|lia].
        destruct f; [by destruct Ef|..]; exfalso; revert En; names_differ. }
    rewrite Hflow. destruct f; cbn [bool_decide decide_rel fund_due]; unfold stake_due; rewrite ?E1, ?E3, ?E6, ?E10; [|rewrite bool_decide_false by done; lia..].
    rewrite bool_decide_true, D2 by done. unfold refund_step in Hst'. cbn. lia.
Qed.

Section actions.
Context {E : SystemEnv}.

Lemma buyram_flow payer q fee (b : bool) l f : payer <> fund_account f ->
  flow (fund_account f) (l ++ [transfer_act payer (N "eosio.ram") (core q) "buy ram"] ++ (if b then [transfer_act payer (N "eosio.ramfee") (core fee) "ram fee"] else []))
  = flow (fund_account f) l + if bool_decide (f = FRam) then q else 0.
Proof.
  intros Hp. assert (Hfee : N "eosio.ramfee" <> fund_account f) by (destruct f; names_differ).
  rewrite app_assoc. assert (H1 : flow (fund_account f) (l ++ [transfer_act payer (N "eosio.ram") (core q) "buy ram"]) = flow (fund_account f) l + if bool_decide (f = FRam) then q else 0).
  { rewrite flow_transfer by done. destruct (Z.eqb_spec payer (fund_account f)); [done|]. cbn [amount core]. case_bool_decide as Ef.
    - subst f. cbn [fund_account]. rewrite Z.eqb_refl. lia.
    - destruct (Z.eqb_spec (N "eosio.ram") (fund_account f)) as [En|]; [|lia]. destruct f; [|by destruct Ef|]; exfalso; revert En; names_differ. }
  destruct b; [by rewrite flow_others|by rewrite app_nil_r].
Qed.

Lemma buyram_step a payer receiver quant c s o u s' o' : books s -> ram_books s -> payer_of a = Some payer -> symbol quant = CORE_SYMBOL -> in_range quant ->
  buyram payer receiver quant c s o = Ok (u, s', o') -> step_ok a s o s' o'.
Proof.
  intros B R Hp Sq Rq H. pose proof (buyram_ok _ _ _ _ _ _ _ _ _ B R Sq H) as [B' R']. 
  assert (Hpos : 0 < amount quant) by (unfold buyram in H; minv; zb; done).
  apply buyram_spec in H as (es & es' & b & mu & n & Hes & Mes & Mes' & Hb & Hbase & Hq & Hrow & -> & Hin);
    [|done|apply R|intros es Hes; by apply (rb_market _ R)].
  assert (Hq0 : 0 <= i64 (amount quant - ram_fee (amount quant)) <= max_amount).
  { unfold in_range, ram_fee, max_amount in *. rewrite (i64_id (_ + 199)) by (unfold is_i64; lia).
    rewrite Z.quot_div_nonneg by lia. rewrite i64_id; unfold is_i64; Z.to_euclidean_division_equations; lia. }
  set (q := i64 (amount quant - ram_fee (amount quant))) in *. split; [done|done| |].
  - intros es0 Hes0. replace es0 with es in * by congruence. exists es'. cbn. rewrite lookup_insert_eq. split; [done|].
    rewrite Hq, i64_sub_i64. f_equal. lia.
  - intros Ho H0 H1 f. rewrite Hin. pose proof (buyram_flow payer q (ram_fee (amount quant)) (0 <? ram_fee (amount quant)) (inlines o) f (Ho _ _ Hp)) as Hf.
    unfold core in Hf |- *. rewrite Hf. cbn in H1. destruct f; cbn [fund_due]; [rewrite bool_decide_false by done; unfold stake_due; cbn; lia| |rewrite bool_decide_false by done; cbn; lia].
    rewrite bool_decide_true by done. cbn. pose proof (i64_range (total_ram_stake (gstate s) + q)) as Hr. unfold is_i64 in Hr.
    destruct (Z_lt_le_dec (total_ram_stake (gstate s) + q) (2^63)); [rewrite i64_id by (unfold is_i64; lia)|]; lia.
Qed.
End actions.

Section actions2.
Context {E : SystemEnv}.

Lemma fund_accounts f g : fund_account f = fund_account g -> f = g.
Proof. destruct f, g; ((intros _; reflexivity) || (intros H; exfalso; revert H; names_differ)). Qed.

(** What one transfer brings to a fund, when it is not paid by another fund. *)
Lemma fund_receives f l from to q memo : symbol q = CORE_SYMBOL -> 0 <= amount q -> from <> fund_account f ->
  flow (fund_account f) l <= flow (fund_account f) (l ++ [transfer_act from to q memo]).
Proof.
  intros Hs Hq Hf%Z.eqb_neq. rewrite flow_transfer, Hf by done. destruct (to =? fund_account f); lia.
Qed.

(** What one fund pays. *)
Lemma fund_pays f g l to q memo : symbol q = CORE_SYMBOL -> 0 <= amount q ->
  flow (fund_account f) l - (if bool_decide (f = g) then amount q else 0)
    <= flow (fund_account f) (l ++ [transfer_act (fund_account g) to q memo]).
Proof.
  intros Hs Hq. rewrite flow_transfer by done. case_bool_decide as Efg; [subst; rewrite Z.eqb_refl; destruct (to =? fund_account g); lia|].
  destruct (Z.eqb_spec (fund_account g) (fund_account f)) as [Eg%fund_accounts|]; [by subst|]. destruct (to =? fund_account f); lia.
Qed.

Lemma sellram_step account bytes c s o u s' o' : books s -> ram_books s ->
  sellram account bytes c s o = Ok (u, s', o') -> step_ok (SSellram account bytes) s o s' o'.
Proof.
  intros B R H. pose proof (sellram_ok _ _ _ _ _ _ _ _ B R H) as [B' R'].
  apply sellram_spec in H as (es & es' & t & mu & n & Hes & Mes' & Hb & Ht & _ & Hq & _ & _ & -> & Hin); [|intros es Hes; by apply (rb_market _ R)].
  split; [done|done| |].
  - intros es0 Hes0. replace es0 with es in * by congruence. exists es'. cbn. rewrite lookup_insert_eq. split; [done|].
    rewrite Hq, i64_sub_i64. f_equal. lia.
  - intros Ho H0 H1 f. rewrite Hin, app_assoc. pose proof (Ho account f eq_refl) as Ha. cbn in H1.
    assert (Hrest : flow (fund_account f) ((inlines o ++ [transfer_act (N "eosio.ram") account (core t) "sell ram"]) ++
      (if 0 <? ram_fee t then [transfer_act account (N "eosio.ramfee") (core (ram_fee t)) "sell ram fee"] else []))
      = flow (fund_account f) (inlines o ++ [transfer_act (N "eosio.ram") account (core t) "sell ram"])).
    { destruct (0 <? ram_fee t); [|by rewrite app_nil_r]. apply flow_others; [done|destruct f; names_differ]. }
    rewrite Hrest. pose proof (fund_pays f FRam (inlines o) account (core t) "sell ram" eq_refl ltac:(cbn; lia)) as Hf. cbn [fund_account amount core] in Hf.
    unfold max_amount in *. destruct f; cbn [fund_due]; unfold stake_due; cbn -[core] in *.
    + rewrite bool_decide_false in Hf by done. lia.
    + rewrite bool_decide_true in Hf by done. pose proof (i64_range (total_ram_stake (gstate s) - t)) as Hr. unfold is_i64 in Hr.
      destruct (Z_lt_le_dec (total_ram_stake (gstate s) - t) (2^63)); [rewrite i64_id by (unfold is_i64; lia)|]; lia.
    + rewrite bool_decide_false in Hf by done. lia.
Qed.

Lemma refund_step_ok owner c s o u s' o' : books s -> ram_books s ->
  refund owner c s o = Ok (u, s', o') -> step_ok (SRefund owner) s o s' o'.
Proof.
  intros B R H. unfold refund in H. apply bind_Ok in H as (? & s1 & o1 & (_ & -> & ->)%require_auth_Ok & H).
  apply bind_Ok in H as (req & s1 & o1 & (Hreq & -> & ->)%get_Ok & H). apply bind_Ok in H as (t & s1 & o1 & (_ & -> & ->)%ask_Ok & H).
  apply bind_Ok in H as (? & s1 & o1 & (_ & -> & ->)%eosio_assert_Ok & H). apply bind_Ok in H as (sum & s1 & o1 & (Hsum & -> & ->)%lift_Ok & H).
  apply bind_Ok in H as (? & s1 & o1 & (_ & -> & ->)%send_Ok & H). apply erase_Ok in H as (? & _ & -> & ->).
  destruct (bk_refunds _ B _ _ Hreq) as [Kn Kc]. apply core_add_Ok in Hsum as (_ & -> & _); [|done|apply in_range_i64, core_in_range, Kc].
  split.
  - destruct B as [B1 B2 B3 B4 B5 B6 B7]. split; try done. by apply map_Forall_delete.
  - by apply (ram_books_same s).
  - intros es Hes. by exists es.
  - intros _ _ _ f. pose proof (fund_pays f FStake (inlines o) owner (core (amount (net_amount req) + amount (cpu_amount req))) "unstake" eq_refl) as Hf.
    destruct Kn as [_ Kn], Kc as [_ Kc]. specialize (Hf ltac:(cbn; lia)).
    destruct f; unfold fund_due, stake_due; cbn -[core bool_decide] in Hf |- *;
      [rewrite bool_decide_true in Hf by done|rewrite bool_decide_false in Hf by done; lia..].
    unfold refund_sum. rewrite (map_sum_delete _ _ _ req) by done. cbn in Hf |- *. lia.
Qed.

(** Only names change hands. *)
Lemma names_step_ok a s o s' o' m : books s -> ram_books s -> s' = s <| namebids := m |> ->
  (outsider a -> forall f, (if bool_decide (f = FNames) then names_sum m - names_sum (namebids s) else 0)
     <= flow (fund_account f) (inlines o') - flow (fund_account f) (inlines o)) -> step_ok a s o s' o'.
Proof.
  intros B R -> Hf. split.
  - by destruct B.
  - by apply (ram_books_same s).
  - intros es Hes. by exists es.
  - intros Ho _ _ f. specialize (Hf Ho f). destruct f; cbn [fund_due]; unfold stake_due; cbn -[bool_decide] in *;
      [rewrite bool_decide_false in Hf by done; lia..|rewrite bool_decide_true in Hf by done; lia].
Qed.
End actions2.

Section actions3.
Context {E : SystemEnv}.

Lemma names_sum_insert m k b : names_sum (<[k := b]> m) = names_sum m - (match m !! k with Some b0 => Z.abs (high_bid b0) | None => 0 end) + Z.abs (high_bid b).
Proof.
  unfold names_sum. destruct (m !! k) as [b0|] eqn:Ek; [by rewrite (map_sum_insert _ _ _ b0)|]. rewrite map_sum_insert_new by done. lia.
Qed.

Lemma bidname_step bidder newname bid c s o u s' o' : books s -> ram_books s ->
  bidname bidder newname bid c s o = Ok (u, s', o') -> step_ok (SBidname bidder newname bid) s o s' o'.
Proof.
  intros B R H. unfold bidname in H.
  apply bind_Ok in H as (? & s1 & o1 & (_ & -> & ->)%require_auth_Ok & H).
  do 4 apply bind_Ok in H as (? & s1 & o1 & (_ & -> & ->)%eosio_assert_Ok & H). apply bind_Ok in H as (? & s1 & o1 & (_ & -> & ->)%ask_Ok & H).
  apply bind_Ok in H as (? & s1 & o1 & (_ & -> & ->)%eosio_assert_Ok & H).
  apply bind_Ok in H as (? & s1 & o1 & (Hs & -> & ->)%eosio_assert_Ok & H). apply bind_Ok in H as (? & s1 & o1 & (Hp & -> & ->)%eosio_assert_Ok & H). zb.
  apply bind_Ok in H as (? & s1 & o1 & (_ & -> & ->)%send_Ok & H). apply bind_Ok in H as (? & s1 & o1 & (-> & ->)%print_Ok & H).
  apply bind_Ok in H as (ct & s1 & o1 & (-> & -> & ->)%ask_Ok & H). apply bind_Ok in H as (cur & s1 & o1 & (-> & -> & ->)%find_Ok & H).
  set (memo := ("bid name " +:+ _)%string) in *.
  assert (Hin : outsider (SBidname bidder newname bid) -> forall f, flow (fund_account f) (inlines o) + (if bool_decide (f = FNames) then amount bid else 0)
    <= flow (fund_account f) (inlines o ++ [transfer_act bidder (N "eosio.names") bid memo])).
  { clear H. intros Ho f. rewrite flow_transfer by done. pose proof (Ho bidder f eq_refl) as Hb%Z.eqb_neq. rewrite Hb. case_bool_decide as Ef.
    - subst f. cbn [fund_account]. rewrite Z.eqb_refl. lia.
    - destruct (N "eosio.names" =? fund_account f); lia. }
  destruct (namebids s !! newname) as [b|] eqn:Eb.
  - apply bind_Ok in H as (? & s1 & o1 & (Hb & -> & ->)%eosio_assert_Ok & H). do 2 apply bind_Ok in H as (? & s1 & o1 & (_ & -> & ->)%eosio_assert_Ok & H). zb.
    apply bind_Ok in H as (a & s1 & o1 & ([-> Ha]%asset_make_Ok & -> & ->)%lift_Ok & H). apply bind_Ok in H as (? & s1 & o1 & (_ & -> & ->)%send_Ok & H).
    apply modify_Ok in H as (? & ? & _ & [= <-] & -> & ->).
    eapply names_step_ok; [done|done|reflexivity|]. intros Ho f. cbn -[bool_decide]. rewrite names_sum_insert, Eb. cbn -[bool_decide].
    match goal with |- context [transfer_act (N "eosio.names") ?to ?q ?m] =>
      pose proof (fund_pays f FNames (inlines o ++ [transfer_act bidder (N "eosio.names") bid memo]) to q m eq_refl ltac:(cbn; lia)) as Hf end.
    specialize (Hin Ho f). cbn -[bool_decide] in Hf. destruct (bool_decide (f = FNames)); lia.
  - apply emplace_Ok in H as (_ & -> & ->). eapply names_step_ok; [done|done|reflexivity|]. intros Ho f. cbn -[bool_decide].
    rewrite names_sum_insert, Eb. cbn -[bool_decide]. specialize (Hin Ho f). destruct (bool_decide (f = FNames)); lia.
Qed.

Lemma gives_ok a s o s' o' : books s -> ram_books s -> gives (s, o) (s', o') -> step_ok a s o s' o'.
Proof. intros B R [Hh Hf]. by apply holdings_ok. Qed.

Lemma step_ok_money a s0 o0 s o s' o' : money s o = money s0 o0 -> step_ok a s o s' o' -> step_ok a s0 o0 s' o'.
Proof.
  unfold money. intros [= E1 E2 E3 E4 E5 E6 E7 E8 E9 E10 E11] [B R M F]. split; [done|done| |].
  - intros es Hes. rewrite <- E5, <- E10 in *. by apply M.
  - intros Ho H0 H1 f. rewrite <- E11. rewrite <- E10 in H0. specialize (F Ho H0 H1 f).
    assert (fund_due f s = fund_due f s0) as <-; [|done]. destruct f; cbn; unfold stake_due; congruence.
Qed.

Lemma onblock_step {PV : PoolView} slot producer c s o u s' o' : books s -> ram_books s ->
  onblock slot producer c s o = Ok (u, s', o') -> step_ok (SOnblock slot producer) s o s' o'.
Proof.
  intros B R H. unfold onblock in H. apply bind_Ok in H as (? & s1 & o1 & (_ & -> & ->)%require_auth_Ok & H).
  apply bind_Ok in H as (g & s1 & o1 & (-> & -> & ->)%gets_Ok & H). destruct (240 <? _).
  - apply bind_Ok in H as (? & s1 & o1 & H1%money_elected & H). unfold kept in H1. cbn [fst snd] in H1.
    pose proof (books_money _ _ _ _ H1 B) as B1. pose proof (ram_books_money _ _ _ _ H1 R) as R1. apply (step_ok_money _ _ _ s1 o1 _ _ H1). clear H1.
    apply bind_Ok in H as (g' & s2 & o2 & (-> & -> & ->)%gets_Ok & H). unfold when at 1 in H.
    destruct (_ <? _); [|injection H as _ <- <-; by apply money_ok].
    unfold close_auction in H. apply bind_Ok in H as (hb & s2 & o2 & (-> & -> & ->)%gets_Ok & H). apply bind_Ok in H as (g2 & s2 & o2 & (-> & -> & ->)%gets_Ok & H).
    apply bind_Ok in H as (ct & s2 & o2 & (-> & -> & ->)%ask_Ok & H). destruct (highest_bid _) as [[nm b]|]; [|injection H as _ <- <-; by apply money_ok].
    unfold when in H. destruct (_ && _) eqn:Ec; [|injection H as _ <- <-; by apply money_ok].
    apply bind_Ok in H as (? & s2 & o2 & [= _ <- <-] & H). apply modify_Ok in H as (b0 & ? & Hb0 & [= <-] & -> & ->). cbn in Hb0.
    apply (step_ok_money _ _ _ (s1 <| gstate := (gstate s1) <| last_name_close := slot |> |>) o1); [reflexivity|].
    eapply names_step_ok; [by apply (books_money s1 _ o1 o1)|by apply (ram_books_money s1 _ o1 o1)|reflexivity|].
    intros _ f. cbn -[bool_decide]. rewrite names_sum_insert, Hb0. cbn -[bool_decide].
    assert (Z.abs (i64 (- high_bid b0)) <= Z.abs (high_bid b0)); [|destruct (bool_decide _); lia].
    pose proof (i64_range (- high_bid b0)) as Hr. unfold is_i64 in Hr.
    destruct (decide (- 2^63 <= - high_bid b0 < 2^63)); [rewrite i64_id by (unfold is_i64; lia)|]; lia.
  - apply gives_ok; [done|done|]. destruct (_ <=? slot); [|unfold when in H; destruct (_ <=? slot); [|injection H as _ <- <-; reflexivity]];
      revert H; apply gives_send; left; names_differ.
Qed.
End actions3.

Section actions4.
Context {E : SystemEnv}.

Lemma newaccount_step creator newact c s o u s' o' : books s -> ram_books s ->
  newaccount creator newact c s o = Ok (u, s', o') -> step_ok (SNewaccount creator newact) s o s' o'.
Proof.
  intros B R H. unfold newaccount in H. apply bind_Ok in H as (me & s1 & o1 & (-> & -> & ->)%ask_Ok & H). apply bind_Ok in H as (? & s1 & o1 & H1 & H).
  assert (Hn : exists m, s1 = s <| namebids := m |> /\ o1 = o /\ names_sum m <= names_sum (namebids s)).
  { unfold check_new_name in H1. minv; try (exists (namebids s); by destruct s).
    eexists. split; [done|]. split; [done|]. unfold names_sum. erewrite map_sum_delete by done. lia. }
  destruct Hn as (m & -> & -> & Hm). clear H1.
  assert (Hs1 : step_ok (SNewaccount creator newact) s o (s <| namebids := m |>) o).
  { eapply names_step_ok; [done|done|reflexivity|]. intros _ f. destruct (bool_decide _); lia. }
  apply bind_Ok in H as (? & s1 & o1 & (Hu & -> & ->)%emplace_Ok & H). cbn in Hu.
  apply bind_Ok in H as (? & s1 & o1 & (n & -> & -> & L1 & L2)%set_limits_spec & H). cbn in L2.
  apply bind_Ok in H as (k & s1 & o1 & (-> & -> & ->)%gets_Ok & H). apply sset_Ok in H as (-> & ->). cbn.
  destruct Hs1 as [B1 R1 M1 F1].
  assert (Hrow : ram_row_step newact 0 s (<[newact := userres0]> (userres s)) n).
  { unfold ram_row_step, net_of, cpu_of, res_of. rewrite Hu. done. }
  split.
  - by apply (row_books newact 0 s (<[newact := userres0]> (userres s)) n).
  - apply (ram_books_same s); try done; cbn.
    + intros a. unfold ram_of. rewrite res_of_insert. case_decide as Ea; [|done]. subst a. unfold res_of. by rewrite Hu.
    + rewrite ram_sum_insert. unfold ram_of, res_of. rewrite Hu. cbn. lia.
  - exact M1.
  - exact F1.
Qed.

Lemma setram_step max_ram c s o u s' o' : books s -> ram_books s -> setram max_ram c s o = Ok (u, s', o') -> step_ok (SSetram max_ram) s o s' o'.
Proof.
  intros B R H. unfold setram in H. apply bind_Ok in H as (me & s1 & o1 & (-> & -> & ->)%ask_Ok & H).
  apply bind_Ok in H as (? & s1 & o1 & (_ & -> & ->)%require_auth_Ok & H). apply bind_Ok in H as (g & s1 & o1 & (-> & -> & ->)%gets_Ok & H).
  do 3 apply bind_Ok in H as (? & s1 & o1 & (_ & -> & ->)%eosio_assert_Ok & H).
  apply bind_Ok in H as (? & s1 & o1 & (es & es' & Hes & [= Ees'] & -> & ->)%modify_Ok & H). apply bind_Ok in H as (? & s1 & o1 & [= _ <- <-] & H).
  apply bind_Ok in H as (? & s1 & o1 & (-> & -> & ->)%gets_Ok & H). apply sset_Ok in H as (-> & ->).
  pose proof R as [R1 R2 R3]. destruct (R3 _ Hes) as [Mes Hbase]. split.
  - by destruct B.
  - split; cbn; [done|done|]. rewrite lookup_insert_eq. intros es0 [= <-]. rewrite <- Ees'. split; [done|]. unfold base_amount in *. cbn. rewrite Hbase.
    destruct (i64_wraps (i64 max_ram - i64 (max_ram_size (gstate s)))) as [k ->]. destruct (i64_wraps max_ram) as [k1 ->], (i64_wraps (max_ram_size (gstate s))) as [k2 ->].
    rewrite i64_add_l, <- (i64_shift (max_ram - _) (k + k1 - k2)). f_equal. lia.
  - intros es0 Hes0. replace es0 with es in * by congruence. exists es'. cbn. rewrite lookup_insert_eq. split; [done|]. by rewrite <- Ees'.
  - intros _ _ _ f. destruct f; cbn; unfold stake_due; cbn; lia.
Qed.

Lemma buyrambytes_step payer receiver bytes c s o u s' o' : books s -> ram_books s ->
  buyrambytes payer receiver bytes c s o = Ok (u, s', o') -> step_ok (SBuyrambytes payer receiver bytes) s o s' o'.
Proof.
  intros B R H. unfold buyrambytes in H. apply bind_Ok in H as (itr & s1 & o1 & (-> & -> & ->)%find_Ok & H).
  destruct (rammarket s !! RAMCORE) as [es|] eqn:Hes; [|done]. apply bind_Ok in H as (a & s1 & o1 & ([-> _]%asset_make_Ok & -> & ->)%lift_Ok & H).
  apply bind_Ok in H as ([out es'] & s1 & o1 & (Hc & -> & ->)%lift_Ok & H). apply convert_sell in Hc as (_ & So & Ro & _); [|by apply (rb_market _ R)|done].
  by eapply buyram_step.
Qed.

(** Every action keeps the books and the funds. *)
Lemma handler_step v a c s o u s' o' : books s -> ram_books s -> args_ok a -> core_paid a ->
  system_handler v a c s o = Ok (u, s', o') -> step_ok a s o s' o'.
Proof.
  intros B R Ha Hp H. destruct (quiet a) eqn:Eq; [by apply money_ok; [..|eapply money_quiet]|].
  destruct a; try done; cbn [system_handler args_ok core_paid] in *.
  - by eapply newaccount_step.
  - by eapply setram_step.
  - by eapply bidname_step.
  - by eapply buyrambytes_step.
  - by eapply buyram_step.
  - by eapply sellram_step.
  - destruct Ha. apply delegatebw_changes in H as [HD H]; [|done..]. by eapply changebw_ok.
  - destruct Ha. apply undelegatebw_changes in H as [HD H]; [|done..]. by eapply changebw_ok.
  - by eapply refund_step_ok.
  - by eapply onblock_step.
  - apply gives_ok; [done|done|]. by eapply rewardprods_gives.
Qed.
End actions4.

(** ** The contract between its construction and its destruction *)

(** The state with the members loaded from the tables. *)
Definition loaded (s : system) : system := s <| gstate := default (get_default_parameters s) (global s) |>.

Lemma ctor_spec {TV : TokenView} c s o u s' o' : sys_ctor c s o = Ok (u, s', o') ->
  o' = o /\ exists m, s' = (loaded s) <| gstateex := default global2_0 (globalex s) |> <| rammarket := m |> /\
    (m = rammarket s \/ rammarket s !! RAMCORE = None /\ exists q,
       m = <[RAMCORE := mkExchange (mkAsset 100000000000000 RAMCORE)
              (mkConnector (mkAsset (i64 (free_ram (gstate (loaded s)))) RAM) (f64_lit 1 2)) (mkConnector (mkAsset q CORE_SYMBOL) (f64_lit 1 2))]> (rammarket s)).
Proof.
  unfold sys_ctor. intros H. apply bind_Ok in H as (g & s1 & o1 & (-> & -> & ->)%gets_Ok & H). apply bind_Ok in H as (? & s1 & o1 & (-> & ->)%assign_Ok & H).
  apply bind_Ok in H as (g2 & s1 & o1 & (-> & -> & ->)%gets_Ok & H). apply bind_Ok in H as (? & s1 & o1 & (-> & ->)%assign_Ok & H).
  apply bind_Ok in H as (itr & s1 & o1 & (-> & -> & ->)%find_Ok & H). cbn in H. destruct (rammarket s !! RAMCORE) as [es|] eqn:Em.
  - injection H as _ <- <-. split; [done|]. exists (rammarket s). split; [done|by left].
  - apply bind_Ok in H as (a & s1 & o1 & (_ & -> & ->)%lift_Ok & H). unfold when in H. destruct (0 <? amount a).
    + apply emplace_Ok in H as (_ & -> & ->). split; [done|]. eexists. split; [reflexivity|]. right. split; [done|]. eexists. reflexivity.
    + injection H as _ <- <-. split; [done|]. exists (rammarket s). split; [done|by left].
Qed.

Lemma dtor_spec c s o u s' o' : sys_dtor c s o = Ok (u, s', o') ->
  s' = s <| global := Some (gstate s) |> <| globalex := Some (gstateex s) |> /\ o' = o.
Proof.
  unfold sys_dtor. intros H. apply bind_Ok in H as (g & s1 & o1 & (-> & -> & ->)%gets_Ok & H). apply bind_Ok in H as (? & s1 & o1 & (-> & ->)%sset_Ok & H).
  apply bind_Ok in H as (g2 & s1 & o1 & (-> & -> & ->)%gets_Ok & H). apply sset_Ok in H as (-> & ->). done.
Qed.

Lemma books_loaded s : books s -> books (loaded s).
Proof. by intros []. Qed.

(** A market that is opened offers the free RAM. *)
Lemma ctor_books {TV : TokenView} c s o u s' o' : books s -> ram_books (loaded s) -> sys_ctor c s o = Ok (u, s', o') ->
  o' = o /\ books s' /\ ram_books s' /\ market_step (loaded s) s' /\ forall f, fund_due f s' = fund_due f (loaded s).
Proof.
  intros B [R1 R2 R3] H. apply ctor_spec in H as (-> & m & -> & Hm). split; [done|]. split; [by destruct B|]. split; [|split].
  - split; cbn; [done|done|]. intros es Hes. destruct Hm as [->|(_ & q & ->)]; [by apply R3|]. rewrite lookup_insert_eq in Hes. injection Hes as <-.
    split; [done|]. unfold base_amount, free_ram. cbn. rewrite i64_u64. cbn in R2. rewrite R2.
    destruct (u64_wraps (ram_sum (userres s))) as [k ->]. rewrite <- (i64_shift _ k). f_equal. lia.
  - intros es Hes. cbn in Hes. destruct Hm as [->|(Hn & _)]; [by exists es|congruence].
  - by intros [].
Qed.

Section machine.
Context {E : SystemEnv}.

Lemma apply_step v a c s o u s' o' : books s -> ram_books (loaded s) -> args_ok a -> core_paid a -> system_apply v a c s o = Ok (u, s', o') ->
  step_ok a (loaded s) o s' o' /\ loaded s' = s'.
Proof.
  intros B R Ha Hp H. unfold system_apply, in_system in H. cbv zeta in H. apply bind_Ok in H as (? & s1 & o1 & H1 & H).
  apply ctor_books in H1 as (-> & B1 & R1 & M1 & F1); [|done..]. apply bind_Ok in H as (? & s2 & o2 & H2 & H).
  apply handler_step in H2 as [B2 R2 M2 F2]; [|done..]. apply dtor_spec in H as (-> & ->). split; [|done]. split.
  - by destruct B2.
  - by destruct R2.
  - intros es Hes. destruct (M1 es Hes) as (es1 & Hes1 & E1). destruct (M2 es1 Hes1) as (es2 & Hes2 & E2). exists es2. split; [done|]. cbn in *. congruence.
  - intros Ho H0 H1 f. pose proof (F1 FRam) as F0. cbn in F0. specialize (F2 Ho ltac:(cbn in *; lia) H1 f). rewrite F1 in F2.
    destruct f; cbn in *; exact F2.
Qed.
End machine.

(** ** The node between actions *)

(** Operations of the resource manager that leave the limits of accounts alone. *)
Definition sets_no_limits (op : resource_op) : bool := match op with OSetLimits _ _ _ _ => false | _ => true end.

Lemma apply_pending_limits owner r r' : apply_pending owner r = Ok r' -> forall a, get_account_limits a r' = get_account_limits a r.
Proof.
  unfold apply_pending. intros H a. apply res_bind_ok in H as (p & Hp & H). do 4 apply res_bind_ok in H as (? & _ & H). injection H as <-.
  unfold get_account_limits. cbn. destruct (rl_limits r !! (true, owner)) as [p'|] eqn:Ep; [|done]. injection Hp as ->.
  destruct (decide (a = owner)) as [->|Ha].
  - by rewrite lookup_delete_eq, lookup_delete_ne, lookup_insert_eq, Ep by done.
  - by rewrite !lookup_delete_ne, !lookup_insert_ne by congruence.
Qed.

Lemma process_limits n : forall r r', apply_all_pending n r = Ok r' -> forall a, get_account_limits a r' = get_account_limits a r.
Proof.
  induction n as [|n IH]; intros r r' H a; cbn [apply_all_pending] in H; destruct (first_pending r); try done; try (by injection H as <-).
  apply res_bind_ok in H as (r1 & H1 & H). by rewrite (IH _ _ H), (apply_pending_limits _ _ _ H1).
Qed.

Lemma resource_limits_kept op r r' a l : sets_no_limits op = true -> resource_apply op r = Ok r' ->
  get_account_limits a r = Ok l -> get_account_limits a r' = Ok l.
Proof.
  intros Hop H Hl. assert (Hsame : rl_limits r' = rl_limits r -> get_account_limits a r' = Ok l) by (unfold get_account_limits in *; by intros ->).
  destruct op as [b|b ram net cpu|b d| |l' t|l' cpu net t|c|n]; cbn [resource_apply] in H; [|done|..].
  - unfold initialize_account in H. destruct (rl_limits r !! (false, b)) eqn:Eb; [done|]. destruct (rl_usage r !! b); [done|]. injection H as <-.
    unfold get_account_limits in *. cbn. rewrite lookup_insert_ne by done. destruct (rl_limits r !! (true, a)); [done|].
    rewrite lookup_insert_ne; [done|]. intros [= ->]. by rewrite Eb in Hl.
  - unfold add_pending_ram_usage in H. destruct (d =? 0); [by injection H as <-|].
    apply Hsame. do 3 apply res_bind_ok in H as (? & _ & H). by injection H as <-.
  - by rewrite (process_limits _ _ _ H).
  - apply update_account_usage_same in H as (H & _ & _). by apply Hsame.
  - unfold add_transaction_usage in H. apply res_bind_ok in H as (r1 & (H1 & _ & _)%charge_accounts_same & H). cbv zeta in H.
    do 2 apply res_bind_ok in H as (? & _ & H). apply Hsame. injection H as <-. exact H1.
  - apply Hsame. unfold set_block_parameters in H. do 2 apply res_bind_ok in H as (? & _ & H). by injection H as <-.
  - apply Hsame. unfold process_block_usage in H. do 4 apply res_bind_ok in H as (? & _ & H). by injection H as <-.
Qed.

(** What the node does between two actions: operations of the resource manager, and any
    change that leaves the resource manager alone. *)
Inductive node_step (n : node) : node -> Prop :=
| ns_resources op r : sets_no_limits op = true -> resource_apply op (resources n) = Ok r -> node_step n (n <| resources := r |>)
| ns_other n' : resources n' = resources n -> node_step n n'.

Lemma node_step_limits n n' a l : node_step n n' -> limits_of n a = Ok l -> limits_of n' a = Ok l.
Proof. unfold limits_of. intros [op r Hop Hr|n'' ->]; [by apply (resource_limits_kept op)|done]. Qed.

(** ** Histories *)

Definition system_init (n : node) : system :=
  mkSystem ∅ ∅ ∅ None None None None None ∅ ∅ ∅ ∅ ∅ (default_global (configuration n)) global2_0 n.

(** The states the contract can come to, with the inline actions sent on the way, by
    actions that satisfy [ok]: it may look at the other contracts, the action and the
    states before and after it. *)
Inductive history {E : SystemEnv} (ok : other_contracts -> system_action -> system -> system -> Prop) : list action -> system -> Prop :=
| h_start n : history ok [] (system_init n)
| h_action l s v a c d u s' o' : history ok l s -> args_ok a -> system_apply v a c s (mkOut [] d [] []) = Ok (u, s', o') -> ok v a s s' ->
    history ok (l ++ inlines o') s'
| h_node l s n : history ok l s -> node_step (chain_node s) n -> history ok l (s <| chain_node := n |>).

Section histories.
Context {E : SystemEnv}.

Lemma init_books n : books (system_init n) /\ ram_books (loaded (system_init n)).
Proof.
  split; split; cbn; try done; unfold del_sum; intros; rewrite ?map_sum_empty; try done; by apply map_Forall_empty.
Qed.

Lemma history_books (ok : other_contracts -> system_action -> system -> system -> Prop) l s : (forall v a s s', ok v a s s' -> core_paid a) ->
  history ok l s -> books s /\ ram_books (loaded s).
Proof.
  intros Hok. induction 1 as [n|l s v a c d u s' o' _ [B R] Ha H Hp%Hok|l s n _ [B R] Hn].
  - apply init_books.
  - apply apply_step in H as [[B' R' _ _] E']; [|done..]. by rewrite E'.
  - split; [|destruct R as [R1 R2 R3]; cbn in *; by split; cbn; destruct (global s)]. destruct B as [B1 B2 B3 B4 B5 B6 B7]. split; try done. intros a r Hr. eapply node_step_limits; [done|]. by apply B7.
Qed.

(** Core tokens and outsiders only, and never more tokens for RAM than fit. *)
Definition solvent (v : other_contracts) (a : system_action) (s s' : system) : Prop :=
  core_paid a /\ outsider a /\ 0 <= total_ram_stake (gstate s').

End histories.

Lemma history_weaken {E : SystemEnv} (ok ok' : other_contracts -> system_action -> system -> system -> Prop) l s :
  (forall v a s s', ok v a s s' -> ok' v a s s') -> history ok l s -> history ok' l s.
Proof. intros Hw. induction 1; econstructor; eauto. Qed.

(** ** Runs of actions *)

#[export] Instance args_ok_dec a : Decision (args_ok a).
Proof. destruct a; cbn; unfold in_range, is_i64; apply _. Defined.

#[export] Instance core_paid_dec a : Decision (core_paid a).
Proof. destruct a; cbn; apply _. Defined.

#[export] Instance outsider_dec a : Decision (outsider a).
Proof.
  destruct (payer_of a) as [p|] eqn:Ep.
  - destruct (decide (Forall (fun f => p <> fund_account f) [FStake; FRam; FNames])) as [H|H].
    + left. rewrite !Forall_cons in H. unfold outsider. rewrite Ep. intros q [] [= <-]; apply H.
    + right. intros Ho. apply H. repeat constructor; by apply Ho.
  - left. unfold outsider. by rewrite Ep.
Defined.

#[export] Instance solvent_dec v a s s' : Decision (solvent v a s s').
Proof. unfold solvent. apply _. Defined.

Section runs.
Context {E : SystemEnv} (v : other_contracts) (okb : system_action -> system -> system -> bool).

(** The actions in turn, with the inline actions they send; stops at one that is not allowed. *)
Fixpoint run_actions (l : list (system_action * ctx)) (s : system) : option (list action * system) :=
  match l with
  | [] => Some ([], s)
  | (a, c) :: l' =>
      match system_apply v a c s (mkOut [] [] [] []) with
      | Ok (_, s1, o1) =>
          if bool_decide (args_ok a) && okb a s s1 then
            match run_actions l' s1 with Some (sent, s2) => Some (inlines o1 ++ sent, s2) | None => None end
          else None
      | Err _ => None
      end
  end.

Lemma run_history ok (Hok : forall a s s', okb a s s' = true -> ok v a s s') l : forall sent s sent' s',
  history ok sent s -> run_actions l s = Some (sent', s') -> history ok (sent ++ sent') s'.
Proof.
  induction l as [|[a c] l IH]; intros sent s sent' s' Hh; cbn [run_actions]; [intros [= <- <-]; by rewrite app_nil_r|].
  destruct (system_apply v a c s _) as [[[u s1] o1]|e] eqn:Ea; [|done]. destruct (bool_decide _ && _) eqn:Eb; [|done].
  apply andb_prop in Eb as [Ha%bool_decide_eq_true Hb%Hok].
  destruct (run_actions l s1) as [[sent2 s2]|] eqn:Er; [|done]. intros [= <- <-]. rewrite app_assoc. eapply IH; [|done].
  by eapply h_action.
Qed.
End runs.

(** Two accounts: alice buys RAM and stakes for both, takes back a part of it and
    bids for a name, which bob overbids. *)
Definition votes_of_entry (p : yta_prod_info) : Z := ok_or 0 (f64_trunc_i64s (yp_votes p)).
Definition entry_le (a b : yta_prod_info) : Prop := votes_of_entry b <= votes_of_entry a.
#[export] Instance entry_le_dec : RelDecision entry_le.
Proof. intros a b. unfold entry_le. apply _. Defined.
#[export] Instance entry_le_total : Total entry_le.
Proof. intros a b. unfold entry_le. lia. Qed.
#[export] Instance entry_le_trans : Transitive entry_le.
Proof. intros a b c. unfold entry_le. lia. Qed.

Definition demo_env : SystemEnv := {|
  std_pow := fun a b => (fl 1 + (a - fl 1) * b)%f64;
  sort_by_votes := merge_sort entry_le;
  seo_outside := fun _ => 0
|}.
Lemma demo_env_ok : SystemEnvOk demo_env.
Proof.
  split; intros l; cbn; [apply merge_sort_Permutation|]. intros Hl.
  assert (Hs : Forall (fun p => exists z, int53 z /\ yp_votes p = fl z) (merge_sort entry_le l)) by (by rewrite merge_sort_Permutation).
  pose proof (StronglySorted_merge_sort entry_le l) as Ho. induction Ho as [|a k _ IH Ha]; constructor; apply Forall_cons in Hs as [Hz Hs]; [by apply IH|].
  apply Forall_forall. intros b Hb. eapply Forall_forall in Ha; [|exact Hb]. eapply Forall_forall in Hs as (y & Hy & Ey); [|exact Hb].
  destruct Hz as (z & Hz & Ez). unfold entry_le, votes_of_entry in Ha. unfold more_votes. rewrite Ey, Ez in *. rewrite !fl_trunc in Ha by done.
  cbn in Ha. rewrite fl_lt by done. apply Z.ltb_ge. lia.
Qed.

Definition demo_others : other_contracts :=
  mkOthers {| get_supply := fun _ => Ok (core 100000000000000); get_balance := fun _ _ => Ok (core 1000000000) |} (fixed_lock 0) (fixed_deposit 0)
    {| is_miner_exist := fun _ => false; get_yta_price := 0; get_usd_price := 0; get_next_reward_slot := 2^32; get_next_build_slot := 2^32 |}.
Definition demo_params : blockchain_parameters :=
  mkParams 1048576 1000 524288 12 500 20 100 200000 1000 150000 100 3600 600 3888000 4096 4 6.
Definition demo_node : node :=
  mkNode (resources_init <| rl_limits := list_to_map (map (fun a => ((false, a), limits0)) [N "alice"; N "bob"]) |>) ∅ ∅ demo_params 10 None
    (mkSchedule 0 []) (mkSchedule 0 []) (mkSchedule 0 []).
Definition demo_ctx (actor : name) : ctx :=
  mkCtx (N "eosio") [(actor, N "active")] (fun a => (a =? N "alice") || (a =? N "bob")) 1600000000000000 0 0 (fun _ => true) (fun _ => true).
Definition demo_actions : list (system_action * ctx) :=
  [(SNewaccount (N "eosio") (N "alice"), demo_ctx (N "eosio"));
   (SNewaccount (N "eosio") (N "bob"), demo_ctx (N "eosio"));
   (SBuyram (N "alice") (N "alice") (core 10000000), demo_ctx (N "alice"));
   (SDelegatebw (N "alice") (N "alice") (core 500) (core 700) false, demo_ctx (N "alice"));
   (SDelegatebw (N "alice") (N "bob") (core 40) (core 0) false, demo_ctx (N "alice"));
   (SUndelegatebw (N "alice") (N "alice") (core 100) (core 200), demo_ctx (N "alice"));
   (SSellram (N "alice") 4000, demo_ctx (N "alice"));
   (SBidname (N "alice") (N "yta") (core 1000), demo_ctx (N "alice"));
   (SBidname (N "bob") (N "yta") (core 1200), demo_ctx (N "bob"))].
Definition demo_run : option (list action * system) :=
  run_actions (E := demo_env) demo_others (fun a s s' => bool_decide (solvent demo_others a s s')) demo_actions (system_init demo_node).

Lemma demo_history : history (E := demo_env) solvent (fst (default ([], system_init demo_node) demo_run)) (snd (default ([], system_init demo_node) demo_run)).
Proof.
  destruct demo_run as [[l s]|] eqn:Er; [|apply (h_start (E := demo_env))].
  apply (run_history (E := demo_env) demo_others _ solvent (fun a s s' => proj1 (bool_decide_eq_true _)) demo_actions [] (system_init demo_node));
    [apply h_start|exact Er].
Qed.

(** C6: Stakes, RAM and limits are booked.  Take any history of actions the contract accepts,
    with amounts in the width of their types, the amounts paid for RAM in the range of an
    asset, and RAM bought with core tokens.  Then the totals of an account are the sums of what
    is delegated to it, the stake a voter votes with is the sum of what that voter delegates,
    and the limits the node enforces are the totals; the RAM of all accounts adds up to the
    bytes reserved, and the market offers exactly the rest.  The contract does not check the
    symbol of what RAM is bought with, and for another one the claim is false
    ([buyram_takes_any_symbol]). *)
Theorem stakes_booked {E : SystemEnv} l s : history (fun _ a _ _ => core_paid a) l s -> books s /\ ram_books (loaded s).
Proof. by apply history_books. Qed.

Lemma stakes_booked_witness :
  (exists s l, history (E := demo_env) (fun _ a _ _ => core_paid a) l s /\ books s /\ ram_books (loaded s) /\
     net_of (userres s) (N "alice") = 400 /\ staked_of (staked <$> voters s) (N "alice") = 940 /\ ram_sum (userres s) = 6832907).
Proof.
  exists (snd (default ([], system_init demo_node) demo_run)), (fst (default ([], system_init demo_node) demo_run)).
  split; [exact (history_weaken (E := demo_env) solvent _ _ _ (fun _ _ _ _ H => proj1 H) demo_history)|]. destruct (stakes_booked (E := demo_env) _ _ (history_weaken (E := demo_env) solvent _ _ _ (fun _ _ _ _ H => proj1 H) demo_history)) as [B R].
  split; [exact B|]. split; [exact R|]. vm_compute. repeat split.
Defined.



(** [buyram] takes any asset the market knows: alice pays 10000 units of the market's own RAM
    symbol.  The action is accepted, asks eosio.token for a transfer of that asset, which
    brings no core tokens to eosio.ram, and books 9950 units as paid for RAM; the market then
    offers more RAM than is left. *)
Theorem buyram_takes_any_symbol : exists sent0 s0 sent s es,
  run_actions (E := demo_env) demo_others (fun _ _ _ => true) (take 2 demo_actions) (system_init demo_node) = Some (sent0, s0) /\
  run_actions (E := demo_env) demo_others (fun _ _ _ => true)
    (take 2 demo_actions ++ [(SBuyram (N "alice") (N "alice") (mkAsset 10000 RAM), demo_ctx (N "alice"))]) (system_init demo_node) = Some (sent, s) /\
  total_ram_stake (gstate s) = total_ram_stake (gstate s0) + 9950 /\ flow (N "eosio.ram") sent = flow (N "eosio.ram") sent0 /\
  rammarket s !! RAMCORE = Some es /\ i64 (max_ram_size (gstate s) - ram_sum (userres s)) < base_amount es.
Proof. eexists _, _, _, _, _. do 2 (split; [vm_compute; reflexivity|]). repeat (split; [vm_compute; reflexivity|]). vm_compute. reflexivity. Qed.
