(* ===== verification/SystemElect.v ===== *)
(** * eosio.system: the levels of producers

    The two levels the schedule is elected from always agree with the table of producers,
    hold no producer twice and stay within their bounds, whatever the actions; and since
    [regproxy] always fails, a vote is a plain vote. *)

From stdpp Require Import sorting.
From S2P Require Import Prelude Float64 Names Asset Chain Views Frame ResourceLimits HeaderState.
From S2P Require Import SystemTables SystemVoting SystemStake SystemPay EosioSystem SystemBooks SystemRam SystemFunds.
#[local] Open Scope Z_scope.

(** ** Levels *)

Definition levels (s : system) : list yta_prod_info := let st := default levels0 (prodslevel s) in prods_l1 st ++ prods_l2 st.

(** An entry of a level agrees with the producer's row. *)
Definition entry_ok (s : system) (e : yta_prod_info) : Prop :=
  is_Some (producersext s !! yp_owner e) /\
  exists info, producer_infos s !! yp_owner e = Some info /\ yp_votes e = total_votes info /\ yp_key e = pi_key info /\ yp_active e = pi_active info.

Record levels_ok (s : system) : Prop := mkLevelsOk {
  lo_l1 : (length (prods_l1 (default levels0 (prodslevel s))) <= LEVEL_ONE_MAX)%nat;
  lo_l2 : (length (prods_l2 (default levels0 (prodslevel s))) <= LEVEL_TWO_MAX)%nat;
  lo_unique : NoDup (map yp_owner (levels s));
  lo_entries : Forall (entry_ok s) (levels s);
  lo_active : map_Forall (fun _ info => pi_active info = true /\ pi_key info <> 0) (producer_infos s);
  lo_ext : forall p, is_Some (producersext s !! p) -> is_Some (producer_infos s !! p)
}.

(** What the levels depend on. *)
Definition polls (s : system) (o : out) := (producer_infos s, producersext s, prodslevel s).

Lemma levels_polls s s' o o' : polls s' o' = polls s o -> levels_ok s -> levels_ok s'.
Proof.
  unfold polls. intros [= E1 E2 E3] [L1 L2 L3 L4 L5 L6]. split; unfold levels in *; rewrite ?E1, ?E2, ?E3; try done.
  eapply Forall_impl; [exact L4|]. intros e. unfold entry_ok. by rewrite E1, E2.
Qed.

(** Changing the first entry of a name. *)
Lemma on_first_None p f l : on_first p f l = None <-> p ∉ map yp_owner l.
Proof.
  induction l as [|e l IH]; cbn; [split; [intros _; apply not_elem_of_nil|done]|]. rewrite not_elem_of_cons.
  destruct (Z.eqb_spec (yp_owner e) p) as [->|Hn]; [split; [done|by intros []]|].
  destruct (on_first p f l); cbn; [|split; [intros _; split; [done|by apply IH]|done]].
  split; [done|]. intros [_ H%IH]. done.
Qed.

Lemma on_first_Some p f l l' : on_first p f l = Some l' ->
  exists pre e post, l = pre ++ e :: post /\ l' = pre ++ f e ++ post /\ yp_owner e = p /\ p ∉ map yp_owner pre.
Proof.
  revert l'. induction l as [|e l IH]; intros l'; cbn; [done|]. destruct (Z.eqb_spec (yp_owner e) p) as [He|Hn].
  - intros [= <-]. exists [], e, l. repeat split; [done|apply not_elem_of_nil].
  - destruct (on_first p f l) as [l1|]; [|done]. cbn. intros [= <-]. destruct (IH _ eq_refl) as (pre & x & post & -> & -> & Hx & Hp).
    exists (e :: pre), x, post. repeat split; [done|]. cbn. apply not_elem_of_cons. by split.
Qed.

(** The search changes at most one entry, of that name; where the names are unique there is
    no other. *)
Lemma search_levels_spec p f c s o u s' o' : NoDup (map yp_owner (levels s)) -> search_levels p f c s o = Ok (u, s', o') ->
  o' = o /\ ((p ∉ map yp_owner (levels s)) /\ s' = s \/
  exists l pre e post, s' = s <| prodslevel := Some l |> /\ levels s = pre ++ e :: post /\ prods_l1 l ++ prods_l2 l = pre ++ f e ++ post /\
    yp_owner e = p /\ (p ∉ map yp_owner (pre ++ post)) /\
    ((length (f e) <= 1)%nat -> (length (prods_l1 l) <= length (prods_l1 (default levels0 (prodslevel s))))%nat /\
      (length (prods_l2 l) <= length (prods_l2 (default levels0 (prodslevel s))))%nat)).
Proof.
  intros Hnd H. unfold search_levels, levels in *. cbv zeta in *. apply bind_Ok in H as (st & s1 & o1 & (-> & -> & ->)%sget_Ok & H).
  destruct (prodslevel s) as [st|] eqn:Est; cbn [from_option id] in *; [|injection H as _ <- <-; split; [done|]; left; split; [apply not_elem_of_nil|done]].
  assert (Hun : forall pre e post, prods_l1 st ++ prods_l2 st = pre ++ e :: post -> yp_owner e = p -> p ∉ map yp_owner (pre ++ post)).
  { intros pre e post E He. rewrite E, map_app in Hnd. cbn in Hnd. rewrite He in Hnd. rewrite map_app.
    assert (Hp : p :: map yp_owner pre ++ map yp_owner post ≡ₚ map yp_owner pre ++ p :: map yp_owner post) by apply Permutation_middle.
    rewrite <- Hp in Hnd. by apply NoDup_cons in Hnd as [? _]. }
  destruct (on_first p f (prods_l1 st)) as [l1|] eqn:E1; [|destruct (on_first p f (prods_l2 st)) as [l2|] eqn:E2].
  - apply sset_Ok in H as (-> & ->). split; [done|]. right. apply on_first_Some in E1 as (pre & e & post & El & -> & He & _).
    exists (st <| prods_l1 := pre ++ f e ++ post |>), pre, e, (post ++ prods_l2 st). cbn. split; [done|]. split; [by rewrite El, <- app_assoc|].
    split; [by rewrite <- !app_assoc|]. split; [done|]. split; [apply (Hun _ e); [by rewrite El, <- app_assoc|done]|].
    rewrite El, !length_app. cbn. lia.
  - apply sset_Ok in H as (-> & ->). split; [done|]. right. apply on_first_Some in E2 as (pre & e & post & El & -> & He & _).
    exists (st <| prods_l2 := pre ++ f e ++ post |>), (prods_l1 st ++ pre), e, post. cbn. split; [done|]. split; [by rewrite El, <- app_assoc|].
    split; [by rewrite <- app_assoc|]. split; [done|]. split; [apply (Hun _ e); [by rewrite El, <- app_assoc|done]|].
    rewrite El, !length_app. cbn. lia.
  - injection H as _ <- <-. split; [done|]. left. split; [|done]. rewrite map_app, not_elem_of_app. split; by eapply on_first_None.
Qed.

(** ** Votes without proxies *)

Definition no_proxies (m : gmap name voter_info) : Prop := map_Forall (fun _ v => proxy v = 0 /\ is_proxy v = false) m.

(** The changes of votes of a plain vote. *)
Definition plain_deltas (v : voter_info) (w : f64) (prods : list name) : list (name * (f64 * bool)) :=
  let deltas := if f64_lt (fl 0) (last_vote_weight v) then take_back (last_vote_weight v) (voted v) [] else [] in
  if f64_le (fl 0) w then give w prods deltas else deltas.

Definition new_votes (nf : name) (prods : list name) : list name := if negb (nf =? 0) then erase_first nf prods else prods.

Lemma update_votes_plain {DV : DepositView} voter px prods voting c s o u s' o' : no_proxies (voters s) -> (voting = true \/ px = 0) ->
  update_votes voter px prods voting c s o = Ok (u, s', o') ->
  px = 0 /\ (length prods <= 1)%nat /\ exists v d s0 s1 nf,
    voters s !! voter = Some v /\ get_depositfree voter = Ok d /\
    (exists g, s0 = s <| gstate := g |>) /\
    apply_deltas voting (plain_deltas v (stake2vote (staked v) + fl (amount d))%f64 prods) 0 c s0 o = Ok (nf, s1, o') /\
    (exists v1, voters s1 !! voter = Some v1 /\
    s' = s1 <| voters := <[voter := v1 <| last_vote_weight := (stake2vote (staked v) + fl (amount d))%f64 |> <| voted := new_votes nf prods |> <| proxy := 0 |>]> (voters s1) |>).
Proof.
  intros Hnp Hpx H. unfold update_votes in H. apply bind_Ok in H as (? & s1 & o1 & H1 & H).
  assert (Hpx0 : s1 = s /\ (px = 0 -> (length prods <= 1)%nat /\ o1 = o)).
  { unfold check_votes in H1. destruct (Z.eqb_spec px 0); cbn [negb] in H1.
    - apply bind_Ok in H1 as (? & s2 & o2 & (Hl & -> & ->)%eosio_assert_Ok & H1). apply eosio_assert_Ok in H1 as (_ & -> & ->). split; [done|]. intros _. split; [|done]. by apply Nat.leb_le.
    - do 2 apply bind_Ok in H1 as (? & s2 & o2 & (_ & -> & ->)%eosio_assert_Ok & H1). apply require_recipient_Ok in H1 as (-> & _). done. }
  destruct Hpx0 as [-> Hpx0]. clear H1. apply bind_Ok in H as (v & s1 & o2 & (Hv & -> & ->)%get_Ok & H). destruct (Hnp _ _ Hv) as [Hp Hi].
  apply bind_Ok in H as (? & s1 & o2 & (_ & -> & ->)%eosio_assert_Ok & H). apply bind_Ok in H as (ct & s1 & o2 & (-> & -> & ->)%ask_Ok & H).
  apply bind_Ok in H as (? & s0 & o2 & H1 & H). assert (Hg : (exists g, s0 = s <| gstate := g |>) /\ o2 = o1).
  { unfold when in H1. destruct (f64_le _ _); [injection H1 as _ <- <-; split; [by eexists|done]|injection H1 as _ <- <-; split; [|done]; exists (gstate s); by destruct s]. }
  destruct Hg as [Hg ->]. clear H1. assert (Hs0 : voters s0 = voters s) by (by destruct Hg as [g ->]).
  apply bind_Ok in H as (w & s1 & o2 & (Hw & -> & ->)%lift_Ok & H). unfold vote_weight in Hw. rewrite Hi in Hw.
  apply res_bind_ok in Hw as (d & Hd & Hw). injection Hw as <-. rewrite Hp in H. cbn [negb Z.eqb] in H.
  apply bind_Ok in H as (d1 & s1 & o2 & H1 & H). assert (s1 = s0 /\ o2 = o1 /\ d1 = if f64_lt (fl 0) (last_vote_weight v) then take_back (last_vote_weight v) (voted v) [] else []) as (-> & -> & Hd1).
  { destruct (f64_lt _ _); injection H1 as <- <- <-; done. }
  clear H1. apply bind_Ok in H as (d2 & s1 & o2 & H1 & H). destruct (Z.eqb_spec px 0) as [->|Hpx1]; cbn [negb] in H1.
  - injection H1 as <- <- <-. destruct (Hpx0 eq_refl) as [Hl ->]. split; [done|]. split; [done|].
    apply bind_Ok in H as (nf & s1 & o2 & H1 & H). apply modify_Ok in H as (v1 & ? & Hv1 & [= <-] & -> & ->).
    exists v, d, s0, s1, nf. split; [done|]. split; [done|]. split; [done|]. unfold plain_deltas. rewrite <- Hd1. split; [done|]. exists v1. done.
  - exfalso. apply bind_Ok in H1 as (np & s2 & o3 & (Hnp' & -> & ->)%get_Ok & H1). apply bind_Ok in H1 as (? & s2 & o3 & (Hb & _ & _)%eosio_assert_Ok & H1).
    rewrite Hs0 in Hnp'. destruct (Hnp _ _ Hnp') as [_ Hi']. rewrite Hi' in Hb. destruct Hpx as [->|]; [done|congruence].
Qed.

(** The changes of votes touch no voter. *)
Lemma deltas_voters voting m : forall nf, within (kept (fun s _ => voters s)) (apply_deltas voting m nf).
Proof.
  assert (Hd : forall p d b nf, within (kept (fun s _ => voters s)) (apply_delta voting p d b nf)).
  { intros. unfold apply_delta, update_producers_yta_totalvotes, search_levels. sframe_with ltac:(reflexivity). }
  induction m as [|[p [d b]] m IH]; intros nf; cbn [apply_deltas]; [apply within_ret, _|]. apply within_bind; [apply _|apply Hd|apply IH].
Qed.

(** A change of the votes of one producer reaches its entry in the levels. *)
Definition with_votes (t : f64) (info : producer_info) : producer_info := info <| total_votes := t |>.

Lemma NoDup_same_owners (l l' : list yta_prod_info) : map yp_owner l = map yp_owner l' -> NoDup (map yp_owner l) -> NoDup (map yp_owner l').
Proof. by intros ->. Qed.

Lemma levels_update s s' p info info' f o : levels_ok s -> producer_infos s !! p = Some info ->
  pi_active info' = true -> pi_key info' <> 0 ->
  (forall e, entry_ok s e -> yp_owner e = p -> exists e', f e = [e'] /\ yp_owner e' = p /\
     yp_votes e' = total_votes info' /\ yp_key e' = pi_key info' /\ yp_active e' = pi_active info') ->
  forall c u o', search_levels p f c (s <| producer_infos := <[p := info']> (producer_infos s) |>) o = Ok (u, s', o') -> levels_ok s'.
Proof.
  intros [L1 L2 L3 L4 L5 L6] Hi Ha Hk Hf c u o' H. apply search_levels_spec in H as (_ & H); [|done].
  assert (Hact : map_Forall (fun _ info => pi_active info = true /\ pi_key info <> 0) (<[p := info']> (producer_infos s))) by (by apply map_Forall_insert_2).
  assert (Hext : forall q, is_Some (producersext s !! q) -> is_Some (<[p := info']> (producer_infos s) !! q)).
  { intros q Hq%L6. rewrite lookup_insert. case_decide; [by eexists|done]. }
  assert (Hent : forall e, entry_ok s e -> yp_owner e <> p -> entry_ok (s <| producer_infos := <[p := info']> (producer_infos s) |>) e).
  { intros e (He1 & i & Hi' & He2) Hne. split; [done|]. exists i. cbn. by rewrite lookup_insert_ne. }
  destruct H as [[Hnot ->]|(l & pre & e & post & -> & El & El' & He & Hnot & Hlen)].
  - split; try done. change (Forall (entry_ok (s <| producer_infos := <[p := info']> (producer_infos s) |>)) (levels s)).
    apply Forall_forall. intros e Hin. apply Hent; [by eapply Forall_forall in L4|]. intros <-. apply Hnot. by apply list_elem_of_fmap_2.
  - change (levels (s <| producer_infos := <[p := info']> (producer_infos s) |>)) with (levels s) in El. rewrite El in L3, L4.
    apply Forall_app in L4 as [L4a [L4e L4b]%Forall_cons].
    destruct (Hf e L4e He) as (e' & Ee & Ho & Hv & Hk' & Ha'). rewrite Ee in El'. cbn in El'.
    destruct Hlen as [Hl1 Hl2]; [by rewrite Ee|]. cbn in Hl1, Hl2. split; cbn; [lia|lia| | |done|done].
    + unfold levels. cbn. rewrite El', map_app. cbn. rewrite map_app in L3. cbn in L3. congruence.
    + unfold levels. cbn. rewrite El'. rewrite map_app, not_elem_of_app in Hnot. destruct Hnot as [N1 N2].
      assert (Hsub : forall x, entry_ok s x -> yp_owner x <> p -> entry_ok (s <| producer_infos := <[p := info']> (producer_infos s) |> <| prodslevel := Some l |>) x) by exact Hent.
      apply Forall_app. split; [|constructor].
      * apply Forall_forall. intros x Hx. apply Hsub; [by eapply Forall_forall in L4a|]. intros <-. apply N1. by apply list_elem_of_fmap_2.
      * split; [rewrite Ho, <- He; apply L4e|]. exists info'. rewrite Ho. cbn. by rewrite lookup_insert_eq.
      * apply Forall_forall. intros x Hx. apply Hsub; [by eapply Forall_forall in L4b|]. intros <-. apply N2. by apply list_elem_of_fmap_2.
Qed.

Lemma levels_gstate s g : levels_ok s -> levels_ok (s <| gstate := g |>).
Proof. by apply (levels_polls s _ no_out no_out). Qed.

(** A row that is in no level may change freely. *)
Lemma levels_row s p info : levels_ok s -> producersext s !! p = None -> pi_active info = true -> pi_key info <> 0 ->
  levels_ok (s <| producer_infos := <[p := info]> (producer_infos s) |>).
Proof.
  intros [L1 L2 L3 L4 L5 L6] Hp Ha Hk. split; try done; cbn.
  - change (levels (s <| producer_infos := <[p := info]> (producer_infos s) |>)) with (levels s). eapply Forall_impl; [exact L4|].
    intros e (He1 & i & Hi & He2). split; [done|]. exists i. cbn. rewrite lookup_insert_ne; [done|]. intros ->. rewrite Hp in He1. by destruct He1.
  - by apply map_Forall_insert_2.
  - intros q Hq%L6. rewrite lookup_insert. case_decide; [by eexists|done].
Qed.

Lemma apply_delta_levels voting p d b nf c s o nf' s' o' : levels_ok s ->
  apply_delta voting p d b nf c s o = Ok (nf', s', o') -> levels_ok s'.
Proof.
  intros L H. unfold apply_delta in H. apply bind_Ok in H as (pitr & s1 & o1 & (-> & -> & ->)%find_Ok & H).
  destruct (producer_infos s !! p) as [info|] eqn:Hi.
  - apply bind_Ok in H as ([t nf1] & s1 & o1 & H1 & H). apply bind_Ok in H1 as (? & s2 & o2 & (_ & -> & ->)%eosio_assert_Ok & H1). cbv zeta in H1.
    apply bind_Ok in H1 as (? & s2 & o2 & (i & ? & Hi' & [= <-] & -> & ->)%modify_Ok & H1). rewrite Hi in Hi'. injection Hi' as <-.
    apply bind_Ok in H1 as (? & s2 & o2 & [= _ <- <-] & H1). injection H1 as <- <- <- <-.
    set (t := if f64_lt _ _ then _ else _) in *. set (info' := info <| total_votes := t |>) in *.
    destruct (lo_active _ L _ _ Hi) as [Ha Hk]. apply bind_Ok in H as (ext & s2 & o2 & (-> & -> & ->)%find_Ok & H).
    apply bind_Ok in H as (? & s2 & o2 & H2 & [= _ <- <-]). cbn in H2. destruct (producersext s !! p) as [xr|] eqn:Hx.
    + unfold update_producers_yta_totalvotes in H2.
      match type of H2 with search_levels _ _ _ ?s0 _ = _ => set (s1 := s0) in * end.
      set (s0 := s <| gstate := gstate s1 |>).
      apply (levels_update s0 s2 p info info' (fun e => [e <| yp_votes := t |>]) o (levels_gstate s _ L) Hi Ha Hk) in H2; [done|].
      intros e (He1 & i & Hi2 & Hv & Hk' & Ha') <-. cbn in Hi2. replace i with info in * by congruence. exists (e <| yp_votes := t |>). done.
    + unfold when in H2. assert (Hs2 : exists g, s2 = s <| gstate := g |> <| producer_infos := <[p := info']> (producer_infos s) |>).
      { destruct voting; [apply eosio_assert_Ok in H2 as (_ & -> & _)|injection H2 as _ <- _]; by eexists. }
      destruct Hs2 as [g ->]. exact (levels_row (s <| gstate := g |>) p info' (levels_gstate s g L) Hx Ha Hk).
  - apply bind_Ok in H as ([t nf1] & s1 & o1 & H1 & H). assert (s1 = s) as ->.
    { unfold when in H1. destruct voting; [apply bind_Ok in H1 as (? & s2 & o2 & (_ & -> & _)%eosio_assert_Ok & H1)|]; by injection H1. }
    apply bind_Ok in H as (ext & s2 & o2 & (-> & -> & ->)%find_Ok & H). destruct (producersext s !! p) as [xr|] eqn:Hx.
    { destruct (lo_ext _ L p) as [? Hs]; [by eexists|congruence]. }
    apply bind_Ok in H as (? & s2 & o2 & H2 & [= _ <- <-]). unfold when in H2.
    destruct voting; [apply eosio_assert_Ok in H2 as (_ & -> & _)|injection H2 as _ <- _]; done.
Qed.

Lemma apply_deltas_levels voting m : forall nf c s o nf' s' o', levels_ok s -> apply_deltas voting m nf c s o = Ok (nf', s', o') -> levels_ok s'.
Proof.
  induction m as [|[p [d b]] m IH]; intros nf c s o nf' s' o' L H; cbn [apply_deltas] in H; [by injection H as _ <- _|].
  apply bind_Ok in H as (nf1 & s1 & o1 & H1%apply_delta_levels & H); [|done]. by eapply IH.
Qed.

(** ** Every action keeps the levels *)

(** The invariant: the levels agree with the tables, and nobody has or is a proxy. *)
Definition ballot (s : system) : Prop := levels_ok s /\ no_proxies (voters s).

Definition roll (s : system) (o : out) := (producer_infos s, producersext s, prodslevel s, voters s).

Lemma ballot_roll s s' o o' : roll s' o' = roll s o -> ballot s -> ballot s'.
Proof. unfold roll. intros [= E1 E2 E3 E4] [L P]. split; [|by rewrite E4]. apply (levels_polls s s' no_out no_out); [|done]. unfold polls. congruence. Qed.

Lemma update_votes_ballot {DV : DepositView} voter px prods voting c s o u s' o' : ballot s -> (voting = true \/ px = 0) ->
  update_votes voter px prods voting c s o = Ok (u, s', o') -> ballot s'.
Proof.
  intros [L P] Hpx H. apply update_votes_plain in H as (_ & _ & v & d & s0 & s1 & nf & Hv & _ & [g ->] & H & v1 & Hv1 & ->); [|done..].
  pose proof (deltas_voters _ _ _ _ _ _ _ _ _ H) as Hk. unfold kept in Hk. cbn in Hk. split.
  - apply apply_deltas_levels in H; [|by apply levels_gstate]. by apply (levels_polls s1 _ no_out no_out).
  - cbn. rewrite Hk in *. apply map_Forall_insert_2; [|done]. destruct (P _ _ Hv1). done.
Qed.

(** What the invariant reads of an entry. *)
Definition face (e : yta_prod_info) : name * f64 * Z * bool := (yp_owner e, yp_votes e, yp_key e, yp_active e).
Definition owner_of (f : name * f64 * Z * bool) : name := f.1.1.1.

Lemma owners_faces l : map yp_owner l = map owner_of (map face l).
Proof. by rewrite map_map. Qed.

Lemma entry_face s e e' : face e = face e' -> entry_ok s e -> entry_ok s e'.
Proof. unfold face, entry_ok. by intros [= <- <- <- <-]. Qed.

Lemma NoDup_thin {A} (l k : list A) : l ⊆+ k -> NoDup k -> NoDup l.
Proof. intros [x ->]%submseteq_Permutation Hk. by apply NoDup_app in Hk as [? _]. Qed.

(** Levels that lose entries, or change them where the invariant does not look. *)
Lemma levels_thin s st : levels_ok s -> map face (prods_l1 st ++ prods_l2 st) ⊆+ map face (levels s) ->
  (length (prods_l1 st) <= LEVEL_ONE_MAX)%nat -> (length (prods_l2 st) <= LEVEL_TWO_MAX)%nat ->
  levels_ok (s <| prodslevel := Some st |>).
Proof.
  intros [L1 L2 L3 L4 L5 L6] Hf H1 H2. split; try done.
  - change (levels (s <| prodslevel := Some st |>)) with (prods_l1 st ++ prods_l2 st). rewrite owners_faces. rewrite owners_faces in L3.
    eapply NoDup_thin; [|exact L3]. by apply fmap_submseteq.
  - change (levels (s <| prodslevel := Some st |>)) with (prods_l1 st ++ prods_l2 st). apply Forall_forall. intros e He.
    assert (Hin : face e ∈ map face (levels s)) by (eapply elem_of_submseteq; [|exact Hf]; by apply list_elem_of_fmap_2).
    apply list_elem_of_fmap in Hin as (e0 & He0 & Hin). apply (entry_face s e0); [done|]. by eapply Forall_forall in L4.
Qed.

(** Removing a name. *)
Lemma rm_spec p c s o u s' o' : NoDup (map yp_owner (levels s)) -> rm_producer_yta p c s o = Ok (u, s', o') ->
  (p ∉ map yp_owner (levels s')) /\ sublist (levels s') (levels s) /\ exists st, s' = s <| prodslevel := st |> /\
  (length (prods_l1 (default levels0 st)) <= length (prods_l1 (default levels0 (prodslevel s))))%nat /\
  (length (prods_l2 (default levels0 st)) <= length (prods_l2 (default levels0 (prodslevel s))))%nat.
Proof.
  intros Hnd H. apply search_levels_spec in H as (_ & [[Hp ->]|(l & pre & e & post & -> & El & El' & He & Hp & Hlen)]); [| |done].
  - split; [done|]. split; [done|]. exists (prodslevel s). by destruct s.
  - destruct (Hlen ltac:(cbn; lia)) as [H1 H2]. cbn in El'. unfold levels at 1 2. cbn. rewrite El', El. split; [done|]. split.
    + apply sublist_app; [done|by apply sublist_cons].
    + by exists (Some l).
Qed.

Lemma sublist_faces l k : sublist l k -> map face l ⊆+ map face k.
Proof. intros H. apply sublist_submseteq. by apply fmap_sublist. Qed.

Lemma rm_levels p c s o u s' o' : levels_ok s -> rm_producer_yta p c s o = Ok (u, s', o') -> levels_ok s' /\ (p ∉ map yp_owner (levels s')) /\
  producersext s' = producersext s.
Proof.
  intros L H. apply rm_spec in H as (Hp & Hs & st & -> & H1 & H2); [|apply L]. split; [|done]. destruct st as [st|].
  - pose proof (lo_l1 _ L). pose proof (lo_l2 _ L). apply levels_thin; [done|by apply sublist_faces|cbn in *; lia..].
  - destruct L as [L1 L2 L3 L4 L5 L6]. split; try done; cbn; unfold LEVEL_ONE_MAX, LEVEL_TWO_MAX; try lia; constructor.
Qed.

Lemma add_levels p lvl c s o u s' o' : levels_ok s -> (p ∉ map yp_owner (levels s)) -> is_Some (producersext s !! p) ->
  add_producer_yta p lvl c s o = Ok (u, s', o') -> levels_ok s'.
Proof.
  intros L Hp Hx H. unfold add_producer_yta in H. apply bind_Ok in H as (info & s1 & o1 & (Hi & -> & ->)%get_Ok & H). cbv zeta in H.
  apply bind_Ok in H as (st & s1 & o1 & (-> & -> & ->)%sget_Ok & H). set (st := default levels0 (prodslevel s)) in *.
  set (e := mkYtaProd p _ _ _ _ _ _) in *. pose proof L as [L1 L2 L3 L4 L5 L6].
  assert (He : entry_ok s e) by (split; [done|]; by exists info).
  assert (Hadd : forall st', prods_l1 st' ++ prods_l2 st' ≡ₚ e :: levels s -> (length (prods_l1 st') <= LEVEL_ONE_MAX)%nat ->
    (length (prods_l2 st') <= LEVEL_TWO_MAX)%nat -> levels_ok (s <| prodslevel := Some st' |>)).
  { intros st' Hst H1 H2. split; try done.
    - change (levels (s <| prodslevel := Some st' |>)) with (prods_l1 st' ++ prods_l2 st').
      rewrite (Permutation_map yp_owner Hst). cbn. by constructor.
    - change (levels (s <| prodslevel := Some st' |>)) with (prods_l1 st' ++ prods_l2 st').
      apply (Forall_Permutation (entry_ok s) (entry_ok s) ltac:(done) _ _ Hst). by constructor. }
  destruct (lvl =? 1); [|destruct (lvl =? 2)].
  - apply bind_Ok in H as (? & s1 & o1 & (Hl & -> & ->)%eosio_assert_Ok & H). apply sset_Ok in H as (-> & ->). apply Nat.ltb_lt in Hl.
    apply Hadd; cbn; [|rewrite length_app; cbn; lia|done]. unfold levels. cbv zeta. fold st. rewrite <- app_assoc. cbn. by rewrite <- Permutation_middle.
  - apply bind_Ok in H as (? & s1 & o1 & (Hl & -> & ->)%eosio_assert_Ok & H). apply sset_Ok in H as (-> & ->). apply Nat.ltb_lt in Hl.
    apply Hadd; cbn; [|done|rewrite length_app; cbn; lia]. unfold levels. cbv zeta. fold st. rewrite app_assoc. by rewrite <- Permutation_cons_append.
  - apply sset_Ok in H as (-> & ->). by apply levels_thin.
Qed.

Lemma delproducer_levels p c s o u s' o' : levels_ok s -> forall info, 
  delproducer p c (s <| producer_infos := <[p := info]> (producer_infos s) |>) o = Ok (u, s', o') -> levels_ok s'.
Proof.
  intros [L1 L2 L3 L4 L5 L6] info H. unfold delproducer in H. apply bind_Ok in H as (itp & s1 & o1 & (-> & -> & ->)%find_Ok & H).
  cbn in H. rewrite lookup_insert_eq in H. apply bind_Ok in H as (? & s1 & o1 & H1 & H).
  apply bind_Ok in H1 as (? & s2 & o2 & [= _ <- <-] & H1). apply bind_Ok in H1 as (? & s2 & o2 & [= _ <- <-] & H1).
  apply erase_Ok in H1 as (? & _ & -> & ->). apply bind_Ok in H as (itx & s2 & o2 & (-> & -> & ->)%find_Ok & H). cbn in H.
  assert (Hinf : delete p (<[p := info]> (producer_infos s)) = delete p (producer_infos s)) by apply delete_insert_eq.
  destruct (producersext s !! p) as [xr|] eqn:Hx.
  - apply bind_Ok in H as (? & s2 & o2 & [= _ <- <-] & H). apply bind_Ok in H as (? & s2 & o2 & (? & _ & -> & ->)%erase_Ok & H).
    apply rm_spec in H as (Hp & Hs & st & -> & H1 & H2); [|exact L3]. cbn in H1, H2. unfold levels in Hs. cbn in Hs. fold (levels s) in Hs.
    split; cbn; [lia|lia| | |rewrite Hinf; by apply map_Forall_delete|].
    + rewrite owners_faces. rewrite owners_faces in L3. eapply NoDup_thin; [|exact L3]. apply fmap_submseteq. by apply sublist_faces.
    + apply Forall_forall. intros e He. assert (He' : e ∈ levels s) by (by eapply elem_of_sublist). eapply Forall_forall in L4 as (Hx' & i & Hi & Ho); [|exact He'].
      assert (Hne : yp_owner e <> p) by (intros <-; apply Hp; by apply list_elem_of_fmap_2). split; cbn.
      * by rewrite lookup_delete_ne.
      * exists i. by rewrite Hinf, lookup_delete_ne.
    + intros q. rewrite Hinf. destruct (decide (q = p)) as [->|Hq]; [rewrite lookup_delete_eq; by intros []|]. rewrite !lookup_delete_ne by done. apply L6.
  - injection H as _ <- _. split; cbn; try done.
    + eapply Forall_impl; [exact L4|]. intros e (Hx' & i & Hi & Ho). split; [done|]. exists i. cbn. rewrite Hinf, lookup_delete_ne; [done|].
      intros ->. rewrite Hx in Hx'. by destruct Hx'.
    + rewrite Hinf. by apply map_Forall_delete.
    + intros q Hq. rewrite Hinf, lookup_delete_ne; [by apply L6|]. intros ->. rewrite Hx in Hq. by destruct Hq.
Qed.

Lemma rmvproducer_levels p c s o u s' o' : levels_ok s -> rmvproducer p c s o = Ok (u, s', o') -> levels_ok s'.
Proof.
  intros L H. unfold rmvproducer in H. apply bind_Ok in H as (? & s1 & o1 & (_ & -> & ->)%require_auth_Ok & H).
  apply bind_Ok in H as (pr & s1 & o1 & (-> & -> & ->)%find_Ok & H). apply bind_Ok in H as (? & s1 & o1 & (_ & -> & ->)%eosio_assert_Ok & H).
  apply bind_Ok in H as (? & s1 & o1 & (info & ? & _ & [= <-] & -> & ->)%modify_Ok & H). exact (delproducer_levels _ _ _ _ _ _ _ L _ H).
Qed.

Lemma regproducer_levels p key u_ loc c s o u s' o' : levels_ok s -> regproducer p key u_ loc c s o = Ok (u, s', o') -> levels_ok s'.
Proof.
  intros L H. unfold regproducer in H. apply bind_Ok in H as (? & s1 & o1 & (_ & -> & ->)%eosio_assert_Ok & H).
  apply bind_Ok in H as (? & s1 & o1 & (Hk & -> & ->)%eosio_assert_Ok & H). apply negb_true_iff, Z.eqb_neq in Hk.
  apply bind_Ok in H as (? & s1 & o1 & (_ & -> & ->)%require_auth_Ok & H). apply bind_Ok in H as (pr & s1 & o1 & (-> & -> & ->)%find_Ok & H).
  destruct (producer_infos s !! p) as [info|] eqn:Hi.
  - apply bind_Ok in H as (? & s1 & o1 & (info0 & ? & Hi' & [= <-] & -> & ->)%modify_Ok & H). rewrite Hi in Hi'. injection Hi' as <-.
    unfold change_producer_yta_info in H. cbn [negb] in H.
    match type of H with search_levels _ ?f _ (setf _ (<[_ := ?info']> _) _) _ = _ =>
      apply (levels_update s s' p info info' f o L Hi) in H; [done|done|done|] end.
    intros e (_ & i & Hi2 & Hv & _) <-. replace i with info in * by congruence. eexists. done.
  - apply emplace_Ok in H as (_ & -> & _). apply levels_row; [done| |done|done].
    destruct (producersext s !! p) eqn:Hx; [|done]. destruct (lo_ext _ L p) as [? ?]; [by eexists|congruence].
Qed.

Lemma seqproducer_levels p sh seq lvl c s o u s' o' : levels_ok s -> seqproducer p sh seq lvl c s o = Ok (u, s', o') -> levels_ok s'.
Proof.
  intros L H. unfold seqproducer in H. apply bind_Ok in H as (? & s1 & o1 & (_ & -> & ->)%require_auth_Ok & H).
  apply bind_Ok in H as (itp & s1 & o1 & (-> & -> & ->)%find_Ok & H). apply bind_Ok in H as (? & s1 & o1 & (Hi & -> & ->)%eosio_assert_Ok & H).
  apply bool_decide_eq_true in Hi. do 2 apply bind_Ok in H as (? & s1 & o1 & (_ & -> & ->)%eosio_assert_Ok & H).
  apply bind_Ok in H as (it & s1 & o1 & (-> & -> & ->)%find_Ok & H).
  assert (Hext : forall r, levels_ok (s <| producersext := <[p := r]> (producersext s) |>)).
  { intros r. destruct L as [L1 L2 L3 L4 L5 L6]. split; try done; cbn.
    - eapply Forall_impl; [exact L4|]. intros e (Hx' & Ho). split; [|done]. cbn. rewrite lookup_insert. case_decide; [by eexists|done].
    - intros q. rewrite lookup_insert. case_decide as Hq; [by subst|]. apply L6. }
  destruct (producersext s !! p) as [xr|] eqn:Hx.
  - apply bind_Ok in H as (? & s1 & o1 & (row & ? & _ & [= <-] & -> & ->)%modify_Ok & H).
    apply bind_Ok in H as (? & s1 & o1 & (L' & Hp & Ex)%rm_levels & H); [|apply Hext]. eapply add_levels; [exact L'|exact Hp| |exact H].
    rewrite Ex. cbn. rewrite lookup_insert_eq. by eexists.
  - apply bind_Ok in H as (? & s1 & o1 & (_ & -> & ->)%emplace_Ok & H). eapply add_levels; [apply Hext| |cbn; rewrite lookup_insert_eq; by eexists|exact H].
    change (p ∉ map yp_owner (levels s)). intros (e & -> & He)%list_elem_of_fmap. pose proof (proj1 (Forall_forall _ _) (lo_entries _ L) e He) as (Hx' & _).
    rewrite Hx in Hx'. by destruct Hx'.
Qed.

(** ** Promotion *)

Lemma level_pass_faces t ct l : forall l' b, level_pass t ct l = Ok (l', b) -> sublist (map face l') (map face l).
Proof.
  induction l as [|e l IH]; intros l' b H; cbn [level_pass] in H; [by injection H as <- _|].
  apply res_bind_ok in H as (v & _ & H). destruct (if v <? t then _ else _) as [[e' rm] ch] eqn:Ee.
  assert (Hf : face e' = face e) by (repeat case_match; by simplify_eq).
  apply res_bind_ok in H as ([l1 ch1] & H1 & H). destruct rm; injection H as <- _; cbn; [by apply sublist_cons, IH with ch1|].
  rewrite Hf. by apply sublist_skip, IH with ch1.
Qed.

Lemma promote_faces l2 : forall l1 kept changed l1' l2' b, promote l1 kept l2 changed = Ok (l1', l2', b) ->
  l1' ++ l2' ≡ₚ l1 ++ kept ++ l2 /\ ((length l1 <= LEVEL_ONE_MAX)%nat -> (length l1' <= LEVEL_ONE_MAX)%nat) /\ (length l2' <= length kept + length l2)%nat.
Proof.
  induction l2 as [|e l2 IH]; intros l1 kept changed l1' l2' b H; cbn [promote] in H; [injection H as <- <- _; rewrite app_nil_r; cbn; split; [done|]; split; [done|lia]|].
  apply res_bind_ok in H as (v & _ & H). destruct (_ <=? v); [destruct (Nat.ltb_spec (length l1) LEVEL_ONE_MAX) as [Hl|]|].
  - apply IH in H as (Hp & H1 & H2). rewrite length_app in H1. cbn in *. split; [|lia]. rewrite Hp, <- !app_assoc. cbn. f_equiv. by rewrite Permutation_middle.
  - injection H as <- <- _. split; [done|]. split; [done|]. by rewrite length_app.
  - apply IH in H as (Hp & H1 & H2). rewrite length_app in H2. cbn in *. split; [|lia]. by rewrite Hp, <- !app_assoc.
Qed.

Section promotion.
Context {E : SystemEnv} {EO : SystemEnvOk E}.

Lemma update_level_levels c s o u s' o' : levels_ok s -> update_producer_level c s o = Ok (u, s', o') -> levels_ok s'.
Proof.
  intros L H. unfold update_producer_level in H. apply bind_Ok in H as (st & s1 & o1 & (-> & -> & ->)%sget_Ok & H).
  destruct (prodslevel s) as [st|] eqn:Est; [|by injection H as _ <- _]. apply bind_Ok in H as (ct & s1 & o1 & (-> & -> & ->)%ask_Ok & H).
  apply bind_Ok in H as ([l1 b1] & s1 & o1 & (P1%level_pass_faces & -> & ->)%lift_Ok & H).
  apply bind_Ok in H as ([l2 b2] & s1 & o1 & (P2%level_pass_faces & -> & ->)%lift_Ok & H).
  apply bind_Ok in H as ([[l1' l2'] ch] & s1 & o1 & (Hpr & -> & ->)%lift_Ok & H).
  assert (Hlev : levels s = prods_l1 st ++ prods_l2 st) by (unfold levels; by rewrite Est).
  pose proof (lo_l1 _ L) as B1. pose proof (lo_l2 _ L) as B2. rewrite Est in B1, B2. cbn in B1, B2.
  pose proof (sublist_length _ _ P1) as S1. pose proof (sublist_length _ _ P2) as S2. rewrite !length_map in S1, S2.
  assert (Hl : l1' ++ l2' ≡ₚ l1 ++ l2 /\ (length l1' <= LEVEL_ONE_MAX)%nat /\ (length l2' <= LEVEL_TWO_MAX)%nat).
  { destruct (length l1 <? LEVEL_ONE_MAX)%nat.
    - apply promote_faces in Hpr as (Hp & H1 & H2). cbn in Hp, H2. rewrite sort_permutes in Hp. rewrite (Permutation_length (sort_permutes l2)) in H2.
      split; [done|]. lia.
    - injection Hpr as <- <- _. split; [done|]. lia. }
  destruct Hl as (Hl & H1 & H2). unfold when in H. destruct ch; [|by injection H as _ <- _]. apply sset_Ok in H as (-> & _).
  apply levels_thin; [done| |done|done]. cbn. rewrite (Permutation_map face Hl), Hlev, !map_app. by apply submseteq_app; apply sublist_submseteq.
Qed.
End promotion.

(** ** All actions *)

(** The actions that deal with producers or votes. *)
Definition polling (a : system_action) : bool :=
  match a with
  | SRmvproducer _ | SDelegatebw _ _ _ _ _ | SUndelegatebw _ _ _ _ | SRegproducer _ _ _ _ | SVoteproducer _ _ _ | SChangevotes _
  | SSeqproducer _ _ _ _ | SReprodlevel => true
  | _ => false
  end.

Ltac rframe := sframe_with ltac:(solve [reflexivity | unfold kept, roll; cbn; repeat case_match; reflexivity]).

Section frames.
Context {E : SystemEnv}.

Lemma roll_on_node {A} (f : ctx -> node -> res (A * node)) : within (kept roll) (on_node f).
Proof. apply within_on_node. by intros. Qed.

Lemma roll_pay memo bp kp vb tp w l : forall p, within (kept roll) (pay_level memo bp kp vb tp w l p).
Proof. induction l as [|it l IH]; intros p; cbn [pay_level]; [apply within_ret, _|]. rframe. Qed.

Lemma roll_buyram payer receiver q : within (kept roll) (buyram payer receiver q).
Proof. unfold buyram, check_yta_account, inline_transfer, limits_of_row. rframe; apply roll_on_node. Qed.

Lemma roll_other v a : polling a = false -> within (kept roll) (system_handler v a).
Proof.
  intros Ha. destruct a; try done; cbn [system_handler];
    unfold EosioSystem.newaccount, check_new_name, setram, setparams, set_blockchain_parameters, setpriv, set_privileged, bidname, inline_transfer, buyrambytes, sellram, check_yta_account,
      limits_of_row, refund, unregprod, regproxy, setautosche, onblock, update_elected_producers_yta, close_auction, claimrewards, startreward,
      rewardprods, fill_buckets, pay_producers, set_resource_limits, set_proposed_producers; rframe;
    try (apply roll_on_node || apply roll_buyram || apply roll_pay).
Qed.

Lemma roll_move source from receiver net cpu tr : within (kept roll) (move_stake source from receiver net cpu tr).
Proof. unfold move_stake, change_refund, send_deferred_replace, inline_transfer, assert_le. rframe. Qed.
Lemma roll_delband from receiver net cpu : within (kept roll) (change_delband from receiver net cpu).
Proof. unfold change_delband, assert_le. rframe. Qed.
Lemma roll_totals receiver net cpu : within (kept roll) (change_totals receiver net cpu).
Proof. unfold change_totals, assert_le, set_resource_limits. rframe. Qed.
End frames.

Section actions.
Context {E : SystemEnv} {EO : SystemEnvOk E}.

Lemma change_voter_ballot {DV : DepositView} from total c s o u s' o' : ballot s -> change_voter from total c s o = Ok (u, s', o') -> ballot s'.
Proof.
  intros [L P] H. unfold change_voter in H. apply bind_Ok in H as (fv & s1 & o1 & (-> & -> & ->)%find_Ok & H).
  apply bind_Ok in H as (? & s1 & o1 & H1 & H). assert (B1 : ballot s1 /\ exists v, voters s1 !! from = Some v /\ proxy v = 0).
  { destruct (voters s !! from) as [v|] eqn:Hv.
    - apply modify_Ok in H1 as (v0 & ? & Hv0 & [= <-] & -> & ->). destruct (P _ _ Hv0) as [P1 P2].
      split; [|exists (v0 <| staked := i64 (staked v0 + amount total) |>); cbn; by rewrite lookup_insert_eq].
      split; [by apply (levels_polls s _ no_out no_out)|]. by apply map_Forall_insert_2.
    - apply emplace_Ok in H1 as (_ & -> & ->).
      split; [|exists (voter0 <| staked := amount total |>); cbn; by rewrite lookup_insert_eq].
      split; [by apply (levels_polls s _ no_out no_out)|]. by apply map_Forall_insert_2. }
  destruct B1 as (B1 & v1 & Hv1 & Hp). apply bind_Ok in H as (v & s2 & o2 & (Hv & -> & ->)%get_Ok & H).
  apply bind_Ok in H as (? & s2 & o2 & (_ & -> & ->)%eosio_assert_Ok & H). replace v with v1 in * by congruence.
  unfold when in H. destruct (negb _ || _); [|by injection H as _ <- _]. by eapply update_votes_ballot; [|right|].
Qed.

(** The rest of [changebw] leaves producers and voters alone. *)
Lemma changebw_voter {DV : DepositView} from receiver net cpu tr c s o u s' o' : changebw from receiver net cpu tr c s o = Ok (u, s', o') ->
  exists s1 o1 fr t, roll s1 o1 = roll s o /\ change_voter fr t c s1 o1 = Ok (u, s', o').
Proof.
  intros H. unfold changebw in H. apply bind_Ok in H as (? & s1 & o1 & (_ & -> & ->)%require_auth_Ok & H).
  apply bind_Ok in H as (z & s1 & o1 & (_ & -> & ->)%lift_Ok & H). apply bind_Ok in H as (? & s1 & o1 & (_ & -> & ->)%eosio_assert_Ok & H).
  apply bind_Ok in H as (t & s1 & o1 & (_ & -> & ->)%lift_Ok & H). apply bind_Ok in H as (? & s1 & o1 & (_ & -> & ->)%eosio_assert_Ok & H).
  apply bind_Ok in H as (? & s1 & o1 & H1 & H). assert (s1 = s /\ o1 = o) as [-> ->].
  { unfold check_yta_account, when in H1. destruct (_ || _); [by apply eosio_assert_Ok in H1 as [? _]|by injection H1]. }
  clear H1. cbv zeta in H. apply bind_Ok in H as (? & s1 & o1 & H1%roll_delband & H). apply bind_Ok in H as (? & s2 & o2 & H2%roll_totals & H).
  apply bind_Ok in H as (? & s3 & o3 & H3 & H). assert (K3 : kept roll (s2, o2) (s3, o3)).
  { unfold when in H3. destruct (negb _); [by eapply roll_move|by injection H3 as _ <- <-]. }
  apply bind_Ok in H as (t2 & s4 & o4 & (_ & -> & ->)%lift_Ok & H). exists s3, o3. eexists _, t2. split; [|exact H]. unfold kept in *. cbn in *. congruence.
Qed.

Lemma changebw_ballot {DV : DepositView} from receiver net cpu tr c s o u s' o' : ballot s -> changebw from receiver net cpu tr c s o = Ok (u, s', o') -> ballot s'.
Proof.
  intros B H. apply changebw_voter in H as (s1 & o1 & fr & t & Hr & H). eapply change_voter_ballot; [by apply (ballot_roll _ _ _ _ Hr)|exact H].
Qed.

(** Deciding about producers touches no voter. *)
Definition administers (a : system_action) : bool :=
  match a with SRmvproducer _ | SRegproducer _ _ _ _ | SSeqproducer _ _ _ _ | SReprodlevel => true | _ => false end.

Lemma voters_administers v a : administers a = true -> within (kept (fun s _ => voters s)) (system_handler v a).
Proof.
  intros Ha. destruct a; try done; cbn [system_handler];
    unfold rmvproducer, regproducer, seqproducer, reprodlevel, update_producer_level, change_producer_yta_info, delproducer, add_producer_yta, rm_producer_yta, search_levels;
    sframe_with ltac:(reflexivity).
Qed.

Lemma administers_levels v a c s o u s' o' : administers a = true -> levels_ok s -> system_handler v a c s o = Ok (u, s', o') -> levels_ok s'.
Proof.
  intros Ha L H. destruct a; try done; cbn [system_handler] in H.
  - by eapply rmvproducer_levels.
  - by eapply regproducer_levels.
  - by eapply seqproducer_levels.
  - unfold reprodlevel in H. apply bind_Ok in H as (? & s1 & o1 & (_ & -> & ->)%require_auth_Ok & H).
    apply bind_Ok in H as (g & s1 & o1 & (-> & -> & ->)%gets_Ok & H). destruct (_ =? 0); [by injection H as _ <- _|]. by eapply update_level_levels.
Qed.

Lemma changevotes_ballot {DV : DepositView} voter c s o u s' o' : ballot s -> changevotes voter c s o = Ok (u, s', o') -> ballot s'.
Proof.
  intros B H. unfold changevotes in H. apply bind_Ok in H as (? & s1 & o1 & (_ & -> & ->)%require_auth_Ok & H).
  apply bind_Ok in H as (fv & s1 & o1 & (-> & -> & ->)%find_Ok & H). destruct (voters s !! voter) as [v|] eqn:Hv; [|by injection H as _ <- _].
  unfold when in H. destruct (_ || _); [|by injection H as _ <- _]. eapply update_votes_ballot; [done| |exact H]. right. by apply (proj2 B _ _ Hv).
Qed.

Lemma handler_ballot v a c s o u s' o' : ballot s -> args_ok a -> system_handler v a c s o = Ok (u, s', o') -> ballot s'.
Proof.
  intros B Ha H. destruct (administers a) eqn:Em.
  { pose proof (voters_administers v a Em _ _ _ _ _ _ H) as Hv. unfold kept in Hv. cbn in Hv. destruct B as [L P].
    split; [by eapply administers_levels|by rewrite Hv]. }
  destruct (polling a) eqn:Ep; [|apply roll_other in H; [by apply (ballot_roll _ _ _ _ H)|done]].
  destruct a; try done; cbn [system_handler args_ok] in *.
  - destruct Ha. apply delegatebw_changes in H as [_ H]; [|done..]. by eapply changebw_ballot.
  - destruct Ha. apply undelegatebw_changes in H as [_ H]; [|done..]. by eapply changebw_ballot.
  - unfold voteproducer in H. apply bind_Ok in H as (? & s1 & o1 & (_ & -> & ->)%require_auth_Ok & H). by eapply update_votes_ballot; [|left|].
  - by eapply changevotes_ballot.
Qed.

Lemma apply_ballot v a c s o u s' o' : ballot s -> args_ok a -> system_apply v a c s o = Ok (u, s', o') -> ballot s'.
Proof.
  intros B Ha H. unfold system_apply, in_system in H. cbv zeta in H. apply bind_Ok in H as (? & s1 & o1 & H1 & H).
  apply ctor_spec in H1 as (-> & m & -> & _). apply bind_Ok in H as (? & s2 & o2 & H2 & H). apply dtor_spec in H as (-> & ->).
  apply handler_ballot in H2; [|by apply (ballot_roll s _ no_out no_out)|done]. by apply (ballot_roll s2 _ no_out no_out).
Qed.

Lemma history_ballot ok l s : history ok l s -> ballot s.
Proof.
  induction 1 as [n|l s v a c d u s' o' _ B Ha H _|l s n _ B Hn].
  - split; [|apply map_Forall_empty]. split; cbn; unfold LEVEL_ONE_MAX, LEVEL_TWO_MAX;
      [lia|lia|apply NoDup_nil_2|by apply Forall_nil|apply map_Forall_empty|]. intros p [? Hp]. by rewrite lookup_empty in Hp.
  - by eapply apply_ballot.
  - by apply (ballot_roll s _ no_out no_out).
Qed.
End actions.
