(* ===== verification/SystemTally.v ===== *)
(** * eosio.system: the tally of votes

    The votes of a producer are the last weights of the voters who list it, in exact
    integers as long as all weights together stay below 2^53, the precision of a double.
    A producer that was removed and registered again starts from zero, so that its old
    voters no longer count: the tally is then only an upper bound. *)

From stdpp Require Import sorting.
From S2P Require Import Prelude Float64 Names Asset Chain Views Frame ResourceLimits HeaderState.
From S2P Require Import SystemTables SystemVoting SystemStake SystemPay EosioSystem SystemBooks SystemRam SystemFunds SystemElect.
#[local] Open Scope Z_scope.

(** ** Weights *)

Definition votes_of (v : voter_info) : Z := ok_or 0 (f64_trunc_i64s (last_vote_weight v)).

(** The votes given to a producer. *)
Definition given (p : name) (m : gmap name voter_info) : Z :=
  map_sum (fun _ v => if bool_decide (p ∈ voted v) then votes_of v else 0) m.

Definition all_votes (m : gmap name voter_info) : Z := map_sum (fun _ v => votes_of v) m.

Definition voter_ok (v : voter_info) : Prop :=
  (exists w, 0 <= w < 2^53 /\ last_vote_weight v = fl w) /\ (length (voted v) <= 1)%nat.

Lemma voter_votes v w : 0 <= w < 2^53 -> last_vote_weight v = fl w -> votes_of v = w.
Proof. intros Hw E. unfold votes_of. rewrite E, fl_trunc by (unfold int53; lia). done. Qed.

Lemma votes_nonneg (m : gmap name voter_info) k v : map_Forall (fun _ => voter_ok) m -> m !! k = Some v -> 0 <= votes_of v.
Proof. intros Hm Hv. destruct (Hm _ _ Hv) as [(w & Hw & E) _]. rewrite (voter_votes v w) by done. lia. Qed.

Lemma given_bounds p (m : gmap name voter_info) : map_Forall (fun _ => voter_ok) m -> 0 <= given p m <= all_votes m.
Proof.
  intros Hm. split; [apply map_sum_nonneg|apply map_sum_le]; intros k v Hv; pose proof (votes_nonneg m k v Hm Hv); case_bool_decide; lia.
Qed.

(** ** One vote *)

(** The change of the votes of [p] when a voter moves from [l], with weight [w], to [l'], with [w']. *)
Definition vote_change (l : list name) (w : Z) (l' : list name) (w' : Z) (p : name) : Z :=
  (if bool_decide (p ∈ l') then w' else 0) - (if bool_decide (p ∈ l) then w else 0).

Definition delta_of (l : list name) (w : Z) (l' : list name) (w' : Z) (p : name) : name * (f64 * bool) :=
  (p, (fl (vote_change l w l' w' p), bool_decide (p ∈ l'))).

Lemma listed_nil (p : name) : bool_decide (p ∈ []) = false.
Proof. apply bool_decide_false, not_elem_of_nil. Qed.
Lemma listed_one (p q : name) : bool_decide (p ∈ [q]) = (p =? q).
Proof. destruct (Z.eqb_spec p q) as [->|Hn]; [apply bool_decide_true|apply bool_decide_false]; rewrite list_elem_of_singleton; done. Qed.

Lemma delta_is l w l' w' p z b : vote_change l w l' w' p = z -> bool_decide (p ∈ l') = b -> (p, (fl z, b)) = delta_of l w l' w' p.
Proof. by intros <- <-. Qed.

(** Votes for at most one producer, by cases on the names. *)
Ltac voting :=
  unfold vote_change; rewrite ?listed_nil, ?listed_one;
  repeat match goal with |- context [?a =? ?b] => destruct (Z.eqb_spec a b); subst end; (lia || done).
Ltac keys ks :=
  exists ks; split; [cbn [map]; repeat (apply f_equal2; [apply delta_is; voting|]); reflexivity|];
  split; [repeat first [apply NoDup_nil_2|apply NoDup_cons_2; [rewrite ?not_elem_of_cons; repeat split; (apply not_elem_of_nil || lia)|]]|];
  split; [set_solver|intros r Hr; rewrite ?not_elem_of_cons in Hr; voting].

Lemma plain_deltas_spec v w w' prods : 0 <= w < 2^53 -> 0 <= w' < 2^53 -> last_vote_weight v = fl w ->
  (length (voted v) <= 1)%nat -> (length prods <= 1)%nat ->
  exists ks, plain_deltas v (fl w') prods = map (delta_of (voted v) w prods w') ks /\ NoDup ks /\
    (forall p, p ∈ prods -> p ∈ ks) /\ (forall p, p ∉ ks -> vote_change (voted v) w prods w' p = 0).
Proof.
  intros Hw Hw' Ew Hl Hl'. unfold plain_deltas. rewrite Ew, fl_gt_0, fl_ge_0 by (unfold int53; lia).
  rewrite (proj2 (Z.leb_le 0 w')) by lia.
  assert (H0 : (fl 0 - fl w)%f64 = fl (- w)) by (rewrite fl_sub; [done|unfold int53; lia..]).
  assert (H1 : (fl 0 + fl w')%f64 = fl w') by (rewrite fl_add; [done|unfold int53; lia..]).
  assert (H2 : (fl (- w) + fl w')%f64 = fl (w' - w)) by (rewrite fl_add; [f_equal; lia|unfold int53; lia..]).
  destruct (voted v) as [|p [|]], prods as [|q [|]]; cbn in Hl, Hl'; try lia.
  - destruct (0 <? w); keys ([] : list name).
  - assert (give (fl w') [q] [] = [(q, (fl w', true))]) as E1 by (cbn; by rewrite H1).
    destruct (0 <? w); cbn [take_back foldl]; rewrite E1; keys [q].
  - assert (take_back (fl w) [p] [] = [(p, (fl (- w), false))]) as E1 by (cbn; by rewrite H0).
    destruct (Z.ltb_spec 0 w); [rewrite E1; cbn [give foldl]; keys [p]|cbn [give foldl]; keys ([] : list name)].
  - assert (take_back (fl w) [p] [] = [(p, (fl (- w), false))]) as E1 by (cbn; by rewrite H0).
    destruct (Z.ltb_spec 0 w); [rewrite E1|]; cbn [give foldl delta_upd fst snd]; rewrite ?H1, ?H2; [|keys [q]].
    destruct (Z.ltb_spec q p); [keys [q; p]|]. destruct (Z.eqb_spec q p) as [->|]; [keys [p]|keys [p; q]].
Qed.

(** Floating point arithmetics "can give small negative numbers"; the code takes zero then. *)
Definition clip (t : f64) : f64 := if f64_lt t (fl 0) then fl 0 else t.

Lemma clip_fl z : int53 z -> clip (fl z) = fl (Z.max 0 z).
Proof. intros Hz. unfold clip. rewrite fl_lt_0 by done. destruct (Z.ltb_spec z 0); f_equal; lia. Qed.

Definition add_votes (d : f64) (info : producer_info) : producer_info := info <| total_votes := clip (total_votes info + d)%f64 |>.

Lemma infos_search p f : within (kept (fun s _ => producer_infos s)) (search_levels p f).
Proof. unfold search_levels. sframe_with ltac:(reflexivity). Qed.

Lemma apply_delta_infos voting p d b nf c s o nf' s' o' : apply_delta voting p d b nf c s o = Ok (nf', s', o') ->
  producer_infos s' = alter (add_votes d) p (producer_infos s) /\ nf' = match producer_infos s !! p with Some _ => nf | None => p end /\
  (voting = true -> b = true -> is_Some (producer_infos s !! p)).
Proof.
  intros H. unfold apply_delta in H. apply bind_Ok in H as (pitr & s1 & o1 & (-> & -> & ->)%find_Ok & H).
  apply bind_Ok in H as ([t nf1] & s1 & o1 & H1 & H).
  assert (Hi : producer_infos s1 = alter (add_votes d) p (producer_infos s) /\ nf1 = match producer_infos s !! p with Some _ => nf | None => p end /\
    (voting = true -> b = true -> is_Some (producer_infos s !! p))).
  { clear H. destruct (producer_infos s !! p) as [info|] eqn:Hp.
    - apply bind_Ok in H1 as (? & s2 & o2 & (_ & -> & ->)%eosio_assert_Ok & H1). cbv zeta in H1.
      apply bind_Ok in H1 as (? & s2 & o2 & (i & ? & Hi & [= <-] & -> & ->)%modify_Ok & H1). rewrite Hp in Hi. injection Hi as <-.
      apply bind_Ok in H1 as (? & s2 & o2 & [= _ <- <-] & H1). injection H1 as _ <- <- _. cbn. split; [|by split; [|eexists]].
      apply map_eq. intros q. rewrite lookup_alter, lookup_insert. case_decide as Hq; [subst q; by rewrite Hp|done].
    - assert (alter (add_votes d) p (producer_infos s) = producer_infos s) as -> by (by apply alter_id; intros ? ?; congruence).
      destruct voting; cbn [when] in H1; [apply bind_Ok in H1 as (? & s2 & o2 & (Hb & -> & ->)%eosio_assert_Ok & H1)|];
        injection H1 as _ <- <- _; (split; [done|split; [done|]]); [by destruct b|done]. }
  destruct Hi as (Hi & -> & Hn). rewrite <- Hi. apply bind_Ok in H as (ext & s2 & o2 & (-> & -> & ->)%find_Ok & H).
  apply bind_Ok in H as (? & s2 & o2 & H2 & [= <- <- _]). split; [|done].
  destruct (producersext s1 !! p); [by apply infos_search in H2|].
  unfold when in H2. destruct voting; [by apply eosio_assert_Ok in H2 as (_ & -> & _)|by injection H2 as _ <- _].
Qed.

Section deltas.
Context (l : list name) (w : Z) (l' : list name) (w' : Z).

Lemma apply_deltas_infos voting ks : forall nf c s o nf' s' o', NoDup ks ->
  apply_deltas voting (map (delta_of l w l' w') ks) nf c s o = Ok (nf', s', o') ->
  (forall p, producer_infos s' !! p = (if bool_decide (p ∈ ks) then add_votes (fl (vote_change l w l' w' p)) else id) <$> producer_infos s !! p) /\
  (nf' = nf \/ producer_infos s !! nf' = None).
Proof.
  induction ks as [|k ks IH]; intros nf c s o nf' s' o' Hnd H; cbn [map apply_deltas] in H.
  - injection H as <- <- _. split; [|by left]. intros p. rewrite bool_decide_false by apply not_elem_of_nil. by destruct (producer_infos s !! p).
  - apply NoDup_cons in Hnd as [Hk Hnd]. unfold delta_of at 1 in H. apply bind_Ok in H as (nf1 & s1 & o1 & (Hi & -> & _)%apply_delta_infos & H).
    apply IH in H as (Hs & Hnf); [|done]. split.
    + intros p. rewrite Hs, Hi, lookup_alter. destruct (decide (p = k)) as [->|Hp].
      * rewrite decide_True by done. rewrite bool_decide_false by done. rewrite bool_decide_true by set_solver. by destruct (producer_infos s !! k).
      * rewrite decide_False by done. do 2 case_bool_decide; set_solver.
    + rewrite Hi, lookup_alter in Hnf. destruct Hnf as [->|Hnf].
      * destruct (producer_infos s !! k) eqn:Ek; [by left|by right].
      * right. case_decide as Hd; [subst; by destruct (producer_infos s !! nf')|done].
Qed.
End deltas.

(** ** The tally

    [R] relates the votes of a producer to what its voters gave: it is equality, or at most
    as many. *)

Class TallyRel (R : Z -> Z -> Prop) : Prop := {
  tally_le x g : R x g -> x <= g;
  tally_add x g d : R x g -> 0 <= g + d -> R (Z.max 0 (x + d)) (g + d)
}.
#[export] Instance tally_eq : TallyRel eq.
Proof. split; lia. Qed.
#[export] Instance tally_at_most : TallyRel Z.le.
Proof. split; lia. Qed.

Record tally (R : Z -> Z -> Prop) (s : system) : Prop := mkTally {
  ta_voters : map_Forall (fun _ => voter_ok) (voters s);
  ta_total : all_votes (voters s) < 2^53;
  ta_votes : forall p info, producer_infos s !! p = Some info -> exists x, total_votes info = fl x /\ 0 <= x /\ R x (given p (voters s))
}.

Section tally.
Context (R : Z -> Z -> Prop) {HR : TallyRel R}.

Lemma listed_new_votes nf prods p : nf = 0 \/ p <> nf -> bool_decide (p ∈ new_votes nf prods) = bool_decide (p ∈ prods).
Proof.
  intros Hp. apply bool_decide_ext. unfold new_votes. destruct (Z.eqb_spec nf 0) as [->|]; cbn [negb]; [done|]. destruct Hp as [|Hp]; [done|].
  induction prods as [|q prods IH]; cbn; [done|]. destruct (Z.eqb_spec q nf) as [->|]; set_solver.
Qed.

Lemma length_new_votes nf prods : (length (new_votes nf prods) <= length prods)%nat.
Proof.
  unfold new_votes. destruct (negb (nf =? 0)); [|done]. induction prods as [|q prods IH]; cbn; [done|]. destruct (q =? nf); cbn; lia.
Qed.

(** The vote of one voter. *)
Lemma vote_tally {DV : DepositView} voter px prods voting c s o u s' o' : tally R s -> no_proxies (voters s) -> (voting = true \/ px = 0) ->
  (forall d, get_depositfree voter = Ok d -> 0 <= amount d < 2^52) -> map_Forall (fun _ v => 0 <= staked v < 2^52) (voters s) ->
  all_votes (voters s') < 2^53 ->
  update_votes voter px prods voting c s o = Ok (u, s', o') -> tally R s'.
Proof.
  intros [T1 T2 T3] Hnp Hpx Hdep Hst Htot H. apply update_votes_plain in H as (_ & Hl & v & d & s0 & s1 & nf & Hv & Hd & [g ->] & H & v1 & Hv1 & ->); [|done..].
  pose proof (deltas_voters _ _ _ _ _ _ _ _ _ H) as Hk. unfold kept in Hk. cbn in Hk. rewrite Hk in *. replace v1 with v in * by congruence. clear v1 Hv1.
  destruct (T1 _ _ Hv) as [(w & Hw & Ew) Hlv]. specialize (Hdep d Hd). pose proof (Hst _ _ Hv) as Hs. cbn in Hs.
  unfold stake2vote in *. rewrite fl_add in * by (unfold int53; lia). set (w' := staked v + amount d) in *. assert (Hw' : 0 <= w' < 2^53) by lia.
  destruct (plain_deltas_spec v w w' prods) as (ks & Ek & Hnd & Hin & Hout); [done..|]. rewrite Ek in H.
  apply apply_deltas_infos in H as (Hi & Hnf); [|done]. cbn in Hi, Hnf. set (v' := v <| last_vote_weight := fl w' |> <| voted := new_votes nf prods |> <| proxy := 0 |>) in *.
  assert (Hok : map_Forall (fun _ => voter_ok) (<[voter := v']> (voters s))).
  { apply map_Forall_insert_2; [|done]. split; [by exists w'|]. cbn. pose proof (length_new_votes nf prods). lia. }
  cbn in Htot. split; cbn; rewrite ?Hk; [done|done|].
  intros p info' Hp. rewrite Hi in Hp. destruct (producer_infos s !! p) as [info|] eqn:Ep; [|by destruct (bool_decide _)].
  destruct (T3 _ _ Ep) as (x & Ex & Hx & HRx). pose proof (tally_le _ _ HRx) as Hxg.
  assert (Hg : given p (<[voter := v']> (voters s)) = given p (voters s) + vote_change (voted v) w prods w' p).
  { unfold given. rewrite (map_sum_insert _ _ _ v) by done. unfold vote_change. cbn.
    rewrite (voter_votes v w), (voter_votes v' w'), listed_new_votes by (done || (destruct Hnf as [|Hnf]; [by left|right; congruence])). lia. }
  pose proof (given_bounds p _ T1) as G. pose proof (given_bounds p _ Hok) as G'. rewrite Hg in G'. exists (Z.max 0 (x + vote_change (voted v) w prods w' p)).
  rewrite Hg. split; [|split; [lia|apply tally_add; [done|lia]]]. injection Hp as <-. case_bool_decide as Hk'.
  - cbn. rewrite Ex. assert (- 2^53 < vote_change (voted v) w prods w' p < 2^53) by (unfold vote_change; repeat case_bool_decide; lia).
    rewrite fl_add, clip_fl by (unfold int53; lia). done.
  - cbn. rewrite (Hout p Hk'), Ex. f_equal. lia.
Qed.
End tally.

(** ** All actions *)

(** All weights together stay below 2^53: deposits and stakes are below 2^52, and the last
    weights of all voters add up to less. *)
Record bounded_votes (v : other_contracts) (s' : system) : Prop := mkBounded {
  bv_deposits : forall u d, @get_depositfree (oc_deposit v) u = Ok d -> 0 <= amount d < 2^52;
  bv_stakes : map_Forall (fun _ w => 0 <= staked w < 2^52) (voters s');
  bv_total : all_votes (voters s') < 2^53
}.

(** What a registration has to respect. *)
Definition enters (P : name -> gmap name voter_info -> Prop) (a : system_action) (s : system) : Prop :=
  match a with SRegproducer p _ _ _ => is_Some (producer_infos s !! p) \/ P p (voters s) | _ => True end.

(** Nobody votes for the producer yet. *)
Definition unvoted (p : name) (m : gmap name voter_info) : Prop := map_Forall (fun _ w => p ∉ voted w) m.

Lemma stakes_same (m m' : gmap name voter_info) (P : Z -> Prop) : staked <$> m' = staked <$> m ->
  map_Forall (fun _ w => P (staked w)) m' -> map_Forall (fun _ w => P (staked w)) m.
Proof.
  intros Hm HP k v Hv. assert (Hk : (staked <$> m') !! k = Some (staked v)) by (by rewrite Hm, lookup_fmap, Hv).
  rewrite lookup_fmap in Hk. destruct (m' !! k) as [v'|] eqn:Hv'; [|done]. injection Hk as <-. by apply (HP k).
Qed.

Section actions.
Context {E : SystemEnv} {EO : SystemEnvOk E} (R : Z -> Z -> Prop) {HR : TallyRel R}.

Lemma tally_roll s s' o o' : roll s' o' = roll s o -> tally R s -> tally R s'.
Proof. unfold roll. intros [= E1 _ _ E4] [T1 T2 T3]. split; rewrite ?E1, ?E4; done. Qed.

(** A voter whose votes do not change. *)
Lemma tally_voter s k v' : tally R s -> voter_ok v' ->
  match voters s !! k with Some v => votes_of v' = votes_of v /\ voted v' = voted v | None => voted v' = [] /\ votes_of v' = 0 end ->
  tally R (s <| voters := <[k := v']> (voters s) |>).
Proof.
  intros [T1 T2 T3] Hv' Hk.
  assert (Hsum : forall f : list name -> bool, map_sum (fun _ v => if f (voted v) then votes_of v else 0) (<[k := v']> (voters s)) =
    map_sum (fun _ v => if f (voted v) then votes_of v else 0) (voters s)).
  { intros f. destruct (voters s !! k) as [v|] eqn:Ek.
    - rewrite (map_sum_insert _ _ _ v) by done. destruct Hk as [-> ->]. lia.
    - rewrite map_sum_insert_new by done. destruct Hk as [_ ->]. destruct (f _); lia. }
  split; [by apply map_Forall_insert_2| |].
  - pose proof (Hsum (fun _ => true)) as Ha. change (all_votes (<[k := v']> (voters s)) = all_votes (voters s)) in Ha. cbn. by rewrite Ha.
  - intros p info Hp. destruct (T3 _ _ Hp) as (x & Ex & Hx & HRx). exists x. split; [done|]. split; [done|].
    pose proof (Hsum (fun l => bool_decide (p ∈ l))) as Hp'. change (given p (<[k := v']> (voters s)) = given p (voters s)) in Hp'. cbn. by rewrite Hp'.
Qed.

Lemma change_voter_tally {DV : DepositView} from total c s o u s' o' : tally R s -> no_proxies (voters s) ->
  (forall u d, get_depositfree u = Ok d -> 0 <= amount d < 2^52) -> map_Forall (fun _ v => 0 <= staked v < 2^52) (voters s') ->
  all_votes (voters s') < 2^53 -> change_voter from total c s o = Ok (u, s', o') -> tally R s'.
Proof.
  intros T P Hdep Hst Htot H. unfold change_voter in H. apply bind_Ok in H as (fv & s1 & o1 & (-> & -> & ->)%find_Ok & H).
  apply bind_Ok in H as (? & s1 & o1 & H1 & H). assert (T1 : tally R s1 /\ no_proxies (voters s1)).
  { destruct (voters s !! from) as [v|] eqn:Hv.
    - apply modify_Ok in H1 as (v0 & ? & Hv0 & [= <-] & -> & ->). destruct (P _ _ Hv0) as [P1 P2].
      split; [|by apply map_Forall_insert_2]. apply tally_voter; [done| |by rewrite Hv0]. apply (ta_voters _ _ T _ _ Hv0).
    - apply emplace_Ok in H1 as (_ & -> & ->). split; [|by apply map_Forall_insert_2]. apply tally_voter; [done| |by rewrite Hv].
      split; [by exists 0|cbn; lia]. }
  destruct T1 as [T1 P1]. apply bind_Ok in H as (v & s2 & o2 & (Hv & -> & ->)%get_Ok & H).
  apply bind_Ok in H as (? & s2 & o2 & (_ & -> & ->)%eosio_assert_Ok & H). unfold when in H.
  destruct (negb _ || _); [|by injection H as _ <- _]. pose proof (money_update_votes _ _ _ _ _ _ _ _ _ _ H) as Hm. unfold kept, money in Hm. cbn in Hm.
  injection Hm as _ _ _ Hs _ _ _ _ _ _ _. eapply vote_tally; [exact HR|exact T1|exact P1|right; apply (P1 _ _ Hv)|by intros; eapply Hdep| |done|exact H].
  by apply (stakes_same _ _ (fun z => 0 <= z < 2^52) Hs).
Qed.

Lemma voted_tally {DV : DepositView} voter px prods voting c s o u s' o' : tally R s -> no_proxies (voters s) -> (voting = true \/ px = 0) ->
  (forall u d, get_depositfree u = Ok d -> 0 <= amount d < 2^52) -> map_Forall (fun _ v => 0 <= staked v < 2^52) (voters s') ->
  all_votes (voters s') < 2^53 -> update_votes voter px prods voting c s o = Ok (u, s', o') -> tally R s'.
Proof.
  intros T P Hpx Hdep Hst Htot H. pose proof (money_update_votes _ _ _ _ _ _ _ _ _ _ H) as Hm. unfold kept, money in Hm. cbn in Hm.
  injection Hm as _ _ _ Hs _ _ _ _ _ _ _. eapply vote_tally; [exact HR|exact T|exact P|done|by intros; eapply Hdep| |done|exact H].
  by apply (stakes_same _ _ (fun z => 0 <= z < 2^52) Hs).
Qed.

(** Deciding about producers keeps the votes of every row there is. *)
Definition rows_from (a : system_action) (s s' : system) : Prop := forall p info', producer_infos s' !! p = Some info' ->
  (exists info, producer_infos s !! p = Some info /\ total_votes info' = total_votes info) \/
  (exists key url_ loc, a = SRegproducer p key url_ loc /\ producer_infos s !! p = None /\ total_votes info' = fl 0).

Lemma rows_same a s s' : producer_infos s' = producer_infos s -> rows_from a s s'.
Proof. intros E1 p info'. rewrite E1. intros Hp. left. by exists info'. Qed.

Lemma rmvproducer_rows q c s o u s' o' : rmvproducer q c s o = Ok (u, s', o') -> rows_from (SRmvproducer q) s s'.
Proof.
  intros H. unfold rmvproducer in H. apply bind_Ok in H as (? & s1 & o1 & (_ & -> & ->)%require_auth_Ok & H).
  apply bind_Ok in H as (pr & s1 & o1 & (-> & -> & ->)%find_Ok & H). apply bind_Ok in H as (? & s1 & o1 & (_ & -> & ->)%eosio_assert_Ok & H).
  apply bind_Ok in H as (? & s1 & o1 & (info & ? & _ & [= <-] & -> & ->)%modify_Ok & H). unfold change_producer_yta_info, delproducer in H. cbn [negb] in H.
  apply bind_Ok in H as (itp & s1 & o1 & (-> & -> & ->)%find_Ok & H). cbn in H. rewrite lookup_insert_eq in H. apply bind_Ok in H as (? & s1 & o1 & H1 & H).
  apply bind_Ok in H1 as (? & s2 & o2 & [= _ <- <-] & H1). apply bind_Ok in H1 as (? & s2 & o2 & [= _ <- <-] & H1). apply erase_Ok in H1 as (? & _ & -> & ->).
  assert (Hi : producer_infos s' = delete q (producer_infos s)).
  { apply bind_Ok in H as (itx & s2 & o2 & (-> & -> & ->)%find_Ok & H). cbn in H. destruct (producersext s !! q).
    - apply bind_Ok in H as (? & s2 & o2 & [= _ <- <-] & H). apply bind_Ok in H as (? & s2 & o2 & (? & _ & -> & ->)%erase_Ok & H).
      apply infos_search in H. unfold kept in H. cbn in H. rewrite H. apply delete_insert_eq.
    - injection H as _ <- _. cbn. apply delete_insert_eq. }
  intros p info' Hp. rewrite Hi in Hp. apply lookup_delete_Some in Hp as [_ Hp]. left. by exists info'.
Qed.

Lemma regproducer_rows q key url_ loc c s o u s' o' : regproducer q key url_ loc c s o = Ok (u, s', o') -> rows_from (SRegproducer q key url_ loc) s s'.
Proof.
  intros H. unfold regproducer in H. do 2 apply bind_Ok in H as (? & s1 & o1 & (_ & -> & ->)%eosio_assert_Ok & H).
  apply bind_Ok in H as (? & s1 & o1 & (_ & -> & ->)%require_auth_Ok & H). apply bind_Ok in H as (pr & s1 & o1 & (-> & -> & ->)%find_Ok & H).
  destruct (producer_infos s !! q) as [info|] eqn:Hq; intros p info' Hp.
  - apply bind_Ok in H as (? & s1 & o1 & (i & ? & Hi & [= <-] & -> & ->)%modify_Ok & H). rewrite Hq in Hi. injection Hi as <-.
    apply infos_search in H. unfold kept in H. cbn in H. rewrite H, lookup_insert in Hp. left. case_decide; [subst|by exists info'].
    injection Hp as <-. by exists info.
  - apply emplace_Ok in H as (_ & -> & _). cbn in Hp. rewrite lookup_insert in Hp. case_decide; [subst|left; by exists info'].
    injection Hp as <-. right. by exists key, url_, loc.
Qed.

Lemma administers_rows v a c s o u s' o' : administers a = true -> system_handler v a c s o = Ok (u, s', o') -> rows_from a s s'.
Proof.
  intros Ha H. destruct a as [| | | | |q| | | | | | | |q key u_ loc| | | | |q sh seq lvl| | | | | |]; try done; cbn [system_handler] in H.
  - by eapply rmvproducer_rows.
  - by eapply regproducer_rows.
  - apply rows_same. assert (W : within (kept (fun s _ => producer_infos s)) (seqproducer q sh seq lvl)); [|exact (W _ _ _ _ _ _ H)].
    unfold seqproducer, add_producer_yta, rm_producer_yta. sframe_with ltac:(reflexivity); apply infos_search.
  - apply rows_same. assert (W : within (kept (fun s _ => producer_infos s)) reprodlevel); [|exact (W _ _ _ _ _ _ H)].
    unfold reprodlevel, update_producer_level. sframe_with ltac:(reflexivity).
Qed.

Lemma changebw_tally {DV : DepositView} from receiver net cpu tr c s o u s' o' : tally R s -> no_proxies (voters s) ->
  (forall u d, get_depositfree u = Ok d -> 0 <= amount d < 2^52) -> map_Forall (fun _ v => 0 <= staked v < 2^52) (voters s') ->
  all_votes (voters s') < 2^53 -> changebw from receiver net cpu tr c s o = Ok (u, s', o') -> tally R s'.
Proof.
  intros T P Hdep Hst Htot H. apply changebw_voter in H as (s1 & o1 & fr & t & Hr & H).
  eapply change_voter_tally; [by apply (tally_roll _ _ _ _ Hr)| |done..|exact H]. unfold roll in Hr. by injection Hr as _ _ _ ->.
Qed.
End actions.

Section histories.
Context {E : SystemEnv} {EO : SystemEnvOk E} (R : Z -> Z -> Prop) {HR : TallyRel R}.

Lemma handler_tally v a c s o u s' o' : tally R s -> ballot s -> args_ok a -> bounded_votes v s' ->
  enters (fun p m => R 0 (given p m)) a s ->
  system_handler v a c s o = Ok (u, s', o') -> tally R s'.
Proof.
  intros T [L P] Ha [M1 M2 M3] M4 H. destruct (administers a) eqn:Em.
  { pose proof (voters_administers v a Em _ _ _ _ _ _ H) as Hv. unfold kept in Hv. cbn in Hv. pose proof (administers_rows v a c s o u s' o' Em H) as Hr.
    split; rewrite Hv; [apply T|apply T|]. intros p info' Hp.
    destruct (Hr _ _ Hp) as [(info & Hi & ->)|(key & url_ & loc & -> & Hn & ->)]; [by apply (ta_votes _ _ T)|]. exists 0. split; [done|]. split; [done|].
    destruct M4 as [[? ?]|?]; [congruence|done]. }
  destruct (polling a) eqn:Ep; [|apply roll_other in H; [by apply (tally_roll R _ _ _ _ H)|done]].
  destruct a; try done; cbn [system_handler args_ok] in *.
  - destruct Ha. apply delegatebw_changes in H as [_ H]; [|done..]. by eapply (changebw_tally R).
  - destruct Ha. apply undelegatebw_changes in H as [_ H]; [|done..]. by eapply (changebw_tally R).
  - unfold voteproducer in H. apply bind_Ok in H as (? & s1 & o1 & (_ & -> & ->)%require_auth_Ok & H). by eapply (voted_tally R); [..|left| | | |].
  - unfold changevotes in H. apply bind_Ok in H as (? & s1 & o1 & (_ & -> & ->)%require_auth_Ok & H).
    apply bind_Ok in H as (fv & s1 & o1 & (-> & -> & ->)%find_Ok & H). destruct (voters s !! voter) as [vt|] eqn:Hv; [|by injection H as _ <- _].
    unfold when in H. destruct (_ || _); [|by injection H as _ <- _]. eapply (voted_tally R); [done|done|right; apply (P _ _ Hv)|done..|exact H].
Qed.

Lemma history_tally ok l s :
  (forall v a s s', tally R s -> ok v a s s' -> bounded_votes v s' /\ enters (fun p m => R 0 (given p m)) a s) ->
  history ok l s -> tally R s.
Proof.
  intros Hok. induction 1 as [n|l s v a c d u s' o' Hh T Ha H M|l s n _ T Hn].
  - split; cbn; [apply map_Forall_empty|unfold all_votes; by rewrite map_sum_empty|]. intros p info Hp. by rewrite lookup_empty in Hp.
  - pose proof (history_ballot _ _ _ Hh) as B. apply Hok in M as [[M1 M2 M3] M4]; [|done].
    unfold system_apply, in_system in H. cbv zeta in H. apply bind_Ok in H as (? & s1 & o1 & H1 & H).
    apply ctor_spec in H1 as (-> & m & -> & _). apply bind_Ok in H as (? & s2 & o2 & H2 & H). apply dtor_spec in H as (-> & ->).
    eapply handler_tally in H2;
      [by apply (tally_roll R s2 _ no_out no_out)|by apply (tally_roll R s _ no_out no_out)|by apply (ballot_roll s _ no_out no_out)|done|by split|done].
  - by apply (tally_roll R s _ no_out no_out).
Qed.
End histories.

(** C7: Votes are counted exactly.  As long as all weights together stay below 2^53 and no
    producer is registered that somebody already votes for, the votes of a producer are
    the sum of the last weights of the accounts that vote for it, in spite of
    floating-point arithmetic, and its entry in the levels says the same. *)
Theorem votes_tally {E : SystemEnv} {EO : SystemEnvOk E} l s :
  history (fun v a s s' => bounded_votes v s' /\ enters unvoted a s) l s ->
  forall p info, producer_infos s !! p = Some info -> total_votes info = fl (given p (voters s)) /\
    forall e, e ∈ levels s -> yp_owner e = p -> yp_votes e = fl (given p (voters s)).
Proof.
  intros H p info Hp. assert (T : tally eq s).
  { eapply (history_tally eq); [|exact H]. intros v a s1 s2 _ [B F]. split; [done|]. destruct a; try done. destruct F as [F|F]; [by left|right].
    symmetry. apply map_sum_zero. intros k w Hw. by rewrite bool_decide_false by by apply (F k). }
  destruct (ta_votes _ _ T _ _ Hp) as (x & Ex & _ & ->). split; [done|]. intros e He Eo.
  pose proof (history_ballot _ _ _ H) as [L _]. pose proof (proj1 (Forall_forall _ _) (lo_entries _ L) e He) as (_ & i & Hi & -> & _).
  rewrite Eo in Hi. congruence.
Qed.

(** Without a condition on registrations the votes are at most what was given. *)
Lemma history_tally_le {E : SystemEnv} {EO : SystemEnvOk E} l s : history (fun v a s s' => bounded_votes v s') l s -> tally Z.le s.
Proof.
  intros H. eapply (history_tally Z.le); [|exact H]. intros v a s1 s2 T B. split; [done|]. destruct a; try done. right. apply given_bounds, T.
Qed.

(** No producer gets more votes than were given: whatever is registered and removed,
    the votes of a producer are at most the last weights of the accounts that vote for it. *)
Theorem votes_never_exceed {E : SystemEnv} {EO : SystemEnvOk E} l s :
  history (fun v a s s' => bounded_votes v s') l s ->
  forall p info, producer_infos s !! p = Some info -> exists x, total_votes info = fl x /\ 0 <= x <= given p (voters s).
Proof.
  intros T%history_tally_le p info Hp. destruct (ta_votes _ _ T _ _ Hp) as (x & Ex & Hx & Hg). exists x. done.
Qed.

(** ** Runs *)

(** A producer of level one, alice stakes and votes for it. *)
Definition vote_start : list (system_action * ctx) :=
  [(SNewaccount (N "eosio") (N "alice"), demo_ctx (N "eosio"));
   (SNewaccount (N "eosio") (N "bob"), demo_ctx (N "eosio"));
   (SRegproducer (N "producera") 77 "https://a" 1, demo_ctx (N "ytaadminuser"));
   (SSeqproducer (N "producera") (N "producera") 1 1, demo_ctx (N "ytaadminuser"));
   (SDelegatebw (N "alice") (N "alice") (core 500) (core 700) false, demo_ctx (N "alice"));
   (SDelegatebw (N "bob") (N "bob") (core 0) (core 90) false, demo_ctx (N "bob"));
   (SVoteproducer (N "alice") 0 [N "producera"], demo_ctx (N "alice"));
   (SVoteproducer (N "bob") 0 [N "producera"], demo_ctx (N "bob"))].

Definition vote_more : list (system_action * ctx) :=
  [(SDelegatebw (N "alice") (N "bob") (core 40) (core 0) false, demo_ctx (N "alice"));
   (SVoteproducer (N "bob") 0 [], demo_ctx (N "bob"))].

(** The producer is removed and registered again, and the two vote as before. *)
Definition vote_again : list (system_action * ctx) :=
  [(SRmvproducer (N "producera"), demo_ctx (N "ytaadminuser"));
   (SRegproducer (N "producera") 77 "https://a" 1, demo_ctx (N "ytaadminuser"));
   (SSeqproducer (N "producera") (N "producera") 1 1, demo_ctx (N "ytaadminuser"));
   (SVoteproducer (N "alice") 0 [N "producera"], demo_ctx (N "alice"));
   (SVoteproducer (N "bob") 0 [N "producera"], demo_ctx (N "bob"))].

Definition stakes_okb (s : system) : bool := bool_decide (map_Forall (fun _ w => 0 <= staked w < 2^52) (voters s) /\ all_votes (voters s) < 2^53).

#[export] Instance enters_dec (P : name -> gmap name voter_info -> Prop) `{!forall p m, Decision (P p m)} a s : Decision (enters P a s).
Proof. destruct a; cbn; apply _. Defined.

#[export] Instance unvoted_dec p m : Decision (unvoted p m).
Proof. unfold unvoted. apply _. Defined.

Lemma demo_bounded s : stakes_okb s = true -> bounded_votes demo_others s.
Proof. intros [H1 H2]%bool_decide_eq_true. split; [|done|done]. intros u d [= <-]. cbn. lia. Qed.

Definition vote_run (okb : system_action -> system -> bool) (l : list (system_action * ctx)) : list action * system :=
  default ([], system_init demo_node) (run_actions (E := demo_env) demo_others (fun a s s' => stakes_okb s' && okb a s) l (system_init demo_node)).

Lemma vote_run_history (ok : system_action -> system -> Prop) okb l : (forall a s, okb a s = true -> ok a s) ->
  history (E := demo_env) (fun v a s s' => bounded_votes v s' /\ ok a s) (vote_run okb l).1 (vote_run okb l).2.
Proof.
  intros Hok. unfold vote_run. destruct (run_actions _ _ l _) as [[sent s]|] eqn:Er; [|apply (h_start (E := demo_env))].
  eapply (run_history (E := demo_env) demo_others _ (fun v a s s' => bounded_votes v s' /\ ok a s) _ l [] (system_init demo_node) sent s); [apply h_start|exact Er].
  Unshelve. intros a s1 s2 [H1%demo_bounded H2%Hok]%andb_prop. done.
Qed.

Definition unvoted_okb (a : system_action) (s : system) : bool := bool_decide (enters unvoted a s).

Lemma vote_exact_history : history (E := demo_env) (fun v a s s' => bounded_votes v s' /\ enters unvoted a s)
  (vote_run unvoted_okb (vote_start ++ vote_more)).1 (vote_run unvoted_okb (vote_start ++ vote_more)).2.
Proof. apply vote_run_history. intros a s. apply bool_decide_eq_true. Qed.

Lemma vote_again_history : history (E := demo_env) (fun v a s s' => bounded_votes v s')
  (vote_run (fun _ _ => true) (vote_start ++ vote_again)).1 (vote_run (fun _ _ => true) (vote_start ++ vote_again)).2.
Proof. eapply history_weaken; [|apply (vote_run_history (fun _ _ => True)); done]. by intros v a s s' []. Qed.

Lemma votes_tally_witness :
  exists l s info, history (E := demo_env) (fun v a s s' => bounded_votes v s' /\ enters unvoted a s) l s /\
    producer_infos s !! N "producera" = Some info /\ total_votes info = fl 1240 /\ length (levels s) = 1%nat.
Proof.
  pose proof (votes_tally (E := demo_env) (EO := demo_env_ok) _ _ vote_exact_history (N "producera")) as H.
  eexists _, _, _. split; [exact vote_exact_history|]. split; [vm_compute; reflexivity|]. split; [|vm_compute; reflexivity].
  assert (Eg : given (N "producera") (voters (vote_run unvoted_okb (vote_start ++ vote_more)).2) = 1240) by (vm_compute; reflexivity).
  rewrite <- Eg. apply H. vm_compute. reflexivity.
Defined.

(** A producer that returns loses its votes.  In general the votes are only bounded by
    what was given ([votes_never_exceed]): a producer that is removed and registered
    again starts from zero while its voters still list it with their old weight: when
    they vote for it once more only the difference counts, so that 1290 votes given are
    counted as none. *)
Theorem returning_producer_loses_votes :
  exists l s info, history (E := demo_env) (fun v a s s' => bounded_votes v s') l s /\
    producer_infos s !! N "producera" = Some info /\ given (N "producera") (voters s) = 1290 /\ total_votes info = fl 0.
Proof. eexists _, _, _. split; [exact vote_again_history|]. vm_compute. repeat split. Qed.
