(* ===== verification/SystemSchedule.v ===== *)
(** * eosio.system: the elected schedule

    What [onblock] proposes to the node, when it succeeds, and what keeps it from doing
    its work. *)

From stdpp Require Import sorting.
From S2P Require Import Prelude Float64 Names Asset Chain Views Frame ResourceLimits HeaderState.
From S2P Require Import SystemTables SystemVoting SystemStake SystemPay EosioSystem SystemBooks SystemRam SystemFunds SystemElect SystemTally.
#[local] Open Scope Z_scope.

(** ** The candidates *)

Definition key_of (e : yta_prod_info) : producer_key := mkProducerKey (yp_owner e) (yp_key e).

Definition st_of (s : system) : all_prods_level := default levels0 (prodslevel s).

#[export] Instance top_le_total : Total top_le.
Proof. intros a b. unfold top_le. lia. Qed.
#[export] Instance top_le_trans : Transitive top_le.
Proof. intros a b c. unfold top_le. lia. Qed.

Section candidates.
Context {E : SystemEnv} {EO : SystemEnvOk E}.

(** The entries behind the candidates: level one, and the best of level two. *)
Definition chosen (max_l2 : Z) (st : all_prods_level) : list yta_prod_info :=
  prods_l1 st ++ (if (0 <? max_l2) && (length (prods_l1 st) <? 21)%nat
                  then take (Z.to_nat (Z.min (21 - Z.of_nat (length (prods_l1 st))) max_l2)) (sort_by_votes (prods_l2 st)) else []).

Lemma top_chosen max_l2 st : top_producers max_l2 st = map top_of (chosen max_l2 st).
Proof.
  unfold top_producers, chosen. cbv zeta. rewrite length_map, map_app. destruct (_ && _); [done|by rewrite app_nil_r].
Qed.

Lemma chosen_levels max_l2 st : chosen max_l2 st ⊆+ prods_l1 st ++ prods_l2 st.
Proof.
  unfold chosen. apply submseteq_skips_l. destruct (_ && _); [|apply submseteq_nil_l].
  etrans; [apply sublist_submseteq, sublist_take|]. by rewrite sort_permutes.
Qed.

Lemma chosen_length max_l2 st : (length (prods_l1 st) <= LEVEL_ONE_MAX)%nat -> (length (chosen max_l2 st) <= 21)%nat.
Proof.
  unfold LEVEL_ONE_MAX. intros H. unfold chosen. rewrite length_app. destruct (_ && _); [|cbn; lia]. rewrite length_take. lia.
Qed.

(** The schedule: the candidates in the order of their names. *)
Definition schedule_of (max_l2 : Z) (st : all_prods_level) : list producer_key := map fst (merge_sort top_le (top_producers max_l2 st)).

Lemma schedule_perm max_l2 st : schedule_of max_l2 st ≡ₚ map key_of (chosen max_l2 st).
Proof. unfold schedule_of. rewrite merge_sort_Permutation, top_chosen, map_map. done. Qed.

Lemma schedule_sorted max_l2 st : NoDup (map yp_owner (prods_l1 st ++ prods_l2 st)) -> StronglySorted Z.lt (map producer_name (schedule_of max_l2 st)).
Proof.
  intros Hnd. assert (Hn : NoDup (map producer_name (schedule_of max_l2 st))).
  { rewrite (Permutation_map producer_name (schedule_perm max_l2 st)), map_map. cbn. eapply NoDup_thin; [|exact Hnd]. apply fmap_submseteq, chosen_levels. }
  unfold schedule_of in *. rewrite map_map in *. pose proof (StronglySorted_merge_sort top_le (top_producers max_l2 st)) as Hs.
  revert Hn. generalize (merge_sort top_le (top_producers max_l2 st)) Hs. clear. intros l Hs. induction Hs as [|a l _ IH Ha]; cbn; intros Hn; constructor.
  - apply IH. by apply NoDup_cons in Hn as [_ ?].
  - apply NoDup_cons in Hn as [Hn _]. apply Forall_forall. intros x Hx. apply list_elem_of_fmap in Hx as (b & -> & Hb).
    eapply Forall_forall in Ha; [|exact Hb]. destruct Ha as [?|[He _]]; [done|]. destruct Hn. rewrite He. apply list_elem_of_fmap. by exists b.
Qed.
End candidates.

(** ** Proposing it *)

Section proposing.
Context {E : SystemEnv} {EO : SystemEnvOk E}.

(** What the node answers to a schedule with a producer that is no account. *)
Definition no_account : error := ChainError "producer schedule includes a nonexisting account".

(** Every check of the node but the one for accounts is passed. *)
Lemma check_schedule_spec c l : Forall (fun p => block_signing_key p <> 0) l ->
  if forallb (fun p => is_account c (producer_name p)) l then check_schedule c l = Ok tt else check_schedule c l = Err no_account.
Proof.
  induction 1 as [|p l Hp _ IH]; cbn [check_schedule forallb]; [done|].
  destruct (is_account c (producer_name p)) eqn:Ea; cbn [andb wasm_assert]; [|done].
  cbn [mbind res_bind]. apply Z.eqb_neq in Hp. rewrite Hp. exact IH.
Qed.

Lemma schedule_keys max_l2 s p : levels_ok s -> p ∈ schedule_of max_l2 (st_of s) -> exists e, e ∈ levels s /\ p = key_of e /\ yp_key e <> 0.
Proof.
  intros L Hp. rewrite schedule_perm in Hp. apply list_elem_of_fmap in Hp as (e & -> & He). exists e.
  assert (Hl : e ∈ levels s) by (eapply elem_of_submseteq; [exact He|apply chosen_levels]). split; [done|]. split; [done|].
  pose proof (proj1 (Forall_forall _ _) (lo_entries _ L) e Hl) as (_ & info & Hi & _ & -> & _). by apply (lo_active _ L _ _ Hi).
Qed.

Lemma schedule_names max_l2 s : levels_ok s -> StronglySorted Z.lt (map producer_name (schedule_of max_l2 (st_of s))).
Proof. intros L. apply schedule_sorted, L. Qed.

Lemma sorted_lt_NoDup (l : list Z) : StronglySorted Z.lt l -> NoDup l.
Proof.
  induction 1 as [|a l _ IH Ha]; [apply NoDup_nil_2|apply NoDup_cons_2; [|done]]. intros Hin. eapply Forall_forall in Ha; [|exact Hin]. lia.
Qed.

Lemma propose_spec max_l2 s c : levels_ok s ->
  let l := schedule_of max_l2 (st_of s) in
  if forallb (fun p => is_account c (producer_name p)) l
  then node_set_proposed_producers l c (chain_node s) = Ok (controller_set_proposed_producers l (chain_node s))
  else node_set_proposed_producers l c (chain_node s) = Err no_account.
Proof.
  intros L l. assert (Hlen : (length l <= 21)%nat).
  { unfold l. rewrite schedule_perm, length_map. apply chosen_length, L. }
  assert (Hkeys : Forall (fun p => block_signing_key p <> 0) l).
  { apply Forall_forall. intros p (e & _ & -> & He)%schedule_keys; done. }
  assert (Hset : length l = size (list_to_set (map producer_name l) : gset name)).
  { rewrite size_list_to_set by (apply sorted_lt_NoDup, schedule_names, L). by rewrite length_map. }
  unfold node_set_proposed_producers, max_producers. rewrite (proj2 (Z.leb_le _ _)) by lia. cbn [wasm_assert mbind res_bind].
  pose proof (check_schedule_spec c l Hkeys) as Hc. destruct (forallb _ l).
  - rewrite Hc. cbn [mbind res_bind]. rewrite <- Hset, Nat.eqb_refl. done.
  - by rewrite Hc.
Qed.

(** What the elected schedule leads to. *)
Definition elects (s : system) : bool :=
  is_schedule (default global3_0 (globalext3 s)) && bool_decide (is_Some (prodslevel s)) &&
  (min_l1 (default global3_0 (globalext3 s)) <=? Z.of_nat (length (prods_l1 (st_of s)))).

Definition elected (s : system) : list producer_key := schedule_of (max_l2 (default global3_0 (globalext3 s))) (st_of s).

Lemma elect_run slot c s o : levels_ok s ->
  (elects s = true -> forallb (fun p => is_account c (producer_name p)) (elected s) = true) ->
  exists g, update_elected_producers_yta slot c s o = Ok (tt, s <| gstate := g |> <| chain_node :=
    if elects s then snd (controller_set_proposed_producers (elected s) (chain_node s)) else chain_node s |>, o).
Proof.
  intros L Hacc. unfold update_elected_producers_yta, elects, elected in *. set (g3 := default global3_0 (globalext3 s)) in *.
  erewrite bind_run by reflexivity. erewrite bind_run by reflexivity. cbn [globalext3]. change (default global3_0 _) with g3.
  destruct (is_schedule g3); cbn [negb andb] in *; [|eexists; reflexivity].
  erewrite bind_run by reflexivity. cbn. unfold st_of in *. destruct (prodslevel s) as [st|] eqn:Est; cbn [default from_option id] in *; [|eexists; reflexivity].
  rewrite (bool_decide_true (is_Some (Some st))) in * by by eexists. cbn [andb] in *.
  rewrite Z.leb_antisym in *. destruct (_ <? min_l1 g3); cbn [negb] in *; [eexists; reflexivity|]. specialize (Hacc eq_refl).
  pose proof (propose_spec (max_l2 g3) s c L) as Hp. unfold st_of in Hp. rewrite Est in Hp. cbn [default from_option id] in Hp. rewrite Hacc in Hp.
  destruct (controller_set_proposed_producers (schedule_of (max_l2 g3) st) (chain_node s)) as [r n] eqn:En. unfold schedule_of in Hp, En.
  erewrite bind_run; [|unfold set_proposed_producers, on_node; cbn [chain_node]; rewrite Hp; reflexivity].
  unfold when. destruct (0 <=? r); eexists; reflexivity.
Qed.

Lemma elect_fails slot c s o : levels_ok s -> elects s = true -> forallb (fun p => is_account c (producer_name p)) (elected s) = false ->
  update_elected_producers_yta slot c s o = Err no_account.
Proof.
  intros L He Hacc. unfold update_elected_producers_yta, elects, elected in *. set (g3 := default global3_0 (globalext3 s)) in *.
  erewrite bind_run by reflexivity. erewrite bind_run by reflexivity. cbn [globalext3]. change (default global3_0 _) with g3.
  apply andb_prop in He as [[-> Hst%bool_decide_eq_true]%andb_prop Hmin]. cbn [negb].
  erewrite bind_run by reflexivity. cbn. unfold st_of in *. destruct Hst as [st Est]. rewrite Est in *. cbn [default from_option id] in *.
  rewrite Z.leb_antisym in Hmin. apply negb_true_iff in Hmin. rewrite Hmin.
  pose proof (propose_spec (max_l2 g3) s c L) as Hp. unfold st_of in Hp. rewrite Est in Hp. cbn [default from_option id] in Hp. rewrite Hacc in Hp.
  unfold schedule_of in Hp. unfold mbind at 1, M_bind at 1, set_proposed_producers, on_node. cbn [chain_node]. by rewrite Hp.
Qed.
End proposing.

(** ** Auctions *)

#[export] Instance bid_le_total : Total bid_le.
Proof. intros a b. unfold bid_le. lia. Qed.
#[export] Instance bid_le_trans : Transitive bid_le.
Proof. intros a b c. unfold bid_le. lia. Qed.

Lemma highest_bid_spec m nm b : highest_bid m = Some (nm, b) -> m !! nm = Some b /\
  forall nm' b', m !! nm' = Some b' -> bid_le (nm, b) (nm', b').
Proof.
  unfold highest_bid. intros H. pose proof (merge_sort_Permutation bid_le (map_to_list m)) as Hp. pose proof (StronglySorted_merge_sort bid_le (map_to_list m)) as Hs.
  destruct (merge_sort bid_le (map_to_list m)) as [|x l]; [done|]. injection H as ->. apply StronglySorted_inv in Hs as [_ Hs]. split.
  - apply elem_of_map_to_list. rewrite <- Hp. left.
  - intros nm' b' Hb%elem_of_map_to_list. rewrite <- Hp in Hb. apply elem_of_cons in Hb as [->|Hb]; [right; lia|]. by eapply Forall_forall in Hs.
Qed.

Lemma close_auction_run slot c s o : exists g m, close_auction slot c s o = Ok (tt, s <| gstate := g |> <| namebids := m |>, o).
Proof.
  unfold close_auction. erewrite bind_run by reflexivity. erewrite bind_run by reflexivity. erewrite bind_run by reflexivity.
  destruct (highest_bid (namebids s)) as [[nm b]|] eqn:Eh; [|exists (gstate s), (namebids s); by destruct s].
  unfold when. destruct (_ && _); [|exists (gstate s), (namebids s); by destruct s].
  apply highest_bid_spec in Eh as [Eb _]. erewrite bind_run by reflexivity. erewrite modify_run; [|exact Eb|reflexivity]. eexists _, _. reflexivity.
Qed.

(** ** Blocks *)

(** The block at [slot] updates the schedule. *)
Definition due (slot : Z) (s : system) : bool := 240 <? u32 (slot - last_producer_schedule_update (gstate s)).

Lemma ctor_run {TV : TokenView} c s o a : get_supply (symbol_code CORE_SYMBOL) = Ok a -> exists s', sys_ctor c s o = Ok (tt, s', o).
Proof.
  intros Ha. unfold sys_ctor. do 4 (erewrite bind_run by reflexivity). unfold find at 1. erewrite bind_run by reflexivity. cbn.
  destruct (rammarket s !! RAMCORE) eqn:Em; [by eexists|]. erewrite bind_run; [|by apply lift_run]. unfold when. destruct (0 <? amount a); [|by eexists].
  eexists. by apply emplace_run.
Qed.

Section blocks.
Context {E : SystemEnv} {EO : SystemEnvOk E}.

Lemma onblock_run {PV : PoolView} slot producer c s o : levels_ok s -> has_auth c (N "eosio") = true -> (forall a, act_account a = hddpool_account -> may_send c a = true) ->
  (due slot s = true -> elects s = true -> forallb (fun p => is_account c (producer_name p)) (elected s) = true) ->
  exists s' o', onblock slot producer c s o = Ok (tt, s', o') /\
    chain_node s' = if due slot s && elects s then snd (controller_set_proposed_producers (elected s) (chain_node s)) else chain_node s.
Proof.
  intros L Hauth Hsend Hacc. unfold onblock. erewrite bind_run by by apply require_auth_run. erewrite bind_run by reflexivity. fold (due slot s).
  destruct (due slot s); cbn [andb].
  - destruct (elect_run slot c s o L (Hacc eq_refl)) as [g Hg]. erewrite bind_run by exact Hg. erewrite bind_run by reflexivity.
    unfold when. destruct (_ <? _); [|eexists _, _; split; [reflexivity|done]].
    match goal with |- context [close_auction slot c ?s1 o] => destruct (close_auction_run slot c s1 o) as (g' & m & ->) end.
    eexists _, _. split; [reflexivity|]. by destruct (elects s).
  - assert (Hs : forall a, act_account a = hddpool_account -> exists s' o', send a c s o = Ok (tt, s', o') /\ chain_node s' = chain_node s).
    { intros a Ha%Hsend. unfold send. rewrite Ha. by eexists _, _. }
    destruct (_ <=? slot); [by apply Hs|]. unfold when. destruct (_ <=? slot); [by apply Hs|]. by eexists _, _.
Qed.

Lemma levels_all_accounts c s : levels_ok s -> (forall e, e ∈ levels s -> is_account c (yp_owner e) = true) ->
  forallb (fun p => is_account c (producer_name p)) (elected s) = true.
Proof.
  intros L Hacc. apply forallb_forall. intros p Hp%list_elem_of_In. apply schedule_keys in Hp as (e & He & -> & _); [|done]. by apply Hacc.
Qed.

(** C11: The levels always agree with the tables.  Whatever actions the contract accepts, the
    two levels hold no producer twice and at most 21 and 105 producers; every entry has
    the votes, the key and the activity of the producer's row, and every row is active
    with a key; and since nobody can become a proxy, no voter has one. *)
Theorem levels_agree ok l s : history ok l s -> levels_ok s /\ no_proxies (voters s).
Proof. apply history_ballot. Qed.

(** C10: The action of every block succeeds and proposes the elected schedule.  Take any state
    that a history of actions reaches.  If the core token exists (the contract's
    constructor asks for its supply), the block's action has the authority of eosio, the
    node lets the contract send actions to the storage pool (the reward of the block) and
    the producers of the two levels are accounts, then [onblock] does not fail: the schedule
    it proposes passes all checks of the node (its size, its keys, no producer twice) and
    an auction can be closed.  When an update is due, the automatic schedule is on, the
    levels were set up and level one has the least number of producers set for it
    ([elects]), the node is left with exactly what it makes of the elected schedule; in
    every other case the node's schedules are untouched. *)
Theorem onblock_succeeds ok l s v slot producer c o a : history ok l s ->
  has_auth c (N "eosio") = true -> (forall act, act_account act = hddpool_account -> may_send c act = true) ->
  @get_supply (oc_token v) (symbol_code CORE_SYMBOL) = Ok a ->
  (forall e, e ∈ levels s -> is_account c (yp_owner e) = true) ->
  exists s' o', system_apply v (SOnblock slot producer) c s o = Ok (tt, s', o') /\
    chain_node s' = if due slot (loaded s) && elects s then snd (controller_set_proposed_producers (elected s) (chain_node s)) else chain_node s.
Proof.
  intros Hh Hauth Hsend Ha Hacc. apply history_ballot in Hh as [L _]. unfold system_apply, in_system. cbv zeta.
  destruct (@ctor_run (oc_token v) c s o a Ha) as [s1 H1]. erewrite bind_run by exact H1. apply ctor_spec in H1 as (_ & m & -> & _).
  set (s1 := (loaded s) <| gstateex := _ |> <| rammarket := m |>). assert (L1 : levels_ok s1) by (by apply (levels_polls s _ no_out no_out)).
  destruct (@onblock_run (oc_pool v) slot producer c s1 o L1 Hauth Hsend) as (s2 & o2 & H2 & Hn).
  { intros _ _. by apply levels_all_accounts. }
  cbn [system_handler]. erewrite bind_run by exact H2. eexists _, o2. split; [reflexivity|]. exact Hn.
Qed.
End blocks.

(** ** What is elected *)

Lemma sorted_take_drop {A} (R : A -> A -> Prop) (l : list A) k a b : StronglySorted R l -> a ∈ take k l -> b ∈ drop k l -> R a b.
Proof. intros Hs Ha Hb. rewrite <- (take_drop k l) in Hs. apply StronglySorted_app in Hs as (Hs & _ & _). by apply Hs. Qed.

Section best.
Context {E : SystemEnv} {EO : SystemEnvOk E}.

(** The producers taken from level two have at least the votes of those left out. *)
Lemma chosen_best max_l2 st e e' : Forall (fun p => exists z, int53 z /\ yp_votes p = fl z) (prods_l2 st) ->
  NoDup (map yp_owner (prods_l1 st ++ prods_l2 st)) -> e ∈ prods_l2 st -> e' ∈ prods_l2 st ->
  e ∈ chosen max_l2 st -> e' ∉ chosen max_l2 st -> f64_lt (yp_votes e) (yp_votes e') = false.
Proof.
  intros Hz Hnd He He' Hc Hc'. unfold chosen in *. rewrite elem_of_app in Hc. rewrite not_elem_of_app in Hc'. destruct Hc' as [_ Hc'].
  destruct Hc as [Hc|Hc].
  { rewrite map_app in Hnd. apply NoDup_app in Hnd as (_ & Hd & _). destruct (Hd (yp_owner e)); by apply list_elem_of_fmap_2. }
  destruct (_ && _); [|by apply not_elem_of_nil in Hc]. set (k := Z.to_nat _) in *.
  apply (sorted_take_drop (fun a b => more_votes b a = false) (sort_by_votes (prods_l2 st)) k e e'); [by apply sort_sorts|done|].
  rewrite <- (sort_permutes (prods_l2 st)), <- (take_drop k (sort_by_votes (prods_l2 st))), elem_of_app in He'. by destruct He'.
Qed.

Lemma key_chosen max_l2 s e : NoDup (map yp_owner (levels s)) -> e ∈ levels s -> key_of e ∈ schedule_of max_l2 (st_of s) <-> e ∈ chosen max_l2 (st_of s).
Proof.
  intros Hnd He. rewrite schedule_perm. split; [|intros Hc; by apply list_elem_of_fmap_2].
  intros (e' & Hk & He')%list_elem_of_fmap. assert (Hl : e' ∈ levels s) by (eapply elem_of_submseteq; [exact He'|apply chosen_levels]).
  injection Hk as Ho _. assert (e = e') as ->; [|done]. apply list_elem_of_lookup in He as [i Hi], Hl as [j Hj].
  assert (i = j) as ->; [|congruence]. eapply NoDup_lookup; [exact Hnd| |]; rewrite list_lookup_fmap; [by rewrite Hi|by rewrite Hj, Ho].
Qed.

(** C9: The elected schedule.  Its producers are in strictly ascending order of their names,
    at most 21, each with the key it is registered with; all of level one are in it, and
    those taken from level two have at least as many votes as those left out. *)
Theorem elected_schedule l s : history (fun v a s s' => bounded_votes v s') l s ->
  StronglySorted Z.lt (map producer_name (elected s)) /\ (length (elected s) <= 21)%nat /\
  (forall p, p ∈ elected s -> exists e info, e ∈ levels s /\ p = key_of e /\ producer_infos s !! producer_name p = Some info /\
     block_signing_key p = pi_key info /\ pi_active info = true) /\
  (forall e, e ∈ prods_l1 (st_of s) -> key_of e ∈ elected s) /\
  (forall e e', e ∈ prods_l2 (st_of s) -> e' ∈ prods_l2 (st_of s) -> key_of e ∈ elected s -> key_of e' ∉ elected s ->
     exists x x', yp_votes e = fl x /\ yp_votes e' = fl x' /\ x' <= x).
Proof.
  intros H. pose proof (history_ballot _ _ _ H) as [L _].
  pose proof (history_tally_le _ _ H) as T.
  assert (Hz : forall e, e ∈ levels s -> exists z, int53 z /\ yp_votes e = fl z).
  { intros e He. pose proof (proj1 (Forall_forall _ _) (lo_entries _ L) e He) as (_ & info & Hi & -> & _).
    destruct (ta_votes _ _ T _ _ Hi) as (x & -> & Hx & Hg). pose proof (given_bounds (yp_owner e) _ (ta_voters _ _ T)). pose proof (ta_total _ _ T).
    exists x. split; [unfold int53; lia|done]. }
  assert (Hin : forall e, e ∈ prods_l1 (st_of s) \/ e ∈ prods_l2 (st_of s) -> e ∈ levels s) by (intros e He; by apply elem_of_app).
  unfold elected. set (k := max_l2 _). split; [by apply schedule_names|]. split; [rewrite schedule_perm, length_map; apply chosen_length, L|]. split; [|split].
  - intros p (e & He & -> & _)%schedule_keys; [|done]. pose proof (proj1 (Forall_forall _ _) (lo_entries _ L) e He) as (_ & info & Hi & _ & Hk & Ha).
    exists e, info. cbn. destruct (lo_active _ L _ _ Hi). done.
  - intros e He. apply key_chosen; [apply L|by apply Hin; left|]. unfold chosen. apply elem_of_app. by left.
  - intros e e' He He' Hc Hc'. pose proof (Hin e (or_intror He)) as Hl. pose proof (Hin e' (or_intror He')) as Hl'.
    rewrite key_chosen in Hc, Hc' by (apply L || done). destruct (Hz e Hl) as (x & Hx & Ex), (Hz e' Hl') as (x' & Hx' & Ex'). exists x, x'. split; [done|]. split; [done|].
    assert (Hb : f64_lt (yp_votes e) (yp_votes e') = false).
    { eapply (chosen_best k (st_of s)); [|apply L|done..]. apply Forall_forall. intros y Hy. apply Hz, Hin. by right. }
    rewrite Ex, Ex', fl_lt in Hb by done. apply Z.ltb_ge in Hb. done.
Qed.

(** ** What stops it *)

(** A block: its slot, the producer of the last one, and what the node shows to [onblock]. *)
Record block_start := mkBlockStart { bs_slot : Z; bs_producer : name; bs_ctx : ctx }.

(** The part of [start_block] that runs [onblock]: when the action fails, its changes are undone
    and the block goes on without it. *)
Definition run_onblock (v : other_contracts) (b : block_start) (s : system) : system * list action :=
  match system_apply v (SOnblock (bs_slot b) (bs_producer b)) (bs_ctx b) s no_out with
  | Ok (_, s', o') => (s', inlines o')
  | Err _ => (s, [])
  end.

(** Blocks without other actions of the contract: the state after them and what was sent. *)
Fixpoint run_blocks (v : other_contracts) (bs : list block_start) (s : system) : system * list action :=
  match bs with
  | [] => (s, [])
  | b :: bs' => let '(s1, l1) := run_onblock v b s in let '(s2, l2) := run_blocks v bs' s1 in (s2, l1 ++ l2)
  end.

Lemma run_blocks_fail v bs s : Forall (fun b => exists e, system_apply v (SOnblock (bs_slot b) (bs_producer b)) (bs_ctx b) s no_out = Err e) bs ->
  run_blocks v bs s = (s, []).
Proof. induction 1 as [|b bs [e He] _ IH]; [done|]. cbn [run_blocks]. unfold run_onblock. by rewrite He, IH. Qed.

Lemma onblock_refused {PV : PoolView} slot producer c s o e : levels_ok s -> has_auth c (N "eosio") = true -> elects s = true -> due slot s = true ->
  e ∈ prods_l1 (st_of s) -> is_account c (yp_owner e) = false -> onblock slot producer c s o = Err no_account.
Proof.
  intros L Hauth He Hdue Hin Hacc. unfold onblock. erewrite bind_run by by apply require_auth_run. erewrite bind_run by reflexivity.
  fold (due slot s). rewrite Hdue. unfold mbind at 1, M_bind at 1. rewrite (elect_fails slot c s o L He); [done|].
  apply not_true_is_false. intros Hall. rewrite forallb_forall in Hall. specialize (Hall (key_of e)). cbn in Hall. rewrite Hacc in Hall.
  assert (Hf : false = true); [|done]. apply Hall. apply list_elem_of_In. apply key_chosen; [apply L|apply elem_of_app; by left|].
  unfold chosen. apply elem_of_app. by left.
Qed.

(** C36: A producer that is no account stops the chain's own actions.  [regproducer] does not
    check that the producer is an account.  Once such a producer is in level one while the
    automatic schedule is on and level one has the least number of producers set for it
    ([elects]), [onblock] is refused because of the missing account in every block more
    than 240 slots (and less than 2^32) after the last update of the schedule.
    The refusal undoes the action, so the time of the last update stays: however many such
    blocks follow without another action of the contract, and as long as the account is
    not created, each of them is refused for this reason, the state of the contract stays
    as it is and no reward is drawn (no action is sent).  The action is taken to have the
    authority of eosio and the core token to exist, so that nothing else stops it. *)
Theorem missing_account_blocks ok l s v e a bs : history ok l s -> elects s = true -> e ∈ prods_l1 (st_of s) ->
  @get_supply (oc_token v) (symbol_code CORE_SYMBOL) = Ok a ->
  let last := last_producer_schedule_update (gstate (loaded s)) in
  Forall (fun b => has_auth (bs_ctx b) (N "eosio") = true /\ is_account (bs_ctx b) (yp_owner e) = false /\ last + 240 < bs_slot b < last + 2^32) bs ->
  Forall (fun b => system_apply v (SOnblock (bs_slot b) (bs_producer b)) (bs_ctx b) s no_out = Err no_account) bs /\
  run_blocks v bs s = (s, []).
Proof.
  intros Hh He Hin Ha last Hbs. apply history_ballot in Hh as [L _].
  assert (Hall : Forall (fun b => system_apply v (SOnblock (bs_slot b) (bs_producer b)) (bs_ctx b) s no_out = Err no_account) bs).
  { eapply Forall_impl; [exact Hbs|]. intros [slot producer c] (Hauth & Hacc & Hslot). cbn [bs_slot bs_producer bs_ctx] in *.
    unfold system_apply, in_system. cbv zeta. destruct (@ctor_run (oc_token v) c s no_out a Ha) as [s1 H1]. erewrite bind_run by exact H1.
    apply ctor_spec in H1 as (_ & m & -> & _). set (s1 := (loaded s) <| gstateex := _ |> <| rammarket := m |>).
    assert (L1 : levels_ok s1) by (by apply (levels_polls s _ no_out no_out)). cbn [system_handler]. unfold mbind at 1, M_bind at 1.
    rewrite (@onblock_refused (oc_pool v) slot producer c s1 no_out e L1 Hauth He); [done| |done..].
    change (due slot s1) with (240 <? u32 (slot - last)). rewrite u32_id by lia. apply Z.ltb_lt. lia. }
  split; [exact Hall|]. apply run_blocks_fail. eapply Forall_impl; [exact Hall|]. intros b Hb. exists no_account. exact Hb.
Qed.

(** An unclaimed auction stops all others.  The auctions are ordered by the negated bid as
    an unsigned number, so that a closed one, whose bid is stored negated, comes first;
    [onblock] looks only at the first and finds it closed.  As long as its winner does
    not create the account, no other auction can be closed. *)
Theorem closed_auction_blocks slot c s o nm b : namebids s !! nm = Some b -> high_bid b < 0 ->
  map_Forall (fun _ b => is_i64 (high_bid b)) (namebids s) -> close_auction slot c s o = Ok (tt, s, o).
Proof.
  intros Hb Hneg Hr. unfold close_auction. do 3 (erewrite bind_run by reflexivity).
  destruct (highest_bid (namebids s)) as [[nm0 b0]|] eqn:Eh; [|done]. apply highest_bid_spec in Eh as [Hb0 Hmin].
  specialize (Hmin _ _ Hb). pose proof (Hr _ _ Hb) as R1. pose proof (Hr _ _ Hb0) as R0. cbn in R0, R1. unfold is_i64 in *.
  destruct (Z.ltb_spec 0 (high_bid b0)) as [Hpos|]; [|done]. exfalso. unfold bid_le, by_high_bid in Hmin. cbn in Hmin.
  rewrite (u64_id (- high_bid b)) in Hmin by (unfold is_u64; lia).
  assert (Eu : u64 (- high_bid b0) = 2^64 - high_bid b0).
  { rewrite <- (u64_shift (- high_bid b0) 1), u64_id by (unfold is_u64; lia). lia. }
  rewrite Eu in Hmin. lia.
Qed.
End best.

(** ** Runs *)

(** Bob in level one, two producers in level two, of which alice has votes. *)
Definition elect_actions : list (system_action * ctx) :=
  let admin := demo_ctx (N "ytaadminuser") in
  [(SNewaccount (N "eosio") (N "alice"), demo_ctx (N "eosio"));
   (SNewaccount (N "eosio") (N "bob"), demo_ctx (N "eosio"));
   (SRegproducer (N "bob") 5 "https://b" 1, admin); (SSeqproducer (N "bob") (N "bob") 1 1, admin);
   (SRegproducer (N "producera") 77 "https://p" 1, admin); (SSeqproducer (N "producera") (N "producera") 3 2, admin);
   (SRegproducer (N "alice") 6 "https://a" 1, admin); (SSeqproducer (N "alice") (N "alice") 2 2, admin);
   (SDelegatebw (N "alice") (N "alice") (core 500) (core 700) false, demo_ctx (N "alice"));
   (SVoteproducer (N "alice") 0 [N "alice"], demo_ctx (N "alice"));
   (SSetautosche true 1 1, admin)].

(** The same without the producer that is no account, and with that one in level one. *)
Definition accounts_actions : list (system_action * ctx) :=
  List.filter (fun x => match x.1 with SRegproducer p _ _ _ | SSeqproducer p _ _ _ => negb (p =? N "producera") | _ => true end) elect_actions.
Definition missing_actions : list (system_action * ctx) :=
  elect_actions ++ [(SSeqproducer (N "producera") (N "producera") 3 1, demo_ctx (N "ytaadminuser"))].

Definition elect_run_of (l : list (system_action * ctx)) : list action * system := vote_run (fun _ _ => true) l.

Lemma elect_history l : history (E := demo_env) (fun v a s s' => bounded_votes v s') (elect_run_of l).1 (elect_run_of l).2.
Proof. eapply history_weaken; [|apply (vote_run_history (fun _ _ => True)); done]. by intros v a s s' []. Qed.

Lemma levels_agree_witness :
  exists l s, history (E := demo_env) (fun v a s s' => bounded_votes v s') l s /\ levels_ok s /\ map yp_owner (levels s) = [N "bob"; N "producera"; N "alice"].
Proof.
  exists (elect_run_of elect_actions).1, (elect_run_of elect_actions).2. split; [apply elect_history|].
  split; [apply (levels_agree (E := demo_env) (EO := demo_env_ok) _ _ _ (elect_history elect_actions))|vm_compute; reflexivity].
Defined.

Lemma elected_schedule_witness :
  exists l s, history (E := demo_env) (fun v a s s' => bounded_votes v s') l s /\
    StronglySorted Z.lt (map producer_name (elected (E := demo_env) s)) /\
    elected (E := demo_env) s = [mkProducerKey (N "alice") 6; mkProducerKey (N "bob") 5].
Proof.
  exists (elect_run_of elect_actions).1, (elect_run_of elect_actions).2. split; [apply elect_history|].
  split; [apply (elected_schedule (E := demo_env) (EO := demo_env_ok) _ _ (elect_history elect_actions))|vm_compute; reflexivity].
Defined.

Lemma onblock_succeeds_witness :
  exists l s s' o', history (E := demo_env) (fun v a s s' => bounded_votes v s') l s /\
    system_apply (E := demo_env) demo_others (SOnblock 1000 (N "bob")) (demo_ctx (N "eosio")) s no_out = Ok (tt, s', o') /\
    proposed_schedule (chain_node s') = mkSchedule 1 [mkProducerKey (N "alice") 6; mkProducerKey (N "bob") 5].
Proof.
  set (s := (elect_run_of accounts_actions).2).
  assert (Hall : forallb (fun e => is_account (demo_ctx (N "eosio")) (yp_owner e)) (levels s) = true) by (vm_compute; reflexivity).
  destruct (onblock_succeeds (E := demo_env) (EO := demo_env_ok) _ _ _ demo_others 1000 (N "bob") (demo_ctx (N "eosio")) no_out (core 100000000000000)
    (elect_history accounts_actions)) as (s' & o' & H & Hn).
  - vm_compute. reflexivity.
  - reflexivity.
  - reflexivity.
  - intros e He. rewrite forallb_forall in Hall. exact (Hall e (proj1 (list_elem_of_In _ _) He)).
  - exists (elect_run_of accounts_actions).1, s, s', o'. split; [apply elect_history|]. split; [exact H|]. rewrite Hn. vm_compute. reflexivity.
Defined.

Lemma missing_account_blocks_witness :
  let bs := map (fun slot => mkBlockStart slot (N "bob") (demo_ctx (N "eosio"))) [1000; 1001; 1500] in
  exists l s, history (E := demo_env) (fun v a s s' => bounded_votes v s') l s /\ length (prods_l1 (st_of s)) = 2%nat /\
    run_blocks (E := demo_env) demo_others bs s = (s, []).
Proof.
  intros bs. set (s := (elect_run_of missing_actions).2). destruct (prods_l1 (st_of s)) as [|e0 [|e1 l]] eqn:El; [vm_compute in El; discriminate El|vm_compute in El; discriminate El|].
  assert (Hl : length (prods_l1 (st_of s)) = 2%nat) by (vm_compute; reflexivity).
  assert (Ho : forallb (fun e => is_account (demo_ctx (N "eosio")) (yp_owner e)) (drop 1 (prods_l1 (st_of s))) = false) by (vm_compute; reflexivity).
  assert (Hlast : last_producer_schedule_update (gstate (loaded s)) = 0) by (vm_compute; reflexivity).
  rewrite El in Ho, Hl. destruct l; [|discriminate Hl]. cbn [drop forallb] in Ho. rewrite andb_true_r in Ho.
  destruct (missing_account_blocks (E := demo_env) (EO := demo_env_ok) _ _ _ demo_others e1 (core 100000000000000) bs (elect_history missing_actions)) as [_ H].
  - vm_compute. reflexivity.
  - change (e1 ∈ prods_l1 (st_of s)). rewrite El. by right; left.
  - reflexivity.
  - fold s. rewrite Hlast. repeat constructor; cbn [bs_slot bs_ctx]; (lia || exact Ho || (vm_compute; reflexivity)).
  - exists (elect_run_of missing_actions).1, s. split; [apply elect_history|]. split; [rewrite El; reflexivity|exact H].
Defined.

(** Two auctions, of which the lower one is closed; a day and two weeks later. *)
Definition auction_state : system := (system_init demo_node) <| namebids := {[ N "aaa" := mkBid (N "alice") (-100) 1; N "bbb" := mkBid (N "bob") 500 1 ]} |>
  <| gstate := (default_global demo_params) <| thresh_activated_stake_time := 1 |> |>.

Lemma closed_auction_blocks_witness :
  close_auction 1000000 (demo_ctx (N "eosio")) auction_state no_out = Ok (tt, auction_state, no_out) /\
  namebids auction_state !! N "bbb" = Some (mkBid (N "bob") 500 1).
Proof.
  split; [|vm_compute; reflexivity].
  apply (closed_auction_blocks 1000000 (demo_ctx (N "eosio")) auction_state no_out (N "aaa") (mkBid (N "alice") (-100) 1)).
  - vm_compute. reflexivity.
  - cbn. lia.
  - apply (bool_decide_eq_true_1 (map_Forall (fun _ b => - 2^63 <= high_bid b < 2^63) (namebids auction_state))). vm_compute. reflexivity.
Defined.
