(* ===== verification/SystemPayroll.v ===== *)
(** * eosio.system: the pay of producers

    What one call of [rewardprods] issues, pays and leaves in the three buckets.  The share
    of a producer in the votes bucket is computed in floating point; as long as the votes
    are integers below 2^53 and the buckets below 2^50, the rounding errors of all
    producers together are less than one unit, so that a bucket is never overdrawn and
    nothing is left but what does not divide. *)

From Stdlib Require Import SpecFloat.
From stdpp Require Import sorting.
From S2P Require Import Prelude Float64 Names Asset Chain Views Frame ResourceLimits HeaderState.
From S2P Require Import SystemTables SystemVoting SystemStake SystemPay EosioSystem SystemBooks SystemRam SystemFunds SystemElect SystemTally SystemSchedule.
#[local] Open Scope Z_scope.

(** ** Sums over producers *)

Fixpoint sum_of {A} (f : A -> Z) (l : list A) : Z :=
  match l with
  | [] => 0
  | a :: l' => f a + sum_of f l'
  end.

Lemma sum_of_app {A} (f : A -> Z) l l' : sum_of f (l ++ l') = sum_of f l + sum_of f l'.
Proof. induction l as [|a l IH]; cbn; [done|]. rewrite IH. lia. Qed.

Lemma sum_of_nonneg {A} (f : A -> Z) l : Forall (fun a => 0 <= f a) l -> 0 <= sum_of f l.
Proof. induction 1; cbn; lia. Qed.

Lemma sum_of_const {A} z (l : list A) : sum_of (fun _ => z) l = z * Z.of_nat (length l).
Proof. induction l as [|a l IH]; cbn [sum_of length]; lia. Qed.

(** ** Votes as integers *)

Definition vote_int (e : yta_prod_info) : Prop := exists z, 0 <= z < 2^53 /\ yp_votes e = fl z.

Lemma vote_int_votes e : vote_int e -> 0 <= votes_of_entry e < 2^53 /\ yp_votes e = fl (votes_of_entry e).
Proof. intros (z & Hz & E). unfold votes_of_entry. rewrite E, fl_trunc by (unfold int53; lia). done. Qed.

Lemma sum_votes_exact l : forall a, Forall vote_int l -> 0 <= a -> a + sum_of votes_of_entry l < 2^53 ->
  sum_votes l (fl a) = fl (a + sum_of votes_of_entry l).
Proof.
  induction l as [|e l IH]; intros a Hl Ha Hs; cbn [sum_votes foldl]; [f_equal; cbn; lia|].
  apply Forall_cons in Hl as [[He Ee]%vote_int_votes Hl]. cbn in Hs. assert (0 <= sum_of votes_of_entry l).
  { apply sum_of_nonneg. eapply Forall_impl; [exact Hl|]. intros x [Hx _]%vote_int_votes. lia. }
  rewrite Ee, fl_add by (unfold int53; lia). fold (sum_votes l (fl (a + votes_of_entry e))). rewrite IH by (done || lia). f_equal. cbn. lia.
Qed.

(** ** A share of the votes bucket *)

(** [z] is x/w of the bucket, up to four units in the last place, truncated. *)
Definition share_of (bucket x w z : Z) : Prop :=
  0 <= z /\ z * w * 2^52 <= bucket * x * (2^52 + 4) /\ bucket * x * (2^52 - 4) <= (z + 1) * w * 2^52.

Lemma vote_pay_run bucket x w : 0 <= bucket < 2^50 -> 0 <= x <= w -> 0 < w < 2^53 ->
  exists z, vote_pay bucket (fl x) (fl w) = Ok z /\ share_of bucket x w z.
Proof.
  intros Hb Hx Hw. unfold vote_pay. rewrite fl_gt_0 by (unfold int53; lia). rewrite (proj2 (Z.ltb_lt 0 w)) by lia.
  destruct w as [|w|w]; [lia| |lia]. pose proof (frac_exact (Z.pos w) Hw) as Fw.
  destruct (decide (bucket = 0)) as [->|Hb0]; [|destruct (decide (x = 0)) as [->|Hx0]].
  - exists 0. split; [|unfold share_of; lia]. change (fl 0) with (S754_zero false). destruct (decide (x = 0)) as [->|Hx0].
    + change (fl 0) with (S754_zero false). change (f64_mul (S754_zero false) (S754_zero false)) with (S754_zero false).
      rewrite (frac_div_zero _ _ _ _ Fw). apply f64_trunc_zero.
    + rewrite (frac_mul_zero_l _ _ _ _ (frac_exact x ltac:(lia))), (frac_div_zero _ _ _ _ Fw). apply f64_trunc_zero.
  - exists 0. split; [|unfold share_of; lia]. change (fl 0) with (S754_zero false).
    rewrite (frac_mul_zero _ _ _ _ (frac_exact bucket ltac:(lia))), (frac_div_zero _ _ _ _ Fw). apply f64_trunc_zero.
  - pose proof (frac_mul _ _ _ _ _ _ _ _ (frac_exact bucket ltac:(lia)) (frac_exact x ltac:(lia)) ltac:(lia) ltac:(nia) ltac:(lia)) as Fm.
    pose proof (frac_div _ _ _ _ _ _ _ _ Fm Fw ltac:(lia) ltac:(nia) ltac:(lia)) as Fd.
    destruct (frac_floor _ _ _ _ Fd) as (z & Hz & _ & H0 & H1 & H2); [nia|]. exists z. split; [exact Hz|]. unfold share_of. nia.
Qed.

(** ** One level *)

Section level.
Context (memo : string) (base block bucket : Z) (w : f64).

Definition vote_share (e : yta_prod_info) : Z := ok_or 0 (vote_pay bucket (yp_votes e) w).
Definition pay_of (e : yta_prod_info) : Z := base + block + vote_share e.
Definition payment (e : yta_prod_info) : list action :=
  if 0 <? pay_of e then [transfer_act (N "hddbasefound") (yp_owner e) (core (pay_of e)) memo] else [].

Lemma core_make z : 0 <= z <= max_amount -> asset_make z CORE_SYMBOL = Ok (core z).
Proof.
  intros Hz. unfold asset_make, is_amount_within_range, core. cbn [amount].
  rewrite (proj2 (Z.leb_le _ _)), (proj2 (Z.leb_le _ _)) by (unfold max_amount in *; lia). reflexivity.
Qed.

(** Nobody is left out as long as the shares fit into the total. *)
Lemma pay_level_run tp l : forall p c s o, 0 <= base -> 0 <= block -> Forall (fun e => exists z, vote_pay bucket (yp_votes e) w = Ok z /\ 0 <= z) l ->
  0 <= pd_base p -> 0 <= pd_block p -> 0 <= pd_vote p -> pd_total p = pd_base p + pd_block p + pd_vote p ->
  pd_total p + sum_of pay_of l <= tp -> tp <= max_amount -> (forall a, act_account a = N "eosio.token" -> may_send c a = true) ->
  exists o', pay_level memo base block bucket tp w l p c s o =
    Ok (mkPaid (pd_total p + sum_of pay_of l) (pd_base p + base * Z.of_nat (length l)) (pd_block p + block * Z.of_nat (length l))
          (pd_vote p + sum_of vote_share l), s, o') /\ inlines o' = inlines o ++ flat_map payment l.
Proof.
  induction l as [|e l IH]; intros p c s o Hb Hk Hl P1 P2 P3 P4 Hsum Htp Hsend; cbn [pay_level].
  { exists o. destruct p as [t b k v]. cbn in *. rewrite app_nil_r, !Z.mul_0_r, !Z.add_0_r. done. }
  apply Forall_cons in Hl as [(z & Ez & Hz) Hl].
  assert (Hv : vote_share e = z) by (unfold vote_share; by rewrite Ez). assert (Hp : pay_of e = base + block + z) by (unfold pay_of; by rewrite Hv).
  assert (H0 : 0 <= sum_of pay_of l).
  { apply sum_of_nonneg. eapply Forall_impl; [exact Hl|]. intros x (y & Ey & Hy). unfold pay_of, vote_share. rewrite Ey. cbn. lia. }
  cbn [sum_of] in Hsum. rewrite Hp in Hsum. unfold max_amount in *.
  erewrite bind_run by by apply lift_run. erewrite bind_run by reflexivity. cbv zeta.
  assert (Hi : forall x, 0 <= x <= 4611686018427387903 -> i64 x = x) by (intros x Hx; apply i64_id; unfold is_i64; lia).
  rewrite (Hi (base + block)) by lia. rewrite (Hi (base + block + z)), (Hi (base + block + z + pd_total p)) by lia. cbn [length flat_map]. unfold payment at 1. rewrite Hp. rewrite (proj2 (Z.leb_le _ tp)), andb_true_r by lia.
  destruct (Z.ltb_spec 0 (base + block + z)) as [Hpos|Hz0].
  - erewrite bind_run by (apply lift_run, core_make; unfold max_amount; lia).
    erewrite bind_run by (unfold inline_transfer, send; rewrite Hsend by done; reflexivity). rewrite !Hi by lia.
    edestruct IH as (o' & -> & Ho); [done|done|exact Hl|cbn; lia..|exact Htp|done|]. exists o'. rewrite Ho. cbn -[Z.mul Z.of_nat core]. rewrite Hp, Hv.
    split; [do 4 f_equal; lia|]. by rewrite <- app_assoc.
  - edestruct IH as (o' & -> & Ho); [done|done|exact Hl|exact P1|exact P2|exact P3|exact P4|lia|done|done|]. exists o'. rewrite Ho. cbn -[Z.mul Z.of_nat core]. rewrite Hp, Hv.
    assert (base = 0) as -> by lia. assert (block = 0) as -> by lia. assert (z = 0) as -> by lia. split; [do 4 f_equal; lia|done].
Qed.
End level.

(** ** Both levels *)

Lemma share_sums bucket w l : Forall vote_int l -> 0 <= bucket < 2^50 -> 0 < w < 2^53 -> sum_of votes_of_entry l <= w ->
  Forall (fun e => exists z, vote_pay bucket (yp_votes e) (fl w) = Ok z /\ 0 <= z) l /\
  0 <= sum_of (vote_share bucket (fl w)) l /\
  sum_of (vote_share bucket (fl w)) l * w * 2^52 <= bucket * sum_of votes_of_entry l * (2^52 + 4) /\
  bucket * sum_of votes_of_entry l * (2^52 - 4) <= (sum_of (vote_share bucket (fl w)) l + Z.of_nat (length l)) * w * 2^52.
Proof.
  intros Hl Hb Hw. induction Hl as [|e l He Hl IH]; cbn [sum_of length]; intros Hs; [split; [done|lia]|]. apply vote_int_votes in He as [He Ee].
  assert (0 <= sum_of votes_of_entry l).
  { apply sum_of_nonneg. eapply Forall_impl; [exact Hl|]. intros x [Hx _]%vote_int_votes. lia. }
  destruct IH as (F & I1 & I2 & I3); [lia|]. destruct (vote_pay_run bucket (votes_of_entry e) w Hb ltac:(lia) Hw) as (z & Ez & Z1 & Z2 & Z3).
  rewrite <- Ee in Ez. assert (Hz : vote_share bucket (fl w) e = z) by (unfold vote_share; by rewrite Ez). rewrite Hz.
  split; [constructor; [by exists z|done]|]. split; [lia|]. nia.
Qed.

(** The shares of the votes bucket: not more than it holds, and all of it but less than two
    units for each producer. *)
Lemma shares_fit bucket l : Forall vote_int l -> 0 <= bucket < 2^49 -> sum_of votes_of_entry l < 2^53 ->
  let w := fl (sum_of votes_of_entry l) in
  Forall (fun e => exists z, vote_pay bucket (yp_votes e) w = Ok z /\ 0 <= z) l /\ 0 <= sum_of (vote_share bucket w) l <= bucket /\
  (0 < sum_of votes_of_entry l -> bucket - sum_of (vote_share bucket w) l <= Z.of_nat (length l)) /\
  (sum_of votes_of_entry l = 0 -> sum_of (vote_share bucket w) l = 0).
Proof.
  intros Hl Hb Hs w. assert (H0 : 0 <= sum_of votes_of_entry l).
  { apply sum_of_nonneg. eapply Forall_impl; [exact Hl|]. intros x [Hx _]%vote_int_votes. lia. }
  destruct (decide (sum_of votes_of_entry l = 0)) as [Ez|Hnz].
  - assert (Hp : forall e, vote_pay bucket (yp_votes e) w = Ok 0) by (intros e; unfold vote_pay, w; by rewrite Ez).
    assert (sum_of (vote_share bucket w) l = 0); [|split; [apply Forall_forall; intros e _; by exists 0|lia]].
    clearbody w. clear -Hp. induction l as [|e l IH]; cbn; [done|]. unfold vote_share at 1. rewrite Hp, IH. done.
  - destruct (share_sums bucket (sum_of votes_of_entry l) l Hl ltac:(lia) ltac:(lia) ltac:(lia)) as (F & S0 & S1 & S2). fold w in F, S0, S1, S2.
    split; [exact F|]. set (v := sum_of (vote_share bucket w) l) in *. set (x := sum_of votes_of_entry l) in *.
    assert (Hx : 0 < x) by lia. clearbody v x. split; [split; [done|]|split; [intros _|lia]].
    + assert (v * 2^52 <= bucket * (2^52 + 4)) by nia. lia.
    + assert (bucket * (2^52 - 4) <= (v + Z.of_nat (length l)) * 2^52) by nia. lia.
Qed.

(** What is left of an amount divided into [n] equal parts. *)
Definition left_of (z : Z) (n : nat) : Z := z mod Z.of_nat n.

Lemma i64_div_run a n : 0 <= a < 2^62 -> (0 < n)%nat -> i64_div a (Z.of_nat n) = Ok (a / Z.of_nat n).
Proof.
  intros Ha Hn. unfold i64_div. rewrite (proj2 (Z.eqb_neq _ _)), (proj2 (Z.eqb_neq a _)) by lia. cbn [andb]. by rewrite Z.quot_div_nonneg by lia.
Qed.

Lemma left_of_spec z n : 0 <= z -> (0 < n)%nat -> z / Z.of_nat n * Z.of_nat n = z - left_of z n /\ 0 <= left_of z n <= z /\ 0 <= z / Z.of_nat n.
Proof.
  intros Hz Hn. unfold left_of. pose proof (Z.mod_pos_bound z (Z.of_nat n) ltac:(lia)). pose proof (Z.mod_le z (Z.of_nat n) ltac:(lia) ltac:(lia)).
  pose proof (Z.div_pos z (Z.of_nat n) ltac:(lia) ltac:(lia)). rewrite Z.mod_eq in * by lia. lia.
Qed.

Lemma pay_sum base block bucket w l : sum_of (pay_of base block bucket w) l = (base + block) * Z.of_nat (length l) + sum_of (vote_share bucket w) l.
Proof. induction l as [|e l IH]; cbn [sum_of length]; [lia|]. rewrite IH. unfold pay_of. lia. Qed.

Section paying.
Context (st : all_prods_level).
Let n1 := length (prods_l1 st).
Let n := (length (prods_l1 st) + length (prods_l2 st))%nat.
Let W := fl (sum_of votes_of_entry (prods_l1 st ++ prods_l2 st)).

Definition main_pay (b k v : Z) : list action := flat_map (payment "main producer daily pay" (b / Z.of_nat n) (k / Z.of_nat n1) v W) (prods_l1 st).
Definition second_pay (b v : Z) : list action := flat_map (payment "producer daily pay" (b / Z.of_nat n) 0 v W) (prods_l2 st).

Lemma shares_nonneg v l : Forall (fun e => exists z, vote_pay v (yp_votes e) W = Ok z /\ 0 <= z) l -> 0 <= sum_of (vote_share v W) l.
Proof. intros H. apply sum_of_nonneg. eapply Forall_impl; [exact H|]. intros e (z & Ez & Hz). unfold vote_share. by rewrite Ez. Qed.

(** The two loops. *)
Lemma both_levels_run b k v c s o : (0 < n1)%nat -> Forall vote_int (prods_l1 st ++ prods_l2 st) -> sum_of votes_of_entry (prods_l1 st ++ prods_l2 st) < 2^53 ->
  0 <= b < 2^49 -> 0 <= k < 2^49 -> 0 <= v < 2^49 -> (forall a, act_account a = N "eosio.token" -> may_send c a = true) ->
  exists t o', (p ← pay_level "main producer daily pay" (b / Z.of_nat n) (k / Z.of_nat n1) v (b + k + v) W (prods_l1 st) (mkPaid 0 0 0 0);
     pay_level "producer daily pay" (b / Z.of_nat n) 0 v (b + k + v) W (prods_l2 st) p) c s o =
    Ok (mkPaid t (b - left_of b n) (k - left_of k n1) (sum_of (vote_share v W) (prods_l1 st ++ prods_l2 st)), s, o') /\
    inlines o' = inlines o ++ main_pay b k v ++ second_pay b v.
Proof.
  intros Hn1 Hl Hs Hb Hk Hv Hsend. destruct (shares_fit v _ Hl Hv Hs) as (F & Hsum & _). fold W in F, Hsum. apply Forall_app in F as [F1 F2].
  assert (Hn : n = (n1 + length (prods_l2 st))%nat) by done. pose proof (shares_nonneg _ _ F1) as S1. pose proof (shares_nonneg _ _ F2) as S2.
  destruct (left_of_spec b n ltac:(lia) ltac:(lia)) as (B1 & B2 & B3). destruct (left_of_spec k n1 ltac:(lia) Hn1) as (K1 & K2 & K3).
  unfold main_pay, second_pay. set (bp := b / Z.of_nat n) in *. set (kp := k / Z.of_nat n1) in *. rewrite sum_of_app in *.
  assert (Hbn : bp * Z.of_nat n1 + bp * Z.of_nat (length (prods_l2 st)) = b - left_of b n) by (rewrite <- B1, Hn; lia).
  assert (0 <= bp * Z.of_nat n1) by lia. assert (0 <= bp * Z.of_nat (length (prods_l2 st))) by lia.
  destruct (pay_level_run "main producer daily pay" bp kp v W (b + k + v) (prods_l1 st) (mkPaid 0 0 0 0) c s o)
    as (o1 & H1 & O1); [lia|lia|exact F1|cbn; lia|cbn; lia|cbn; lia|done|rewrite pay_sum; cbn; fold n1; lia|unfold max_amount; lia|done|].
  erewrite bind_run by exact H1. fold n1. cbn [pd_total pd_base pd_block pd_vote].
  edestruct (pay_level_run "producer daily pay" bp 0 v W (b + k + v) (prods_l2 st)) as (o2 & H2 & O2);
    [lia|lia|exact F2| | | | | | | |eexists _, o2; split; [rewrite H2; cbn [pd_total pd_base pd_block pd_vote]; do 4 f_equal; lia|by rewrite O2, O1, app_assoc]];
    cbn [pd_total pd_base pd_block pd_vote]; rewrite ?pay_sum; fold n1; [lia..|unfold max_amount; lia|done].
Qed.

Lemma pay_producers_run c s o : let b := perbase_bucket (gstateex s) in let k := perblock_bucket (gstate s) in let v := pervote_bucket (gstate s) in
  (0 < n1)%nat -> Forall vote_int (prods_l1 st ++ prods_l2 st) -> sum_of votes_of_entry (prods_l1 st ++ prods_l2 st) < 2^53 ->
  0 <= b < 2^49 -> 0 <= k < 2^49 -> 0 <= v < 2^49 -> (forall a, act_account a = N "eosio.token" -> may_send c a = true) ->
  exists o', pay_producers st c s o = Ok (tt, s <| gstateex := (gstateex s) <| perbase_bucket := left_of b n |> |>
      <| gstate := (gstate s) <| pervote_bucket := v - sum_of (vote_share v W) (prods_l1 st ++ prods_l2 st) |> <| perblock_bucket := left_of k n1 |> |>, o') /\
    inlines o' = inlines o ++ main_pay b k v ++ second_pay b v.
Proof.
  intros b k v Hn1 Hl Hs Hb Hk Hv Hsend. destruct (shares_fit v _ Hl Hv Hs) as (_ & Hsum & _). fold W in Hsum.
  destruct (left_of_spec b n ltac:(lia) ltac:(unfold n in *; lia)) as (_ & B2 & _). destruct (left_of_spec k n1 ltac:(lia) Hn1) as (_ & K2 & _).
  assert (Hi : forall x, 0 <= x < 2^62 -> i64 x = x) by (intros x Hx; apply i64_id; unfold is_i64; lia).
  unfold pay_producers. erewrite bind_run by reflexivity. erewrite bind_run by reflexivity. erewrite bind_run by reflexivity. fold b k v n n1.
  rewrite (Hi (b + k)), (Hi (b + k + v)) by lia.
  assert (Hw : sum_votes (prods_l2 st) (sum_votes (prods_l1 st) (fl 0)) = W).
  { transitivity (sum_votes (prods_l1 st ++ prods_l2 st) (fl 0)); [unfold sum_votes; by rewrite foldl_app|]. by rewrite sum_votes_exact by (done || lia). }
  rewrite Hw. erewrite bind_run by (apply lift_run, i64_div_run; [lia|unfold n in *; lia]). erewrite bind_run by (apply lift_run, i64_div_run; [lia|done]).
  match goal with |- context [?m c s ?o0] => destruct (both_levels_run b k v c s o0 Hn1 Hl Hs Hb Hk Hv Hsend) as (t & o' & Hp & Ho) end.
  apply bind_Ok in Hp as (p & s1 & o1 & H1 & H2). erewrite bind_run by exact H1. erewrite bind_run by exact H2.
  exists o'. split; [|exact Ho]. do 5 (erewrite bind_run by reflexivity). cbn -[Z.sub left_of sum_of]. fold b k v.
  set (sv := sum_of (vote_share v W) _) in *. rewrite (Hi (b - (b - left_of b n))), (Hi (v - sv)), (Hi (k - (k - left_of k n1))) by lia.
  replace (b - (b - left_of b n)) with (left_of b n) by lia. replace (k - (k - left_of k n1)) with (left_of k n1) by lia.
  unfold on_gstate. cbn -[left_of Z.sub]. destruct (Z.ltb_spec (left_of b n) 0); [lia|]. destruct (Z.ltb_spec (v - sv) 0); [lia|].
  cbn -[left_of Z.sub]. destruct (Z.ltb_spec (left_of k n1) 0); [lia|]. reflexivity.
Qed.
End paying.

(** ** The votes of the levels *)

Lemma sum_of_plus {A} (f g : A -> Z) l : sum_of (fun a => f a + g a) l = sum_of f l + sum_of g l.
Proof. induction l as [|a l IH]; cbn; lia. Qed.

Lemma sum_of_ext {A} (f g : A -> Z) l : (forall a, f a = g a) -> sum_of f l = sum_of g l.
Proof. intros H. induction l as [|a l IH]; cbn; [done|]. rewrite H. lia. Qed.

Lemma one_vote (w : Z) l ps : 0 <= w -> (length l <= 1)%nat -> NoDup ps -> sum_of (fun p : name => if bool_decide (p ∈ l) then w else 0) ps <= w.
Proof.
  intros Hw Hl. destruct l as [|q [|]]; cbn in Hl; [| |lia].
  - intros _. assert (sum_of (fun p : name => if bool_decide (p ∈ []) then w else 0) ps = 0) as ->; [|done].
    induction ps as [|p ps IH]; cbn [sum_of]; [done|]. rewrite listed_nil. lia.
  - induction 1 as [|p ps Hp Hnd IH]; cbn [sum_of]; [lia|]. rewrite listed_one. destruct (Z.eqb_spec p q) as [->|]; [|lia].
    assert (sum_of (fun p : name => if bool_decide (p ∈ [q]) then w else 0) ps = 0) as ->; [|lia]. clear -Hp. induction ps as [|p ps IH]; cbn [sum_of]; [done|].
    rewrite listed_one. apply not_elem_of_cons in Hp as [Hp%not_eq_sym%Z.eqb_neq Hps]. rewrite Hp, IH by done. lia.
Qed.

(** Since a voter votes for one producer, the votes of all producers are at most all votes. *)
Lemma given_sum (m : gmap name voter_info) ps : NoDup ps -> map_Forall (fun _ => voter_ok) m -> sum_of (fun p => given p m) ps <= all_votes m.
Proof.
  intros Hnd. induction m as [|k v m Hk _ IH] using map_first_key_ind; intros Hm.
  - rewrite (sum_of_ext _ (fun _ => 0)) by (intros p; apply map_sum_empty). unfold all_votes. rewrite map_sum_empty, sum_of_const. lia.
  - apply map_Forall_insert in Hm as [[(w & Hw & Ew) Hl] Hm]; [|done]. specialize (IH Hm).
    rewrite (sum_of_ext _ (fun p => (if bool_decide (p ∈ voted v) then votes_of v else 0) + given p m)) by (intros p; unfold given; by rewrite map_sum_insert_new).
    rewrite sum_of_plus. unfold all_votes in *. rewrite map_sum_insert_new by done.
    pose proof (one_vote (votes_of v) (voted v) ps ltac:(rewrite (voter_votes v w); [lia|done..]) Hl Hnd). lia.
Qed.

Lemma level_votes s : tally Z.le s -> levels_ok s -> Forall vote_int (levels s) /\ sum_of votes_of_entry (levels s) < 2^53.
Proof.
  intros T L. assert (He : Forall (fun e => vote_int e /\ votes_of_entry e <= given (yp_owner e) (voters s)) (levels s)).
  { eapply Forall_impl; [exact (lo_entries _ L)|]. intros e (_ & info & Hi & Ev & _). destruct (ta_votes _ _ T _ _ Hi) as (x & Ex & Hx & Hg).
    pose proof (given_bounds (yp_owner e) _ (ta_voters _ _ T)). pose proof (ta_total _ _ T). assert (Hv : vote_int e) by (exists x; split; [lia|congruence]).
    split; [done|]. unfold votes_of_entry. rewrite Ev, Ex, fl_trunc by (unfold int53; lia). done. }
  split; [eapply Forall_impl; [exact He|]; by intros e []|]. pose proof (given_sum (voters s) (map yp_owner (levels s)) (lo_unique _ L) (ta_voters _ _ T)) as Hg.
  pose proof (ta_total _ _ T). assert (sum_of votes_of_entry (levels s) <= sum_of (fun p => given p (voters s)) (map yp_owner (levels s))); [|lia].
  clear -He. induction He as [|e l [_ He] _ IH]; cbn [map sum_of]; lia.
Qed.

(** ** Filling the buckets *)

Definition base_part (t : Z) : Z := t * 3 / 5.
Definition block_part (t : Z) : Z := (t - base_part t) / 2.
Definition vote_part (t : Z) : Z := t - base_part t - block_part t.

Lemma parts t : 0 <= t -> 0 <= base_part t <= t /\ 0 <= block_part t <= t /\ 0 <= vote_part t <= t /\ base_part t + block_part t + vote_part t = t.
Proof. intros Ht. unfold vote_part, block_part, base_part. Z.to_euclidean_division_equations; lia. Qed.

Definition issued (t : Z) : list action :=
  [mk_action (N "eosio") (N "active") (N "eosio.token") (N "issue") [VInt (N "eosio"); VAsset (core t); VStr "issue tokens for producer pay"];
   transfer_act (N "eosio") (N "hddbasefound") (core t) "fund total bucket"].

(** The tokens of a year, [token] units of 10000, in proportion to the microseconds passed. *)
Definition prorated (token usecs : Z) : Z := token * 10000 * usecs / useconds_per_year.

Lemma seo_tokens_run token usecs : 0 <= token < 2^32 -> 0 < usecs <= useconds_per_year ->
  exists t, seo_tokens token usecs = Ok t /\ 0 <= t < 2^46 /\ prorated token usecs - 1 <= t <= prorated token usecs + 1.
Proof.
  intros Ht Hu. unfold seo_tokens, YTA_PRECISION. unfold useconds_per_year, seconds_per_year in *. cbn [Z.mul] in *.
  pose proof (frac_exact (52 * 7 * 24 * 3600 * 1000000) ltac:(lia)) as Fd. pose proof (frac_exact 10000 ltac:(lia)) as Fp. pose proof (frac_exact usecs ltac:(lia)) as Fu.
  destruct (decide (token = 0)) as [->|H0].
  - exists 0. split; [|unfold prorated; rewrite Zdiv_0_l; lia]. change (fl 0) with (S754_zero false).
    rewrite (frac_mul_zero_l _ _ _ _ Fp), (frac_mul_zero_l _ _ _ _ Fu), (frac_div_zero _ _ _ _ Fd). apply f64_trunc_zero.
  - pose proof (frac_mul _ _ _ _ _ _ _ _ (frac_exact token ltac:(lia)) Fp ltac:(lia) ltac:(lia) ltac:(lia)) as F1.
    pose proof (frac_mul _ _ _ _ _ _ _ _ F1 Fu ltac:(lia) ltac:(nia) ltac:(lia)) as F2.
    pose proof (frac_div _ _ _ _ _ _ _ _ F2 Fd ltac:(lia) ltac:(nia) ltac:(lia)) as F3.
    destruct (frac_floor _ _ _ _ F3) as (z & Hz & _ & Hz0 & H1 & H2); [nia|]. exists z. split; [exact Hz|].
    assert (Hx : token * 10000 * usecs <= 2^46 * (52 * 7 * 24 * 3600 * 1000000)) by nia. split; [nia|]. unfold prorated, useconds_per_year, seconds_per_year.
    set (x := token * 10000 * usecs) in *. clearbody x. Z.to_euclidean_division_equations; lia.
Qed.

Section reward.
Context {E : SystemEnv}.

(** The members of the contract after [t] tokens came in. *)
Definition fill (t ct : Z) (s : system) : system :=
  s <| gstateex := (gstateex s) <| perbase_bucket := perbase_bucket (gstateex s) + base_part t |> |>
    <| gstate := (gstate s) <| pervote_bucket := pervote_bucket (gstate s) + vote_part t |> <| perblock_bucket := perblock_bucket (gstate s) + block_part t |>
                   <| last_pervote_bucket_fill := ct |> |>.

(** The [t] tokens that the schedule of the year of [now] gives for [usecs] microseconds. *)
Definition tokens_due (now usecs t : Z) : Prop :=
  seo_tokens (seo_token now) usecs = Ok t /\ prorated (seo_token now) usecs - 1 <= t <= prorated (seo_token now) usecs + 1.

Lemma fill_run now ct c s o : 0 < last_pervote_bucket_fill (gstate s) < ct -> ct < 2^63 -> ct - last_pervote_bucket_fill (gstate s) <= useconds_per_year ->
  0 <= perbase_bucket (gstateex s) < 2^48 -> 0 <= perblock_bucket (gstate s) < 2^48 -> 0 <= pervote_bucket (gstate s) < 2^48 ->
  (forall a, act_account a = N "eosio.token" -> may_send c a = true) ->
  exists t o', 0 <= t < 2^46 /\ tokens_due now (ct - last_pervote_bucket_fill (gstate s)) t /\ fill_buckets now ct c s o = Ok (tt, fill t ct s, o') /\ inlines o' = inlines o ++ issued t.
Proof.
  intros Hf Hct Hy Hb Hk Hv Hsend. unfold fill_buckets. erewrite bind_run by reflexivity. rewrite u64_id by (unfold is_u64; lia).
  rewrite !(proj2 (Z.ltb_lt 0 _)) by lia. cbn [andb when].
  destruct (seo_tokens_run (seo_token now) (ct - last_pervote_bucket_fill (gstate s))) as (t & Ht & Rt & Dt); [unfold seo_token, u32; apply Z.mod_pos_bound; lia|lia|]. exists t.
  erewrite bind_run by by apply lift_run. erewrite bind_run by reflexivity. cbv zeta. destruct (parts t ltac:(lia)) as (P1 & P2 & P3 & P4).
  rewrite (i64_id (t * 3)) by (unfold is_i64; lia). rewrite (Z.quot_div_nonneg (t * 3)) by lia. fold (base_part t). rewrite (i64_id (t - base_part t)) by (unfold is_i64; lia).
  rewrite (Z.quot_div_nonneg (t - base_part t)) by lia. fold (block_part t). rewrite (i64_id (t - base_part t - block_part t)) by (unfold is_i64; lia). fold (vote_part t).
  erewrite bind_run by (apply lift_run, core_make; unfold max_amount; lia).
  erewrite bind_run by (unfold send; rewrite Hsend by done; reflexivity). erewrite bind_run by (unfold inline_transfer, send; rewrite Hsend by done; reflexivity).
  do 3 (erewrite bind_run by reflexivity). eexists. split; [done|]. split; [done|]. split.
  - unfold on_gstate. cbn -[base_part block_part vote_part]. unfold fill. rewrite !i64_id by (unfold is_i64; lia). reflexivity.
  - cbn. by rewrite <- app_assoc.
Qed.

(** One call, with [t] the tokens issued. *)
Lemma rewardprods_run c s o st : has_auth c (N "ytarewardusr") = true -> prodslevel s = Some st -> (0 < length (prods_l1 st))%nat ->
  Forall vote_int (prods_l1 st ++ prods_l2 st) -> sum_of votes_of_entry (prods_l1 st ++ prods_l2 st) < 2^53 ->
  0 < last_pervote_bucket_fill (gstate s) < current_time c -> current_time c < 2^63 -> current_time c - last_pervote_bucket_fill (gstate s) <= useconds_per_year ->
  0 <= perbase_bucket (gstateex s) < 2^48 -> 0 <= perblock_bucket (gstate s) < 2^48 -> 0 <= pervote_bucket (gstate s) < 2^48 ->
  (forall a, act_account a = N "eosio.token" -> may_send c a = true) ->
  exists t o', let b := perbase_bucket (gstateex s) + base_part t in let k := perblock_bucket (gstate s) + block_part t in
    let v := pervote_bucket (gstate s) + vote_part t in let w := fl (sum_of votes_of_entry (prods_l1 st ++ prods_l2 st)) in
    0 <= t < 2^46 /\ tokens_due (u32 (current_time c / 1000000)) (current_time c - last_pervote_bucket_fill (gstate s)) t /\
    inlines o' = inlines o ++ issued t ++ main_pay st b k v ++ second_pay st b v /\
    exists s', rewardprods c s o = Ok (tt, s', o') /\
      perbase_bucket (gstateex s') = left_of b (length (prods_l1 st) + length (prods_l2 st)) /\
      perblock_bucket (gstate s') = left_of k (length (prods_l1 st)) /\
      pervote_bucket (gstate s') = v - sum_of (vote_share v w) (prods_l1 st ++ prods_l2 st).
Proof.
  intros Hauth Est Hn1 Hl Hs Hf Hct Hy Hb Hk Hv Hsend. unfold rewardprods. erewrite bind_run by by apply require_auth_run. erewrite bind_run by reflexivity.
  rewrite (proj2 (Z.eqb_neq _ 0)) by lia. erewrite bind_run by reflexivity. rewrite Est, (proj2 (Nat.ltb_ge _ 1)) by lia.
  erewrite bind_run by reflexivity. erewrite bind_run by reflexivity. erewrite bind_run by reflexivity.
  set (s1 := s <| gstateex := _ |>). destruct (fill_run (u32 (current_time c / 1000000)) (current_time c) c s1 o) as (t & o1 & Rt & Dt & H1 & O1); [done..|].
  erewrite bind_run by exact H1. destruct (parts t ltac:(lia)) as (P1 & P2 & P3 & P4).
  destruct (pay_producers_run st c (fill t (current_time c) s1) o1) as (o2 & H2 & O2); [done|done|done|cbn; lia..|done|].
  exists t, o2. split; [done|]. split; [done|]. cbn in O2. split; [by rewrite O2, O1, <- app_assoc|]. eexists. split; [exact H2|]. done.
Qed.
End reward.

(** ** The account that pays *)

Definition buckets (s : system) : Z := perbase_bucket (gstateex s) + perblock_bucket (gstate s) + pervote_bucket (gstate s).

Lemma flow_payments memo base block bucket w l : 0 <= base -> 0 <= block -> Forall (fun e => exists z, vote_pay bucket (yp_votes e) w = Ok z /\ 0 <= z) l ->
  (forall e, e ∈ l -> yp_owner e <> N "hddbasefound") ->
  flow (N "hddbasefound") (flat_map (payment memo base block bucket w) l) = - sum_of (pay_of base block bucket w) l.
Proof.
  intros Hb Hk Hl. induction Hl as [|e l (z & Ez & Hz) _ IH]; intros Ho; [done|]. cbn [flat_map sum_of]. rewrite flow_app, IH by (intros x Hx; apply Ho; by right).
  assert (He : flow (N "hddbasefound") (payment memo base block bucket w e) = - pay_of base block bucket w e); [|lia].
  assert (Hp : pay_of base block bucket w e = base + block + z) by (unfold pay_of, vote_share; by rewrite Ez). unfold payment. rewrite Hp.
  destruct (Z.ltb_spec 0 (base + block + z)); [|unfold flow; cbn [foldr]; lia]. unfold flow. cbn [foldr]. rewrite act_flow_transfer by done.
  rewrite Z.eqb_refl, (proj2 (Z.eqb_neq _ _)) by (apply Ho; by left). cbn [core amount]. lia.
Qed.

Lemma flow_issued t : flow (N "hddbasefound") (issued t) = t.
Proof.
  change (issued t) with ([mk_action (N "eosio") (N "active") (N "eosio.token") (N "issue") [VInt (N "eosio"); VAsset (core t); VStr "issue tokens for producer pay"]]
    ++ [transfer_act (N "eosio") (N "hddbasefound") (core t) "fund total bucket"]).
  rewrite flow_transfer by done. rewrite Z.eqb_refl. assert ((N "eosio" =? N "hddbasefound") = false) as -> by (vm_compute; reflexivity).
  change [?a] with ([] ++ [a]). rewrite flow_other by (right; names_differ). unfold flow. cbn [foldr core amount]. lia.
Qed.

Section theorem.
Context {E : SystemEnv} {EO : SystemEnvOk E}.

(** C8: The pay of producers is exact.  In every state a history of actions reaches, with the
    votes of voters below 2^53 ([bounded_votes]), [rewardprods] succeeds when: its account
    signs; the node lets the contract send actions to the token contract; the core token
    exists; the reward was started, at most a year passed since the buckets were last
    filled, and the clock is below 2^63; level one is not empty and the fund account
    hddbasefound is not a producer of the levels; each bucket is between 0 and 2^48.  It
    issues [t] tokens to the fund, [t] being the year's tokens in proportion to the time
    passed up to one unit; it pays each producer of the levels its parts of the three
    buckets, the part of the votes bucket computed in floating point included; what remains
    in the buckets is what they held and what the fund received and did not pay out.  No bucket is overdrawn.
    What is left of the base and of the block bucket is less than a unit for each producer
    that shares it; of the votes bucket, at most a unit for each producer when
    someone has votes, and all of it when nobody has. *)
Theorem producers_paid l s v c a : history (fun v a s s' => bounded_votes v s') l s ->
  let g := gstate (loaded s) in let gx := default global2_0 (globalex s) in let st := st_of s in let n := (length (prods_l1 st) + length (prods_l2 st))%nat in
  has_auth c (N "ytarewardusr") = true -> (forall act, act_account act = N "eosio.token" -> may_send c act = true) ->
  @get_supply (oc_token v) (symbol_code CORE_SYMBOL) = Ok a -> (0 < length (prods_l1 st))%nat ->
  (forall e, e ∈ levels s -> yp_owner e <> N "hddbasefound") ->
  0 < last_pervote_bucket_fill g < current_time c -> current_time c < 2^63 -> current_time c - last_pervote_bucket_fill g <= useconds_per_year ->
  0 <= perbase_bucket gx < 2^48 -> 0 <= perblock_bucket g < 2^48 -> 0 <= pervote_bucket g < 2^48 ->
  exists t s' o', system_apply v SRewardprods c s no_out = Ok (tt, s', o') /\ 0 <= t /\
    tokens_due (u32 (current_time c / 1000000)) (current_time c - last_pervote_bucket_fill g) t /\
    (let b := perbase_bucket gx + base_part t in let k := perblock_bucket g + block_part t in let vb := pervote_bucket g + vote_part t in
     inlines o' = issued t ++ main_pay st b k vb ++ second_pay st b vb) /\
    buckets s' = perbase_bucket gx + perblock_bucket g + pervote_bucket g + flow (N "hddbasefound") (inlines o') /\
    0 <= perbase_bucket (gstateex s') < Z.of_nat n /\ 0 <= perblock_bucket (gstate s') < Z.of_nat (length (prods_l1 st)) /\
    0 <= pervote_bucket (gstate s') /\ (0 < sum_of votes_of_entry (levels s) -> pervote_bucket (gstate s') <= Z.of_nat n) /\
    (sum_of votes_of_entry (levels s) = 0 -> pervote_bucket (gstate s') = pervote_bucket g + vote_part t).
Proof.
  intros Hh g gx st n Hauth Hsend Ha Hn1 Ho Hf Hct Hy Hb Hk Hv. pose proof (history_ballot _ _ _ Hh) as [L _].
  pose proof (history_tally_le _ _ Hh) as T.
  destruct (level_votes s T L) as [Hl Hs]. assert (Est : prodslevel s = Some st).
  { unfold st, st_of in *. destruct (prodslevel s); [done|cbn in Hn1; lia]. }
  assert (El : levels s = prods_l1 st ++ prods_l2 st) by done. rewrite El in Hl, Hs, Ho.
  unfold system_apply, in_system. cbv zeta. destruct (@ctor_run (oc_token v) c s no_out a Ha) as [s1 H1]. erewrite bind_run by exact H1.
  apply ctor_spec in H1 as (_ & m & -> & _). set (s1 := (loaded s) <| gstateex := _ |> <| rammarket := m |>). cbn [system_handler].
  destruct (rewardprods_run c s1 no_out st Hauth Est Hn1 Hl Hs Hf Hct Hy Hb Hk Hv Hsend) as (t & o2 & Rt & Dt & O2 & s2 & H2 & B2 & K2 & V2).
  erewrite bind_run by exact H2. destruct (parts t ltac:(lia)) as (P1 & P2 & P3 & P4). cbn -[app issued] in O2, B2, K2, V2. fold n in B2.
  change (default (get_default_parameters s) (global s)) with g in O2, K2, V2.
  change (default global2_0 (globalex s)) with gx in O2, B2. rewrite app_nil_l in O2.
  set (b := perbase_bucket gx + base_part t) in *. set (k := perblock_bucket g + block_part t) in *. set (vb := pervote_bucket g + vote_part t) in *.
  destruct (shares_fit vb _ Hl ltac:(lia) Hs) as (F & S1 & S2 & S3). apply Forall_app in F as [F1 F2].
  destruct (left_of_spec b n ltac:(lia) ltac:(unfold n; lia)) as (B3 & B4 & B5). destruct (left_of_spec k (length (prods_l1 st)) ltac:(lia) Hn1) as (K3 & K4 & K5).
  eexists t, _, o2. split; [reflexivity|]. split; [lia|]. split; [exact Dt|]. split; [exact O2|]. unfold buckets. cbn -[app issued].
  change (default (get_default_parameters s) (global s)) with g. rewrite O2, B2, K2, V2. split.
  - rewrite !flow_app, flow_issued. unfold main_pay, second_pay. fold n.
    rewrite !flow_payments by (done || (intros e He; apply Ho, elem_of_app; by (left + right))). rewrite !pay_sum. rewrite sum_of_app in *.
    assert (Hn : Z.of_nat n = Z.of_nat (length (prods_l1 st)) + Z.of_nat (length (prods_l2 st))) by (unfold n; lia).
    generalize dependent (b / Z.of_nat n). intros bp B3 B5. generalize dependent (k / Z.of_nat (length (prods_l1 st))). intros kp K3 K5.
    rewrite Hn in B3. lia.
  - unfold left_of. pose proof (Z.mod_pos_bound b (Z.of_nat n) ltac:(unfold n; lia)). pose proof (Z.mod_pos_bound k (Z.of_nat (length (prods_l1 st))) ltac:(lia)).
    rewrite length_app in S2. rewrite El. unfold n. split; [done|]. split; [done|]. split; [lia|]. split; [intros Hpos; specialize (S2 Hpos); lia|]. intros Hz. fold vb. rewrite (S3 Hz). lia.
Qed.
End theorem.

(** ** A run *)

(** 21 producers of level one and 42 of level two; alice votes for the first. *)
Definition demo_producer (i : nat) : name := Z.of_nat (S i) * 2^40.
Definition pay_actions : list (system_action * ctx) :=
  let admin := demo_ctx (N "ytaadminuser") in
  (SNewaccount (N "eosio") (N "alice"), demo_ctx (N "eosio")) ::
  flat_map (fun i => [(SRegproducer (demo_producer i) 7 "https://p" 1, admin); (SSeqproducer (demo_producer i) (demo_producer i) 1 (if (i <? 21)%nat then 1 else 2), admin)]) (seq 0 63) ++
  [(SDelegatebw (N "alice") (N "alice") (core 500) (core 700) false, demo_ctx (N "alice"));
   (SVoteproducer (N "alice") 0 [demo_producer 0], demo_ctx (N "alice"));
   (SStartreward, demo_ctx (N "ytarewardusr"))].

(** A day later. *)
Definition pay_ctx : ctx := let c := demo_ctx (N "ytarewardusr") in
  mkCtx (self c) (auths c) (is_account c) (current_time c + useconds_per_day) 0 0 (may_send c) (may_defer c).

Lemma due_positive t : tokens_due (E := demo_env) (u32 (1600086400000000 / 1000000)) (1600086400000000 - 1600000000000000) t -> (0 <? t) = true.
Proof. intros [Ht _]. assert (Hok : match seo_tokens (seo_token (E := demo_env) (u32 (1600086400000000 / 1000000))) (1600086400000000 - 1600000000000000) with Ok t => 0 <? t | Err _ => true end = true)
    by (vm_compute; reflexivity). by rewrite Ht in Hok. Qed.

Lemma producers_paid_witness :
  exists l s t s' o', history (E := demo_env) (fun v a s s' => bounded_votes v s') l s /\
    system_apply (E := demo_env) demo_others SRewardprods pay_ctx s no_out = Ok (tt, s', o') /\ 0 < t /\
    buckets s' = flow (N "hddbasefound") (inlines o') /\ length (inlines o') = 65%nat /\ pervote_bucket (gstate s') <= 63.
Proof.
  set (s := (elect_run_of pay_actions).2).
  assert (Ho : forallb (fun e => negb (yp_owner e =? N "hddbasefound")) (levels s) = true) by (vm_compute; reflexivity).
  assert (Hw : (0 <? sum_of votes_of_entry (levels s)) = true) by (vm_compute; reflexivity).
  assert (Hl : length (prods_l1 (st_of s)) = 21%nat /\ length (prods_l2 (st_of s)) = 42%nat) by (vm_compute; split; reflexivity).
  assert (Hf : last_pervote_bucket_fill (gstate (loaded s)) = 1600000000000000) by (vm_compute; reflexivity).
  assert (Hk : perblock_bucket (gstate (loaded s)) = 0) by (vm_compute; reflexivity).
  assert (Hp : pervote_bucket (gstate (loaded s)) = 0) by (vm_compute; reflexivity).
  assert (Hx : perbase_bucket (default global2_0 (globalex s)) = 0) by (vm_compute; reflexivity).
  pose proof (producers_paid (E := demo_env) (EO := demo_env_ok) _ _ demo_others pay_ctx (core 100000000000000) (elect_history pay_actions)) as H.
  fold s in H. cbv zeta in H. rewrite Hf, Hk, Hp, Hx in H. destruct Hl as [Hl1 Hl2]. rewrite Hl1, Hl2 in H.
  assert (Hc : current_time pay_ctx = 1600086400000000) by (vm_compute; reflexivity). rewrite Hc in H.
  destruct H as (t & s' & o' & H1 & Ht & Dt & Hin & Hb & _ & _ & _ & Hv & _).
  - vm_compute. reflexivity.
  - reflexivity.
  - reflexivity.
  - lia.
  - intros e He. rewrite forallb_forall in Ho. apply Z.eqb_neq, negb_true_iff. exact (Ho e (proj1 (list_elem_of_In _ _) He)).
  - lia.
  - lia.
  - unfold useconds_per_year, seconds_per_year. lia.
  - lia.
  - lia.
  - lia.
  - exists (elect_run_of pay_actions).1, s, t, s', o'. split; [apply elect_history|]. split; [exact H1|]. split; [exact (proj1 (Z.ltb_lt _ _) (due_positive t Dt))|]. split; [exact Hb|].
    split; [|exact (Hv (proj1 (Z.ltb_lt _ _) Hw))].
    assert (Hlen : match system_apply (E := demo_env) demo_others SRewardprods pay_ctx s no_out with Ok (_, _, o) => length (inlines o) | Err _ => 0%nat end = 65%nat) by (vm_compute; reflexivity).
    rewrite H1 in Hlen. exact Hlen.
Defined.
